(* ===== verification/_CoqProject ===== *)
-Q . S2P
Prelude.v
RustStr.v
Keys.v
Grants.v
Backoff.v
Dial.v
Invite.v
Store.v
Enroll.v
Protocol.v
Session.v
SessionSafety.v
Surface.v
Resolver.v
Netstack.v
Tunnel.v
Peer.v
PeerFacts.v
PeerLoop.v
Daemon.v
KeyFile.v
Shell.v
Bindings.v
BindingProps.v
Types.v
PeerProps.v
DaemonProps.v
Addresses.v
SurfaceProps.v
Calls.v
Tasks.v
Locks.v
LockProps.v
Link.v
Text.v
Host.v
Tun.v
Stack.v
Json.v
Wire.v
Launchd.v
Codec.v
CodecProps.v
LaunchdText.v
LaunchdProps.v
Control.v
ControlProps.v
Streams.v
Window.v
Server.v
Forward.v
Relay.v
Bridge.v
UnitTests.v
ShellTests.v
LiveTests.v
Reconnect.v
Names.v
Durable.v
Projections.v
Clap.v
Cli.v
CliTests.v
