(* ===== verification/Prelude.v ===== *)
(** * pai-sho: a verification development

    pai-sho is a daemon that lets two machines reach each other's TCP ports
    over QUIC ([iroh]).  A port is granted to named peers; each peer is told
    the ports granted to it and binds them locally, at an address of the peer's
    own (its surface); a local connection to such an address opens a tunnel,
    which the other side serves if its grants say so.  This library models the
    daemon, component by component, and proves what makes each correct and what
    they guarantee together.

    ** The program and its model

    The code separates decisions from effects.  [src/src/core/] is pure: the
    [Session] decides who is admitted, who may use which port and what each
    peer is told, and answers every event with a list of actions.
    [src/src/peer.rs] is the shell: it holds the connections, the [Peer]
    objects, their bindings and surfaces, feeds events to the session and
    carries out its actions.  [src/src/daemon.rs] answers the control requests
    and starts everything.  The files here, in the order they build on each
    other:

    - [Prelude.v]: results, machine integers and bytes, shared lemmas and
      automation.  [RustStr.v]: the [str] methods the sources call.
    - [Keys.v]: [iroh]'s [EndpointId], a type class with its laws.
    - The core.  [Grants.v] ([core/grants.rs]): the grant table and the relation
      it stands for.  [Backoff.v] ([core/backoff.rs]): the reconnect delays.
      [Dial.v] ([core/dial.rs]): which of two connections to keep, and the
      critical section of [peer.rs] that acts on it.  [Invite.v]
      ([core/invite.rs]): printing and reading invitations.  [Session.v]
      ([core/session.rs]): the session, a record with one function per method,
      and [History], every sequence of method calls.  ([Session.AdmittedPeer]
      is the source's [Admitted].)
    - [Store.v], [Enroll.v] ([enroll.rs]), [Surface.v] ([surface.rs]): the record
      files, the one-time tokens, the pins, the addresses of surfaces.
    - [Protocol.v] ([protocol.rs]): the messages.  [Json.v], [Codec.v]: JSON
      values, a compact printer and a parser for them, and what [serde] derives
      for each message and record, defaults and skipped fields included.
    - [Resolver.v] ([resolver.rs]), [Netstack.v] ([netstack.rs]), [Tunnel.v]
      ([tunnel.rs]): the DNS answers for surface names, the state of the TUN
      backend, the copying of bytes and the request that opens a tunnel.
    - [Peer.v] ([peer.rs]): the peer manager, every method as a function of its
      state.  [PeerLoop.v]: the connection loop of one peer, a state machine
      over the inputs that let the task go on.  [Daemon.v] ([daemon.rs]): the
      requests, the key file and the start.  [KeyFile.v]: the creation of the key
      file as the system calls it is, with its permission bits.
    - [Shell.v]: [Shell.step], everything that can happen to a running daemon,
      one event at a time, and [Shell.reachable], the states of all such runs.
    - [Streams.v]: the bytes those events come from, the control streams of peers
      and the socket of clients.  [Window.v]: the ten seconds a stranger has, as a
      loop over timed streams.  [Tasks.v]: the operations that span awaits without
      the bind lock, as tasks that interleave.  [Locks.v]: those that hold it, cut
      at their awaits.  [Link.v]: several daemons and what
      they send each other.  [Server.v]: the process, its client tasks and its end.
    - [Tun.v], [Stack.v] ([netstack.rs]): the opening of the device over a class of
      system calls, on Linux and macOS; the listener tasks, the queue of accepted
      connections and the resolver task behind the state of [Netstack.v].
      [Bridge.v] ([bridge] in [peer.rs]): accepted connections spliced onto tunnels.
    - [Forward.v] ([forward_bidirectional] and [serve_listener] in [tunnel.rs]):
      the two copies of a tunnel as state machines under a schedule.  [Relay.v]: the
      tunnels at both ends, joined by streams that end and fail.
    - The command line.  [Text.v]: the [str] methods its texts are read with.
      [Host.v]: the machine as a type class (files, commands, users, the clock,
      the terminal, the daemon's socket), the monad of commands that can fail or
      exit, and its weakest preconditions; [HostLaws] is what is documented of
      files.  [Wire.v]: lines of JSON, a class that [Codec.v] discharges.  [Launchd.v] ([launchd.rs]): the macOS
      service.  [Control.v] ([main.rs], [client.rs], and from [daemon.rs] the
      start, [handle_client] and the owner and mode of the control socket): the
      commands, the client, the daemon's side of a conversation.  [Clap.v]: what
      [clap] is told and gives back, the forms of a command line it reads, and a
      class for its parser.  [Cli.v] ([main.rs]): the declarations of the command
      line and the code derived from them.
    - Properties: [SessionSafety.v] (of the session), [PeerFacts.v] and
      [Bindings.v] (how each operation of the shell acts on the parts of the
      state, and its invariants), [BindingProps.v], [PeerProps.v],
      [DaemonProps.v], [Addresses.v] with [SurfaceProps.v], [Reconnect.v],
      [Names.v], [Types.v], [Calls.v] and [LockProps.v] (of the shell), [Durable.v]
      and [Projections.v] (of runs with a restart after them), [CodecProps.v] (of the
      JSON), [LaunchdText.v], [LaunchdProps.v] and [ControlProps.v] (of the command
      line).
    - [UnitTests.v], [ShellTests.v], [CliTests.v], [LiveTests.v]: the tests of the repository as
      programs over the definitions, which they pass.

    ** What the theorems show

    - Authorization.  Over every history of calls, a tunnel is served exactly
      to a key that holds a grant not revoked since; a key is admitted exactly
      if it was named or presented a good code and was not evicted since; a
      code is good exactly once, within its lifetime, if it was minted; what a
      peer is told is exactly its grants; eviction leaves no grant behind
      ([SessionSafety.v]).  The grant table refines a relation ([Grants.v]).
    - The same of whole daemons.  The session of a daemon after any run is that of
      a history of calls, so a tunnel is served exactly to whom an option, a
      request or a code granted it, and a peer is known exactly if one of them
      named it or it came with a fresh code ([Calls.v]).  Operations that run
      alone are the one-step events, and the authorization holds however they
      interleave ([Tasks.v]).  An invitation links two daemons: its ports arrive
      and bytes come out at them ([Link.v]).  A stranger is decided about within
      ten seconds ([Window.v]).
    - Whatever is sent.  A message that is sent is the message that is handled
      ([Streams.v]); every message and record reads back from its JSON, no line and
      no message is read with a port that is not a [u16], and versions that lack a
      field are understood, both ways ([CodecProps.v]); from such messages every
      port the daemon holds is a [u16] ([Types.v]).
    - The shell does what the session decides.  In every reachable state both
      know the same peers, under the same names, each with a live object and a
      running loop, and wait for the same connections ([Shell.v]); a stranger
      without a good code changes and learns nothing, one with a code gets
      exactly what the code carries; an expose request that names someone it
      cannot resolve changes nothing; the port a tunnel is opened for is the
      port that is served ([PeerProps.v]).
    - Bindings and surfaces.  In every reachable state each binding is for an
      announced port at its peer's surface, on a socket of its own unless an
      accept on it failed, and no socket is left over; an announcement keeps the
      bindings of the ports it lists and binds the others, but for those the
      system refused at every attempt; forgetting a peer tears all of it down ([Bindings.v], [BindingProps.v]); and
      so at every step inside the operations that hold the bind lock, which all
      come to their end ([LockProps.v]);
      [project] moves a surface and nothing else, and addresses that were picked
      are distinct ([Addresses.v], [SurfaceProps.v]); a name resolves to the
      surface that has it ([Names.v]).
    - Loops and tunnels.  The loop of a forgotten peer ends within three steps
      unless it is dialing; the loop of a peer we dial dials until it has a
      connection, and runs it ([Reconnect.v]); no loop reaches the overflow
      panic of its backoff; two ends that dial each other keep the same
      connection ([PeerProps.v], [Backoff.v], [Dial.v]).  A tunnel forwards a
      prefix of each stream whatever the schedule ([Forward.v]); from one program to
      the other too, whatever fails and whoever closes, and while nothing fails and
      the reader does not close, all that is written arrives without another byte
      being written ([Relay.v]).
    - Formats and files.  Invitations, tunnel requests, device framing and DNS
      packets read back as written; the resolver answers every packet without a
      panic; the record files implement finite maps; the key file keeps its key,
      and only its owner can open it ([DaemonProps.v], [KeyFile.v]).
    - Restarts.  What a run leaves in its files is what the next start makes of it:
      where keys are typed as they print and nobody is named by [--accept], it
      knows exactly the peers that were pinned and not forgotten since, under
      their last names ([Durable.v]), and projects each where it was projected
      ([Projections.v]).
    - The command line.  Every command that parses is as declared, and every
      declared command whose texts do not look like options can be typed
      ([Cli.v]); typed at the shell, it does to the
      daemon what it names and prints its answer; a daemon that serves is a reachable one, on a
      socket of the owner and mode asked for ([ControlProps.v]).  The service
      commands are atomic file by file, end in the state they promise, run as
      root or not at all, and wait five seconds at most ([LaunchdProps.v]).
    - The TUN backend.  Its listener tasks implement the two maps the daemon is
      modelled with, its resolver answers as the other one does until a receive
      fails ([Stack.v]); opening the device returns it nonblocking or an error
      ([Tun.v]).  The process ends once, and only a signal drains its connections
      ([Server.v]).
    - What does not hold.  [BindingProps.late_announcement_revives_forgotten_peer],
      [PeerProps.dial_in_flight_outlives_forget] and
      [PeerProps.second_code_strands_first_object] are runs of the model in
      which a peer keeps a hold on the daemon after it was forgotten;
      [Tasks.concurrent_accepts_strand_a_loop] and
      [Tasks.accept_during_forget_disagrees] are interleavings in which two
      operations on one key leave the shell and the session apart, and
      [LockProps.waiting_projection_revives_forgotten_peer] one in which a request
      goes on with a peer that is gone;
      [Durable.respelled_pin_outlives_forget] and
      [Projections.accepted_projection_is_lost] say what a restart brings back too
      much and too little of; [KeyFile.failed_write_is_final] what a full disk leaves;
      [Streams.announcement_limit] says from which length on an announcement is
      read by nobody; [BindingProps.failed_accept_is_final],
      [Stack.ended_listener_stays] and [Tun.open_tun_leaves] say what is left of a
      listener, one of the TUN backend and a device that failed;
      [Forward.half_close_loses_answer] and [Relay.answer_lost_after_half_close] say
      how an answer is lost; and
      [Names.capital_names_never_resolve] says which names are never found.

    ** Choices

    - A [u8] or [u16] is a [Z] in its range, a [Duration] or an [Instant] its
      nanoseconds (milliseconds in [Launchd.v]), a [String] its UTF-8 bytes;
      arithmetic that can overflow is written with its wrap-around ([u64]
      counters), its panic ([None] in [Backoff.failed]) or its error
      ([Text.u32_digits]).
    - A [HashMap], [BTreeMap] or [DashMap] is a [gmap]; where the code iterates
      over a [BTreeMap] the model sorts, and where it iterates over a [DashMap]
      the order is a parameter ([DashMap], with the law that it lists the map).
    - Code outside the repository is a parameter with the law the code relies
      on: keys ([EndpointKey]), the text of JSON ([JsonLib]), readers and writers
      ([AsyncRead], [AsyncWrite]), the streams of a connection
      ([Streams.UniStream]), the machine ([Host], [Launchctl], [Sudo], [ClockLaws],
      [Syscalls]), the commands and sockets of the system ([Peers.Config]);
      the parser of the command line ([Clap.Clap], with the laws that it accepts only
      what the declarations allow and reads the plain forms);
      random bytes and the clock are arguments.  Each class has a concrete
      instance on which the witnesses evaluate ([ToyKey], [Json.Rfc],
      [Shell.Toy], [Link.Pair], [LaunchdProps.Mac], [ControlProps.Pair],
      [Tun.Device], [Clap.Reference], [Cli.Decimal], the list instances of
      [Tunnel.v] and the queues of [Relay.v]).
    - The system's [bind] may fail as it likes, with the addresses of this machine
      as well ([tcp_bind] of [Peers.Config] is a parameter, asked at every attempt).  The
      properties that tell sockets apart suppose [Bindings.exclusive]: it does not
      give the process a socket it has, nor another port than the one asked for,
      unless that is 0.  A listener ends when an accept on it fails
      ([Shell.EvAcceptFailed], at any moment).
    - Fuel.  [Resolver.labels_loop] takes one more than the length of the packet,
      and each round consumes at least one byte of it; [Tunnel.copy_loop] takes
      one round per byte pending and one for the end; [Launchd.wait_loop] takes
      52 rounds, and fifty sleeps of 100 ms reach its deadline; [Json.Rfc.parse]
      takes one more than the length of the text; all four are proved enough (the
      last for what [print] writes).  The live tests let a world of two settle for
      four rounds, which is enough for them to pass.  [RustStr]'s trimming takes
      the length of the string, enough as well.  All other recursion is structural.
    - Grain.  A method that holds a lock throughout, or a session call, is one
      step; the five stages of a connection's life (arrival, each message of its
      enrollment window, the end of the window, its streams, its loop) are
      separate steps that interleave freely.  What happens inside one step,
      its awaits included, is not interleaved with other steps, except in
      [Tasks.v], where accepting, forgetting, connecting and enrolling are cut at
      their awaits, in [Locks.v], where announcing, projecting, unprojecting and
      forgetting are, and in [Forward.v], [Relay.v] and [Bridge.v], whose steps are
      the places a copy waits at.  [Daemon.v] takes the creation of the key file
      for one step, and [KeyFile.v] for the two it is.
    - A message handed to a connection is appended to a log ([Peers.sent]): the
      code never acts on a failure to send.
    - The files of [Host] change by what this process and its commands do; what
      the launchd service writes once it is started is another process's doing.

    ** Not modelled

    QUIC, the endpoint and the router of [iroh], the userspace TCP stack and the
    parser of [clap] are outside the repository: what the code relies on of them
    is a class, a list of what they deliver, or a step.  Timers other than the
    enrollment window's and the backoff's (the time a dial or a bind retry waits,
    the clock that warns of a slow write) have no effect on what is modelled but
    to let time pass, and logging has none.  [Tasks.v] and [Locks.v] cut different
    operations at their awaits and are not combined: in each, the operations of
    the other are whole. *)

From Stdlib Require Export Ascii.
From stdpp Require Export sorting relations numbers.
From stdpp Require Export base gmap sets strings list.

(** ** Results

    [anyhow::Result<A>]: the error is the text [to_string] prints, that is the
    outermost context of the error chain. *)
Inductive result (A : Type) : Type :=
| Ok (a : A)
| Err (msg : string).

Arguments Ok {A} a.
Arguments Err {A} msg.

#[export] Instance result_ret : MRet result := @Ok.

#[export] Instance result_bind : MBind result := fun A B f r =>
  match r with
  | Ok a => f a
  | Err e => Err e
  end.

#[export] Instance result_fmap : FMap result := fun A B f r =>
  match r with
  | Ok a => Ok (f a)
  | Err e => Err e
  end.

#[export] Instance result_eq_dec {A} `{EqDecision A} : EqDecision (result A).
Proof. solve_decision. Defined.

Definition is_ok {A} (r : result A) : bool :=
  match r with
  | Ok _ => true
  | Err _ => false
  end.

(** [Option::ok_or_else] and [Result::ok]. *)
Definition ok_or {A} (o : option A) (msg : string) : result A :=
  match o with
  | Some a => Ok a
  | None => Err msg
  end.

Definition ok {A} (r : result A) : option A :=
  match r with
  | Ok a => Some a
  | Err _ => None
  end.

(** [anyhow::Context::context]: replaces the printed text of an error. *)
Definition context {A} (r : result A) (msg : string) : result A :=
  match r with
  | Ok a => Ok a
  | Err _ => Err msg
  end.

(** Collecting an iterator of results: the first error wins. *)
Fixpoint collect_results {A} (l : list (result A)) : result (list A) :=
  match l with
  | [] => Ok []
  | r :: l => match r with
              | Ok a => match collect_results l with
                        | Ok l => Ok (a :: l)
                        | Err e => Err e
                        end
              | Err e => Err e
              end
  end.

(** ** Runs

    What a run of a state machine shows of an event: it happened, and nothing
    since undid it. *)
Section runs.
Context {S E : Type} (step : S → E → S).
Implicit Types (s : S) (e : E) (es : list E).

(** No event of [es], run from [s], satisfies [P]. *)
Fixpoint never (P : S → E → Prop) (s : S) (es : list E) : Prop :=
  match es with
  | [] => True
  | e :: es => ¬ P s e ∧ never P (step s e) es
  end.

(** Some event of the run satisfies [P], and none after it satisfies [Q]. *)
Definition since (P Q : S → E → Prop) (s : S) (es : list E) : Prop :=
  ∃ es1 e es2, es = es1 ++ e :: es2 ∧
    P (foldl step s es1) e ∧ never Q (foldl step s (es1 ++ [e])) es2.

(** A fact that events set and clear holds after a run exactly when some event
    set it and none cleared it since, or it held and none cleared it; the states
    of the run may be known to satisfy an invariant, and its events a condition. *)
Lemma since_spec_on (C : E → Prop) (J I : S → Prop) (P Q : S → E → Prop) s es :
  (∀ s e, C e → J s → J (step s e)) →
  (∀ s e, C e → J s → I (step s e) ↔ P s e ∨ (I s ∧ ¬ Q s e)) → Forall C es → J s →
  I (foldl step s es) ↔ since P Q s es ∨ (I s ∧ never Q s es).
Proof.
  intros HJ Hstep Hes. revert s. induction Hes as [|e es He Hes IH]; intros s Hs; simpl.
  - split; [naive_solver|]. intros [(es1 & e & es2 & Heq & _)|[? _]]; [|done].
    by destruct es1.
  - rewrite IH, Hstep by auto.
    assert (Hcons : since P Q s (e :: es) ↔
                    (P s e ∧ never Q (step s e) es) ∨ since P Q (step s e) es).
    { split.
      - intros ([|e1 es1] & e' & es2 & Heq & HP & HQ); simplify_eq/=; [by left|].
        right. by exists es1, e', es2.
      - intros [[HP HQ]|(es1 & e' & es2 & -> & HP & HQ)].
        + by exists [], e, es.
        + by exists (e :: es1), e', es2. }
    rewrite Hcons. tauto.
Qed.

Lemma since_spec (J I : S → Prop) (P Q : S → E → Prop) s es :
  (∀ s e, J s → J (step s e)) →
  (∀ s e, J s → I (step s e) ↔ P s e ∨ (I s ∧ ¬ Q s e)) → J s →
  I (foldl step s es) ↔ since P Q s es ∨ (I s ∧ never Q s es).
Proof.
  intros HJ Hstep. apply (since_spec_on (λ _, True)); auto. by apply Forall_forall.
Qed.

End runs.

(** A loop each round of which adds what its element stands for. *)
Lemma foldl_collects {S A} (I : S → Prop) (P : A → Prop) (f : S → A → S) (l : list A) (s : S) :
  (∀ s x, I (f s x) ↔ P x ∨ I s) → I (foldl f s l) ↔ (∃ x, x ∈ l ∧ P x) ∨ I s.
Proof.
  intros Hf. revert s. induction l as [|x l IH]; intros s; simpl.
  - split; [by right|]. intros [(? & Hx & _)|?]; [by apply elem_of_nil in Hx|done].
  - rewrite IH, Hf. setoid_rewrite elem_of_cons. naive_solver.
Qed.

(** ** Machine integers and bytes

    A [u8] or [u16] is a [Z] in its range; bytes are lists of such [Z]. *)
Definition u8_range (b : Z) : Prop := (0 <= b < 256)%Z.

Definition u16_range (p : Z) : Prop := (0 <= p < 65536)%Z.

Notation u16s := (Forall u16_range).

Notation bytes := (list Z).

(** [u16::to_be_bytes] and [u16::from_be_bytes]. *)
Definition u16_to_be_bytes (p : Z) : bytes :=
  [Z.land (Z.shiftr p 8) 255; Z.land p 255].

Definition u16_from_be_bytes (hi lo : Z) : Z := Z.lor (Z.shiftl hi 8) lo.

(** [u32::to_be_bytes]. *)
Definition u32_to_be_bytes (x : Z) : bytes :=
  [Z.land (Z.shiftr x 24) 255; Z.land (Z.shiftr x 16) 255;
   Z.land (Z.shiftr x 8) 255; Z.land x 255].

(** ** Automation *)

#[global] Arguments String.append : simpl nomatch.

Create HintDb pai_sho.

(** Case analysis on the matches and decisions of a goal, then the map and
    equality simplifications every component uses. *)
Ltac case_all :=
  repeat first [ case_decide | case_match ]; simplify_eq/=.

Ltac map_crush :=
  repeat (case_decide || case_match); simplify_map_eq; eauto with pai_sho.

(** ** Lemmas the components share *)

Lemma lor_shiftl_8 hi lo :
  u8_range lo → Z.lor (Z.shiftl hi 8) lo = (hi * 256 + lo)%Z.
Proof.
  intros Hlo. unfold u8_range in Hlo.
  assert (Hand : Z.land (Z.shiftl hi 8) lo = 0%Z).
  { apply Z.bits_inj'. intros n Hn. rewrite Z.land_spec, Z.bits_0.
    destruct (decide (n < 8)%Z) as [H|H].
    - by rewrite Z.shiftl_spec_low.
    - rewrite <- (Z.mod_small lo (2 ^ 8)) by (change (2 ^ 8)%Z with 256%Z; lia).
      rewrite Z.mod_pow2_bits_high by lia. apply andb_false_r. }
  rewrite <- Z.lxor_lor, <- Z.add_nocarry_lxor by done.
  rewrite Z.shiftl_mul_pow2 by lia. done.
Qed.

Lemma u16_from_be_bytes_range hi lo :
  u8_range hi → u8_range lo → u16_range (u16_from_be_bytes hi lo).
Proof.
  intros Hhi Hlo. unfold u16_from_be_bytes. rewrite lor_shiftl_8 by done.
  unfold u16_range, u8_range in *. lia.
Qed.

Lemma u16_to_be_bytes_div p :
  u16_range p → u16_to_be_bytes p = [(p / 256)%Z; (p mod 256)%Z].
Proof.
  intros Hp. unfold u16_to_be_bytes, u16_range in *.
  change 255%Z with (Z.ones 8). rewrite !Z.land_ones by lia.
  rewrite Z.shiftr_div_pow2 by lia. change (2 ^ 8)%Z with 256%Z.
  rewrite (Z.mod_small (p / 256)%Z); [done|].
  split; [apply Z.div_pos|apply Z.div_lt_upper_bound]; lia.
Qed.

Lemma u16_be_roundtrip p hi lo :
  u16_range p → u16_to_be_bytes p = [hi; lo] → u16_from_be_bytes hi lo = p.
Proof.
  intros Hp. rewrite u16_to_be_bytes_div by done. intros [= <- <-].
  unfold u16_from_be_bytes. rewrite lor_shiftl_8.
  - pose proof (Z.div_mod p 256). lia.
  - unfold u8_range. apply Z.mod_pos_bound. lia.
Qed.

Lemma u16_to_be_bytes_range p : Forall u8_range (u16_to_be_bytes p).
Proof.
  unfold u16_to_be_bytes, u8_range. change 255%Z with (Z.ones 8).
  rewrite !Z.land_ones by lia.
  repeat constructor; apply Z.mod_pos_bound; lia.
Qed.

(** Two strictly sorted lists with the same elements are equal. *)
Lemma sorted_unique (l1 l2 : list Z) :
  StronglySorted Z.lt l1 → StronglySorted Z.lt l2 →
  (∀ x, x ∈ l1 ↔ x ∈ l2) → l1 = l2.
Proof.
  intros H1 H2 Heq.
  assert (Hnd : ∀ l, StronglySorted Z.lt l → NoDup l).
  { clear. induction 1 as [|x l Hs IH Hall]; constructor; [|done].
    intros Hin. rewrite Forall_forall in Hall. specialize (Hall x Hin). lia. }
  apply (StronglySorted_unique_strong Z.lt); [intros; lia|done..|].
  apply NoDup_Permutation; auto.
Qed.

(** Sorting a duplicate-free list of ports sorts it strictly. *)
Lemma merge_sort_strict (l : list Z) :
  NoDup l → StronglySorted Z.lt (merge_sort Z.le l).
Proof.
  intros Hnd.
  assert (Hs : StronglySorted Z.le (merge_sort Z.le l))
    by apply (StronglySorted_merge_sort Z.le).
  assert (Hnd' : NoDup (merge_sort Z.le l))
    by (rewrite merge_sort_Permutation; done).
  clear Hnd. induction Hs as [|x l' Hs IH Hall]; constructor.
  - apply IH. by inversion Hnd'.
  - inversion Hnd' as [|?? Hx ?]; subst. rewrite Forall_forall in Hall |- *.
    intros y Hy. specialize (Hall y Hy).
    assert (x ≠ y) by (intros ->; done). lia.
Qed.

Lemma elem_of_merge_sort (l : list Z) x : x ∈ merge_sort Z.le l ↔ x ∈ l.
Proof. by rewrite merge_sort_Permutation. Qed.

#[export] Hint Resolve merge_sort_strict u16_to_be_bytes_range : pai_sho.
#[export] Hint Rewrite elem_of_merge_sort : pai_sho.
