(* ===== verification/RustStr.v ===== *)
(** * The [str] methods the program uses

    A Rust [String] is its UTF-8 bytes, here a Rocq [string] with one [ascii]
    per byte.  This file models the methods of [str] and [String] the sources
    call: [trim], [split_once], [strip_prefix], [strip_suffix], [contains],
    [chars().take(n)], [to_ascii_lowercase], [join], [from_utf8_lossy] and the
    [{:02x}] format of a byte. *)

From S2P Require Import Prelude.

(** ** Bytes of a string *)

Definition byte_of (c : ascii) : Z := Z.of_N (N_of_ascii c).

Definition char_of (b : Z) : ascii := ascii_of_N (Z.to_N b).

Fixpoint str_bytes (s : string) : bytes :=
  match s with
  | EmptyString => []
  | String c s => byte_of c :: str_bytes s
  end.

Fixpoint str_of_bytes (l : bytes) : string :=
  match l with
  | [] => EmptyString
  | b :: l => String (char_of b) (str_of_bytes l)
  end.

Fixpoint Forall_str (P : ascii → Prop) (s : string) : Prop :=
  match s with
  | EmptyString => True
  | String c s => P c ∧ Forall_str P s
  end.

(** ** [split_once], [contains], [strip_prefix], [strip_suffix] *)

Fixpoint split_once (sep : ascii) (s : string) : option (string * string) :=
  match s with
  | EmptyString => None
  | String c s =>
      if decide (c = sep) then Some (EmptyString, s)
      else match split_once sep s with
           | Some (a, b) => Some (String c a, b)
           | None => None
           end
  end.

Fixpoint str_contains (sep : ascii) (s : string) : bool :=
  match s with
  | EmptyString => false
  | String c s => if decide (c = sep) then true else str_contains sep s
  end.

Fixpoint strip_prefix (p s : string) : option string :=
  match p, s with
  | EmptyString, _ => Some s
  | String _ _, EmptyString => None
  | String a p, String c s => if decide (a = c) then strip_prefix p s else None
  end.

(** The bytes of [s] before a final [p]; an occurrence of [p] at the end of
    [s] is found at the first position where what is left equals it. *)
Fixpoint strip_suffix (p s : string) : option string :=
  if decide (s = p) then Some EmptyString
  else match s with
       | EmptyString => None
       | String c s => match strip_suffix p s with
                       | Some r => Some (String c r)
                       | None => None
                       end
       end.

Definition str_is_empty (s : string) : bool :=
  match s with
  | EmptyString => true
  | String _ _ => false
  end.

(** ** [trim]: the UTF-8 encodings of [White_Space] *)

Definition ws_seqs : list string :=
  str_of_bytes <$>
    [[9]; [10]; [11]; [12]; [13]; [32]; [194; 133]; [194; 160];
     [225; 154; 128]; [226; 128; 128]; [226; 128; 129]; [226; 128; 130];
     [226; 128; 131]; [226; 128; 132]; [226; 128; 133]; [226; 128; 134];
     [226; 128; 135]; [226; 128; 136]; [226; 128; 137]; [226; 128; 138];
     [226; 128; 168]; [226; 128; 169]; [226; 128; 175]; [226; 129; 159];
     [227; 128; 128]]%Z.

Fixpoint strip_first (ps : list string) (s : string) : option string :=
  match ps with
  | [] => None
  | p :: ps => match strip_prefix p s with
               | Some r => Some r
               | None => strip_first ps s
               end
  end.

Fixpoint trim_start_fuel (fuel : nat) (s : string) : string :=
  match fuel with
  | O => s
  | S fuel => match strip_first ws_seqs s with
              | Some r => trim_start_fuel fuel r
              | None => s
              end
  end.

Definition trim_start (s : string) : string := trim_start_fuel (String.length s) s.

Definition all_ws (s : string) : bool := str_is_empty (trim_start s).

(** Drops the longest suffix that is all white space.  No encoding of a
    white-space character starts with a continuation byte, so that suffix
    starts at a character boundary. *)
Fixpoint trim_end (s : string) : string :=
  if all_ws s then EmptyString
  else match s with
       | EmptyString => EmptyString
       | String c s => String c (trim_end s)
       end.

Definition trim (s : string) : string := trim_end (trim_start s).

(** ** [chars().take(n)] on UTF-8: a continuation byte belongs to the
    character before it *)
Definition is_cont (c : ascii) : bool := (Z.land (byte_of c) 192 =? 128)%Z.

Fixpoint take_chars (n : nat) (s : string) : string :=
  match s with
  | EmptyString => EmptyString
  | String c s =>
      if is_cont c then String c (take_chars n s)
      else match n with
           | O => EmptyString
           | S n => String c (take_chars n s)
           end
  end.

(** ** [to_ascii_lowercase], [join] *)

Definition ascii_lower (b : Z) : Z :=
  if decide (65 <= b <= 90)%Z then (b + 32)%Z else b.

Fixpoint to_ascii_lowercase (s : string) : string :=
  match s with
  | EmptyString => EmptyString
  | String c s => String (char_of (ascii_lower (byte_of c))) (to_ascii_lowercase s)
  end.

Fixpoint join (sep : string) (l : list string) : string :=
  match l with
  | [] => EmptyString
  | [s] => s
  | s :: l => s +:+ sep +:+ join sep l
  end.

(** ** [{:02x}] *)

Definition hex_digit (d : Z) : ascii :=
  if decide (d < 10)%Z then char_of (48 + d) else char_of (87 + d).

Definition hex_byte (b : Z) : string :=
  String (hex_digit (b / 16)) (String (hex_digit (b mod 16)) EmptyString).

Definition hex_string (l : bytes) : string :=
  foldr (λ b s, hex_byte b +:+ s) EmptyString l.

(** ** [String::from_utf8_lossy]

    [utf8_step] follows [core::str::lossy]: the first byte of the rest either
    starts a well-formed character, or starts a maximal ill-formed prefix that
    is replaced by U+FFFD.  It returns whether the character is well formed
    and how many bytes after the first it takes. *)

Definition cont_byte (b : Z) : bool := (Z.land b 192 =? 128)%Z.

Definition in_range (lo hi b : Z) : bool := ((lo <=? b) && (b <=? hi))%Z.

Definition utf8_char_width (b : Z) : nat :=
  if in_range 0 127 b then 1
  else if in_range 194 223 b then 2
  else if in_range 224 239 b then 3
  else if in_range 240 244 b then 4
  else 0.

Definition utf8_second_ok (b c : Z) : bool :=
  if (b =? 224)%Z then in_range 160 191 c
  else if (b =? 237)%Z then in_range 128 159 c
  else if (b =? 240)%Z then in_range 144 191 c
  else if (b =? 244)%Z then in_range 128 143 c
  else in_range 128 191 c.

Definition utf8_step (b : Z) (rest : bytes) : bool * nat :=
  let safe_get i := default 0%Z (rest !! i) in
  match utf8_char_width b with
  | 1 => (true, 0)
  | 2 => if cont_byte (safe_get 0) then (true, 1) else (false, 0)
  | 3 => if utf8_second_ok b (safe_get 0)
         then if cont_byte (safe_get 1) then (true, 2) else (false, 1)
         else (false, 0)
  | 4 => if utf8_second_ok b (safe_get 0)
         then if cont_byte (safe_get 1)
              then if cont_byte (safe_get 2) then (true, 3) else (false, 2)
              else (false, 1)
         else (false, 0)
  | _ => (false, 0)
  end.

Fixpoint utf8_lossy_fuel (fuel : nat) (l : bytes) : bytes :=
  match fuel, l with
  | S fuel, b :: rest =>
      let '(wf, n) := utf8_step b rest in
      (if wf then b :: take n rest else [239; 191; 189]%Z)
        ++ utf8_lossy_fuel fuel (drop n rest)
  | _, _ => []
  end.

Definition from_utf8_lossy (l : bytes) : string :=
  str_of_bytes (utf8_lossy_fuel (length l) l).

(** ** Lemmas: bytes and strings *)

Lemma byte_of_range c : u8_range (byte_of c).
Proof.
  unfold byte_of, u8_range. pose proof (N_ascii_bounded c). lia.
Qed.

Lemma char_of_byte_of c : char_of (byte_of c) = c.
Proof. unfold char_of, byte_of. rewrite N2Z.id. apply ascii_N_embedding. Qed.

Lemma byte_of_char_of b : u8_range b → byte_of (char_of b) = b.
Proof.
  intros Hb. unfold u8_range in Hb. unfold char_of, byte_of.
  rewrite N_ascii_embedding by lia. lia.
Qed.

Lemma str_of_bytes_bytes s : str_of_bytes (str_bytes s) = s.
Proof. induction s as [|c s IH]; simpl; [done|]. by rewrite char_of_byte_of, IH. Qed.

Lemma str_bytes_of_bytes l : Forall u8_range l → str_bytes (str_of_bytes l) = l.
Proof.
  induction 1 as [|b l Hb _ IH]; simpl; [done|]. by rewrite byte_of_char_of, IH.
Qed.

Lemma str_bytes_range s : Forall u8_range (str_bytes s).
Proof. induction s; simpl; constructor; auto using byte_of_range. Qed.

Lemma str_bytes_app s t : str_bytes (s +:+ t) = str_bytes s ++ str_bytes t.
Proof. induction s as [|c s IH]; simpl; [done|]. by rewrite IH. Qed.

Lemma str_bytes_length s : length (str_bytes s) = String.length s.
Proof. induction s as [|c s IH]; simpl; [done|]. by rewrite IH. Qed.

Lemma str_of_bytes_app l k :
  str_of_bytes (l ++ k) = str_of_bytes l +:+ str_of_bytes k.
Proof. induction l as [|b l IH]; simpl; [done|]. by rewrite IH. Qed.

Lemma Forall_str_app P s t :
  Forall_str P (s +:+ t) ↔ Forall_str P s ∧ Forall_str P t.
Proof. induction s as [|c s IH]; simpl; [tauto|]. rewrite IH. tauto. Qed.

Lemma Forall_str_impl (P Q : ascii → Prop) s :
  (∀ c, P c → Q c) → Forall_str P s → Forall_str Q s.
Proof. intros HPQ. induction s; simpl; naive_solver. Qed.

Lemma str_app_nil_r s : s +:+ EmptyString = s.
Proof. induction s as [|c s IH]; simpl; [done|]. by rewrite IH. Qed.

Lemma str_app_assoc s t u : s +:+ (t +:+ u) = (s +:+ t) +:+ u.
Proof. induction s as [|c s IH]; simpl; [done|]. by rewrite IH. Qed.

Lemma str_length_app s t : String.length (s +:+ t) = String.length s + String.length t.
Proof. induction s as [|c s IH]; simpl; [done|]. by rewrite IH. Qed.

(** ** Lemmas: splitting *)

Lemma split_once_app sep a b :
  Forall_str (λ c, c ≠ sep) a →
  split_once sep (a +:+ String sep b) = Some (a, b).
Proof.
  induction a as [|c a IH]; simpl; intros Ha.
  - by rewrite decide_True.
  - destruct Ha as [Hc Ha]. rewrite decide_False by done. by rewrite IH.
Qed.

Lemma split_once_None sep s :
  split_once sep s = None ↔ Forall_str (λ c, c ≠ sep) s.
Proof.
  induction s as [|c s IH]; simpl; [tauto|].
  case_decide; [naive_solver|]. destruct (split_once sep s) as [[]|]; naive_solver.
Qed.

Lemma split_once_Some sep s a b :
  split_once sep s = Some (a, b) →
  s = a +:+ String sep b ∧ Forall_str (λ c, c ≠ sep) a.
Proof.
  revert a b. induction s as [|c s IH]; simpl; intros a b; [done|].
  case_decide; [by intros [= <- <-]; subst|].
  destruct (split_once sep s) as [[a' b']|]; [|done]. intros [= <- <-].
  destruct (IH a' b' eq_refl) as [-> ?]. by simpl.
Qed.

Lemma str_contains_false sep s :
  str_contains sep s = false ↔ Forall_str (λ c, c ≠ sep) s.
Proof. induction s as [|c s IH]; simpl; [tauto|]. case_decide; naive_solver. Qed.

Lemma strip_prefix_Some p s r : strip_prefix p s = Some r ↔ s = p +:+ r.
Proof.
  revert s. induction p as [|a p IH]; simpl; intros s; [naive_solver|].
  destruct s as [|c s]; [naive_solver|].
  case_decide; [rewrite IH|]; naive_solver.
Qed.

Lemma strip_suffix_app p r : strip_suffix p (r +:+ p) = Some r.
Proof.
  induction r as [|c r IH]; simpl.
  - destruct p; [done|]. simpl. by rewrite decide_True.
  - rewrite decide_False; [by rewrite IH|].
    intros Heq. apply (f_equal String.length) in Heq. simpl in Heq.
    rewrite str_length_app in Heq. lia.
Qed.

Lemma strip_suffix_Some p s r : strip_suffix p s = Some r ↔ s = r +:+ p.
Proof.
  split; [|intros ->; apply strip_suffix_app].
  revert r. induction s as [|c s IH]; simpl; intros r.
  - case_decide; [|done]. intros [= <-]. by subst p.
  - case_decide; [intros [= <-]; by subst p|].
    destruct (strip_suffix p s) as [r'|]; [|done]. intros [= <-]. simpl.
    by rewrite (IH r').
Qed.

(** ** Lemmas: [trim]

    A graphic byte is a visible ASCII character: it starts no white-space
    encoding, so a string of graphic bytes is its own trimming, with any white
    space around it. *)

Definition graphic (c : ascii) : Prop := (33 <= byte_of c <= 126)%Z.

#[export] Instance graphic_dec c : Decision (graphic c).
Proof. unfold graphic. apply _. Defined.

Definition ws_string (w : string) : Prop :=
  ∃ es : list string, Forall (λ e, e ∈ ws_seqs) es ∧ w = foldr String.append EmptyString es.

Lemma strip_first_graphic c s : graphic c → strip_first ws_seqs (String c s) = None.
Proof.
  unfold graphic. intros Hc.
  assert (Hne : ∀ b, (b ≤ 32 ∨ 127 ≤ b)%Z → u8_range b → char_of b ≠ c).
  { intros b Hb Hr Heq. subst c. rewrite byte_of_char_of in Hc by done. lia. }
  unfold ws_seqs. simpl.
  rewrite !decide_False by (apply Hne; unfold u8_range; lia). done.
Qed.

Lemma strip_first_ws e t : e ∈ ws_seqs → strip_first ws_seqs (e +:+ t) = Some t.
Proof.
  intros He. revert t.
  assert (Hall : Forall (λ e, ∀ t, strip_first ws_seqs (e +:+ t) = Some t) ws_seqs).
  { repeat constructor; reflexivity. }
  rewrite Forall_forall in Hall. auto.
Qed.

Lemma ws_seq_length e : e ∈ ws_seqs → 0 < String.length e.
Proof.
  intros He. assert (Hall : Forall (λ e, 0 < String.length e) ws_seqs).
  { repeat constructor. }
  rewrite Forall_forall in Hall. auto.
Qed.

Lemma strip_first_shorter ps s r :
  (∀ e, e ∈ ps → 0 < String.length e) →
  strip_first ps s = Some r → String.length r < String.length s.
Proof.
  induction ps as [|p ps IH]; simpl; intros Hlen; [done|].
  destruct (strip_prefix p s) as [r'|] eqn:Hp.
  - intros [= <-]. apply strip_prefix_Some in Hp as ->.
    rewrite str_length_app. specialize (Hlen p ltac:(set_solver)). lia.
  - apply IH. set_solver.
Qed.

(** Any fuel from the length up gives the same result. *)
Lemma trim_start_fuel_enough n s :
  String.length s ≤ n → trim_start_fuel n s = trim_start s.
Proof.
  unfold trim_start. remember (String.length s) as m eqn:Hm.
  assert (Hle : String.length s ≤ m) by lia. clear Hm.
  revert s m Hle. induction n as [|n IH]; intros s m Hm Hn.
  - by replace m with 0 by lia.
  - destruct m as [|m]; cbn [trim_start_fuel].
    + destruct s; [|simpl in Hm; lia]. done.
    + destruct (strip_first ws_seqs s) as [r|] eqn:Hr; [|done].
      apply strip_first_shorter in Hr; [|apply ws_seq_length].
      apply IH; lia.
Qed.

Lemma trim_start_step s :
  trim_start s = match strip_first ws_seqs s with
                 | Some r => trim_start r
                 | None => s
                 end.
Proof.
  unfold trim_start at 1. destruct (String.length s) as [|n] eqn:Hn;
    cbn [trim_start_fuel].
  - by destruct s.
  - destruct (strip_first ws_seqs s) as [r|] eqn:Hr; [|done].
    apply trim_start_fuel_enough.
    apply strip_first_shorter in Hr; [lia|apply ws_seq_length].
Qed.

Lemma trim_start_graphic c s : graphic c → trim_start (String c s) = String c s.
Proof. intros Hc. rewrite trim_start_step. by rewrite strip_first_graphic. Qed.

Lemma trim_start_ws w s : ws_string w → trim_start (w +:+ s) = trim_start s.
Proof.
  intros (es & Hes & ->). induction Hes as [|e es He _ IH]; simpl; [done|].
  rewrite <- str_app_assoc, trim_start_step, strip_first_ws by done. done.
Qed.

Lemma all_ws_ws w : ws_string w → all_ws w = true.
Proof.
  intros Hw. unfold all_ws. rewrite <- (str_app_nil_r w), trim_start_ws by done. done.
Qed.

Lemma trim_end_graphic_ws s w :
  ws_string w → Forall_str graphic s → trim_end (s +:+ w) = s.
Proof.
  intros Hw. induction s as [|c s IH]; simpl.
  - intros _. destruct w; [done|]. simpl. by rewrite all_ws_ws.
  - intros [Hc Hs]. unfold all_ws at 1. rewrite trim_start_graphic by done. simpl.
    by rewrite IH.
Qed.

Lemma ws_string_nil : ws_string EmptyString.
Proof. by exists []. Qed.

Lemma trim_ws_around w1 s w2 :
  ws_string w1 → ws_string w2 → Forall_str graphic s → s ≠ EmptyString →
  trim (w1 +:+ s +:+ w2) = s.
Proof.
  intros H1 H2 Hs Hne. unfold trim. rewrite trim_start_ws by done.
  destruct s as [|c s]; [done|]. simpl in *. destruct Hs as [Hc Hs].
  rewrite trim_start_graphic by done.
  apply (trim_end_graphic_ws (String c s) w2); [done|]. by simpl.
Qed.

Lemma trim_graphic s : Forall_str graphic s → trim s = s.
Proof.
  intros Hs. destruct (decide (s = EmptyString)) as [->|Hne]; [done|].
  pose proof (trim_ws_around EmptyString s EmptyString ws_string_nil
                ws_string_nil Hs Hne) as H.
  simpl in H. by rewrite str_app_nil_r in H.
Qed.

#[export] Hint Resolve ws_string_nil trim_graphic byte_of_range : pai_sho.

(** ** Lemmas: characters, hexadecimal, lossy UTF-8 *)

Definition ascii_char (c : ascii) : Prop := (byte_of c < 128)%Z.

Definition alnum (c : ascii) : Prop :=
  (48 <= byte_of c <= 57 ∨ 65 <= byte_of c <= 90 ∨ 97 <= byte_of c <= 122)%Z.

Lemma alnum_graphic c : alnum c → graphic c.
Proof. unfold alnum, graphic. lia. Qed.

Lemma alnum_not_dot c : alnum c → c ≠ "."%char.
Proof. intros Hc ->. unfold alnum in Hc. vm_compute in Hc. intuition congruence. Qed.

Lemma land_192_ascii b : (0 <= b < 128)%Z → (Z.land b 192 =? 128)%Z = false.
Proof.
  intros Hb. apply Z.eqb_neq. intros Heq.
  assert (Hbit : Z.testbit (Z.land b 192) 7 = true) by (by rewrite Heq).
  rewrite Z.land_spec in Hbit. apply andb_prop in Hbit as [Hbit _].
  rewrite <- (Z.mod_small b (2 ^ 7)) in Hbit by (change (2 ^ 7)%Z with 128%Z; lia).
  by rewrite Z.mod_pow2_bits_high in Hbit by lia.
Qed.

Lemma take_chars_ascii n s :
  Forall_str ascii_char s → take_chars n s = String.substring 0 n s.
Proof.
  revert n. induction s as [|c s IH]; simpl; intros n; [by destruct n|].
  intros [Hc Hs]. unfold is_cont, ascii_char in *.
  rewrite land_192_ascii by (pose proof (byte_of_range c); unfold u8_range in *; lia).
  destruct n; [done|]. by rewrite IH.
Qed.

Lemma hex_digit_alnum d : (0 <= d < 16)%Z → alnum (hex_digit d).
Proof.
  intros Hd. unfold hex_digit, alnum.
  case_decide; rewrite byte_of_char_of by (unfold u8_range; lia); lia.
Qed.

Lemma hex_digit_inj d e :
  (0 <= d < 16)%Z → (0 <= e < 16)%Z → hex_digit d = hex_digit e → d = e.
Proof.
  intros Hd He Heq. apply (f_equal byte_of) in Heq. revert Heq. unfold hex_digit.
  repeat case_decide; rewrite !byte_of_char_of by (unfold u8_range; lia); lia.
Qed.

Lemma hex_halves b : u8_range b → (0 <= b / 16 < 16)%Z ∧ (0 <= b mod 16 < 16)%Z.
Proof.
  intros Hb. unfold u8_range in Hb. split; [|apply Z.mod_pos_bound; lia].
  split; [apply Z.div_pos|apply Z.div_lt_upper_bound]; lia.
Qed.

Lemma hex_string_alnum l : Forall u8_range l → Forall_str alnum (hex_string l).
Proof.
  induction 1 as [|b l Hb _ IH]; simpl; [done|].
  destruct (hex_halves b Hb). auto using hex_digit_alnum.
Qed.

Lemma hex_string_length l : String.length (hex_string l) = 2 * length l.
Proof. induction l as [|b l IH]; simpl; [done|]. fold (hex_string l). lia. Qed.

(** The hexadecimal form of bytes determines them. *)
Lemma hex_string_inj l k :
  Forall u8_range l → Forall u8_range k → hex_string l = hex_string k → l = k.
Proof.
  intros Hl. revert k. induction Hl as [|b l Hb Hl IH]; intros k Hk; simpl.
  - by destruct Hk.
  - destruct Hk as [|c k Hc Hk]; simpl; [done|].
    intros [= H1 H2 H3]. destruct (hex_halves b Hb), (hex_halves c Hc).
    apply hex_digit_inj in H1, H2; try done.
    f_equal; [|by apply IH].
    rewrite (Z.div_mod b 16), (Z.div_mod c 16) by done. lia.
Qed.

Lemma utf8_lossy_ascii n l :
  Forall (λ b, 0 <= b < 128)%Z l → length l ≤ n → utf8_lossy_fuel n l = l.
Proof.
  intros Hl. revert n. induction Hl as [|b l Hb Hl IH]; intros n Hn; [by destruct n|].
  destruct n as [|n]; simpl in Hn; [lia|]. cbn [utf8_lossy_fuel].
  assert (utf8_step b l = (true, 0)) as ->.
  { unfold utf8_step, utf8_char_width, in_range.
    by rewrite (proj2 (Z.leb_le 0 b)), (proj2 (Z.leb_le b 127)) by lia. }
  simpl. by rewrite IH by lia.
Qed.

Lemma from_utf8_lossy_ascii s :
  Forall_str ascii_char s → from_utf8_lossy (str_bytes s) = s.
Proof.
  intros Hs. unfold from_utf8_lossy. rewrite utf8_lossy_ascii; [|..|done].
  - apply str_of_bytes_bytes.
  - induction s as [|c s IH]; simpl in *; constructor; [|naive_solver].
    pose proof (byte_of_range c). unfold ascii_char, u8_range in *. naive_solver lia.
Qed.

Lemma to_ascii_lowercase_app s t :
  to_ascii_lowercase (s +:+ t) = to_ascii_lowercase s +:+ to_ascii_lowercase t.
Proof. induction s as [|c s IH]; simpl; [done|]. by rewrite IH. Qed.

#[export] Hint Resolve alnum_graphic alnum_not_dot hex_string_alnum : pai_sho.
