(* ===== verification/Keys.v ===== *)
(** * Endpoint keys

    [iroh::EndpointId] comes from a crate the sources only call, so its type
    and operations are a parameter: a type class whose members are the methods
    the program uses ([Eq]/[Hash], [Ord], [as_bytes], [Display], [FromStr]) and
    a class of the laws the program relies on.  [ToyKey] is an instance used
    by the witnesses. *)

From Stdlib Require Import DecimalString DecimalN.
From S2P Require Import Prelude RustStr.

(** ** The interface *)

Class EndpointKey (K : Type) : Type := {
  key_eq_dec :: EqDecision K;
  key_countable :: Countable K;
  key_le : relation K;
  key_le_dec :: RelDecision key_le;
  as_bytes : K → bytes;
  to_string : K → string;
  parse_key : string → option K;
}.

Class EndpointKeyLaws (K : Type) `{!EndpointKey K} : Prop := {
  key_le_trans :: Transitive key_le;
  key_le_total :: Total key_le;
  key_le_antisymm :: AntiSymm (=) key_le;
  as_bytes_inj :: Inj (=) (=) as_bytes;
  parse_to_string : ∀ k : K, parse_key (to_string k) = Some k;
  to_string_alnum : ∀ k : K, Forall_str alnum (to_string k);
}.

(** ** [<] on byte slices *)

Fixpoint bytes_lt (l k : bytes) : bool :=
  match l, k with
  | _, [] => false
  | [], _ :: _ => true
  | a :: l, b :: k =>
      if (a <? b)%Z then true else if (b <? a)%Z then false else bytes_lt l k
  end.

(** ** [BTreeMap<EndpointId, _>]: a finite map iterated in key order *)

Definition btree_keys {K} `{EndpointKey K} {A} (m : gmap K A) : list K :=
  merge_sort key_le (map_to_list m).*1.

(** ** Lemmas *)

Lemma bytes_lt_irrefl l : bytes_lt l l = false.
Proof. induction l as [|a l IH]; simpl; [done|]. by rewrite !Z.ltb_irrefl. Qed.

(** Of two different slices exactly one is the lower. *)
Lemma bytes_lt_trichotomy l k : l ≠ k → bytes_lt l k = negb (bytes_lt k l).
Proof.
  revert k. induction l as [|a l IH]; intros [|b k] Hne; simpl; try done.
  destruct (Z.ltb_spec a b), (Z.ltb_spec b a); try done; try lia.
  apply IH. intros ->. apply Hne. f_equal. lia.
Qed.

Section btree.
Context {K : Type} `{EndpointKeyLaws K}.

Lemma elem_of_btree_keys {A} (m : gmap K A) k : k ∈ btree_keys m ↔ is_Some (m !! k).
Proof.
  unfold btree_keys. rewrite merge_sort_Permutation, list_elem_of_fmap. split.
  - intros ([k' a] & -> & Hin). apply elem_of_map_to_list in Hin. by eexists.
  - intros [a Ha]. exists (k, a). by rewrite elem_of_map_to_list.
Qed.

Lemma NoDup_btree_keys {A} (m : gmap K A) : NoDup (btree_keys m).
Proof. unfold btree_keys. rewrite merge_sort_Permutation. apply NoDup_fst_map_to_list. Qed.

Lemma btree_keys_sorted {A} (m : gmap K A) : StronglySorted key_le (btree_keys m).
Proof. apply (StronglySorted_merge_sort key_le). Qed.

Lemma as_bytes_lt_total (a b : K) :
  a ≠ b → bytes_lt (as_bytes a) (as_bytes b) = negb (bytes_lt (as_bytes b) (as_bytes a)).
Proof. intros Hne. apply bytes_lt_trichotomy. by intros Heq%(inj as_bytes). Qed.

Lemma to_string_inj (a b : K) : to_string a = to_string b → a = b.
Proof.
  intros Heq. apply (f_equal parse_key) in Heq. rewrite !parse_to_string in Heq.
  by simplify_eq.
Qed.

Lemma to_string_no_dot (k : K) : Forall_str (λ c, c ≠ "."%char) (to_string k).
Proof. eapply Forall_str_impl; [|apply to_string_alnum]. eauto with pai_sho. Qed.

Lemma to_string_graphic (k : K) : Forall_str graphic (to_string k).
Proof. eapply Forall_str_impl; [|apply to_string_alnum]. eauto with pai_sho. Qed.

End btree.

#[export] Hint Resolve NoDup_btree_keys to_string_no_dot to_string_graphic : pai_sho.

(** ** A concrete instance

    Keys are numbers printed in decimal.  The parser reads leading zeros, so a
    key has several spellings, as the hexadecimal and base32 forms of a real
    endpoint id do. *)
Module ToyKey.

Notation key := N (only parsing).

Definition print (k : key) : string := NilZero.string_of_uint (N.to_uint k).

Definition parse (s : string) : option key := N.of_uint <$> NilZero.uint_of_string s.

#[global] Instance key_class : EndpointKey key := {|
  key_eq_dec := N.eq_dec;
  key_countable := N_countable;
  key_le := N.le;
  key_le_dec := N.le_dec;
  as_bytes k := [Z.of_N k];
  to_string := print;
  parse_key := parse;
|}.

Lemma nil_empty_alnum d : Forall_str alnum (NilEmpty.string_of_uint d).
Proof.
  induction d; simpl; split; try done; unfold alnum; vm_compute;
    left; split; discriminate.
Qed.

Lemma nil_zero_alnum d : Forall_str alnum (NilZero.string_of_uint d).
Proof.
  destruct d; try apply (nil_empty_alnum (_ d)).
  simpl. split; [|done]. unfold alnum. vm_compute. left; split; discriminate.
Qed.

#[global] Instance key_laws : EndpointKeyLaws key.
Proof.
  split.
  - intros x y z. apply N.le_trans.
  - intros x y. apply N.le_ge_cases.
  - intros x y. apply N.le_antisymm.
  - intros x y [= Hxy]. lia.
  - intros k. simpl. unfold parse, print. rewrite NilZero.usu.
    + simpl. by rewrite Unsigned.of_to.
    + destruct k as [|p]; [done|]. simpl. apply DecimalPos.Unsigned.to_uint_nonnil.
  - intros k. apply nil_zero_alnum.
Qed.

End ToyKey.
