(* ===== verification/Grants.v ===== *)
(** * Directed grants ([src/src/core/grants.rs])

    A grant table maps each granted port to the set of keys it is granted to.
    [Module Grants] holds the table and its operations, each the method of the
    same name; [Module GrantSpec] is the relation a table stands for.  The
    lemmas show that every operation keeps the table free of empty sets and
    implements its relational specification, and that a table without empty
    sets is determined by its relation. *)

From S2P Require Import Prelude RustStr Keys.

Module Grants.
Section grants.
Context {K : Type} `{!EndpointKey K}.

Record Grants : Type := mkGrants { by_port : gmap Z (gset K) }.

Definition default_grants : Grants := mkGrants ∅.

(** Grant [port] to [grantee]. *)
Definition add (port : Z) (grantee : K) (g : Grants) : Grants :=
  mkGrants (<[port := {[grantee]} ∪ default ∅ (by_port g !! port)]> (by_port g)).

(** Revoke one grantee's grant for [port], or every grant for it. *)
Definition remove (port : Z) (grantee : option K) (g : Grants) : Grants :=
  match grantee with
  | Some grantee =>
      match by_port g !! port with
      | Some grantees =>
          let grantees := grantees ∖ {[grantee]} in
          if decide (grantees = ∅)
          then mkGrants (delete port (by_port g))
          else mkGrants (<[port := grantees]> (by_port g))
      | None => g
      end
  | None => mkGrants (delete port (by_port g))
  end.

(** Drop every grant naming [peer]: [HashMap::retain] with a closure that
    removes the peer and keeps what is not empty. *)
Definition revoke_grantee (peer : K) (g : Grants) : Grants :=
  mkGrants (omap (λ grantees : gset K,
                    let grantees := grantees ∖ {[peer]} in
                    if decide (grantees = ∅) then None else Some grantees)
                 (by_port g)).

Definition allows (port : Z) (peer : K) (g : Grants) : bool :=
  match by_port g !! port with
  | Some grantees => bool_decide (peer ∈ grantees)
  | None => false
  end.

(** The ports granted to [peer], sorted. *)
Definition ports_for (peer : K) (g : Grants) : list Z :=
  merge_sort Z.le
    (map_to_list (filter (λ p : Z * gset K, peer ∈ p.2) (by_port g))).*1.

(** The distinct granted ports, sorted. *)
Definition ports (g : Grants) : list Z :=
  merge_sort Z.le (map_to_list (by_port g)).*1.

(** Every (port, grantee) row, sorted by port.  The order of rows with the
    same port is the hash set's and carries no meaning. *)
Definition port_le (r s : Z * K) : Prop := (r.1 <= s.1)%Z.

#[export] Instance port_le_dec : RelDecision port_le.
Proof. intros r s. unfold port_le. apply _. Defined.

Definition all (g : Grants) : list (Z * K) :=
  merge_sort port_le
    (map_to_list (by_port g) ≫= λ p, (λ k, (p.1, k)) <$> elements p.2).

(** No port maps to an empty set. *)
Definition wf (g : Grants) : Prop := map_Forall (λ _ s, s ≠ ∅) (by_port g).

End grants.
Arguments Grants K {_}.
End Grants.

(** ** The relation a table stands for *)
Module GrantSpec.
Section spec.
Context {K : Type} `{!EndpointKey K}.

Definition grant_rel : Type := Z → K → Prop.

Definition rel_eq (r s : grant_rel) : Prop := ∀ p k, r p k ↔ s p k.

Definition rel_add (port : Z) (grantee : K) (r : grant_rel) : grant_rel :=
  λ p k, (p = port ∧ k = grantee) ∨ r p k.

Definition rel_remove (port : Z) (grantee : option K) (r : grant_rel) : grant_rel :=
  λ p k, r p k ∧ ¬ (p = port ∧ match grantee with Some g => k = g | None => True end).

Definition rel_revoke (peer : K) (r : grant_rel) : grant_rel :=
  λ p k, r p k ∧ k ≠ peer.

(** A history of grant operations, run on the table and on the relation. *)
Inductive grant_op : Type :=
| OpAdd (port : Z) (grantee : K)
| OpRemove (port : Z) (grantee : option K)
| OpRevoke (peer : K).

Definition run_op (g : Grants.Grants K) (o : grant_op) : Grants.Grants K :=
  match o with
  | OpAdd port grantee => Grants.add port grantee g
  | OpRemove port grantee => Grants.remove port grantee g
  | OpRevoke peer => Grants.revoke_grantee peer g
  end.

Definition rel_op (r : grant_rel) (o : grant_op) : grant_rel :=
  match o with
  | OpAdd port grantee => rel_add port grantee r
  | OpRemove port grantee => rel_remove port grantee r
  | OpRevoke peer => rel_revoke peer r
  end.

Definition run_ops (os : list grant_op) : Grants.Grants K :=
  foldl run_op Grants.default_grants os.

Definition rel_ops (os : list grant_op) : grant_rel :=
  foldl rel_op (λ _ _, False) os.

Definition rel_of (g : Grants.Grants K) : grant_rel := λ p k, Grants.allows p k g = true.

End spec.
End GrantSpec.

(** ** Lemmas *)
Section grants_lemmas.
Context {K : Type} `{!EndpointKey K}.
Import Grants GrantSpec.
Implicit Types (g : Grants K) (k : K) (p : Z).

Lemma allows_lookup p k g :
  allows p k g = true ↔ ∃ s, by_port g !! p = Some s ∧ k ∈ s.
Proof.
  unfold allows. destruct (by_port g !! p); rewrite ?bool_decide_eq_true; naive_solver.
Qed.

Lemma allows_default p k : allows p k default_grants = false.
Proof. done. Qed.

Lemma allows_add p k port grantee g :
  allows p k (add port grantee g) = true ↔
  (p = port ∧ k = grantee) ∨ allows p k g = true.
Proof.
  rewrite !allows_lookup. unfold add; simpl.
  destruct (decide (p = port)) as [->|Hne].
  - rewrite lookup_insert_eq. destruct (by_port g !! port) as [s|]; simpl;
      naive_solver set_solver.
  - rewrite lookup_insert_ne by done. naive_solver.
Qed.

Lemma allows_remove p k port o g :
  allows p k (remove port o g) = true ↔
  allows p k g = true ∧ ¬ (p = port ∧ match o with Some x => k = x | None => True end).
Proof.
  rewrite !allows_lookup. unfold remove.
  destruct (decide (p = port)) as [->|Hne].
  - destruct o as [x|]; [|simpl; rewrite lookup_delete_eq; naive_solver].
    destruct (by_port g !! port) as [s|] eqn:Hs; [|naive_solver].
    case_decide as He; simpl; rewrite ?lookup_delete_eq, ?lookup_insert_eq;
      naive_solver set_solver.
  - destruct o as [x|]; [|simpl; rewrite lookup_delete_ne by done; naive_solver].
    destruct (by_port g !! port) as [s|]; [|naive_solver].
    case_decide; simpl; rewrite ?lookup_delete_ne, ?lookup_insert_ne by done; naive_solver.
Qed.

Lemma allows_revoke p k peer g :
  allows p k (revoke_grantee peer g) = true ↔ allows p k g = true ∧ k ≠ peer.
Proof.
  rewrite !allows_lookup. unfold revoke_grantee; simpl. rewrite lookup_omap.
  destruct (by_port g !! p) as [s|]; simpl; [|naive_solver].
  case_decide; naive_solver set_solver.
Qed.

Lemma wf_default : wf default_grants.
Proof. apply map_Forall_empty. Qed.

Lemma wf_add port grantee g : wf g → wf (add port grantee g).
Proof. intros Hg. apply map_Forall_insert_2; [set_solver|done]. Qed.

Lemma wf_remove port o g : wf g → wf (remove port o g).
Proof.
  intros Hg. unfold remove. destruct o as [x|]; [|by apply map_Forall_delete].
  case_match; [|done]. case_decide; [by apply map_Forall_delete|].
  by apply map_Forall_insert_2.
Qed.

Lemma wf_revoke peer g : wf (revoke_grantee peer g).
Proof.
  intros p s. simpl. rewrite lookup_omap. destruct (by_port g !! p); simpl; [|done].
  case_decide; naive_solver.
Qed.

(** A table without empty sets is determined by what it allows. *)
Lemma wf_ext g1 g2 :
  wf g1 → wf g2 → (∀ p k, allows p k g1 = allows p k g2) → g1 = g2.
Proof.
  destruct g1 as [m1], g2 as [m2]. unfold wf, allows; simpl. intros H1 H2 Heq.
  f_equal. apply map_eq. intros p. specialize (H1 p). specialize (H2 p).
  specialize (Heq p).
  destruct (m1 !! p) as [s1|], (m2 !! p) as [s2|]; [| | |done].
  - f_equal. apply set_eq. intros k. specialize (Heq k).
    rewrite <- (bool_decide_eq_true (k ∈ s1)), <- (bool_decide_eq_true (k ∈ s2)).
    by rewrite Heq.
  - destruct (set_choose_L s1) as [k Hk]; [naive_solver|]. specialize (Heq k).
    by rewrite bool_decide_eq_true_2 in Heq.
  - destruct (set_choose_L s2) as [k Hk]; [naive_solver|]. specialize (Heq k).
    by rewrite bool_decide_eq_true_2 in Heq.
Qed.

Lemma elem_of_ports_for p k g : p ∈ ports_for k g ↔ allows p k g = true.
Proof.
  unfold ports_for. rewrite elem_of_merge_sort, list_elem_of_fmap, allows_lookup. split.
  - intros ([p' s] & -> & Hin). apply elem_of_map_to_list in Hin.
    apply map_lookup_filter_Some in Hin as [? ?]. eauto.
  - intros (s & Hs & Hk). exists (p, s). split; [done|].
    apply elem_of_map_to_list, map_lookup_filter_Some. done.
Qed.

Lemma ports_for_sorted k g : StronglySorted Z.lt (ports_for k g).
Proof. apply merge_sort_strict, NoDup_fst_map_to_list. Qed.

Lemma ports_sorted g : StronglySorted Z.lt (ports g).
Proof. apply merge_sort_strict, NoDup_fst_map_to_list. Qed.

Lemma elem_of_ports p g : wf g → p ∈ ports g ↔ ∃ k, allows p k g = true.
Proof.
  intros Hwf. unfold ports. rewrite elem_of_merge_sort, list_elem_of_fmap. split.
  - intros ([p' s] & -> & Hin). apply elem_of_map_to_list in Hin.
    destruct (set_choose_L s) as [k Hk]; [by apply (Hwf _ _ Hin)|].
    exists k. apply allows_lookup. eauto.
  - intros [k (s & Hs & _)%allows_lookup]. exists (p, s).
    by rewrite elem_of_map_to_list.
Qed.

Lemma elem_of_all p k g : (p, k) ∈ all g ↔ allows p k g = true.
Proof.
  unfold all. rewrite merge_sort_Permutation, list_elem_of_bind, allows_lookup. split.
  - intros ([p' s] & Hin & Hps%elem_of_map_to_list).
    apply list_elem_of_fmap in Hin as (k' & [= -> ->] & Hk). simpl in *.
    apply elem_of_elements in Hk. eauto.
  - intros (s & Hs & Hk). exists (p, s).
    rewrite elem_of_map_to_list, list_elem_of_fmap. split; [|done].
    exists k. by rewrite elem_of_elements.
Qed.

Lemma all_sorted g : StronglySorted port_le (all g).
Proof.
  apply StronglySorted_merge_sort.
  - intros x y z. unfold port_le. lia.
  - intros x y. unfold port_le. lia.
Qed.

Lemma run_op_refines g o r :
  rel_eq (rel_of g) r → rel_eq (rel_of (run_op g o)) (rel_op r o).
Proof.
  intros Hr p k. specialize (Hr p k). unfold rel_of in *.
  destruct o; simpl; rewrite ?allows_add, ?allows_remove, ?allows_revoke;
    unfold rel_add, rel_remove, rel_revoke; tauto.
Qed.

Lemma run_op_wf g o : wf g → wf (run_op g o).
Proof. destruct o; simpl; auto using wf_add, wf_remove, wf_revoke. Qed.

Lemma run_ops_refines os : rel_eq (rel_of (run_ops os)) (rel_ops os).
Proof.
  unfold run_ops, rel_ops.
  assert (Hstart : rel_eq (rel_of (default_grants (K:=K))) (λ _ _, False)) by done.
  revert Hstart. generalize (default_grants (K:=K)), (λ (_ : Z) (_ : K), False).
  induction os as [|o os IH]; simpl; intros g r Hr; [done|].
  by apply IH, run_op_refines.
Qed.

Lemma run_ops_wf os : wf (run_ops os).
Proof.
  unfold run_ops. generalize (wf_default : wf (default_grants (K:=K))).
  generalize (default_grants (K:=K)).
  induction os as [|o os IH]; simpl; intros g Hg; [done|]. by apply IH, run_op_wf.
Qed.

End grants_lemmas.

#[export] Hint Resolve wf_default wf_add wf_remove wf_revoke ports_for_sorted
  ports_sorted all_sorted : pai_sho.
#[export] Hint Rewrite @allows_add @allows_remove @allows_revoke : pai_sho.

(** ** Properties *)
Section grants_properties.
Context {K : Type} `{!EndpointKey K}.
Import Grants GrantSpec.

(** C29: after any history of [add], [remove] and [revoke_grantee]
    on an empty table, [allows] answers exactly the relation the same history
    builds from the empty relation (default deny, each grant directed at one
    key and one port), and two histories that build the same relation leave
    the same table: no residue of a revoked grant is kept. *)
Theorem grant_table_refines (os : list (grant_op (K:=K))) :
  rel_eq (rel_of (run_ops os)) (rel_ops os) ∧
  (∀ os', rel_eq (rel_ops os) (rel_ops os') → run_ops os = run_ops os').
Proof.
  split; [apply run_ops_refines|]. intros os' Heq.
  apply wf_ext; try apply run_ops_wf. intros p k.
  pose proof (run_ops_refines os p k) as H1. pose proof (run_ops_refines os' p k) as H2.
  specialize (Heq p k). unfold rel_of in *. apply eq_true_iff_eq. tauto.
Qed.

(** The three listings of a table are its relation, sorted:
    [ports_for] is strictly increasing and holds exactly the ports granted to
    the peer, [ports] is strictly increasing and holds exactly the ports
    granted to somebody, [all] is sorted by port and holds exactly the granted
    pairs. *)
Theorem grant_views_exact (os : list (grant_op (K:=K))) (peer : K) :
  let g := run_ops os in
  (StronglySorted Z.lt (ports_for peer g) ∧
   ∀ p, p ∈ ports_for peer g ↔ allows p peer g = true) ∧
  (StronglySorted Z.lt (ports g) ∧
   ∀ p, p ∈ ports g ↔ ∃ k, allows p k g = true) ∧
  (StronglySorted port_le (all g) ∧
   ∀ p k, (p, k) ∈ all g ↔ allows p k g = true).
Proof.
  repeat split; intros;
    first [ apply ports_for_sorted | apply ports_sorted | apply all_sorted
          | by apply elem_of_ports_for | by apply elem_of_all
          | by apply (elem_of_ports _ _ (run_ops_wf os)) ].
Qed.

End grants_properties.
