(* ===== verification/Backoff.v ===== *)
(** * Reconnect delays ([src/src/core/backoff.rs])

    A [Duration] is its nanoseconds.  [Duration * u32] panics when the result
    does not fit, so [failed] returns [None] for that panic, and the lemmas
    show that no state the program reaches panics. *)

From S2P Require Import Prelude.

Module Backoff.

Definition nanos_per_sec : Z := 1000000000.

Definition from_secs (s : Z) : Z := s * nanos_per_sec.

(** [Duration::MAX] is [u64::MAX] seconds and 999999999 nanoseconds. *)
Definition duration_max : Z := 2 ^ 64 * nanos_per_sec - 1.

(** [Mul<u32> for Duration]: overflow panics. *)
Definition duration_mul (d : Z) (n : Z) : option Z :=
  if decide (d * n <= duration_max)%Z then Some (d * n)%Z else None.

Definition INITIAL : Z := from_secs 1.
Definition MAX : Z := from_secs 10.

Record Backoff : Type := mkBackoff { next : Z }.

Definition unreached : Backoff := mkBackoff 0.

Definition connected : Backoff := mkBackoff INITIAL.

Definition delay (b : Backoff) : Z := next b.

(** The dial failed: double, at least [INITIAL], at most [MAX]. *)
Definition failed (b : Backoff) : option Backoff :=
  match duration_mul (next b) 2 with
  | Some d => Some (mkBackoff (Z.min (Z.max d INITIAL) MAX))
  | None => None
  end.

Definition reset (b : Backoff) : Backoff := mkBackoff INITIAL.

(** What the connection loop does with it. *)
Inductive event : Type := Failed | Reset.

Definition step (b : option Backoff) (e : event) : option Backoff :=
  match b with
  | Some b => match e with Failed => failed b | Reset => Some (reset b) end
  | None => None
  end.

Definition run (b : Backoff) (es : list event) : option Backoff :=
  foldl step (Some b) es.

(** The delays a state of the program can hold. *)
Definition valid (b : Backoff) : Prop :=
  (next b = 0 ∨ (INITIAL <= next b <= MAX))%Z.

End Backoff.

(** ** Lemmas *)
Import Backoff.

Lemma valid_starts : valid unreached ∧ valid connected.
Proof. by unfold valid, connected, INITIAL, MAX; split; [left|right]. Qed.

(** From a valid state [failed] does not panic, and where it goes. *)
Lemma failed_valid b :
  valid b →
  failed b = Some (mkBackoff (Z.min (Z.max (next b * 2) INITIAL) MAX)).
Proof.
  unfold valid, failed, duration_mul, MAX, INITIAL, from_secs, nanos_per_sec.
  intros Hb. rewrite decide_True; [done|].
  unfold duration_max, nanos_per_sec. lia.
Qed.

Lemma failed_keeps_valid b b' : valid b → failed b = Some b' → valid b'.
Proof.
  intros Hb. rewrite failed_valid by done. intros [= <-].
  unfold valid, MAX, INITIAL, from_secs, nanos_per_sec; simpl. lia.
Qed.

Lemma reset_valid b : valid (reset b).
Proof. unfold reset, valid, MAX, INITIAL, from_secs, nanos_per_sec; simpl. lia. Qed.

#[export] Hint Resolve failed_keeps_valid reset_valid : pai_sho.

Lemma run_valid b es : valid b → ∃ b', run b es = Some b' ∧ valid b'.
Proof.
  unfold run. revert b. induction es as [|e es IH]; simpl; intros b Hb; [eauto|].
  destruct e; simpl; [|eauto with pai_sho].
  rewrite failed_valid by done. apply IH.
  eapply failed_keeps_valid; [done|]. by apply failed_valid.
Qed.

(** [n] failures in a row from [connected]. *)
Lemma run_failures n :
  run connected (replicate n Failed) =
  Some (mkBackoff (Z.min (2 ^ Z.of_nat n * INITIAL) MAX)).
Proof.
  unfold run. induction n as [|n IH]; [done|].
  rewrite replicate_S_end, foldl_snoc, IH. simpl.
  assert (1 <= 2 ^ Z.of_nat n)%Z by (apply (Z.pow_le_mono_r 2 0); lia).
  rewrite failed_valid; simpl.
  - f_equal. f_equal. rewrite Nat2Z.inj_succ, Z.pow_succ_r by lia.
    unfold MAX, INITIAL, from_secs, nanos_per_sec. lia.
  - right. simpl. unfold MAX, INITIAL, from_secs, nanos_per_sec. lia.
Qed.

(** ** Properties *)

(** Whatever sequence of failed dials and reconnections the
    loop reports, computing the delay never panics, and the delay stays zero
    (only before the first attempt) or between one and ten seconds. *)
Theorem backoff_never_panics (start : Backoff) (es : list event)
    (Hstart : start = unreached ∨ start = connected) :
  ∃ b, run start es = Some b ∧
       (delay b = 0 ∨ INITIAL <= delay b <= MAX)%Z ∧
       (delay b = 0%Z → start = unreached ∧ es = []).
Proof.
  assert (Hv : valid start) by (destruct valid_starts; naive_solver).
  destruct (run_valid start es Hv) as (b & Hb & Hval). exists b.
  split_and!; [done|done|]. intros Hz.
  destruct es as [|e es _] using rev_ind.
  - destruct Hstart as [->| ->]; [done|]. unfold run in Hb. simpl in Hb.
    injection Hb as <-. done.
  - unfold run in Hb. rewrite foldl_snoc in Hb.
    destruct (run_valid start es Hv) as (b0 & Hb0 & Hval0).
    unfold run in Hb0. rewrite Hb0 in Hb. destruct e; simpl in Hb.
    + rewrite failed_valid in Hb by done. injection Hb as <-. revert Hz. unfold delay.
      simpl. unfold MAX, INITIAL, from_secs, nanos_per_sec. lia.
    + injection Hb as <-. revert Hz. unfold delay. simpl.
      unfold INITIAL, from_secs, nanos_per_sec. lia.
Qed.

Lemma backoff_never_panics_witness :
  ∃ b, run unreached [Failed; Failed; Reset; Failed] = Some b ∧
       (delay b = 0 ∨ INITIAL <= delay b <= MAX)%Z ∧
       (delay b = 0%Z → unreached = unreached ∧ [Failed; Failed; Reset; Failed] = []).
Proof. apply (backoff_never_panics unreached). left. reflexivity. Defined.

(** The climb. [n] failed dials after a drop give
    [min(2^n, 10)] seconds; an unreached peer's first failure gives one second
    and then it climbs the same way, so it is never dialed in a tight loop. *)
Theorem backoff_schedule (n : nat) :
  (b ← run connected (replicate n Failed); Some (delay b)) =
    Some (from_secs (Z.min (2 ^ Z.of_nat n) 10)) ∧
  (b ← run unreached (replicate (S n) Failed); Some (delay b)) =
    Some (from_secs (Z.min (2 ^ Z.of_nat n) 10)).
Proof.
  assert (Hs : run unreached (replicate (S n) Failed) = run connected (replicate n Failed))
    by done.
  rewrite Hs, run_failures. simpl.
  assert (Heq : Z.min (2 ^ Z.of_nat n * INITIAL) MAX =
                from_secs (Z.min (2 ^ Z.of_nat n) 10)).
  { unfold MAX, INITIAL, from_secs, nanos_per_sec. lia. }
  unfold delay. simpl. by rewrite Heq.
Qed.
