(* ===== verification/Dial.v ===== *)
(** * Which connection to keep ([src/src/core/dial.rs])

    [resolve] is the pure decision.  [offer] is the code both of its callers
    run under the write lock of a peer's connection slot
    ([src/src/peer.rs], [peer_connection_loop] when our own dial returns and
    [handle_connection] when one arrives): ask [resolve], then close the
    newcomer, or close what is held and install the newcomer. *)

From S2P Require Import Prelude RustStr Keys.

Module Dial.

Inductive Keep : Type := Held | Arriving.

#[export] Instance keep_eq_dec : EqDecision Keep.
Proof. solve_decision. Defined.

Definition resolve {K} `{EndpointKey K} (ours theirs : K)
    (held_live held_dialed_by_us arriving_dialed_by_us : bool) : Keep :=
  if negb held_live then Arriving
  else if Bool.eqb held_dialed_by_us arriving_dialed_by_us then Arriving
  else
    let we_are_lower := bytes_lt (as_bytes ours) (as_bytes theirs) in
    let lower_key_opened_held := Bool.eqb we_are_lower held_dialed_by_us in
    if lower_key_opened_held then Held else Arriving.

(** A peer's connection and who opened it; they move together under the lock. *)
Record Slot (C : Type) : Type := mkSlot {
  connection : option C;
  conn_dialed_by_us : bool;
}.
Arguments mkSlot {C}.
Arguments connection {C}.
Arguments conn_dialed_by_us {C}.

Definition held_is_live {C} (live : C → bool) (s : Slot C) : bool :=
  match connection s with
  | Some held => live held
  | None => false
  end.

(** The slot afterwards, and what was closed with which reason. *)
Definition offer {K} `{EndpointKey K} {C} (ours theirs : K) (live : C → bool)
    (s : Slot C) (conn : C) (by_us : bool) : Slot C * list (C * string) :=
  match resolve ours theirs (held_is_live live s) (conn_dialed_by_us s) by_us with
  | Held => (s, [(conn, "kept ours")])
  | Arriving =>
      (mkSlot (Some conn) by_us,
       match connection s with
       | Some old => [(old, "replaced")]
       | None => []
       end)
  end.

(** One end of a link handling connections to one peer in some order; the
    boolean of each says whether this end dialed it. *)
Definition offers {K} `{EndpointKey K} {C} (ours theirs : K) (live : C → bool)
    (s : Slot C) (xs : list (C * bool)) : Slot C * list (C * string) :=
  foldl (λ '(s, closed) '(c, by_us),
           let '(s, cl) := offer ours theirs live s c by_us in (s, closed ++ cl))
        (s, []) xs.

Definition empty_slot {C} : Slot C := mkSlot None false.

End Dial.

(** ** Lemmas *)
Section dial_lemmas.
Context {K : Type} `{EndpointKeyLaws K} {C : Type}.
Import Dial.
Implicit Types (a b : K) (xs : list (C * bool)).

Definition opened_by_lower a b (x : C * bool) : bool :=
  Bool.eqb x.2 (bytes_lt (as_bytes a) (as_bytes b)).

(** The slot in one line: the last connection the lower key opened, or the
    last one if it opened none. *)
Definition kept a b xs : option (C * bool) :=
  match last (List.filter (opened_by_lower a b) xs) with
  | Some x => Some x
  | None => last xs
  end.

Lemma offers_snoc a b live s xs c by_us :
  offers a b live s (xs ++ [(c, by_us)]) =
  let '(s', cl) := offers a b live s xs in
  let '(s'', cl') := offer a b live s' c by_us in (s'', cl ++ cl').
Proof. unfold offers. rewrite foldl_snoc. by destruct (foldl _ _ _). Qed.

Lemma filter_snoc {A} (f : A → bool) (l : list A) x :
  List.filter f (l ++ [x]) = List.filter f l ++ (if f x then [x] else []).
Proof. rewrite List.filter_app. simpl. by destruct (f x). Qed.

Lemma last_filter_None {A} (f : A → bool) (l : list A) x :
  last (List.filter f l) = None → last l = Some x → f x = false.
Proof.
  induction l as [|y l _] using rev_ind; [done|].
  rewrite filter_snoc, !last_snoc. destruct (f y) eqn:Hf.
  - by rewrite last_snoc.
  - intros _ [= ->]. done.
Qed.

Lemma last_filter_Some {A} (f : A → bool) (l : list A) x :
  last (List.filter f l) = Some x → f x = true.
Proof.
  intros Hl. apply last_Some_elem_of in Hl.
  apply list_elem_of_In in Hl. by apply List.filter_In in Hl as [_ ?].
Qed.

Lemma offers_kept a b xs :
  (offers a b (λ _, true) empty_slot xs).1 =
  match kept a b xs with
  | Some (c, by_us) => mkSlot (Some c) by_us
  | None => empty_slot
  end.
Proof.
  induction xs as [|[c by_us] xs IH] using rev_ind; [done|].
  rewrite offers_snoc. destruct (offers _ _ _ _ xs) as [s cl]. simpl in IH. subst s.
  unfold kept. rewrite filter_snoc, last_snoc.
  unfold opened_by_lower at 3. simpl. unfold offer, resolve.
  destruct (last (List.filter _ xs)) as [[c' d]|] eqn:Hl.
  - pose proof (last_filter_Some _ _ _ Hl) as Hd. unfold opened_by_lower in Hd.
    simpl in Hd. apply eqb_prop in Hd as ->. simpl.
    destruct (bytes_lt _ _), by_us; simpl; rewrite ?app_nil_r, ?last_snoc, ?Hl; done.
  - destruct (last xs) as [[c' d]|] eqn:Hx.
    + pose proof (last_filter_None _ _ _ Hl Hx) as Hd. unfold opened_by_lower in Hd.
      simpl in Hd. simpl.
      destruct (bytes_lt _ _), d, by_us; simpl in *; try done;
        rewrite ?app_nil_r, ?last_snoc, ?Hl; done.
    + simpl. destruct (bytes_lt _ _), by_us; simpl;
        rewrite ?app_nil_r, ?last_snoc, ?Hl; done.
Qed.

Lemma filter_all {A} (f : A → bool) (l : list A) :
  List.filter (negb ∘ f) l = [] → List.filter f l = l.
Proof.
  induction l as [|x l IH]; simpl; [done|]. destruct (f x); simpl; [|done].
  intros ?. by rewrite IH.
Qed.

Lemma opened_by_lower_flip a b (x : C * bool) :
  a ≠ b → opened_by_lower b a (x.1, negb x.2) = opened_by_lower a b x.
Proof.
  intros Hne. unfold opened_by_lower. simpl.
  rewrite (as_bytes_lt_total b a) by done. by destruct x.2, (bytes_lt _ _).
Qed.

Lemma last_None_nil {A} (l : list A) : last l = None → l = [].
Proof. by rewrite last_None. Qed.
End dial_lemmas.

(** ** Properties *)
Section dial_properties.
Context {K : Type} `{EndpointKeyLaws K}.
Import Dial.

Definition flip_dialer {C} (x : C * bool) : C * bool := (x.1, negb x.2).

(** C28: both ends keep the same connection, and which.  Ends [a] and [b]
    see the connections between them in whatever order each end sees them,
    only the order of the dials of each single end being common ([xs] at [a],
    [ys] at [b], the boolean saying whether [a] dialed).  While the
    connections are live, the two slots end up holding the same one: the last of
    those that the end with the lower key opened, or if it opened none the last
    of all. *)
Theorem both_ends_keep_the_same {C} (a b : K) (xs ys : list (C * bool))
    (Hab : a ≠ b)
    (Horder : ∀ d, List.filter (λ x, Bool.eqb x.2 d) xs =
                   List.filter (λ x, Bool.eqb x.2 d) ys) :
  let a_is_lower := bytes_lt (as_bytes a) (as_bytes b) in
  let by_lower := List.filter (λ x, Bool.eqb x.2 a_is_lower) xs in
  let at_a := connection (offers a b (λ _, true) empty_slot xs).1 in
  let at_b := connection (offers b a (λ _, true) empty_slot (flip_dialer <$> ys)).1 in
  at_a = at_b ∧
  at_a = fst <$> (match by_lower with [] => last xs | _ :: _ => last by_lower end).
Proof.
  intros low by_lower at_a at_b. unfold at_a, at_b. split.
  - rewrite !offers_kept. unfold kept.
    assert (Hf : List.filter (opened_by_lower b a) (flip_dialer <$> ys) =
                 flip_dialer <$> List.filter (opened_by_lower a b) ys).
    { clear Horder by_lower at_a at_b. induction ys as [|x ys IH]; [done|]. csimpl. rewrite IH.
      rewrite (opened_by_lower_flip a b x) by done. by destruct (opened_by_lower a b x). }
    rewrite Hf, !fmap_last. unfold opened_by_lower at 1 2. fold low.
    rewrite (Horder low).
    destruct (last (List.filter (λ x, Bool.eqb x.2 low) ys)) as [[c d]|] eqn:Hl; [done|].
    apply last_None_nil in Hl.
    assert (Hxs : xs = ys).
    { rewrite <- (filter_all (λ x, Bool.eqb x.2 (negb low)) xs),
        <- (filter_all (λ x, Bool.eqb x.2 (negb low)) ys); [apply Horder|..].
      - rewrite <- Hl. apply List.filter_ext. intros [c d]. by destruct d, low.
      - rewrite <- Hl, <- Horder. apply List.filter_ext. intros [c d]. by destruct d, low. }
    rewrite Hxs. by destruct (last ys) as [[c d]|].
  - rewrite offers_kept. unfold kept, opened_by_lower. fold low. fold by_lower.
    destruct by_lower as [|y l]; [by destruct (last xs) as [[c d]|]|].
    destruct (last (y :: l)) as [[c d]|] eqn:Hl; [done|]. by apply last_None_nil in Hl.
Qed.

(** No connection is leaked and none is closed that is held.
    Whatever connections an end is offered, live or dead, in whatever order,
    each is either the one it holds at the end or has been closed, once. *)
Theorem offers_conserve {C} (a b : K) (live : C → bool) (xs : list (C * bool)) :
  let '(s, closed) := offers a b live empty_slot xs in
  option_list (connection s) ++ closed.*1 ≡ₚ xs.*1.
Proof.
  induction xs as [|[c by_us] xs IH] using rev_ind; [by unfold offers; simpl|].
  rewrite offers_snoc, fmap_app. revert IH. destruct (offers _ _ _ _ xs) as [s cl].
  intros IH. unfold offer.
  destruct (resolve _ _ _ _ _); rewrite fmap_app; simpl; rewrite <- IH.
  - by rewrite app_assoc.
  - destruct (connection s) as [old|]; simpl.
    + rewrite <- !Permutation_cons_append. apply perm_swap.
    + rewrite app_nil_r. apply Permutation_cons_append.
Qed.
End dial_properties.

(** Each end dials once; the end with key 1 is the lower one. *)
Lemma both_ends_keep_the_same_witness :
  let at_a := Dial.connection (Dial.offers (1%N : ToyKey.key) 2%N (λ _, true) Dial.empty_slot
                                 [(10, true); (20, false)]).1 in
  at_a = Dial.connection (Dial.offers (2%N : ToyKey.key) 1%N (λ _, true) Dial.empty_slot
                            (flip_dialer <$> [(20, false); (10, true)])).1 ∧
  at_a = Some 10.
Proof.
  destruct (both_ends_keep_the_same (1%N : ToyKey.key) 2%N [(10, true); (20, false)]
    [(20, false); (10, true)]) as [Hsame Hkept]; [discriminate|by intros []|].
  split; [exact Hsame|exact Hkept].
Defined.
