(* ===== verification/Invite.v ===== *)
(** * Invitations ([src/src/core/invite.rs])

    An invitation is the issuer's key and a one-time code, printed with a dot
    between them; [accept] reads an invitation or a bare key. *)

From S2P Require Import Prelude RustStr Keys.

Module Invite.

Definition SEP : ascii := ".".

Record Invite (K : Type) : Type := mkInvite { key : K; code : string }.
Arguments mkInvite {K}.
Arguments key {K}.
Arguments code {K}.

(** [impl fmt::Display for Invite]. *)
Definition fmt {K} `{EndpointKey K} (i : Invite K) : string :=
  to_string (key i) +:+ String SEP EmptyString +:+ code i.

Inductive Handle (K : Type) : Type :=
| HandleInvite (i : Invite K)
| HandleKey (k : K).
Arguments HandleInvite {K}.
Arguments HandleKey {K}.

(** [Handle::key] and [Handle::code]. *)
Definition handle_key {K} (h : Handle K) : K :=
  match h with
  | HandleInvite i => key i
  | HandleKey k => k
  end.

Definition handle_code {K} (h : Handle K) : option string :=
  match h with
  | HandleInvite i => Some (code i)
  | HandleKey _ => None
  end.

(** [impl FromStr for Handle]. *)
Definition from_str {K} `{EndpointKey K} (s : string) : result (Handle K) :=
  let s := trim s in
  match split_once SEP s with
  | Some (k, c) =>
      if str_is_empty c then Err "invitation has no code"
      else match parse_key k with
           | Some k => Ok (HandleInvite (mkInvite k c))
           | None => Err "invitation has an invalid key"
           end
  | None =>
      match parse_key s with
      | Some k => Ok (HandleKey k)
      | None => Err "invalid key"
      end
  end.

End Invite.

(** ** Lemmas *)
Section invite_lemmas.
Context {K : Type} `{EndpointKeyLaws K}.
Import Invite.

Lemma fmt_graphic (i : Invite K) :
  Forall_str graphic (code i) → Forall_str graphic (fmt i).
Proof.
  intros Hc. unfold fmt. rewrite Forall_str_app. split; [apply to_string_graphic|].
  simpl. split; [|done]. unfold graphic. vm_compute. split; discriminate.
Qed.

Lemma fmt_nonempty (i : Invite K) : fmt i ≠ EmptyString.
Proof. unfold fmt. by destruct (to_string (key i)). Qed.

Lemma split_fmt (i : Invite K) :
  split_once SEP (fmt i) = Some (to_string (key i), code i).
Proof. unfold fmt. simpl. apply split_once_app, to_string_no_dot. Qed.

(** Reading a printed invitation, with white space around it or none. *)
Lemma from_str_fmt_ws (i : Invite K) w1 w2 :
  ws_string w1 → ws_string w2 →
  Forall_str graphic (code i) → code i ≠ EmptyString →
  from_str (w1 +:+ fmt i +:+ w2) = Ok (HandleInvite i).
Proof.
  intros H1 H2 Hg Hne. unfold from_str.
  rewrite trim_ws_around by auto using fmt_graphic, fmt_nonempty.
  rewrite split_fmt. destruct (code i) as [|c s] eqn:Hc; [done|]. simpl.
  rewrite parse_to_string. destruct i as [k c0]. simpl in *. by subst c0.
Qed.

Lemma from_str_fmt (i : Invite K) :
  Forall_str graphic (code i) → code i ≠ EmptyString →
  from_str (fmt i) = Ok (HandleInvite i).
Proof.
  intros Hg Hne.
  pose proof (from_str_fmt_ws i EmptyString EmptyString ws_string_nil ws_string_nil
                Hg Hne) as Hs.
  simpl in Hs. by rewrite str_app_nil_r in Hs.
Qed.

Lemma from_str_key (k : K) w1 w2 :
  ws_string w1 → ws_string w2 → to_string k ≠ EmptyString →
  from_str (w1 +:+ to_string k +:+ w2) = Ok (HandleKey k).
Proof.
  intros H1 H2 Hne. unfold from_str.
  rewrite trim_ws_around by auto using to_string_graphic.
  rewrite (proj2 (split_once_None SEP (to_string k))) by apply to_string_no_dot.
  by rewrite parse_to_string.
Qed.
End invite_lemmas.

(** ** Properties *)
Section invite_properties.
Context {K : Type} `{EndpointKeyLaws K}.
Import Invite.

(** What [invite] prints, [accept] reads back: whatever
    white space a paste put around it, the handle names the issuer's key and
    carries exactly the code; a bare key reads as that key with no code. *)
Theorem invite_roundtrip (i : Invite K) (w1 w2 : string)
    (H1 : ws_string w1) (H2 : ws_string w2)
    (Hgraphic : Forall_str graphic (code i)) (Hcode : code i ≠ EmptyString)
    (Hkey : to_string (key i) ≠ EmptyString) :
  from_str (w1 +:+ fmt i +:+ w2) = Ok (HandleInvite i) ∧
  from_str (w1 +:+ to_string (key i) +:+ w2) = Ok (HandleKey (key i)).
Proof. auto using from_str_fmt_ws, from_str_key. Qed.

(** [from_str] on every branch.  After trimming: no separator
    means the whole text must be a key; a separator splits at its first
    occurrence, and the text is an invitation exactly when something follows
    it and what precedes it is a key.  Nothing else is accepted. *)
Theorem from_str_spec (s : string) :
  match (from_str s : result (Handle K)) with
  | Ok (HandleInvite i) =>
      ∃ k, trim s = k +:+ String SEP (code i) ∧
           Forall_str (λ c, c ≠ SEP) k ∧
           parse_key k = Some (key i) ∧ code i ≠ EmptyString
  | Ok (HandleKey k) =>
      Forall_str (λ c, c ≠ SEP) (trim s) ∧ parse_key (trim s) = Some k
  | Err e =>
      (e = "invitation has no code" ∧
       ∃ k, trim s = k +:+ String SEP EmptyString ∧ Forall_str (λ c, c ≠ SEP) k) ∨
      (e = "invitation has an invalid key" ∧
       ∃ k c, trim s = k +:+ String SEP c ∧ Forall_str (λ c, c ≠ SEP) k ∧
              c ≠ EmptyString ∧ parse_key (K:=K) k = None) ∨
      (e = "invalid key" ∧ Forall_str (λ c, c ≠ SEP) (trim s) ∧
       parse_key (K:=K) (trim s) = None)
  end.
Proof.
  unfold from_str. destruct (split_once SEP (trim s)) as [[k c]|] eqn:Hs.
  - apply split_once_Some in Hs as [Hs Hk].
    destruct c as [|c0 c]; simpl; [left; eauto|].
    destruct (parse_key k) as [key|] eqn:Hp.
    + exists k. by rewrite Hs.
    + right; left. split; [done|]. by exists k, (String c0 c).
  - apply split_once_None in Hs. destruct (parse_key (trim s)) eqn:Hp; [done|].
    right; right. done.
Qed.
End invite_properties.

Lemma invite_roundtrip_witness :
  Invite.from_str (" " +:+ Invite.fmt (Invite.mkInvite (42%N : ToyKey.key) "ab12") +:+ " ") =
    Ok (Invite.HandleInvite (Invite.mkInvite 42%N "ab12")) ∧
  Invite.from_str (" " +:+ to_string (42%N : ToyKey.key) +:+ " ") =
    Ok (Invite.HandleKey (42%N : ToyKey.key)).
Proof.
  apply (invite_roundtrip (Invite.mkInvite (42%N : ToyKey.key) "ab12") " " " ").
  - exists [" "]. split; [repeat constructor; apply (bool_decide_unpack _); vm_compute; exact I|reflexivity].
  - exists [" "]. split; [repeat constructor; apply (bool_decide_unpack _); vm_compute; exact I|reflexivity].
  - simpl. repeat split; try (vm_compute; discriminate).
  - discriminate.
  - discriminate.
Defined.
