(* ===== verification/Store.v ===== *)
(** * Record files ([Pins] in [src/src/enroll.rs], [SurfaceStore] in
    [src/src/surface.rs])

    Both stores are a JSON list of records next to the daemon's key, read and
    written whole by every operation, with one record per key.  The two have
    the same code, so the operations are defined once, over the record type,
    its key and its codec.  [serde_json] is a parameter: a class with the law
    that what it writes it reads back. *)

From S2P Require Import Prelude RustStr.

Class JsonCodec (R : Type) : Type := {
  to_vec_pretty : list R → result bytes;
  from_slice : bytes → option (list R);
}.

Class JsonCodecLaws (R : Type) `{!JsonCodec R} : Prop := {
  from_slice_to_vec : ∀ l : list R, ∃ d, to_vec_pretty l = Ok d ∧ from_slice d = Some l;
}.

Module Store.

(** A file and what the operating system allows on it.  [exists] is whether
    [contents] is there; a failing write leaves the file as it was. *)
Record File : Type := mkFile {
  path : string;
  parent : option string;
  contents : option bytes;
  can_read : bool;
  can_create_dir : bool;
  can_write : bool;
}.

Definition with_contents (d : bytes) (f : File) : File :=
  mkFile (path f) (parent f) (Some d) (can_read f) (can_create_dir f) (can_write f).

Section store.
Context {R : Type} `{!JsonCodec R} (rkey : R → string).

Definition load (f : File) : result (list R) :=
  match contents f with
  | None => Ok []
  | Some data =>
      if can_read f
      then match from_slice data with
           | Some l => Ok l
           | None => Err ("failed to parse " +:+ path f)
           end
      else Err ("failed to read " +:+ path f)
  end.

Definition save (l : list R) (f : File) : File * result unit :=
  match (match parent f with
         | Some dir => if can_create_dir f then Ok tt
                       else Err ("failed to create " +:+ dir)
         | None => Ok tt
         end) with
  | Err e => (f, Err e)
  | Ok _ =>
      match to_vec_pretty l with
      | Err e => (f, Err e)
      | Ok data =>
          if can_write f then (with_contents data f, Ok tt)
          else (f, Err ("failed to write " +:+ path f))
      end
  end.

(** [records.retain(|r| r.key != key)]. *)
Definition retain_other (key : string) (l : list R) : list R :=
  filter (λ r, rkey r ≠ key) l.

Definition add (r : R) (f : File) : File * result unit :=
  match load f with
  | Err e => (f, Err e)
  | Ok l => save (retain_other (rkey r) l ++ [r]) f
  end.

Definition remove (key : string) (f : File) : File * result unit :=
  match load f with
  | Err e => (f, Err e)
  | Ok l => save (retain_other key l) f
  end.

(** ** What a store promises: a map from keys to records *)

Inductive op : Type :=
| OpAdd (r : R)
| OpRemove (key : string).

Definition run_op (f : File) (o : op) : File :=
  match o with
  | OpAdd r => (add r f).1
  | OpRemove key => (remove key f).1
  end.

Definition spec_op (m : gmap string R) (o : op) : gmap string R :=
  match o with
  | OpAdd r => <[rkey r := r]> m
  | OpRemove key => delete key m
  end.

Definition working (f : File) : Prop :=
  can_read f = true ∧ can_create_dir f = true ∧ can_write f = true.

(** The records of a file: one per key, and they are the map's. *)
Definition represents (f : File) (m : gmap string R) : Prop :=
  ∃ l, load f = Ok l ∧ NoDup (rkey <$> l) ∧ ∀ r, r ∈ l ↔ m !! rkey r = Some r.

End store.
End Store.

(** ** Lemmas *)
Section store_lemmas.
Context {R : Type} `{JsonCodecLaws R} (rkey : R → string).
Import Store.

Lemma load_save l f :
  working f → ∃ f', save l f = (f', Ok tt) ∧ working f' ∧ load f' = Ok l.
Proof.
  intros (Hr & Hd & Hw). unfold save. rewrite Hd, Hw.
  destruct (from_slice_to_vec l) as (d & -> & Hl).
  exists (with_contents d f). split; [by destruct (parent f)|]. split; [done|]. unfold load. simpl. by rewrite Hr, Hl.
Qed.

Lemma elem_of_retain key l r : r ∈ retain_other rkey key l ↔ r ∈ l ∧ rkey r ≠ key.
Proof. unfold retain_other. rewrite list_elem_of_filter. tauto. Qed.

Lemma NoDup_retain key l : NoDup (rkey <$> l) → NoDup (rkey <$> retain_other rkey key l).
Proof.
  unfold retain_other. induction l as [|r l IH]; csimpl; [done|].
  rewrite NoDup_cons. intros [Hr Hl]. rewrite filter_cons. case_decide; csimpl; [|auto].
  apply NoDup_cons. split; [|auto].
  intros (r' & Heq & Hin)%list_elem_of_fmap. apply list_elem_of_filter in Hin as [_ Hin].
  apply Hr. rewrite Heq. by apply list_elem_of_fmap_2.
Qed.

Lemma add_represents r f m :
  working f → represents rkey f m →
  ∃ f', add rkey r f = (f', Ok tt) ∧ working f' ∧
        represents rkey f' (<[rkey r := r]> m).
Proof.
  intros Hwork (l & Hl & Hnd & Hlm). unfold add. rewrite Hl.
  destruct (load_save (retain_other rkey (rkey r) l ++ [r]) f Hwork) as (f' & -> & Hf' & Hload).
  exists f'. split; [done|]. split; [done|]. exists (retain_other rkey (rkey r) l ++ [r]).
  split; [done|]. split.
  - rewrite fmap_app. apply NoDup_app. split_and!; [by apply NoDup_retain| |apply NoDup_singleton].
    intros k (r' & -> & Hin)%list_elem_of_fmap. apply elem_of_retain in Hin as [_ Hne].
    csimpl. by rewrite list_elem_of_singleton.
  - intros r'. rewrite elem_of_app, elem_of_retain, list_elem_of_singleton, Hlm.
    destruct (decide (rkey r' = rkey r)) as [Heq|Hne].
    + rewrite Heq, lookup_insert_eq. naive_solver.
    + rewrite lookup_insert_ne by done. naive_solver.
Qed.

Lemma remove_represents key f m :
  working f → represents rkey f m →
  ∃ f', remove rkey key f = (f', Ok tt) ∧ working f' ∧ represents rkey f' (delete key m).
Proof.
  intros Hwork (l & Hl & Hnd & Hlm). unfold remove. rewrite Hl.
  destruct (load_save (retain_other rkey key l) f Hwork) as (f' & -> & Hf' & Hload).
  exists f'. split; [done|]. split; [done|]. exists (retain_other rkey key l).
  split; [done|]. split; [by apply NoDup_retain|].
  intros r'. rewrite elem_of_retain, Hlm.
  destruct (decide (rkey r' = key)) as [<-|Hne].
  - rewrite lookup_delete_eq. naive_solver.
  - rewrite lookup_delete_ne by done. naive_solver.
Qed.

(** A file nothing can be written to is left alone. *)
Lemma add_error r f f' e : add rkey r f = (f', Err e) → f' = f.
Proof. unfold add, save. intros. repeat case_match; simplify_eq/=; done. Qed.

Lemma remove_error key f f' e : remove rkey key f = (f', Err e) → f' = f.
Proof. unfold remove, save. intros. repeat case_match; simplify_eq/=; done. Qed.

End store_lemmas.

#[export] Hint Resolve add_represents remove_represents : pai_sho.

(** ** Properties *)
Section store_properties.
Context {R : Type} `{JsonCodecLaws R} (rkey : R → string).
Import Store.

(** On a disk that works, a store is a map: after any history
    of [add] and [remove] on a missing file, loading it succeeds and returns
    one record per key, which are those the same history leaves in the map. *)
Theorem store_refines_map (f : File) (os : list op)
    (Hfresh : contents f = None) (Hworks : working f) :
  represents rkey (foldl (run_op rkey) f os) (foldl (spec_op rkey) ∅ os).
Proof.
  assert (Hrep : represents rkey f ∅).
  { exists []. unfold load. rewrite Hfresh. split; [done|]. split; [constructor|].
    intros r. rewrite lookup_empty. set_solver. }
  clear Hfresh. revert f Hworks Hrep. generalize (∅ : gmap string R).
  induction os as [|o os IH]; simpl; intros m f Hw Hrep; [done|].
  destruct o as [r|key]; simpl.
  - destruct (add_represents rkey r f m Hw Hrep) as (f' & Heq & ? & ?).
    rewrite Heq. by apply IH.
  - destruct (remove_represents rkey key f m Hw Hrep) as (f' & Heq & ? & ?).
    rewrite Heq. by apply IH.
Qed.
End store_properties.

(** ** A concrete codec: the one number that encodes the list *)
Definition countable_codec {R} `{Countable R} : JsonCodec R := {|
  to_vec_pretty l := Ok [Zpos (encode l)];
  from_slice d := match d with [Zpos p] => decode p | _ => None end;
|}.

Lemma countable_codec_laws {R} `{Countable R} : @JsonCodecLaws R countable_codec.
Proof. split. intros l. eexists. split; [reflexivity|]. simpl. apply decode_encode. Qed.
