(* ===== verification/Enroll.v ===== *)
(** * Enrollment ([src/src/enroll.rs])

    One-time tokens, in memory, and the pins persisted next to the key.  The
    random bytes a token is minted from and the clock are arguments; an
    [Instant] is a number of nanoseconds. *)

From S2P Require Import Prelude RustStr Store.

Module Tokens.

(** How long a minted token stays claimable: five minutes. *)
Definition TOKEN_TTL : Z := 5 * 60 * 1000000000.

Record PendingToken : Type := mkPendingToken {
  name : option string;
  ports : list Z;
  expires : Z;
}.

Record Claimed : Type := mkClaimed {
  claimed_name : option string;
  claimed_ports : list Z;
}.

Record Tokens : Type := mkTokens { pending : gmap string PendingToken }.

Definition default_tokens : Tokens := mkTokens ∅.

Definition mint_with_ttl (random : bytes) (now : Z) (name : option string)
    (ports : list Z) (ttl : Z) (t : Tokens) : Tokens * string :=
  let token := hex_string random in
  (mkTokens (<[token := mkPendingToken name ports (now + ttl)]> (pending t)), token).

Definition mint (random : bytes) (now : Z) (name : option string) (ports : list Z)
    (t : Tokens) : Tokens * string :=
  mint_with_ttl random now name ports TOKEN_TTL t.

(** [pending.retain(|_, t| t.expires > now)]. *)
Definition retain_live (now : Z) (m : gmap string PendingToken) : gmap string PendingToken :=
  filter (λ p : string * PendingToken, now < expires p.2)%Z m.

(** Drop what has expired, then take the token out. *)
Definition claim (now : Z) (token : string) (t : Tokens) : Tokens * option Claimed :=
  let live := retain_live now (pending t) in
  match live !! token with
  | Some p => (mkTokens (delete token live), Some (mkClaimed (name p) (ports p)))
  | None => (mkTokens live, None)
  end.

End Tokens.

Module Pins.

Record Pin : Type := mkPin { key : string; label : option string }.

#[global] Instance pin_eq_dec : EqDecision Pin.
Proof. solve_decision. Defined.

#[global] Instance pin_countable : Countable Pin.
Proof.
  apply (inj_countable' (λ p, (key p, label p)) (λ '(k, l), mkPin k l)). by intros [].
Defined.

Section pins.
Context `{!JsonCodec Pin}.

Definition load (f : Store.File) : result (list Pin) := Store.load f.

Definition save (pins : list Pin) (f : Store.File) : Store.File * result unit :=
  Store.save pins f.

Definition add (k : string) (l : option string) (f : Store.File) :
    Store.File * result unit :=
  Store.add key (mkPin k l) f.

Definition remove (k : string) (f : Store.File) : Store.File * result unit :=
  Store.remove key k f.

End pins.
End Pins.

(** ** Lemmas *)
Import Tokens.

Lemma retain_live_lookup now m tok p :
  retain_live now m !! tok = Some p ↔ m !! tok = Some p ∧ (now < expires p)%Z.
Proof. unfold retain_live. by rewrite map_lookup_filter_Some. Qed.

Lemma claim_lookup now token t :
  (claim now token t).2 =
  match pending t !! token with
  | Some p => if decide (now < expires p)%Z then Some (mkClaimed (name p) (ports p)) else None
  | None => None
  end.
Proof.
  unfold claim. destruct (retain_live now (pending t) !! token) as [p|] eqn:Hl; simpl.
  - apply retain_live_lookup in Hl as [-> ?]. by rewrite decide_True.
  - destruct (pending t !! token) as [p|] eqn:Hp; [|done]. case_decide; [|done].
    assert (retain_live now (pending t) !! token = Some p)
      by (by apply retain_live_lookup).
    congruence.
Qed.

(** What is left pending: everything unexpired but the claimed token. *)
Lemma claim_pending now token t other p :
  pending (claim now token t).1 !! other = Some p ↔
  other ≠ token ∧ pending t !! other = Some p ∧ (now < expires p)%Z.
Proof.
  unfold claim. pose proof (retain_live_lookup now (pending t)) as Hlive.
  set (live := retain_live now (pending t)) in *.
  destruct (live !! token) as [q|] eqn:Hq; simpl.
  - rewrite lookup_delete_Some, Hlive. naive_solver.
  - rewrite Hlive. split; [|naive_solver]. intros [Ho He]. split_and!; [|done..].
    intros ->. assert (live !! token = Some p) by (apply Hlive; done). congruence.
Qed.

Lemma claim_spent now token t : pending (claim now token t).1 !! token = None.
Proof.
  destruct (pending (claim now token t).1 !! token) as [p|] eqn:Hp; [|done].
  by apply claim_pending in Hp as [? _].
Qed.

(** A token that is not pending can only become so by being minted. *)
Lemma claim_keeps_absent now token t other :
  pending t !! other = None → pending (claim now token t).1 !! other = None.
Proof.
  intros Hn. destruct (pending (claim now token t).1 !! other) as [p|] eqn:Hp; [|done].
  apply claim_pending in Hp as (_ & Hp & _). congruence.
Qed.

Lemma mint_pending random now n ps t other :
  pending (mint random now n ps t).1 !! other =
  if decide (other = hex_string random)
  then Some (mkPendingToken n ps (now + TOKEN_TTL))
  else pending t !! other.
Proof.
  unfold mint, mint_with_ttl. simpl. case_decide; [subst; apply lookup_insert_eq|].
  by apply lookup_insert_ne.
Qed.

#[export] Hint Rewrite claim_lookup mint_pending : pai_sho.
#[export] Hint Resolve claim_spent claim_keeps_absent : pai_sho.

(** A token's life seen from outside: minted, then claims at given times. *)
Definition run_claims (t : Tokens) (cs : list (Z * string)) : Tokens * list (option Claimed) :=
  foldl (λ '(t, outs) '(now, tok), let '(t, out) := claim now tok t in (t, outs ++ [out]))
        (t, []) cs.

Lemma run_claims_snoc t cs now tok :
  run_claims t (cs ++ [(now, tok)]) =
  let '(t', outs) := run_claims t cs in
  let '(t'', out) := claim now tok t' in (t'', outs ++ [out]).
Proof. unfold run_claims. rewrite foldl_snoc. by destruct (foldl _ _ _). Qed.

(** What is pending after claims: what was, never claimed and never expired at
    any of them. *)
Lemma run_claims_pending t cs tok p :
  pending (run_claims t cs).1 !! tok = Some p ↔
  pending t !! tok = Some p ∧ Forall (λ c, c.2 ≠ tok ∧ (c.1 < expires p)%Z) cs.
Proof.
  induction cs as [|[now tok'] cs IH] using rev_ind; [simpl; naive_solver|].
  rewrite run_claims_snoc, Forall_app, Forall_singleton.
  destruct (run_claims t cs) as [t' outs]. simpl in IH.
  pose proof (claim_pending now tok' t' tok p) as Hc.
  destruct (claim now tok' t') as [t'' out]. simpl in *. rewrite Hc, IH. naive_solver.
Qed.

(** ** Properties *)

(** A minted token is claimed at most once, only by its exact
    text, and only within its five minutes.  After minting, whatever claims
    came before (of any tokens, at any times), a claim of the minted token at
    [now] returns what the issuer attached exactly when no earlier claim named
    it, none came after its expiry and [now] is before it; otherwise it
    returns nothing. *)
Theorem token_single_use (random : bytes) (minted now : Z) (n : option string)
    (ps : list Z) (t : Tokens) (cs : list (Z * string)) :
  let '(t1, token) := mint random minted n ps t in
  let t2 := (run_claims t1 cs).1 in
  (claim now token t2).2 =
  if decide (Forall (λ c, c.2 ≠ token ∧ (c.1 < minted + TOKEN_TTL)%Z) cs ∧
             (now < minted + TOKEN_TTL)%Z)
  then Some (mkClaimed n ps) else None.
Proof.
  pose proof (mint_pending random minted n ps t (hex_string random)) as Hm.
  rewrite decide_True in Hm by done.
  unfold mint, mint_with_ttl in *. simpl in *. rewrite claim_lookup.
  set (t1 := mkTokens _) in *. set (token := hex_string random) in *.
  destruct (pending (run_claims t1 cs).1 !! token) as [p|] eqn:Hp.
  - apply run_claims_pending in Hp as [Hp Hcs]. simpl in *. simplify_eq/=.
    repeat case_decide; naive_solver.
  - case_decide as Hd; [|done]. destruct Hd as [Hcs _].
    assert (pending (run_claims t1 cs).1 !! token =
            Some (mkPendingToken n ps (minted + TOKEN_TTL)))
      by (apply run_claims_pending; done).
    congruence.
Qed.

Section store_witness.
#[local] Existing Instance countable_codec.
#[local] Instance pins_codec_laws : JsonCodecLaws Pins.Pin := countable_codec_laws.

Lemma store_refines_map_witness :
  let f := Store.mkFile "pins.json" None None true true true in
  let a := Pins.mkPin "k1" (Some "laptop") in
  let b := Pins.mkPin "k2" None in
  let f' := foldl (Store.run_op Pins.key) f
              [Store.OpAdd a; Store.OpAdd b; Store.OpRemove "k1"] in
  ∃ l, Pins.load f' = Ok l ∧ ∀ r, r ∈ l ↔ r = b.
Proof.
  intros f a b f'.
  destruct (store_refines_map Pins.key f [Store.OpAdd a; Store.OpAdd b; Store.OpRemove "k1"]
              eq_refl ltac:(by repeat split)) as (l & Hl & _ & Hin).
  exists l. split; [exact Hl|]. intros r. rewrite Hin. simpl. split.
  - intros Hr. destruct (decide (Pins.key r = "k1")) as [Hk|Hk].
    + rewrite Hk, lookup_delete_eq in Hr. done.
    + rewrite lookup_delete_ne in Hr by done.
      destruct (decide (Pins.key r = "k2")) as [Hk2|Hk2].
      * rewrite Hk2, lookup_insert_eq in Hr. by injection Hr.
      * rewrite !lookup_insert_ne, lookup_empty in Hr by done. done.
  - intros ->. by vm_compute.
Defined.
End store_witness.
