(* ===== verification/Protocol.v ===== *)
(** * Messages ([src/src/protocol.rs])

    The requests and responses of the control socket and the messages of the
    peer protocol.  Their JSON form is in [Codec.v]. *)

From S2P Require Import Prelude RustStr.

Module Protocol.

Definition ALPN : string := "PAI_SHO/1".

(** [env!("CARGO_PKG_VERSION")]. *)
Definition VERSION : string := "0.5.5-dev".

(** ** Client and daemon *)

Inductive Request : Type :=
| ReqInvite (key : option string) (name : option string) (expose : list Z)
| ReqAccept (handle : string) (name : option string)
| ReqForget (peer : string)
| ReqExpose (port : Z) (to : list string) (all : bool)
| ReqUnexpose (port : Z) (to : option string)
| ReqList
| ReqKey
| ReqProject (peer : string) (ip : option string) (name : option string)
| ReqUnproject (peer : string).

Record GrantInfo : Type := mkGrantInfo { gi_port : Z; gi_to : string }.

Record PeerInfo : Type := mkPeerInfo {
  pi_key : string;
  pi_name : option string;
  pi_version : option string;
  pi_online : bool;
  pi_admission : string;
  pi_they_expose : list Z;
  pi_ip : option string;
  pi_bound : list Z;
}.

Record ListInfo : Type := mkListInfo {
  li_me : string;
  li_cli : string;
  li_daemon : string;
  li_peers : list PeerInfo;
  li_i_expose : list Z;
  li_grants : list GrantInfo;
}.

Inductive Response : Type :=
| RespOk
| RespKey (key : string)
| RespList (info : ListInfo)
| RespInvite (invite : string)
| RespError (e : string).

(** ** Peer and peer *)

Inductive PeerMessage : Type :=
| ExposedPorts (ports : list Z)
| Connect (port : Z)
| Enroll (token : string) (version : option string)
| MsgError (e : string).

#[global] Instance peer_message_eq_dec : EqDecision PeerMessage.
Proof. solve_decision. Defined.

(** [PeerMessage::enroll]. *)
Definition enroll (token : string) : PeerMessage := Enroll token (Some VERSION).

(** ** Types

    The ports of a value of the code are [u16]s; these say so of the model's. *)

Definition typed_message (msg : PeerMessage) : Prop :=
  match msg with
  | ExposedPorts ports => u16s ports
  | Connect port => u16_range port
  | _ => True
  end.

Definition typed_request (req : Request) : Prop :=
  match req with
  | ReqInvite _ _ expose => u16s expose
  | ReqExpose port _ _ | ReqUnexpose port _ => u16_range port
  | _ => True
  end.

Definition typed_peer (p : PeerInfo) : Prop := u16s (pi_they_expose p) ∧ u16s (pi_bound p).

Definition typed_list (info : ListInfo) : Prop :=
  Forall typed_peer (li_peers info) ∧ u16s (li_i_expose info) ∧
  Forall (λ g, u16_range (gi_port g)) (li_grants info).

Definition typed_response (r : Response) : Prop :=
  match r with
  | RespList info => typed_list info
  | _ => True
  end.

End Protocol.
