(* ===== verification/Session.v ===== *)
(** * Admission and authorization ([src/src/core/session.rs])

    [Module Session] is the state machine: a [Session] record, and one
    function per method, returning the new state and the actions for the
    shell.  [Module History] runs a list of method calls from the empty
    session, the vocabulary of the properties. *)

From S2P Require Import Prelude RustStr Keys Grants Enroll Protocol.

Module Session.

Inductive Admission : Type := Added | Code | Key.

Inductive Refusal : Type := NotAuthorized | EnrollTimeout | NotGranted.

#[global] Instance admission_eq_dec : EqDecision Admission.
Proof. solve_decision. Defined.

#[global] Instance refusal_eq_dec : EqDecision Refusal.
Proof. solve_decision. Defined.

(** [Admission::as_str] and [Refusal::as_str]. *)
Definition admission_str (a : Admission) : string :=
  match a with Added => "added" | Code => "code" | Key => "key" end.

Definition refusal_str (r : Refusal) : string :=
  match r with
  | NotAuthorized => "not authorized"
  | EnrollTimeout => "enroll timeout"
  | NotGranted => "not granted"
  end.

Definition SHORT_KEY : nat := 8.

(** What to call a peer nothing named: the first characters of its key. *)
Definition default_name {K} `{EndpointKey K} (key : K) : string :=
  take_chars SHORT_KEY (to_string key).

(** Connection ids are [u64]s. *)
Definition ConnId : Type := Z.

Inductive Action (K : Type) : Type :=
| Admit (conn : ConnId) (peer : K) (replacing : bool)
| Refuse (conn : ConnId) (reason : Refusal)
| Announce (peer : K) (ports : list Z)
| ApplyPorts (peer : K) (ports : list Z)
| ServeTunnel (port : Z)
| RejectTunnel (reason : Refusal)
| PersistPin (key : K) (label : option string)
| DropPin (key : K).
Arguments Admit {K}.
Arguments Refuse {K}.
Arguments Announce {K}.
Arguments ApplyPorts {K}.
Arguments ServeTunnel {K}.
Arguments RejectTunnel {K}.
Arguments PersistPin {K}.
Arguments DropPin {K}.

#[global] Instance action_eq_dec {K} `{EqDecision K} : EqDecision (Action K).
Proof. solve_decision. Defined.

(** The source's [Admitted]. *)
Record AdmittedPeer : Type := mkAdmitted { label : option string; admission : Admission }.

Record Pending : Type := mkPending { early_ports : option (list Z) }.

Section session.
Context {K : Type} `{!EndpointKey K}.

Record Session : Type := mkSession {
  grants : Grants.Grants K;
  tokens : Tokens.Tokens;
  peers : gmap K AdmittedPeer;
  pending : gmap ConnId Pending;
}.

Definition new : Session :=
  mkSession Grants.default_grants Tokens.default_tokens ∅ ∅.

Definition with_grants (g : Grants.Grants K) (s : Session) : Session :=
  mkSession g (tokens s) (peers s) (pending s).

Definition with_tokens (t : Tokens.Tokens) (s : Session) : Session :=
  mkSession (grants s) t (peers s) (pending s).

Definition with_peers (p : gmap K AdmittedPeer) (s : Session) : Session :=
  mkSession (grants s) (tokens s) p (pending s).

Definition with_pending (p : gmap ConnId Pending) (s : Session) : Session :=
  mkSession (grants s) (tokens s) (peers s) p.

(** ** Access *)

Definition on_tunnel (peer : K) (port : Z) (s : Session) : Action K :=
  if Grants.allows port peer (grants s) then ServeTunnel port
  else RejectTunnel NotGranted.

Definition announce (peer : K) (s : Session) : Action K :=
  Announce peer (Grants.ports_for peer (grants s)).

Definition announce_all (s : Session) : list (Action K) :=
  (λ k, announce k s) <$> btree_keys (peers s).

Definition expose (port : Z) (to : list K) (s : Session) : Session * list (Action K) :=
  let s := with_grants (foldl (λ g grantee, Grants.add port grantee g) (grants s) to) s in
  (s, announce_all s).

Definition unexpose (port : Z) (to : option K) (s : Session) : Session * list (Action K) :=
  let s := with_grants (Grants.remove port to (grants s)) s in
  (s, announce_all s).

(** ** Admission *)

Definition admit_known (key : K) (label : option string) (admission : Admission)
    (s : Session) : Session * bool :=
  match peers s !! key with
  | Some _ => (s, false)
  | None => (with_peers (<[key := mkAdmitted label admission]> (peers s)) s, true)
  end.

Definition on_inbound (conn : ConnId) (remote : K) (s : Session) :
    Session * list (Action K) :=
  match peers s !! remote with
  | Some _ => (s, [Admit conn remote true; announce remote s])
  | None => (with_pending (<[conn := mkPending None]> (pending s)) s, [])
  end.

(** [pending.remove(&conn).and_then(|p| p.early_ports).unwrap_or_default()]. *)
Definition early_of (conn : ConnId) (s : Session) : list Z :=
  match pending s !! conn with
  | Some p => default [] (early_ports p)
  | None => []
  end.

Definition on_unadmitted (conn : ConnId) (remote : K) (msg : Protocol.PeerMessage)
    (now : Z) (s : Session) : Session * list (Action K) :=
  match msg with
  | Protocol.Enroll token _ =>
      let '(tokens', verdict) := Tokens.claim now token (tokens s) in
      let s := with_tokens tokens' s in
      match verdict with
      | Some claimed =>
          let early := early_of conn s in
          let s := with_pending (delete conn (pending s)) s in
          let s := with_peers
                     (<[remote := mkAdmitted (Tokens.claimed_name claimed) Code]> (peers s)) s in
          let s := with_grants
                     (foldl (λ g port, Grants.add port remote g) (grants s)
                        (Tokens.claimed_ports claimed)) s in
          (s, [Admit conn remote false; PersistPin remote (Tokens.claimed_name claimed)]
                ++ match early with
                   | [] => []
                   | _ :: _ => [ApplyPorts remote early]
                   end
                ++ [announce remote s])
      | None =>
          (with_pending (delete conn (pending s)) s, [Refuse conn NotAuthorized])
      end
  | Protocol.ExposedPorts ports =>
      match pending s !! conn with
      | Some p => (with_pending (<[conn := mkPending (Some ports)]> (pending s)) s, [])
      | None => (s, [])
      end
  | _ => (s, [])
  end.

Definition on_enroll_timeout (conn : ConnId) (s : Session) : Session * list (Action K) :=
  match pending s !! conn with
  | None => (s, [])
  | Some _ => (with_pending (delete conn (pending s)) s, [Refuse conn EnrollTimeout])
  end.

Definition evict (peer : K) (s : Session) : Session * list (Action K) :=
  match peers s !! peer with
  | None => (s, [])
  | Some _ =>
      (with_grants (Grants.revoke_grantee peer (grants s))
         (with_peers (delete peer (peers s)) s),
       [DropPin peer])
  end.

(** ** Queries *)

Definition peer_keys (s : Session) : list K := btree_keys (peers s).

(** The keys of the peers labelled [peer_ref], in key order. *)
Definition labelled (peer_ref : string) (s : Session) : list K :=
  filter (λ k, (p ← peers s !! k; label p) = Some peer_ref) (btree_keys (peers s)).

Definition resolve_grantee (peer_ref : string) (s : Session) : result K :=
  match parse_key peer_ref with
  | Some key => Ok key
  | None =>
      match labelled peer_ref s with
      | [key] => Ok key
      | _ :: _ :: _ => Err ("more than one peer is named " +:+ peer_ref +:+ ", use its key")
      | [] => Err ("no peer key or name matches " +:+ peer_ref)
      end
  end.

Definition admission_of (peer : K) (s : Session) : option Admission :=
  admission <$> peers s !! peer.

Definition label_of (peer : K) (s : Session) : option string :=
  p ← peers s !! peer; label p.

Definition mint_token (random : bytes) (now : Z) (name : option string) (ports : list Z)
    (s : Session) : Session * string :=
  let '(t, token) := Tokens.mint random now name ports (tokens s) in
  (with_tokens t s, token).

Definition granted_ports (s : Session) : list Z := Grants.ports (grants s).

Definition all_grants (s : Session) : list (Z * K) := Grants.all (grants s).

End session.
Arguments Session K {_}.
End Session.

(** ** Histories of calls *)
Module History.
Import Session.
Section history.
Context {K : Type} `{!EndpointKey K}.

Inductive Event : Type :=
| EvAdmitKnown (key : K) (label : option string) (admission : Admission)
| EvInbound (conn : ConnId) (remote : K)
| EvUnadmitted (conn : ConnId) (remote : K) (msg : Protocol.PeerMessage) (now : Z)
| EvEnrollTimeout (conn : ConnId)
| EvEvict (peer : K)
| EvTunnel (peer : K) (port : Z)
| EvAnnounce (peer : K)
| EvExpose (port : Z) (to : list K)
| EvUnexpose (port : Z) (to : option K)
| EvMint (random : bytes) (now : Z) (name : option string) (ports : list Z).

Definition step (s : Session K) (e : Event) : Session K * list (Action K) :=
  match e with
  | EvAdmitKnown key l a => ((admit_known key l a s).1, [])
  | EvInbound conn remote => on_inbound conn remote s
  | EvUnadmitted conn remote msg now => on_unadmitted conn remote msg now s
  | EvEnrollTimeout conn => on_enroll_timeout conn s
  | EvEvict peer => evict peer s
  | EvTunnel peer port => (s, [on_tunnel peer port s])
  | EvAnnounce peer => (s, [announce peer s])
  | EvExpose port to => expose port to s
  | EvUnexpose port to => unexpose port to s
  | EvMint random now n ps => ((mint_token random now n ps s).1, [])
  end.

Definition run (s : Session K) (es : list Event) : Session K :=
  foldl (λ s e, (step s e).1) s es.

(** The claim a call makes good on, if it does: the calling peer and what the
    issuer attached to the code. *)
Definition claims (s : Session K) (e : Event) : option (K * Tokens.Claimed) :=
  match e with
  | EvUnadmitted _ remote (Protocol.Enroll token _) now =>
      c ← (Tokens.claim now token (tokens s)).2; Some (remote, c)
  | _ => None
  end.

(** Does this call, in this state, grant [port] to [k]?  Revoke it? *)
Definition grants_to (s : Session K) (e : Event) (port : Z) (k : K) : Prop :=
  match e with
  | EvExpose p to => p = port ∧ k ∈ to
  | _ => match claims s e with
         | Some (remote, c) => remote = k ∧ port ∈ Tokens.claimed_ports c
         | None => False
         end
  end.

Definition revokes_from (s : Session K) (e : Event) (port : Z) (k : K) : Prop :=
  match e with
  | EvUnexpose p to => p = port ∧ (to = None ∨ to = Some k)
  | EvEvict peer => peer = k ∧ is_Some (peers s !! k)
  | _ => False
  end.

(** Does this call, in this state, admit [k]?  Evict it? *)
Definition admits (s : Session K) (e : Event) (k : K) : Prop :=
  match e with
  | EvAdmitKnown key _ _ => key = k
  | _ => match claims s e with
         | Some (remote, _) => remote = k
         | None => False
         end
  end.

Definition evicts (e : Event) (k : K) : Prop :=
  match e with
  | EvEvict peer => peer = k
  | _ => False
  end.

(** No call of [es], run from [s], satisfies [P]. *)
Definition none_along (P : Session K → Event → Prop) : Session K → list Event → Prop :=
  never (λ s e, (step s e).1) P.

(** Some call of the history satisfies [P], and none after it satisfies [Q]. *)
Definition last_is (P Q : Session K → Event → Prop) : Session K → list Event → Prop :=
  since (λ s e, (step s e).1) P Q.

End history.
Arguments Event K : clear implicits.
End History.

(** ** Lemmas *)
Section session_lemmas.
Context {K : Type} `{!EndpointKey K}.
Import Session History.
Implicit Types (s : Session K) (e : Event K) (k : K).

Lemma allows_add_keys p k port to (g : Grants.Grants K) :
  Grants.allows p k (foldl (λ g grantee, Grants.add port grantee g) g to) = true ↔
  (port = p ∧ k ∈ to) ∨ Grants.allows p k g = true.
Proof.
  revert g. induction to as [|x to IH]; simpl; intros g; [set_solver|].
  rewrite IH, allows_add. set_solver.
Qed.

Lemma allows_add_ports p k remote ps (g : Grants.Grants K) :
  Grants.allows p k (foldl (λ g port, Grants.add port remote g) g ps) = true ↔
  (remote = k ∧ p ∈ ps) ∨ Grants.allows p k g = true.
Proof.
  revert g. induction ps as [|x ps IH]; simpl; intros g; [set_solver|].
  rewrite IH, allows_add. set_solver.
Qed.

Lemma wf_add_keys port to (g : Grants.Grants K) :
  Grants.wf g → Grants.wf (foldl (λ g grantee, Grants.add port grantee g) g to).
Proof. revert g. induction to; simpl; auto using wf_add. Qed.

Lemma wf_add_ports remote ps (g : Grants.Grants K) :
  Grants.wf g → Grants.wf (foldl (λ g port, Grants.add port remote g) g ps).
Proof. revert g. induction ps; simpl; auto using wf_add. Qed.

Lemma on_tunnel_serves k port s :
  on_tunnel k port s = ServeTunnel port ↔ Grants.allows port k (grants s) = true.
Proof. unfold on_tunnel. by destruct (Grants.allows _ _ _). Qed.

(** One call's effect on the grants and on the admitted peers. *)
Lemma allows_step s e port k :
  Grants.allows port k (grants (step s e).1) = true ↔
  grants_to s e port k ∨
  (Grants.allows port k (grants s) = true ∧ ¬ revokes_from s e port k).
Proof.
  destruct e as [| |conn remote msg now| |peer| | |p to|p to|];
    simpl; try (unfold admit_known, on_inbound, on_enroll_timeout; case_match; simpl; tauto);
    try tauto.
  - destruct msg as [ps| |token v|]; simpl; try tauto; [by case_match; simpl; tauto|].
    destruct (Tokens.claim now token (tokens s)) as [t' [c|]]; simpl; [|tauto].
    rewrite allows_add_ports. tauto.
  - unfold evict. destruct (peers s !! peer) as [a|] eqn:Hp; simpl.
    + rewrite allows_revoke. split; [naive_solver|].
      intros [[]|[? Hn]]. split; [done|]. intros ->. apply Hn. by rewrite Hp.
    + split; [|naive_solver]. intros ?. right. split; [done|].
      intros [-> [? ?]]. congruence.
  - rewrite allows_add_keys. tauto.
  - rewrite allows_remove. destruct to; naive_solver.
Qed.

Lemma admitted_step s e k :
  is_Some (peers (step s e).1 !! k) ↔
  admits s e k ∨ (is_Some (peers s !! k) ∧ ¬ evicts e k).
Proof.
  destruct e as [key l a|conn remote|conn remote msg now|conn|peer| | | | |];
    simpl; try (unfold on_enroll_timeout; case_match; simpl; tauto); try tauto.
  - unfold admit_known. destruct (peers s !! key) eqn:Hk; simpl.
    + split; [naive_solver|]. intros [->|[? _]]; [by rewrite Hk|done].
    + destruct (decide (key = k)) as [->|Hne].
      * rewrite lookup_insert_eq. naive_solver.
      * rewrite lookup_insert_ne by done. naive_solver.
  - unfold on_inbound. case_match; simpl; tauto.
  - destruct msg as [ps| |token v|]; simpl; try tauto; [by case_match; simpl; tauto|].
    destruct (Tokens.claim now token (tokens s)) as [t' [c|]]; simpl; [|tauto].
    destruct (decide (remote = k)) as [->|Hne].
    + rewrite lookup_insert_eq. naive_solver.
    + rewrite lookup_insert_ne by done. naive_solver.
  - unfold evict. destruct (peers s !! peer) eqn:Hp; simpl.
    + rewrite lookup_delete_is_Some. naive_solver.
    + split; [|naive_solver]. intros [a Ha]. right. split; [by eexists|].
      intros ->. congruence.
Qed.

(** A fact that calls set and clear holds after a history exactly when some
    call set it and none cleared it since. *)
Lemma last_is_new (I : Session K → Prop) (P Q : Session K → Event K → Prop) es :
  ¬ I new → (∀ s e, I (step s e).1 ↔ P s e ∨ (I s ∧ ¬ Q s e)) →
  I (run new es) ↔ last_is P Q new es.
Proof.
  intros Hnew Hstep. unfold run, last_is.
  rewrite (since_spec _ (λ _, True) I P Q) by (auto; intros ? ? _; apply Hstep). tauto.
Qed.

(** ** Tokens along a history *)

Definition mints (token : string) (p : Tokens.PendingToken) (_ : Session K) (e : Event K) : Prop :=
  match e with
  | EvMint random now n ps =>
      hex_string random = token ∧ p = Tokens.mkPendingToken n ps (now + Tokens.TOKEN_TTL)
  | _ => False
  end.

(** The token is presented (spent), minted again (replaced), or some token is
    presented after it has expired (dropped). *)
Definition spends (token : string) (p : Tokens.PendingToken) (_ : Session K) (e : Event K) : Prop :=
  match e with
  | EvMint random _ _ _ => hex_string random = token
  | EvUnadmitted _ _ (Protocol.Enroll token' _) now =>
      token' = token ∨ (Tokens.expires p <= now)%Z
  | _ => False
  end.

Lemma token_step s e token p :
  Tokens.pending (tokens (step s e).1) !! token = Some p ↔
  mints token p s e ∨
  (Tokens.pending (tokens s) !! token = Some p ∧ ¬ spends token p s e).
Proof.
  destruct e as [key l a|conn remote|conn remote msg now|conn|peer| | | | |random now n ps];
    simpl; try (unfold admit_known, on_inbound, on_enroll_timeout, evict;
                case_match; simpl; tauto); try tauto.
  - destruct msg as [l| |token' v|]; simpl; try tauto; [by case_match; simpl; tauto|].
    pose proof (claim_pending now token' (tokens s) token p) as Hc.
    destruct (Tokens.claim now token' (tokens s)) as [t' [c|]]; simpl in *; rewrite Hc;
      (split; [intros (?&?&?); right; split; [done|]; intros [->|?]; [done|lia]
              |intros [[]|[? Hn]]; split_and!; [naive_solver|done|];
               apply Z.nle_gt; naive_solver]).
  - pose proof (mint_pending random now n ps (tokens s) token) as Hm.
    simpl in Hm. rewrite Hm.
    case_decide; naive_solver.
Qed.

Lemma claims_spec s e k c :
  claims s e = Some (k, c) ↔
  ∃ conn token v now p,
    e = EvUnadmitted conn k (Protocol.Enroll token v) now ∧
    Tokens.pending (tokens s) !! token = Some p ∧ (now < Tokens.expires p)%Z ∧
    c = Tokens.mkClaimed (Tokens.name p) (Tokens.ports p).
Proof.
  split.
  - destruct e as [| |conn remote [| |token v|] now| | | | | | |]; try done.
    simpl. rewrite claim_lookup. intros Hc.
    destruct (Tokens.pending (tokens s) !! token) as [p|] eqn:Hp; [|done].
    case_decide; simplify_eq/=. by exists conn, token, v, now, p.
  - intros (conn & token & v & now & p & -> & Hp & Hnow & ->). simpl.
    rewrite claim_lookup, Hp. by rewrite decide_True.
Qed.

End session_lemmas.

#[export] Hint Rewrite @allows_add_keys @allows_add_ports @on_tunnel_serves : pai_sho.
