(* ===== verification/SessionSafety.v ===== *)
(** * What the admission core guarantees

    The properties of [Session.v], over every history of calls from the empty
    session: who is served a tunnel, who is admitted, when a code is good, what
    a peer is told, what eviction leaves, which connections await a verdict,
    whom a name stands for, and an invitation from end to end. *)

From S2P Require Import Prelude RustStr Keys Grants Invite Enroll Protocol Session.
Import Session History.

(** ** Lemmas *)
Section safety_lemmas.
Context {K : Type} `{!EndpointKey K}.
Implicit Types (s : Session K) (e : Event K) (k : K).

Lemma admission_of_Some k s : is_Some (admission_of k s) ↔ is_Some (peers s !! k).
Proof. unfold admission_of. by rewrite fmap_is_Some. Qed.

(** Which connections wait for a verdict. *)
Definition holds (c : ConnId) s e : Prop :=
  match e with
  | EvInbound conn remote => conn = c ∧ peers s !! remote = None
  | _ => False
  end.

Definition settles (c : ConnId) (_ : Session K) e : Prop :=
  match e with
  | EvUnadmitted conn _ (Protocol.Enroll _ _) _ => conn = c
  | EvEnrollTimeout conn => conn = c
  | _ => False
  end.

Lemma pending_step s e c :
  is_Some (pending (step s e).1 !! c) ↔
  holds c s e ∨ (is_Some (pending s !! c) ∧ ¬ settles c s e).
Proof.
  destruct e as [key l a|conn remote|conn remote msg now|conn|peer| | | | |]; simpl;
    try (unfold admit_known, evict; case_match; simpl; tauto); try tauto.
  - unfold on_inbound. destruct (peers s !! remote) eqn:Hr; simpl; [naive_solver|].
    destruct (decide (conn = c)) as [->|Hne].
    + rewrite lookup_insert_eq. naive_solver.
    + rewrite lookup_insert_ne by done. naive_solver.
  - destruct msg as [ps| |token v|]; simpl; try tauto.
    + destruct (pending s !! conn) as [p|] eqn:Hp; simpl; [|tauto].
      destruct (decide (conn = c)) as [->|Hne].
      * rewrite lookup_insert_eq, Hp. naive_solver.
      * rewrite lookup_insert_ne by done. naive_solver.
    + destruct (Tokens.claim now token (tokens s)) as [t' [cl|]]; simpl;
        rewrite lookup_delete_is_Some; naive_solver.
  - unfold on_enroll_timeout. destruct (pending s !! conn) eqn:Hp; simpl.
    + rewrite lookup_delete_is_Some. naive_solver.
    + split; [|naive_solver]. intros Hc. right. split; [done|]. intros ->.
      rewrite Hp in Hc. by destruct Hc.
Qed.

(** Every announcement a call makes. *)
Definition announces_exactly s' e (a : Action K) : Prop :=
  match a with
  | Announce k ports =>
      ports = Grants.ports_for k (grants s') ∧
      (is_Some (peers s' !! k) ∨ e = EvAnnounce k)
  | _ => True
  end.

Lemma announce_all_exact `{!EndpointKeyLaws K} s e :
  Forall (announces_exactly s e) (announce_all s).
Proof.
  unfold announce_all. apply Forall_fmap, Forall_forall. intros k Hk. simpl.
  split; [done|]. left. by apply elem_of_btree_keys.
Qed.

Lemma step_announces `{!EndpointKeyLaws K} s e :
  Forall (announces_exactly (step s e).1 e) (step s e).2.
Proof.
  destruct e as [key l a|conn remote|conn remote msg now|conn|peer|peer port|peer|p to|p to|];
    simpl; try apply announce_all_exact.
  - constructor.
  - unfold on_inbound. destruct (peers s !! remote) eqn:Hr; simpl; [|constructor].
    repeat constructor. rewrite Hr. eauto.
  - destruct msg as [ps| |token v|]; simpl;
      [by case_match; constructor|constructor| |constructor].
    destruct (Tokens.claim now token (tokens s)) as [t' [cl|]]; simpl.
    + rewrite !Forall_cons. split_and!; [done..|]. apply Forall_app. split.
      * case_match; rewrite ?Forall_cons, ?Forall_nil; done.
      * apply Forall_singleton. split; [done|]. left. simpl.
        rewrite lookup_insert_eq. eauto.
    + by apply Forall_singleton.
  - unfold on_enroll_timeout. case_match; repeat constructor.
  - unfold evict. case_match; repeat constructor.
  - repeat constructor. unfold on_tunnel. by case_match.
  - apply Forall_singleton. split; [done|by right].
  - constructor.
Qed.

(** Control messages of an unadmitted connection other than a claim. *)
Definition last_ports (msgs : list Protocol.PeerMessage) (early : option (list Z)) :
    option (list Z) :=
  foldl (λ o msg, match msg with Protocol.ExposedPorts ps => Some ps | _ => o end) early msgs.

Definition not_enroll (msg : Protocol.PeerMessage) : Prop :=
  match msg with Protocol.Enroll _ _ => False | _ => True end.

Lemma run_cons s e es : run s (e :: es) = run (step s e).1 es.
Proof. done. Qed.

Lemma run_messages s conn remote (msgs : list Protocol.PeerMessage) (now : Z) early :
  Forall not_enroll msgs →
  pending s !! conn = Some (mkPending early) →
  let s' := run s ((λ m, EvUnadmitted conn remote m now) <$> msgs) in
  pending s' !! conn = Some (mkPending (last_ports msgs early)) ∧
  tokens s' = tokens s ∧ grants s' = grants s ∧ peers s' = peers s.
Proof.
  intros Hm. revert s early. induction Hm as [|m msgs Hm _ IH]; intros s early Hp; [done|].
  rewrite fmap_cons, run_cons. unfold last_ports. simpl foldl.
  destruct m as [ps|port|token v|e0]; simpl in Hm; try done; simpl step.
  - rewrite Hp. cbn [fst].
    destruct (IH (with_pending (<[conn:=mkPending (Some ps)]> (pending s)) s) (Some ps))
      as (?&->&->&->); [apply lookup_insert_eq|]. done.
  - by apply IH.
  - by apply IH.
Qed.

(** A good claim, in full. *)
Lemma claim_accepted s conn remote token v now p :
  Tokens.pending (tokens s) !! token = Some p → (now < Tokens.expires p)%Z →
  let '(s', acts) := on_unadmitted conn remote (Protocol.Enroll token v) now s in
  acts = [Admit conn remote false; PersistPin remote (Tokens.name p)]
           ++ match early_of conn s with
              | [] => []
              | ps => [ApplyPorts remote ps]
              end
           ++ [Announce remote (Grants.ports_for remote (grants s'))] ∧
  peers s' = <[remote := mkAdmitted (Tokens.name p) Code]> (peers s) ∧
  grants s' = foldl (λ g port, Grants.add port remote g) (grants s) (Tokens.ports p) ∧
  pending s' = delete conn (pending s) ∧
  Tokens.pending (tokens s') !! token = None.
Proof.
  intros Hp Hnow. simpl. pose proof (claim_lookup now token (tokens s)) as Hc.
  pose proof (claim_spent now token (tokens s)) as Hs.
  rewrite Hp, decide_True in Hc by done.
  destruct (Tokens.claim now token (tokens s)) as [t' o]. simpl in Hc, Hs. subst o. simpl.
  split_and!; try done. by unfold early_of; simpl; case_match.
Qed.

(** A claim that is not good. *)
Lemma claim_refused s conn remote token v now :
  claims s (EvUnadmitted conn remote (Protocol.Enroll token v) now) = None →
  let '(s', acts) := on_unadmitted conn remote (Protocol.Enroll token v) now s in
  acts = [Refuse conn NotAuthorized] ∧ peers s' = peers s ∧ grants s' = grants s ∧
  pending s' = delete conn (pending s).
Proof.
  simpl. destruct (Tokens.claim now token (tokens s)) as [t' [c|]]; simpl; [done|]. done.
Qed.

End safety_lemmas.

(** ** Properties *)
Section safety_properties.
Context {K : Type} `{!EndpointKey K}.

(** The security perimeter.  After any history of calls, a tunnel to a
    port is served to a peer exactly when some call granted that port to that
    very key (an [expose] naming it, or its own claim of a code that carried
    the port) and no later call revoked it (an [unexpose] of the port naming
    it or everyone, or its eviction).  Otherwise it is rejected as not
    granted: default deny, and no grant is ambient. *)
Theorem tunnel_served_iff_granted (es : list (Event K)) (k : K) (port : Z) :
  (on_tunnel k port (run new es) = ServeTunnel port ↔
   last_is (λ s e, grants_to s e port k) (λ s e, revokes_from s e port k) new es) ∧
  (on_tunnel k port (run new es) = ServeTunnel port ∨
   on_tunnel k port (run new es) = RejectTunnel NotGranted).
Proof.
  split; [|unfold on_tunnel; case_match; auto].
  rewrite on_tunnel_serves.
  apply (last_is_new (λ s, Grants.allows port k (grants s) = true)); [done|].
  intros s e. apply allows_step.
Qed.

(** Who is admitted.  After any history, a peer is admitted exactly when
    some call named its key or accepted a code it presented, and it was not
    evicted since; and an inbound connection gets its verdict from that alone:
    admitted and told its ports if so, held with nothing said if not. *)
Theorem admitted_iff_named_or_claimed (es : list (Event K)) (k : K) (conn : ConnId) :
  let s := run new es in
  (is_Some (admission_of k s) ↔ last_is (λ s e, admits s e k) (λ _ e, evicts e k) new es) ∧
  (is_Some (admission_of k s) →
   on_inbound conn k s =
     (s, [Admit conn k true; Announce k (Grants.ports_for k (grants s))])) ∧
  (admission_of k s = None →
   on_inbound conn k s = (with_pending (<[conn := mkPending None]> (pending s)) s, [])).
Proof.
  simpl. split_and!.
  - rewrite admission_of_Some.
    apply (last_is_new (λ s, is_Some (peers s !! k))).
    + intros [a Ha].
      assert (peers (new (K:=K)) !! k = None) by apply lookup_empty. congruence.
    + intros s e. apply admitted_step.
  - rewrite admission_of_Some. intros [a Ha]. unfold on_inbound. by rewrite Ha.
  - unfold admission_of. rewrite fmap_None. intros Ha. unfold on_inbound. by rewrite Ha.
Qed.

(** When a code is good.  After any history, a claim succeeds exactly when
    its token was minted by an earlier call, less than five minutes before,
    and since then was not presented by anyone (good claim or not), was not
    minted anew, and no claim came after its expiry; it yields what that mint
    attached.  So a code admits at most one connection, whatever the order of
    the calls. *)
Theorem claim_good_iff_fresh_mint (es : list (Event K)) (e : Event K) (k : K)
    (c : Tokens.Claimed) :
  claims (run new es) e = Some (k, c) ↔
  ∃ conn token v now p,
    e = EvUnadmitted conn k (Protocol.Enroll token v) now ∧
    last_is (mints token p) (spends token p) new es ∧
    (now < Tokens.expires p)%Z ∧
    c = Tokens.mkClaimed (Tokens.name p) (Tokens.ports p).
Proof.
  rewrite claims_spec.
  assert (Hl : ∀ token p, Tokens.pending (tokens (run (new (K:=K)) es)) !! token = Some p ↔
                          last_is (mints token p) (spends token p) new es).
  { intros token p.
    apply (last_is_new (λ s, Tokens.pending (tokens s) !! token = Some p)); [done|].
    intros s e'. apply token_step. }
  setoid_rewrite Hl. done.
Qed.

(** One verdict per connection.  After any history, the enrollment window
    of a connection can still close on it exactly when it arrived from a key
    not admitted then and has since neither presented a code nor timed out; in
    every other case the timeout says nothing. *)
Theorem timeout_refuses_iff_held (es : list (Event K)) (c : ConnId) :
  let s := run new es in
  ((on_enroll_timeout c s).2 = [Refuse c EnrollTimeout] ↔
   last_is (holds c) (settles c) new es) ∧
  ((on_enroll_timeout c s).2 ≠ [Refuse c EnrollTimeout] → on_enroll_timeout c s = (s, [])).
Proof.
  simpl. rewrite <- (last_is_new (λ s, is_Some (pending s !! c)) (holds c) (settles c) es).
  - unfold on_enroll_timeout. destruct (pending _ !! c) as [p|]; simpl; [naive_solver|].
    split; [|done]. split; [done|]. by intros [].
  - intros [p Hp].
    assert (pending (new (K:=K)) !! c = None) by apply lookup_empty. congruence.
  - intros s e. apply pending_step.
Qed.

(** Eviction is complete and touches nothing else.  Forgetting an admitted
    peer drops its pin, and afterwards it is served no port, its list of ports
    is empty, and it is not admitted on arrival; every other peer keeps its
    admission and its grants, and codes and pending connections stay. *)
Theorem evict_is_complete (s : Session K) (k : K) (Hk : is_Some (admission_of k s)) :
  let '(s', acts) := evict k s in
  acts = [DropPin k] ∧
  admission_of k s' = None ∧ announce k s' = Announce k [] ∧
  (∀ port, on_tunnel k port s' = RejectTunnel NotGranted) ∧
  (∀ conn, (on_inbound conn k s').2 = []) ∧
  (∀ k' port, k' ≠ k → on_tunnel k' port s' = on_tunnel k' port s ∧
                       peers s' !! k' = peers s !! k') ∧
  tokens s' = tokens s ∧ pending s' = pending s.
Proof.
  apply admission_of_Some in Hk as [a Ha]. unfold evict. rewrite Ha.
  assert (Hno : ∀ port, Grants.allows port k (Grants.revoke_grantee k (grants s)) = false).
  { intros port. apply not_true_iff_false. rewrite allows_revoke. naive_solver. }
  split_and!; try done.
  - unfold admission_of. simpl. by rewrite lookup_delete_eq.
  - unfold announce. simpl. f_equal. apply sorted_unique; [apply ports_for_sorted|constructor|].
    intros p. rewrite elem_of_ports_for, Hno. set_solver.
  - intros port. unfold on_tunnel. simpl. by rewrite Hno.
  - intros conn. unfold on_inbound. simpl. by rewrite lookup_delete_eq.
  - intros k' port Hne. split; [|simpl; by rewrite lookup_delete_ne].
    unfold on_tunnel. simpl.
    assert (Grants.allows port k' (Grants.revoke_grantee k (grants s)) =
            Grants.allows port k' (grants s)) as ->; [|done].
    apply eq_true_iff_eq. rewrite allows_revoke. naive_solver.
Qed.

(** Early ports.  An unknown connection may announce its ports any number
    of times before it presents its code, among messages that are ignored;
    when the code is good, the actions are, in order: admit it, pin its key
    under the name the code carried, apply the last list it announced (if it
    announced a list and that list is not empty), and announce exactly the
    ports granted to it, which include those of the code. *)
Theorem early_ports_applied_after_claim (s : Session K) (conn : ConnId) (remote : K)
    (msgs : list Protocol.PeerMessage) (token : string) (v : option string) (t now : Z)
    (p : Tokens.PendingToken)
    (Hunknown : peers s !! remote = None) (Hmsgs : Forall not_enroll msgs)
    (Htoken : Tokens.pending (tokens s) !! token = Some p)
    (Hlive : (now < Tokens.expires p)%Z) :
  let s1 := run s (EvInbound conn remote ::
                   ((λ m, EvUnadmitted conn remote m t) <$> msgs)) in
  let '(s2, acts) := on_unadmitted conn remote (Protocol.Enroll token v) now s1 in
  acts = [Admit conn remote false; PersistPin remote (Tokens.name p)]
           ++ match last_ports msgs None with
              | Some (q :: qs) => [ApplyPorts remote (q :: qs)]
              | _ => []
              end
           ++ [Announce remote (Grants.ports_for remote (grants s2))] ∧
  (∀ q, q ∈ Tokens.ports p → on_tunnel remote q s2 = ServeTunnel q) ∧
  pending s2 !! conn = None.
Proof.
  rewrite run_cons. simpl step. unfold on_inbound. rewrite Hunknown. simpl fst.
  destruct (run_messages (with_pending (<[conn := mkPending None]> (pending s)) s)
              conn remote msgs t None Hmsgs) as (Hp & Ht & Hg & Hpe).
  { apply lookup_insert_eq. }
  set (s1 := run _ _) in *. simpl in Ht, Hg, Hpe.
  pose proof (claim_accepted s1 conn remote token v now p) as Hc.
  rewrite Ht in Hc. specialize (Hc Htoken Hlive).
  destruct (on_unadmitted _ _ _ _ _) as [s2 acts].
  destruct Hc as (Hacts & Hpeers & Hgrants & Hpend & _).
  unfold early_of in Hacts. rewrite Hp in Hacts. simpl in Hacts. split_and!.
  - rewrite Hacts. by destruct (last_ports msgs None) as [[|]|].
  - intros q Hq. apply on_tunnel_serves. rewrite Hgrants. apply allows_add_ports. auto.
  - rewrite Hpend. apply lookup_delete_eq.
Qed.

End safety_properties.

Section safety_properties_laws.
Context {K : Type} `{EndpointKeyLaws K}.

(** C23: a peer is told exactly what it may reach.  In every history, every
    announcement a call produces lists, in increasing order, the ports the
    session would serve that peer afterwards, no more and no fewer, and (apart
    from the shell asking for one peer's list) goes to an admitted peer. *)
Theorem announcements_exact (es : list (Event K)) (e : Event K) :
  let s := run new es in
  let '(s', acts) := step s e in
  Forall (λ a, match a with
               | Announce k ports =>
                   StronglySorted Z.lt ports ∧
                   (∀ port, port ∈ ports ↔ on_tunnel k port s' = ServeTunnel port) ∧
                   (is_Some (admission_of k s') ∨ e = EvAnnounce k)
               | _ => True
               end) acts.
Proof.
  simpl. pose proof (step_announces (run new es) e) as Hex.
  destruct (step (run new es) e) as [s' acts]. simpl in Hex.
  eapply Forall_impl; [exact Hex|]. intros [] Ha; try done.
  destruct Ha as [-> Ha]. split_and!; [apply ports_for_sorted| |].
  - intros port. by rewrite elem_of_ports_for, on_tunnel_serves.
  - by rewrite admission_of_Some.
Qed.

(** Revocation reaches everyone.  [expose] and [unexpose] answer with one
    announcement for each admitted peer, in key order, each with the peer's
    own list after the change, the empty list included. *)
Theorem changes_announced_to_all (s : Session K) (port : Z) (to : list K) (o : option K) :
  let '(s1, acts1) := expose port to s in
  let '(s2, acts2) := unexpose port o s in
  acts1 = (λ k, Announce k (Grants.ports_for k (grants s1))) <$> peer_keys s ∧
  acts2 = (λ k, Announce k (Grants.ports_for k (grants s2))) <$> peer_keys s ∧
  NoDup (peer_keys s) ∧ StronglySorted key_le (peer_keys s) ∧
  (∀ k, k ∈ peer_keys s ↔ is_Some (admission_of k s)) ∧
  (∀ k, o = None ∨ o = Some k → port ∉ Grants.ports_for k (grants s2)) ∧
  (∀ k, k ∈ to → port ∈ Grants.ports_for k (grants s1)).
Proof.
  simpl. split_and!; try done.
  - apply NoDup_btree_keys.
  - apply btree_keys_sorted.
  - intros k. rewrite admission_of_Some. apply elem_of_btree_keys.
  - intros k Ho. rewrite elem_of_ports_for, allows_remove.
    intros [_ Hn]. apply Hn. split; [done|]. by destruct Ho as [->| ->].
  - intros k Hk. rewrite elem_of_ports_for, allows_add_keys. auto.
Qed.

(** A grant never guesses.  A [--to] argument that is a key stands for
    that key, admitted or not; any other text stands for a peer exactly when
    that peer alone carries it as its label; a label two peers share and one
    nobody has are two different errors. *)
Theorem resolve_grantee_never_guesses (s : Session K) (ref : string) (k : K) :
  (resolve_grantee ref s = Ok k ↔
   parse_key ref = Some k ∨
   (parse_key (K:=K) ref = None ∧ ∀ k', label_of k' s = Some ref ↔ k' = k)) ∧
  (parse_key (K:=K) ref = None → (∀ k', label_of k' s ≠ Some ref) →
   resolve_grantee ref s = Err ("no peer key or name matches " +:+ ref)) ∧
  (parse_key (K:=K) ref = None →
   (∃ k1 k2, k1 ≠ k2 ∧ label_of k1 s = Some ref ∧ label_of k2 s = Some ref) →
   resolve_grantee ref s = Err ("more than one peer is named " +:+ ref +:+ ", use its key")).
Proof.
  assert (Hl : ∀ k', k' ∈ labelled ref s ↔ label_of k' s = Some ref).
  { intros k'. unfold labelled, label_of. rewrite list_elem_of_filter, elem_of_btree_keys.
    split; [tauto|]. intros Hk. split; [done|]. by destruct (peers s !! k'). }
  assert (Hnd : NoDup (labelled ref s)) by apply NoDup_filter, NoDup_btree_keys.
  unfold resolve_grantee. destruct (parse_key ref) as [k0|]; [naive_solver|].
  destruct (labelled ref s) as [|k1 [|k2 l]]; split_and!.
  - split; [done|]. intros [?|[_ Hk]]; [done|]. specialize (Hl k). set_solver.
  - done.
  - intros _ (k1 & _ & _ & Hk1 & _). apply Hl in Hk1. set_solver.
  - split.
    + intros [= ->]. right. split; [done|]. intros k'. rewrite <- Hl. set_solver.
    + intros [?|[_ Hk]]; [done|]. f_equal. apply Hk, Hl. set_solver.
  - intros _ Hno. destruct (Hno k1). apply Hl. set_solver.
  - intros _ (a & b & Hne & Ha%Hl & Hb%Hl). set_solver.
  - split; [done|]. intros [?|[_ Hk]]; [done|]. exfalso.
    apply NoDup_cons in Hnd as [Hnd _]. apply Hnd.
    rewrite (proj1 (Hk k1)) by (apply Hl; set_solver).
    rewrite <- (proj1 (Hk k2)) by (apply Hl; set_solver). set_solver.
  - intros _ Hno. destruct (Hno k1). apply Hl. set_solver.
  - done.
Qed.

(** An invitation from end to end.  A code minted with a name and ports,
    printed with the issuer's key, read by [accept] on the other side, carried
    back by its holder on a connection from a key not known yet, within five
    minutes, tells the accepter whom to dial and which code to present, admits
    the holder by code under the name, pins it, and grants it the ports and
    nobody anything else; the code presented again, by anyone, is refused. *)
Theorem invitation_end_to_end (s : Session K) (issuer holder other : K) (random : bytes)
    (minted now later : Z) (n : option string) (ps : list Z) (conn conn' : ConnId)
    (v v' : option string)
    (Hrandom : Forall u8_range random) (Hlen : length random = 32)
    (Hunknown : peers s !! holder = None)
    (Hnow : (now < minted + Tokens.TOKEN_TTL)%Z) :
  let '(s1, code) := mint_token random minted n ps s in
  let invitation := Invite.fmt (Invite.mkInvite issuer code) in
  let '(s2, held) := on_inbound conn holder s1 in
  let '(s3, acts) := on_unadmitted conn holder (Protocol.Enroll code v) now s2 in
  Invite.from_str invitation = Ok (Invite.HandleInvite (Invite.mkInvite issuer code)) ∧
  held = [] ∧
  acts = [Admit conn holder false; PersistPin holder n;
          Announce holder (Grants.ports_for holder (grants s3))] ∧
  admission_of holder s3 = Some Code ∧ label_of holder s3 = n ∧
  (∀ k port, on_tunnel k port s3 = ServeTunnel port ↔
             (k = holder ∧ port ∈ ps) ∨ on_tunnel k port s = ServeTunnel port) ∧
  (on_unadmitted conn' other (Protocol.Enroll code v') later s3).2 =
    [Refuse conn' NotAuthorized].
Proof.
  set (code := hex_string random).
  set (tok := Tokens.mkPendingToken n ps (minted + Tokens.TOKEN_TTL)).
  set (s1 := with_tokens (Tokens.mkTokens (<[code:=tok]> (Tokens.pending (tokens s)))) s).
  set (s2 := with_pending (<[conn:=mkPending None]> (pending s1)) s1).
  change (mint_token random minted n ps s) with (s1, code). cbv beta iota zeta.
  assert (Hin : on_inbound conn holder s1 = (s2, [])).
  { unfold on_inbound. simpl. by rewrite Hunknown. }
  rewrite Hin.
  pose proof (claim_accepted s2 conn holder code v now tok) as Hc.
  specialize (Hc (lookup_insert_eq _ _ _) Hnow).
  destruct (on_unadmitted conn holder _ now s2) as [s3 acts] eqn:Hs3.
  destruct Hc as (Hacts & Hpeers & Hgrants & _ & Hspent).
  assert (Hearly : early_of conn s2 = []).
  { unfold early_of. simpl. by rewrite lookup_insert_eq. }
  rewrite Hearly in Hacts. split_and!; try done.
  - apply from_str_fmt; simpl.
    + eapply Forall_str_impl; [apply alnum_graphic|]. by apply hex_string_alnum.
    + intros Hnil. pose proof (hex_string_length random) as Hl. unfold code in Hnil.
      rewrite Hnil, Hlen in Hl. done.
  - unfold admission_of. by rewrite Hpeers, lookup_insert_eq.
  - unfold label_of. by rewrite Hpeers, lookup_insert_eq.
  - intros k port. rewrite !on_tunnel_serves, Hgrants, allows_add_ports. naive_solver.
  - pose proof (claim_refused s3 conn' other code v' later) as Hr. simpl in Hr.
    rewrite claim_lookup, Hspent in Hr. specialize (Hr eq_refl).
    simpl. destruct (Tokens.claim later code (tokens s3)) as [t' [c|]]; naive_solver.
Qed.

End safety_properties_laws.

(** ** Concrete inputs *)
Section witnesses.
Import ToyKey.

(** A session that knows peer 7 by name, with port 8080 granted to it. *)
Definition toy_session : Session key :=
  run new [EvAdmitKnown 7%N (Some "laptop") Added; EvExpose 8080%Z [7%N]].

Lemma toy_label k l : label_of k toy_session = Some l ↔ k = 7%N ∧ l = "laptop".
Proof.
  unfold label_of.
  assert (peers toy_session = {[7%N := mkAdmitted (Some "laptop") Added]}) as -> by reflexivity.
  destruct (decide (k = 7%N)) as [->|Hne].
  - rewrite lookup_singleton_eq. simpl. naive_solver.
  - rewrite lookup_singleton_ne by done. simpl. naive_solver.
Qed.

Lemma toy_allows k port :
  on_tunnel k port toy_session = ServeTunnel port → k = 7%N ∧ port = 8080%Z.
Proof.
  rewrite on_tunnel_serves.
  assert (grants toy_session = Grants.mkGrants {[8080%Z := {[7%N]}]}) as -> by reflexivity.
  unfold Grants.allows. simpl. destruct (decide (port = 8080%Z)) as [->|Hne].
  - rewrite lookup_singleton_eq. rewrite bool_decide_eq_true. set_solver.
  - by rewrite lookup_singleton_ne by done.
Qed.

Lemma evict_is_complete_witness :
  on_tunnel 7%N 8080%Z toy_session = ServeTunnel 8080%Z ∧
  on_tunnel 7%N 8080%Z (evict 7%N toy_session).1 = RejectTunnel NotGranted.
Proof.
  split; [by vm_compute|].
  assert (Hk : is_Some (admission_of 7%N toy_session)) by (eexists; by vm_compute).
  destruct (evict_is_complete toy_session 7%N Hk) as (_ & _ & _ & Hno & _).
  exact (Hno 8080%Z).
Defined.

Lemma early_ports_applied_after_claim_witness :
  let s := (mint_token [171%Z] 0%Z (Some "desk") [22%Z] toy_session).1 in
  let s1 := run s [EvInbound 1%Z 9%N;
                   EvUnadmitted 1%Z 9%N (Protocol.ExposedPorts [3000%Z]) 5%Z;
                   EvUnadmitted 1%Z 9%N (Protocol.ExposedPorts [4000%Z]) 5%Z] in
  (on_unadmitted 1%Z 9%N (Protocol.Enroll "ab" None) 10%Z s1).2 =
  [Admit 1%Z 9%N false; PersistPin 9%N (Some "desk"); ApplyPorts 9%N [4000%Z];
   Announce 9%N [22%Z]].
Proof.
  pose proof (early_ports_applied_after_claim
    (mint_token [171%Z] 0%Z (Some "desk") [22%Z] toy_session).1 1%Z 9%N
    [Protocol.ExposedPorts [3000%Z]; Protocol.ExposedPorts [4000%Z]] "ab" None 5%Z 10%Z
    (Tokens.mkPendingToken (Some "desk") [22%Z] Tokens.TOKEN_TTL)
    ltac:(by vm_compute) ltac:(repeat constructor) ltac:(by vm_compute)
    ltac:(by vm_compute)) as H.
  cbv zeta in *. cbn [fmap list_fmap] in H.
  destruct (on_unadmitted _ _ _ _ _) as [s2 acts] eqn:Heq. destruct H as (Hacts & _ & _).
  simpl. rewrite Hacts. vm_compute in Heq. injection Heq as <- _. by vm_compute.
Defined.

Lemma announcements_exact_witness :
  (step toy_session (EvUnexpose 8080%Z None)).2 = [Announce 7%N []] ∧
  ∀ port, on_tunnel 7%N port (step toy_session (EvUnexpose 8080%Z None)).1 ≠ ServeTunnel port.
Proof.
  pose proof (announcements_exact
    [EvAdmitKnown 7%N (Some "laptop") Added; EvExpose 8080%Z [7%N]]
    (EvUnexpose 8080%Z None)) as H.
  cbv zeta in H. fold toy_session in H.
  assert (Hacts : (step toy_session (EvUnexpose 8080%Z None)).2 = [Announce 7%N []])
    by (by vm_compute).
  destruct (step toy_session (EvUnexpose 8080%Z None)) as [s' acts].
  cbn [fst snd] in *. subst acts. split; [done|].
  apply Forall_singleton in H as (_ & H & _). intros port Hport.
  apply H in Hport. by apply not_elem_of_nil in Hport.
Defined.

Lemma changes_announced_to_all_witness :
  (expose 22%Z [9%N] toy_session).2 = [Announce 7%N [8080%Z]].
Proof.
  pose proof (changes_announced_to_all toy_session 22%Z [9%N] None) as H.
  destruct (expose 22%Z [9%N] toy_session) as [s1 acts1] eqn:He.
  destruct (unexpose 22%Z None toy_session) as [s2 acts2].
  destruct H as (Ha & _). simpl. rewrite Ha. injection He as <- _. by vm_compute.
Defined.

Lemma resolve_grantee_never_guesses_witness :
  resolve_grantee "laptop" toy_session = Ok 7%N ∧
  resolve_grantee "desk" toy_session = Err "no peer key or name matches desk".
Proof.
  pose proof (resolve_grantee_never_guesses toy_session "laptop" 7%N) as [H _].
  pose proof (resolve_grantee_never_guesses toy_session "desk" 7%N) as (_ & Hno & _).
  split.
  - apply H. right. split; [by vm_compute|]. intros k'. rewrite toy_label. naive_solver.
  - apply Hno; [by vm_compute|]. intros k' Hk'%toy_label. naive_solver.
Defined.

Lemma invitation_end_to_end_witness :
  let code := hex_string (repeat 171%Z 32) in
  let s1 := (mint_token (repeat 171%Z 32) 0%Z (Some "desk") [22%Z] toy_session).1 in
  let s2 := (on_inbound 1%Z 9%N s1).1 in
  let s3 := (on_unadmitted 1%Z 9%N (Protocol.Enroll code None) 10%Z s2).1 in
  Invite.from_str (Invite.fmt (Invite.mkInvite 5%N code)) =
    Ok (Invite.HandleInvite (Invite.mkInvite 5%N code)) ∧
  (∀ k, on_tunnel k 22%Z s3 = ServeTunnel 22%Z ↔ k = 9%N).
Proof.
  intros code s1 s2 s3.
  pose proof (invitation_end_to_end toy_session 5%N 9%N 11%N (repeat 171%Z 32) 0%Z 10%Z 20%Z
    (Some "desk") [22%Z] 1%Z 2%Z None None
    ltac:(repeat constructor; unfold u8_range; lia) eq_refl ltac:(by vm_compute)
    ltac:(by vm_compute)) as H.
  subst s1 s2 s3. fold code in H.
  change (mint_token (repeat 171%Z 32) 0%Z (Some "desk") [22%Z] toy_session) with
    ((mint_token (repeat 171%Z 32) 0%Z (Some "desk") [22%Z] toy_session).1, code) in H.
  cbv zeta beta iota in H.
  destruct (on_inbound 1%Z 9%N _) as [s2 held]. cbn [fst snd].
  destruct (on_unadmitted 1%Z 9%N _ 10%Z s2) as [s3 acts]. cbn [fst snd].
  destruct H as (Hparse & _ & _ & _ & _ & Hserved & _). split; [exact Hparse|].
  intros k. rewrite Hserved. split.
  - intros [[? _]|Hserve]; [done|]. by apply toy_allows in Hserve as [_ ?].
  - intros ->. left. split; [done|]. by left.
Defined.

End witnesses.
