(* ===== verification/Surface.v ===== *)
(** * Surfaces ([src/src/surface.rs])

    The addresses a peer's ports are bound at: allocation inside a /24, the
    per-OS seam that makes an address usable, and the persisted records.  The
    operating system is an argument ([cfg(target_os)]), and so is the command
    runner behind the [ifconfig] calls on macOS. *)

From stdpp Require Import pretty.
From S2P Require Import Prelude RustStr Store.

Module Surface.

Inductive IpAddr : Type :=
| V4 (a b c d : Z)
| V6 (segments : list Z).

#[global] Instance ip_eq_dec : EqDecision IpAddr.
Proof. solve_decision. Defined.

#[global] Instance ip_countable : Countable IpAddr.
Proof.
  apply (inj_countable'
    (λ ip, match ip with V4 a b c d => inl (a, b, c, d) | V6 l => inr l end)
    (λ x, match x with inl (a, b, c, d) => V4 a b c d | inr l => V6 l end)).
  by intros [].
Defined.

Record Surface : Type := mkSurface { ip : IpAddr; name : option string }.

#[global] Instance surface_eq_dec : EqDecision Surface.
Proof. solve_decision. Defined.

Definition LOOPBACK_BASE : Z * Z * Z := (127, 0, 1)%Z.
Definition TUN_BASE : Z * Z * Z := (10, 99, 1)%Z.

(** [Ipv4Addr::LOCALHOST]. *)
Definition LOCALHOST : IpAddr := V4 127 0 0 1.

Definition in_base (base : Z * Z * Z) (host : Z) : IpAddr :=
  let '(a, b, c) := base in V4 a b c host.

(** The loop of [allocate], over the hosts left to try. *)
Fixpoint allocate_from (taken : list IpAddr) (base : Z * Z * Z) (hosts : list Z) :
    option IpAddr :=
  match hosts with
  | [] => None
  | host :: hosts =>
      let ip := in_base base host in
      if decide (ip ∈ taken) then allocate_from taken base hosts else Some ip
  end.

(** [2u8..=254]. *)
Definition allocate (taken : list IpAddr) (base : Z * Z * Z) : result IpAddr :=
  match allocate_from taken base (seqZ 2 253) with
  | Some ip => Ok ip
  | None =>
      let '(a, b, c) := base in
      Err ("no free address in " +:+ pretty a +:+ "." +:+ pretty b +:+ "." +:+ pretty c
           +:+ ".0/24; unproject a surface first")
  end.

(** ** The seam to the operating system *)

Inductive Os : Type := Linux | Macos | OtherOs.

Definition is_stock_loopback (ip : IpAddr) : bool := bool_decide (ip = LOCALHOST).

(** What a command leaves. *)
Record Output : Type := mkOutput { success : bool; stderr : bytes }.

(** [run] on macOS, over [Command::output]; [None] is a command that cannot be
    run at all. *)
Definition run_command (output : string → list string → option Output) (cmd : string)
    (args : list string) : result unit :=
  match output cmd args with
  | None => Err ("failed to run " +:+ cmd)
  | Some out =>
      if success out then Ok tt
      else Err (cmd +:+ " " +:+ join " " args +:+ ": " +:+ trim (from_utf8_lossy (stderr out)))
  end.

Section os.
Variable os : Os.
(** [run]: a command and its arguments, and whether it succeeded. *)
Variable run : string → list string → result unit.
(** [IpAddr::to_string]. *)
Variable ip_to_string : IpAddr → string.

Definition add_addr (ip : IpAddr) : result unit :=
  match os with
  | Linux => Ok tt
  | Macos => run "ifconfig" ["lo0"; "alias"; ip_to_string ip; "up"]
  | OtherOs =>
      Err ("projecting " +:+ ip_to_string ip +:+
           " needs a loopback alias, unsupported on this OS (use --ip 127.0.0.1)")
  end.

Definition del_addr (ip : IpAddr) : result unit :=
  match os with
  | Linux => Ok tt
  | Macos => run "ifconfig" ["lo0"; "-alias"; ip_to_string ip]
  | OtherOs => Ok tt
  end.

Definition ensure_addr (ip : IpAddr) : result unit :=
  if is_stock_loopback ip then Ok tt else add_addr ip.

Definition remove_addr (ip : IpAddr) : result unit :=
  if is_stock_loopback ip then Ok tt else del_addr ip.

End os.

(** ** The persisted records *)

Record SurfaceRecord : Type := mkSurfaceRecord {
  rec_key : string;
  rec_ip : IpAddr;
  rec_name : option string;
}.

#[global] Instance surface_record_eq_dec : EqDecision SurfaceRecord.
Proof. solve_decision. Defined.

#[global] Instance surface_record_countable : Countable SurfaceRecord.
Proof.
  apply (inj_countable' (λ r, (rec_key r, rec_ip r, rec_name r))
           (λ '(k, i, n), mkSurfaceRecord k i n)). by intros [].
Defined.

Section store.
Context `{!JsonCodec SurfaceRecord}.

Definition load (f : Store.File) : result (list SurfaceRecord) := Store.load f.

Definition save (records : list SurfaceRecord) (f : Store.File) :
    Store.File * result unit := Store.save records f.

Definition add (key : string) (ip : IpAddr) (name : option string) (f : Store.File) :
    Store.File * result unit := Store.add rec_key (mkSurfaceRecord key ip name) f.

Definition remove (key : string) (f : Store.File) : Store.File * result unit :=
  Store.remove rec_key key f.

End store.
End Surface.

(** ** Lemmas *)
Import Surface.

#[export] Instance in_base_inj base : Inj (=) (=) (in_base base).
Proof. destruct base as [[a b] c]. by intros x y [= ->]. Qed.

Lemma allocate_from_Some taken base hosts ip :
  allocate_from taken base hosts = Some ip →
  ∃ l host r, hosts = l ++ host :: r ∧ ip = in_base base host ∧ ip ∉ taken ∧
              Forall (λ h, in_base base h ∈ taken) l.
Proof.
  induction hosts as [|h hosts IH]; simpl; [done|]. case_decide as Hh.
  - intros (l & host & r & -> & ? & ? & ?)%IH. exists (h :: l), host, r. auto.
  - intros [= <-]. exists [], h, hosts. auto.
Qed.

Lemma allocate_from_None taken base hosts :
  allocate_from taken base hosts = None → Forall (λ h, in_base base h ∈ taken) hosts.
Proof. induction hosts as [|h hosts IH]; simpl; [auto|]. case_decide; auto; done. Qed.

(** What [allocate] returns is in use by no surface. *)
Lemma allocate_not_taken taken base ip : allocate taken base = Ok ip → ip ∉ taken.
Proof.
  unfold allocate. destruct (allocate_from _ _ _) as [ip'|] eqn:Ha; [|by destruct base as [[]]].
  intros [= <-]. by apply allocate_from_Some in Ha as (? & ? & ? & _ & _ & ? & _).
Qed.

(** ** Properties *)

(** The lowest free address.  [allocate] returns the lowest host from 2 to
    254 of the /24 that no surface uses, and fails exactly when all 253 are
    in use, so with fewer than 253 surfaces it never fails. *)
Theorem allocate_lowest_free (taken : list IpAddr) (base : Z * Z * Z) :
  match allocate taken base with
  | Ok ip =>
      ∃ host, (2 <= host <= 254)%Z ∧ ip = in_base base host ∧ ip ∉ taken ∧
              ∀ h, (2 <= h < host)%Z → in_base base h ∈ taken
  | Err _ => (∀ h, (2 <= h <= 254)%Z → in_base base h ∈ taken) ∧ 253 ≤ length taken
  end.
Proof.
  unfold allocate. destruct (allocate_from _ _ _) as [ip|] eqn:Ha.
  - apply allocate_from_Some in Ha as (l & host & r & Hseq & -> & Hfree & Hl).
    assert (Hlook : seqZ 2 253 !! length l = Some host).
    { rewrite Hseq, lookup_app_r, Nat.sub_diag by lia. done. }
    apply lookup_seqZ in Hlook as [-> Hlen]. exists (2 + Z.of_nat (length l))%Z.
    split_and!; [lia..|done|done|]. intros h Hh. rewrite Forall_forall in Hl. apply Hl.
    apply list_elem_of_lookup. exists (Z.to_nat (h - 2)).
    assert (Hl2 : (l ++ (2 + Z.of_nat (length l))%Z :: r) !! Z.to_nat (h - 2) = Some h).
    { rewrite <- Hseq. apply lookup_seqZ. lia. }
    rewrite lookup_app_l in Hl2 by lia. done.
  - apply allocate_from_None in Ha. destruct base as [[a b] c].
    assert (Hall : ∀ h, (2 <= h <= 254)%Z → in_base (a, b, c) h ∈ taken).
    { intros h Hh. rewrite Forall_forall in Ha. apply Ha, elem_of_seqZ. lia. }
    split; [done|].
    assert (Hsub : in_base (a, b, c) <$> seqZ 2 253 ⊆ taken).
    { intros ip (h & -> & Hh)%list_elem_of_fmap. apply elem_of_seqZ in Hh. apply Hall. lia. }
    pose proof (NoDup_submseteq (in_base (a, b, c) <$> seqZ 2 253) taken) as Hsm.
    apply submseteq_length in Hsm; [|apply NoDup_fmap_2; [apply _|apply NoDup_seqZ]|exact Hsub].
    by rewrite length_fmap, length_seqZ in Hsm.
Qed.

(** On macOS an address is made usable by aliasing it, unless it is the stock
    loopback, and given back by dropping the alias; what [ifconfig] says of a
    failure is the error. *)
Lemma macos_addresses (output : string → list string → option Surface.Output)
    (show : Surface.IpAddr → string) (ip : Surface.IpAddr) (up : bool) :
  let args := if up then ["lo0"; "alias"; show ip; "up"] else ["lo0"; "-alias"; show ip] in
  let r := (if up then Surface.ensure_addr else Surface.remove_addr)
             Surface.Macos (Surface.run_command output) show ip in
  match output "ifconfig" args with
  | Some out =>
      (r = Ok tt ↔ ip = Surface.LOCALHOST ∨ Surface.success out = true) ∧
      (∀ e, r = Err e → ∃ before, e = before +:+ ": " +:+ trim (from_utf8_lossy (Surface.stderr out)))
  | None => r = Ok tt ↔ ip = Surface.LOCALHOST
  end.
Proof.
  intros args r.
  assert (r = if bool_decide (ip = Surface.LOCALHOST) then Ok tt
              else Surface.run_command output "ifconfig" args) as -> by (by destruct up).
  unfold Surface.run_command. case_bool_decide as Hip; destruct (output _ _) as [out|]; [naive_solver..| |naive_solver].
  destruct (Surface.success out) eqn:Hs; [naive_solver|]. split; [naive_solver|].
  intros e [= <-]. exists ("ifconfig " +:+ join " " args). by rewrite <- !str_app_assoc.
Qed.
