(* ===== verification/Resolver.v ===== *)
(** * The owned resolver ([src/src/resolver.rs])

    Parsing one DNS question, deciding the answer from the surface names, and
    assembling the reply.  Indexing that would panic in Rust is [None] here
    ([slice], lookups), and the label loop takes fuel; the lemmas show that no
    packet panics or runs out of fuel. *)

From S2P Require Import Prelude RustStr Surface.

Module Resolver.
Import Surface.

Definition SUFFIX : string := "pai-sho".

Definition TYPE_A : Z := 1.

Definition Ipv4Addr : Type := Z * Z * Z * Z.

Definition octets (ip : Ipv4Addr) : bytes :=
  let '(a, b, c, d) := ip in [a; b; c; d].

Record Question : Type := mkQuestion {
  name : string;
  qtype : Z;
  qend : nat;
}.

(** [buf.get(i..j)] and [buf[i..j]]. *)
Definition slice (buf : bytes) (i j : nat) : option bytes :=
  if decide (i ≤ j ∧ j ≤ length buf) then Some (take (j - i) (drop i buf)) else None.

(** The label loop from offset [i].  The outer [None] is fuel running out, the
    inner one the [return None] of the code. *)
Fixpoint labels_loop (fuel : nat) (buf : bytes) (i : nat) (labels : list string) :
    option (option (list string * nat)) :=
  match fuel with
  | O => None
  | S fuel =>
      match buf !! i with
      | None => Some None
      | Some len =>
          let i := S i in
          if (len =? 0)%Z then Some (Some (labels, i))
          else if negb (Z.land len 192 =? 0)%Z then Some None
          else
            let end_ := i + Z.to_nat len in
            match slice buf i end_ with
            | None => Some None
            | Some label =>
                labels_loop fuel buf end_
                  (labels ++ [to_ascii_lowercase (from_utf8_lossy label)])
            end
      end
  end.

Definition parse_question (buf : bytes) : option Question :=
  if decide (length buf < 12) then None
  else
    match buf !! 4, buf !! 5 with
    | Some hi, Some lo =>
        let qdcount := u16_from_be_bytes hi lo in
        if negb (qdcount =? 1)%Z then None
        else
          match labels_loop (S (length buf)) buf 12 [] with
          | Some (Some (labels, i)) =>
              match buf !! i, buf !! S i with
              | Some hi, Some lo =>
                  let qend := i + 4 in
                  if decide (length buf < qend) then None
                  else Some (mkQuestion (join "." labels) (u16_from_be_bytes hi lo) qend)
              | _, _ => None
              end
          | _ => None
          end
    | _, _ => None
    end.

Definition host_label (name : string) : option string :=
  match strip_suffix SUFFIX name with
  | None => None
  | Some rest =>
      match strip_suffix "." rest with
      | None => None
      | Some rest =>
          if str_is_empty rest || str_contains "."%char rest then None else Some rest
      end
  end.

(** The reply; [None] where an index of the code would be out of bounds. *)
Definition build_reply (query : bytes) (qend : nat) (answer : option Ipv4Addr) : option bytes :=
  match slice query 0 2, query !! 2, slice query 12 qend with
  | Some id, Some flags, Some question =>
      let rd := Z.land flags 1 in
      let ancount := match answer with Some _ => 1%Z | None => 0%Z end in
      Some (id ++ [Z.lor (Z.lor 128 4) rd; 0%Z] ++ [0; 1]%Z
              ++ u16_to_be_bytes ancount ++ [0; 0]%Z ++ [0; 0]%Z
              ++ question
              ++ match answer with
                 | Some ip =>
                     [192; 12]%Z ++ u16_to_be_bytes TYPE_A ++ [0; 1]%Z
                       ++ u32_to_be_bytes 30 ++ [0; 4]%Z ++ octets ip
                 | None => []
                 end)
  | _, _, _ => None
  end.

(** [reply], the in-stack resolver's: [None] for a malformed query, and
    [Some None] if assembling the reply panicked. *)
Definition reply (query : bytes) (resolve : string → option Ipv4Addr) :
    option (option bytes) :=
  match parse_question query with
  | None => None
  | Some q =>
      let answer :=
        if (qtype q =? TYPE_A)%Z
        then match host_label (name q) with
             | Some label => resolve label
             | None => None
             end
        else None in
      Some (build_reply query (qend q) answer)
  end.

(** [handle_query], the loopback resolver's, over [PeerManager::resolve_name]. *)
Definition handle_query (query : bytes) (resolve_name : string → option IpAddr) :
    option (option bytes) :=
  match parse_question query with
  | None => None
  | Some q =>
      let answer :=
        if (qtype q =? TYPE_A)%Z
        then match host_label (name q) with
             | Some label =>
                 match resolve_name label with
                 | Some (V4 a b c d) => Some (a, b, c, d)
                 | _ => None
                 end
             | None => None
             end
        else None in
      Some (build_reply query (qend q) answer)
  end.

(** The datagrams [run] reads, into a buffer of 512 bytes, each with what names
    resolve to when it arrives, and what it sends back: a failed receive and a
    malformed query are passed over. *)
Definition run {From : Type}
    (arrivals : list (result (bytes * From) * (string → option IpAddr))) :
    list (option bytes * From) :=
  omap (λ '(received, resolve_name),
    match received with
    | Err _ => None
    | Ok (datagram, from) =>
        match handle_query (take 512 datagram) resolve_name with
        | Some reply => Some (reply, from)
        | None => None
        end
    end) arrivals.

(** A query as a stub resolver writes it, for stating what is parsed. *)
Definition encode_label (l : string) : bytes :=
  Z.of_nat (String.length l) :: str_bytes l.

Definition encode_name (labels : list string) : bytes :=
  concat (encode_label <$> labels) ++ [0%Z].

Definition encode_query (id : Z) (flags : Z * Z) (labels : list string)
    (qtype qclass : Z) : bytes :=
  u16_to_be_bytes id ++ [flags.1; flags.2] ++ [0; 1; 0; 0; 0; 0; 0; 0]%Z
    ++ encode_name labels ++ u16_to_be_bytes qtype ++ u16_to_be_bytes qclass.

Definition label_ok (l : string) : Prop :=
  0 < String.length l < 64 ∧ Forall_str ascii_char l.

End Resolver.

(** ** Lemmas *)
Import Resolver.

Lemma slice_Some buf i j l :
  slice buf i j = Some l ↔ i ≤ j ∧ j ≤ length buf ∧ l = take (j - i) (drop i buf).
Proof. unfold slice. case_decide; naive_solver. Qed.

Lemma slice_length buf i j l : slice buf i j = Some l → length l = j - i.
Proof.
  intros (?&?&->)%slice_Some. rewrite length_take, length_drop. lia.
Qed.

(** Two buffers that agree on a range have the same slice there. *)
Lemma slice_agree buf buf' i j l :
  slice buf i j = Some l → j ≤ length buf' →
  (∀ n, i ≤ n < j → buf' !! n = buf !! n) → slice buf' i j = Some l.
Proof.
  intros (Hij & Hj & ->)%slice_Some Hj' Hag. apply slice_Some. split_and!; [done..|].
  apply list_eq. intros n. destruct (decide (n < j - i)).
  - rewrite !lookup_take_lt, !lookup_drop by lia. rewrite Hag; [done|lia].
  - rewrite !lookup_take_ge by lia. done.
Qed.

Lemma slice_app_middle (pre mid post : bytes) :
  slice (pre ++ mid ++ post) (length pre) (length pre + length mid) = Some mid.
Proof.
  apply slice_Some. rewrite !length_app. split_and!; [lia..|].
  rewrite drop_app_length. replace (length pre + length mid - length pre) with (length mid) by lia.
  by rewrite take_app_length.
Qed.

(** The loop only moves forward, so the length of the packet is fuel enough. *)
Lemma labels_loop_fuel fuel buf i acc :
  i ≤ length buf → length buf < fuel + i → labels_loop fuel buf i acc ≠ None.
Proof.
  revert i acc. induction fuel as [|fuel IH]; intros i acc Hi Hf; [lia|]. simpl.
  destruct (buf !! i) as [len|]; [|discriminate].
  destruct (len =? 0)%Z; [discriminate|].
  destruct (Z.land len 192 =? 0)%Z; simpl; [|discriminate].
  destruct (slice _ _ _) as [l|] eqn:Hs; [|discriminate].
  apply slice_Some in Hs as (?&?&_). apply IH; lia.
Qed.

Lemma labels_loop_range fuel buf i acc ls j :
  labels_loop fuel buf i acc = Some (Some (ls, j)) → i < j ∧ j ≤ length buf.
Proof.
  revert i acc. induction fuel as [|fuel IH]; intros i acc; [done|]. simpl.
  destruct (buf !! i) as [len|] eqn:Hlen; [|done].
  apply lookup_lt_Some in Hlen.
  destruct (len =? 0)%Z; [intros [= -> <-]; lia|].
  destruct (Z.land len 192 =? 0)%Z; simpl; [|done].
  destruct (slice _ _ _) as [l|]; [|done]. intros ?%IH. lia.
Qed.

(** What the loop reads is what lies between where it starts and ends. *)
Lemma labels_loop_agree fuel fuel' buf buf' i acc ls j :
  labels_loop fuel buf i acc = Some (Some (ls, j)) →
  (∀ n, i ≤ n < j → buf' !! n = buf !! n) →
  j ≤ length buf' → length buf' < fuel' + i →
  labels_loop fuel' buf' i acc = Some (Some (ls, j)).
Proof.
  revert fuel' i acc. induction fuel as [|fuel IH]; intros fuel' i acc Hloop Hag Hj Hf; [done|].
  pose proof (labels_loop_range _ _ _ _ _ _ Hloop) as [Hij _].
  destruct fuel' as [|fuel']; [lia|]. simpl in Hloop |- *.
  rewrite Hag by lia. destruct (buf !! i) as [len|]; [|done].
  destruct (len =? 0)%Z; [done|].
  destruct (Z.land len 192 =? 0)%Z; simpl in *; [|done].
  destruct (slice buf _ _) as [l|] eqn:Hs; [|done].
  pose proof (labels_loop_range _ _ _ _ _ _ Hloop) as [Hij' _].
  rewrite (slice_agree buf buf' _ _ l) by (done || lia || (intros; apply Hag; lia)).
  apply IH; [done| |done|lia]. intros n Hn. apply Hag. lia.
Qed.

(** A parsed packet: where its question ends, and that this is inside it. *)
Lemma parse_question_qend buf q :
  parse_question buf = Some q → 12 < qend q ≤ length buf.
Proof.
  unfold parse_question. case_decide; [done|].
  destruct (buf !! 4), (buf !! 5); try done. case_match; [done|].
  destruct (labels_loop _ _ _ _) as [[[ls i]|]|] eqn:Hl; try done.
  apply labels_loop_range in Hl. destruct (buf !! i), (buf !! S i); try done.
  case_decide; [done|]. intros [= <-]. simpl. lia.
Qed.

(** Parsing looks at the counts and the question only. *)
Lemma parse_question_agree buf buf' q :
  parse_question buf = Some q → qend q ≤ length buf' →
  buf' !! 4 = Some 0%Z → buf' !! 5 = Some 1%Z →
  (∀ n, 12 ≤ n < qend q → buf' !! n = buf !! n) →
  parse_question buf' = Some q.
Proof.
  intros Hq Hlen H4 H5 Hag. pose proof (parse_question_qend _ _ Hq) as Hend.
  unfold parse_question in *. rewrite H4, H5.
  case_decide; [done|]. rewrite decide_False by lia.
  destruct (buf !! 4), (buf !! 5); try done. case_match; [done|].
  change (negb (u16_from_be_bytes 0 1 =? 1)%Z) with false. cbv iota.
  destruct (labels_loop _ buf _ _) as [[[ls i]|]|] eqn:Hl; try done.
  pose proof (labels_loop_range _ _ _ _ _ _ Hl) as [Hi _].
  destruct (buf !! i) as [hi|] eqn:Hhi, (buf !! S i) as [lo|] eqn:Hlo; try done.
  case_decide; [done|]. injection Hq as <-. cbn [qend] in *.
  rewrite (labels_loop_agree _ (S (length buf')) buf buf' 12 [] ls i) by
    (done || lia || (intros; apply Hag; lia)).
  rewrite !Hag, Hhi, Hlo by lia. by rewrite decide_False by lia.
Qed.

(** A label as written is read back, lowercased. *)
Lemma land_192_low len : (0 <= len < 64)%Z → Z.land len 192 = 0%Z.
Proof.
  intros Hlen. apply Z.bits_inj'. intros n Hn. rewrite Z.land_spec, Z.bits_0.
  destruct (decide (n < 6)%Z) as [H|H].
  - change 192%Z with (3 * 2 ^ 6)%Z. rewrite Z.mul_pow2_bits_low by lia.
    apply andb_false_r.
  - rewrite <- (Z.mod_small len (2 ^ 6)) by (change (2 ^ 6)%Z with 64%Z; lia).
    by rewrite Z.mod_pow2_bits_high by lia.
Qed.

Lemma encode_name_cons l labels :
  encode_name (l :: labels) = encode_label l ++ encode_name labels.
Proof. unfold encode_name. simpl. by rewrite <- app_assoc. Qed.

Lemma slice_label pre n l rest :
  slice (pre ++ (n :: str_bytes l) ++ rest) (S (length pre))
    (S (length pre) + String.length l) = Some (str_bytes l).
Proof.
  pose proof (slice_app_middle (pre ++ [n]) (str_bytes l) rest) as H.
  rewrite length_app, str_bytes_length, Nat.add_1_r, <- app_assoc in H. exact H.
Qed.

Lemma labels_loop_step fuel pre l rest acc :
  label_ok l →
  labels_loop (S fuel) (pre ++ encode_label l ++ rest) (length pre) acc =
  labels_loop fuel (pre ++ encode_label l ++ rest) (length (pre ++ encode_label l))
    (acc ++ [to_ascii_lowercase l]).
Proof.
  intros [Hlen Hascii]. cbn [labels_loop].
  assert (Hl : (pre ++ encode_label l ++ rest) !! length pre = Some (Z.of_nat (String.length l)))
    by (by rewrite lookup_app_r, Nat.sub_diag by lia).
  rewrite Hl, (proj2 (Z.eqb_neq _ 0)), land_192_low by lia. cbv zeta. simpl negb. cbv iota.
  rewrite Nat2Z.id. unfold encode_label. rewrite slice_label, from_utf8_lossy_ascii by done.
  f_equal. rewrite length_app. simpl. rewrite str_bytes_length. lia.
Qed.

Lemma labels_loop_encode labels pre rest fuel acc :
  Forall label_ok labels →
  length labels < fuel →
  labels_loop fuel (pre ++ encode_name labels ++ rest) (length pre) acc =
  Some (Some (acc ++ (to_ascii_lowercase <$> labels), length (pre ++ encode_name labels))).
Proof.
  intros Hls. revert pre fuel acc.
  induction Hls as [|l labels Hl _ IH]; intros pre fuel acc Hf;
    (destruct fuel as [|fuel]; [simpl in Hf; lia|]).
  - cbn [labels_loop]. rewrite lookup_app_r, Nat.sub_diag by lia. simpl.
    by rewrite app_nil_r, length_app, Nat.add_1_r.
  - rewrite encode_name_cons, <- (app_assoc _ _ rest), labels_loop_step by done.
    rewrite !(app_assoc pre), IH by (simpl in Hf; lia). by rewrite <- !app_assoc.
Qed.

Lemma host_label_Some n l :
  host_label n = Some l ↔
  n = l +:+ "." +:+ SUFFIX ∧ l ≠ EmptyString ∧ Forall_str (λ c, c ≠ "."%char) l.
Proof.
  unfold host_label. split.
  - destruct (strip_suffix SUFFIX n) as [r|] eqn:Hr; [|done].
    destruct (strip_suffix "." r) as [r'|] eqn:Hr'; [|done].
    apply strip_suffix_Some in Hr as ->. apply strip_suffix_Some in Hr' as ->.
    destruct (str_is_empty r') eqn:He; [done|].
    destruct (str_contains _ r') eqn:Hc; [done|]. simpl. intros [= ->].
    apply str_contains_false in Hc. rewrite <- str_app_assoc.
    split_and!; [done| |done]. by intros ->.
  - intros (-> & Hne & Hdot). rewrite str_app_assoc, !strip_suffix_app.
    apply str_contains_false in Hdot. rewrite Hdot. by destruct l.
Qed.

(** [build_reply] never indexes outside a packet that was parsed. *)
Lemma build_reply_Some query q answer :
  parse_question query = Some q →
  ∃ flags out, build_reply query (qend q) answer = Some out ∧
    query !! 2 = Some flags ∧
    out = take 2 query ++ [Z.lor 132 (Z.land flags 1); 0; 0; 1;
                           0; if answer then 1 else 0; 0; 0; 0; 0]%Z ++
          take (qend q - 12) (drop 12 query) ++
          from_option (λ ip, [192; 12; 0; 1; 0; 1; 0; 0; 0; 30; 0; 4]%Z ++ octets ip) [] answer.
Proof.
  intros [H1 H2]%parse_question_qend.
  destruct (lookup_lt_is_Some_2 query 2) as [flags Hf]; [lia|].
  unfold build_reply, slice. rewrite !decide_True by lia. rewrite Hf.
  eexists _, _. split_and!; [reflexivity|done|].
  rewrite drop_0. simpl Nat.sub. by destruct answer.
Qed.

Lemma reply_length query q answer out :
  parse_question query = Some q →
  build_reply query (qend q) answer = Some out →
  length out = qend q + if answer then 16 else 0.
Proof.
  intros Hq Hb. destruct (build_reply_Some _ _ answer Hq) as (flags & out' & Hb' & _ & ->).
  rewrite Hb in Hb'. injection Hb' as ->. apply parse_question_qend in Hq.
  rewrite length_app. cbn [length app]. rewrite length_app, !length_take, length_drop.
  destruct answer as [[[[a b] c] d]|]; cbn [length app from_option octets]; lia.
Qed.

(** What follows the question in a reply is the answer record. *)
Lemma reply_answer query q answer out :
  parse_question query = Some q →
  build_reply query (qend q) answer = Some out →
  drop (qend q) out =
  from_option (λ ip, [192; 12; 0; 1; 0; 1; 0; 0; 0; 30; 0; 4]%Z ++ octets ip) [] answer.
Proof.
  intros Hq Hb. destruct (build_reply_Some _ _ answer Hq) as (flags & out' & Hb' & _ & Hout).
  rewrite Hb in Hb'. injection Hb' as <-. apply parse_question_qend in Hq.
  rewrite Hout, (app_assoc (take 2 query)), (app_assoc (_ ++ _)).
  apply drop_app_length'. rewrite !length_app, !length_take, length_drop.
  cbn [length]. lia.
Qed.

(** The reply carries the same question. *)
Lemma reply_same_question query q answer out :
  parse_question query = Some q →
  build_reply query (qend q) answer = Some out →
  parse_question out = Some q.
Proof.
  intros Hq Hb. pose proof (reply_length _ _ _ _ Hq Hb) as Hlen.
  destruct (build_reply_Some _ _ answer Hq) as (flags & out' & Hb' & _ & Hout).
  rewrite Hb in Hb'. injection Hb' as ->.
  pose proof (parse_question_qend _ _ Hq) as [H1 H2].
  assert (H2l : length (take 2 query) = 2) by (rewrite length_take; lia).
  assert (H12 : ∀ n, 12 ≤ n → out' !! n =
    (take (qend q - 12) (drop 12 query) ++
     from_option (λ ip, [192; 12; 0; 1; 0; 1; 0; 0; 0; 30; 0; 4]%Z ++ octets ip) [] answer)
      !! (n - 12)).
  { intros n Hn. rewrite Hout, lookup_app_r, H2l by lia.
    rewrite lookup_app_r by (simpl; lia). f_equal. simpl. lia. }
  apply (parse_question_agree query); [done|destruct answer; lia|..].
  1,2: rewrite Hout, lookup_app_r, H2l by lia; reflexivity.
  intros n Hn. rewrite H12 by lia.
  rewrite lookup_app_l by (rewrite length_take, length_drop; lia).
  rewrite lookup_take_lt, lookup_drop by lia. f_equal. lia.
Qed.

(** What the resolver answers for a question. *)
Definition answer_of (q : Question) (resolve : string → option Ipv4Addr) : option Ipv4Addr :=
  if (qtype q =? TYPE_A)%Z then host_label (name q) ≫= resolve else None.

Lemma reply_unfold query resolve q :
  parse_question query = Some q →
  reply query resolve = Some (build_reply query (qend q) (answer_of q resolve)).
Proof.
  intros Hq. unfold reply, answer_of. rewrite Hq. case_match; [|done]. by destruct (host_label _).
Qed.

Lemma parse_encoded_query id flags labels qt qc :
  Forall label_ok labels → u16_range qt →
  parse_question (encode_query id flags labels qt qc) =
  Some (mkQuestion (join "." (to_ascii_lowercase <$> labels)) qt
          (length (encode_query id flags labels qt qc))).
Proof.
  intros Hls Hqt.
  set (pre := u16_to_be_bytes id ++ [flags.1; flags.2] ++ [0; 1; 0; 0; 0; 0; 0; 0]%Z).
  set (post := u16_to_be_bytes qt ++ u16_to_be_bytes qc).
  assert (Heq : encode_query id flags labels qt qc = pre ++ encode_name labels ++ post)
    by (unfold encode_query, pre, post; by rewrite <- !app_assoc).
  rewrite Heq. unfold parse_question.
  assert (Hnl : length labels < length (encode_name labels)).
  { clear. induction labels as [|l ls IH]; [simpl; lia|].
    rewrite encode_name_cons, length_app. simpl. lia. }
  rewrite decide_False by (rewrite length_app; simpl; lia).
  change ((pre ++ _) !! 4) with (Some 0%Z). change ((pre ++ _) !! 5) with (Some 1%Z).
  cbv iota zeta. change (negb _) with false. cbv iota.
  change 12 with (length pre) at 1.
  rewrite labels_loop_encode by (done || (rewrite !length_app; lia)). rewrite app_nil_l.
  set (m := pre ++ encode_name labels).
  assert (Hm : ∀ n, (pre ++ encode_name labels ++ post) !! (length m + n) = post !! n).
  { intros n. unfold m. rewrite app_assoc. rewrite lookup_app_r by lia. f_equal. lia. }
  pose proof (Hm 0) as H0. pose proof (Hm 1) as H1.
  rewrite Nat.add_0_r in H0. rewrite Nat.add_1_r in H1. rewrite H0, H1. simpl.
  rewrite decide_False by (unfold m; rewrite !length_app; simpl; lia). f_equal. f_equal.
  - by apply (u16_be_roundtrip qt).
  - unfold m. rewrite !length_app. simpl. lia.
Qed.

(** ** Properties *)

(** C30: Whatever bytes arrive, the label loop of [parse_question] ends within a
    fuel of the packet's length, and [reply] either rejects the packet as
    malformed or returns a packet, never an index out of bounds: one that
    echoes the id, has the response and authoritative bits and the query's
    recursion bit, parses to the very question asked, and carries exactly
    one answer, the resolved address with a TTL of 30, when the question is
    an A query for one label under the suffix that resolves, and none (an
    empty NOERROR) otherwise. *)
Theorem dns_reply_correct query resolve :
  (12 ≤ length query → labels_loop (S (length query)) query 12 [] ≠ None) ∧
  match parse_question query with
  | None => reply query resolve = None
  | Some q =>
      ∃ flags out, reply query resolve = Some (Some out) ∧
        take 2 out = take 2 query ∧ query !! 2 = Some flags ∧
        out !! 2 = Some (Z.lor 132 (Z.land flags 1)) ∧ out !! 3 = Some 0%Z ∧
        parse_question out = Some q ∧
        match answer_of q resolve with
        | None => take 2 (drop 6 out) = [0; 0]%Z ∧ length out = qend q
        | Some ip =>
            take 2 (drop 6 out) = [0; 1]%Z ∧
            drop (qend q) out = [192; 12; 0; 1; 0; 1; 0; 0; 0; 30; 0; 4]%Z ++ octets ip
        end
  end.
Proof.
  split; [intros; apply labels_loop_fuel; lia|].
  destruct (parse_question query) as [q|] eqn:Hq; [|unfold reply; by rewrite Hq].
  rewrite (reply_unfold _ _ _ Hq).
  destruct (build_reply_Some _ _ (answer_of q resolve) Hq) as (flags & out & Hb & Hf & Hout).
  pose proof (reply_same_question _ _ _ _ Hq Hb) as Hsame.
  pose proof (reply_length _ _ _ _ Hq Hb) as Hlen.
  pose proof (parse_question_qend _ _ Hq) as [H1 H2].
  assert (H2l : length (take 2 query) = 2) by (rewrite length_take; lia).
  pose proof (reply_answer _ _ _ _ Hq Hb) as Hans.
  exists flags, out. rewrite Hb. split; [done|].
  destruct query as [|b0 [|b1 query]]; try (simpl in H2; lia). clear Hb.
  split_and!; [by subst out..|].
  destruct (answer_of q resolve) as [ip|]; (split; [|done || lia]); by subst out.
Qed.

(** A lookup as a stub resolver sends it is understood: an A query for the
    labels of any name of ASCII labels is answered with an address exactly
    when the name is one non-empty label under [pai-sho] and that label,
    lowercased, is in the name map; no other name is ever answered. *)
Theorem dns_lookup_end_to_end id flags labels qc resolve ip :
  Forall label_ok labels →
  let query := encode_query id flags labels TYPE_A qc in
  let name := join "." (to_ascii_lowercase <$> labels) in
  parse_question query = Some (mkQuestion name TYPE_A (length query)) ∧
  ((∃ out, reply query resolve = Some (Some out) ∧
           drop (length query) out = [192; 12; 0; 1; 0; 1; 0; 0; 0; 30; 0; 4]%Z ++ octets ip) ↔
   ∃ label, name = label +:+ ".pai-sho" ∧ label ≠ EmptyString ∧
            Forall_str (λ c, c ≠ "."%char) label ∧ resolve label = Some ip).
Proof.
  intros Hls query nm.
  assert (Hq : parse_question query = Some (mkQuestion nm TYPE_A (length query)))
    by (apply parse_encoded_query; done).
  split; [done|]. rewrite (reply_unfold _ _ _ Hq).
  destruct (build_reply_Some _ _ (answer_of (mkQuestion nm TYPE_A (length query)) resolve) Hq)
    as (f & out & Hb & _ & _).
  pose proof (reply_answer _ _ _ _ Hq Hb) as Hans. cbn [qend] in Hb, Hans |- *. rewrite Hb.
  trans (answer_of (mkQuestion nm TYPE_A (length query)) resolve = Some ip).
  - split.
    + intros (out' & [= <-] & Hd). rewrite Hans in Hd. clear Hans.
      destruct (answer_of _ _) as [[[[a b] c] d]|], ip as [[[a' b'] c'] d'];
        simpl in Hd; by simplify_eq.
    + intros Ha. exists out. by rewrite Hans, Ha.
  - unfold answer_of. simpl. rewrite bind_Some. setoid_rewrite host_label_Some.
    unfold SUFFIX. simpl. naive_solver.
Qed.

Lemma dns_lookup_end_to_end_witness :
  let query := encode_query 4660 (1, 0)%Z ["Vibenv"; "pai-sho"] TYPE_A 1 in
  let names := λ l, if decide (l = "vibenv") then Some (127, 88, 0, 3)%Z else None in
  ∃ out, reply query names = Some (Some out) ∧
         drop (length query) out =
         [192; 12; 0; 1; 0; 1; 0; 0; 0; 30; 0; 4; 127; 88; 0; 3]%Z.
Proof.
  intros query names.
  assert (Hls : Forall label_ok ["Vibenv"; "pai-sho"]).
  { repeat constructor. }
  destruct (dns_lookup_end_to_end 4660 (1, 0)%Z ["Vibenv"; "pai-sho"] 1 names
              (127, 88, 0, 3)%Z Hls) as [_ Hiff].
  apply Hiff. exists "vibenv". vm_compute. intuition congruence.
Defined.
