(* ===== verification/Netstack.v ===== *)
(** * The TUN backend ([src/src/netstack.rs])

    The state the daemon drives the userspace stack through, the names and the
    listeners, with its four operations; the in-stack resolver's answer to a
    packet; the framing of packets on the device, which on macOS carries a
    4-byte address-family header; and the request that attaches to a device on
    Linux.  The opening of a device is in [Tun.v], the tasks behind the four
    operations are in [Stack.v]; [tokio-smoltcp] itself is not modelled. *)

From S2P Require Import Prelude RustStr Surface Resolver.

Module NetStack.
Import Resolver.

Definition MTU : nat := 1500.

Record NetStack : Type := mkNetStack {
  names : gmap string Ipv4Addr;
  listeners : gset (Ipv4Addr * Z);
}.

Definition empty : NetStack := mkNetStack ∅ ∅.

Definition add_surface (ip : Ipv4Addr) (name : option string) (n : NetStack) : NetStack :=
  match name with
  | Some name => mkNetStack (<[name := ip]> (names n)) (listeners n)
  | None => n
  end.

Definition remove_surface (ip : Ipv4Addr) (n : NetStack) : NetStack :=
  mkNetStack (filter (λ p : string * Ipv4Addr, p.2 ≠ ip) (names n)) (listeners n).

(** The accept loop of a key is spawned when the key is not there yet. *)
Definition listen (ip : Ipv4Addr) (port : Z) (n : NetStack) : NetStack :=
  if decide ((ip, port) ∈ listeners n) then n
  else mkNetStack (names n) ({[(ip, port)]} ∪ listeners n).

Definition unlisten (ip : Ipv4Addr) (port : Z) (n : NetStack) : NetStack :=
  mkNetStack (names n) (listeners n ∖ {[(ip, port)]}).

(** The in-stack resolver, on one packet. *)
Definition resolve_packet (query : bytes) (n : NetStack) : option (option bytes) :=
  reply query (λ label, names n !! label).

(** ** The request that attaches to a device on Linux

    Its flags are in the little-endian order of the machines this runs on. *)

Definition IFF_TUN : Z := 1.
Definition IFF_NO_PI : Z := 4096.

(** [ifr]: 40 bytes, the name at the front, the flags at 16. *)
Definition ifreq (name : bytes) : bytes :=
  let flags := Z.lor IFF_TUN IFF_NO_PI in
  name ++ replicate (16 - length name) 0%Z ++
  [Z.land flags 255; Z.shiftr flags 8] ++ replicate 22 0%Z.

(** ** Packets on the device

    What [libc::read] put in the buffer, or its error. *)
Inductive read_error : Type := WouldBlock | OsError.

Definition header (os : Surface.Os) : nat :=
  match os with
  | Surface.Macos => 4
  | _ => 0
  end.

Definition tun_read (os : Surface.Os) (read : option bytes) : bytes + read_error :=
  match read with
  | Some buf =>
      if decide (header os < length buf) then inl (drop (header os) buf) else inr WouldBlock
  | None => inr OsError
  end.

(** The bytes handed to [libc::write], if any. *)
Definition tun_write (os : Surface.Os) (pkt : bytes) : option bytes :=
  match os with
  | Surface.Macos =>
      match pkt with
      | [] => None
      | b :: _ =>
          let af := if (Z.shiftr b 4 =? 6)%Z then 30%Z else 2%Z in
          Some (u32_to_be_bytes af ++ pkt)
      end
  | _ => Some pkt
  end.

End NetStack.

(** ** Lemmas *)
Section netstack_lemmas.
Import NetStack.

Lemma add_surface_names ip name n l :
  names (add_surface ip name n) !! l =
  if decide (name = Some l) then Some ip else names n !! l.
Proof.
  destruct name as [m|]; simpl; [|done].
  case_decide as Hm; [simplify_eq; by rewrite lookup_insert_eq|].
  rewrite lookup_insert_ne; [done|]. intros ->. by destruct Hm.
Qed.

Lemma remove_surface_names ip n l a :
  names (remove_surface ip n) !! l = Some a ↔ names n !! l = Some a ∧ a ≠ ip.
Proof. simpl. rewrite map_lookup_filter_Some. done. Qed.

Lemma elem_of_listen ip port n x :
  x ∈ listeners (listen ip port n) ↔ x = (ip, port) ∨ x ∈ listeners n.
Proof. unfold listen. case_decide; simpl; set_solver. Qed.

Lemma elem_of_unlisten ip port n x :
  x ∈ listeners (unlisten ip port n) ↔ x ≠ (ip, port) ∧ x ∈ listeners n.
Proof. simpl. set_solver. Qed.

(** A name that passes the check fills the request and leaves it terminated. *)
Lemma ifreq_layout name :
  length name < 16 →
  length (ifreq name) = 40 ∧ take (length name) (ifreq name) = name ∧
  ifreq name !! length name = Some 0%Z ∧ take 2 (drop 16 (ifreq name)) = [1; 16]%Z.
Proof.
  intros Hl. unfold ifreq. split_and!.
  - rewrite !length_app, !length_replicate. simpl. lia.
  - by rewrite take_app_length.
  - rewrite lookup_app_r, Nat.sub_diag by lia. by destruct (16 - length name) eqn:He; [lia|].
  - rewrite app_assoc, drop_app_length' by (rewrite length_app, length_replicate; lia). done.
Qed.

Lemma listen_names ip port n : names (listen ip port n) = names n.
Proof. unfold listen. by case_decide. Qed.

End netstack_lemmas.

#[export] Hint Rewrite add_surface_names listen_names : pai_sho.

(** ** Properties *)
Section netstack_properties.
Import NetStack.

(** A packet written to the device and read back is the packet, on
    every system; one with a version nibble of 6 is marked with the family of
    IPv6 and any other with that of IPv4; the header alone is no packet. *)
Theorem tun_framing_roundtrip (os : Surface.Os) (b : Z) (pkt : bytes) :
  ∃ framed, tun_write os (b :: pkt) = Some framed ∧
    tun_read os (Some framed) = inl (b :: pkt) ∧
    length framed = header os + length (b :: pkt) ∧
    (os = Surface.Macos →
     take 4 framed = [0; 0; 0; if decide (Z.shiftr b 4 = 6) then 30 else 2]%Z ∧
     tun_read os (Some (take 4 framed)) = inr WouldBlock ∧
     tun_write os [] = None).
Proof.
  destruct os; simpl.
  - eexists. split; [reflexivity|]. by rewrite decide_True by (simpl; lia).
  - eexists. split; [reflexivity|]. split_and!; [|done|].
    + unfold tun_read. by rewrite decide_True by (simpl; lia).
    + intros _. destruct (Z.eqb_spec (Z.shiftr b 4) 6), (decide (Z.shiftr b 4 = 6)%Z); done.
  - eexists. split; [reflexivity|]. by rewrite decide_True by (simpl; lia).
Qed.

(** The in-stack resolver answers from the names of the surfaces
    that stand: a surface added under a name is resolved by that name until a
    surface at its address is removed or the name is added again, whatever
    else is added and removed in between. *)
Theorem tun_names_follow_surfaces (ip : Resolver.Ipv4Addr) (l : string) (n : NetStack)
    (ops : list (Resolver.Ipv4Addr * option (option string))) :
  let op n o := match o with
                | (ip', Some name) => add_surface ip' name n
                | (ip', None) => remove_surface ip' n
                end in
  let n' := foldl op (add_surface ip (Some l) n) ops in
  Forall (λ o, o.2 ≠ Some (Some l)) ops →
  names n' !! l = (if decide (Exists (λ o, o = (ip, None)) ops) then None else Some ip) ∧
  listeners n' = listeners n.
Proof.
  intros op n'. subst n'. induction ops as [|[a o] ops IH] using rev_ind.
  - intros _. cbn [foldl]. rewrite add_surface_names, decide_True by done.
    case_decide as E; [by apply Exists_nil in E|done].
  - rewrite Forall_app, Forall_singleton. intros [Hops Ho].
    destruct (IH Hops) as [IHn IHl]. rewrite foldl_snoc. clear IH.
    set (m := foldl op _ _) in *. destruct o as [name|]; unfold op; simpl in Ho.
    + rewrite add_surface_names, decide_False by congruence. rewrite IHn.
      split; [|by destruct name]. apply decide_ext. rewrite Exists_app, Exists_cons, Exists_nil.
      naive_solver.
    + split; [|done].
      assert (Hx : Exists (λ o, o = (ip, None)) (ops ++ [(a, None)]) ↔
                   Exists (λ o, o = (ip, None)) ops ∨ a = ip).
      { rewrite Exists_app, Exists_cons, Exists_nil. naive_solver. }
      apply option_eq. intros x. rewrite remove_surface_names, IHn.
      destruct (decide (Exists _ ops)) as [E|E];
        destruct (decide (Exists _ (ops ++ _))) as [E'|E']; rewrite Hx in E'; naive_solver.
Qed.

Lemma tun_names_follow_surfaces_witness :
  let ip := (10, 99, 1, 2)%Z in
  names (remove_surface (10, 99, 1, 3)%Z (add_surface ip (Some "desk") empty)) !! "desk" = Some ip.
Proof.
  pose proof (tun_names_follow_surfaces (10, 99, 1, 2)%Z "desk" empty
    [((10, 99, 1, 3)%Z, None)] ltac:(by repeat constructor)) as [H _].
  etrans; [exact H|]. by vm_compute.
Defined.

End netstack_properties.
