(* ===== verification/Tunnel.v ===== *)
(** * Tunnels ([src/src/tunnel.rs])

    The copy loop of a tunnel over interfaces for its reader and writer
    ([tokio::io::AsyncRead], [AsyncWrite]), and the request that opens one:
    the port in two bytes at the head of the stream.  The clock that only
    times a warning, and the sockets themselves, are not modelled. *)

From S2P Require Import Prelude RustStr Surface.

(** ** The interfaces

    [pending r] is what a reader will still deliver and [written w] what a
    writer has taken.  A read delivers some of what is pending, at most the
    buffer, and nothing only at the end; it or a write may fail. *)
Class AsyncRead (R : Type) : Type := {
  read : R → nat → R * result bytes;
  pending : R → bytes;
}.

Class AsyncReadLaws (R : Type) `{!AsyncRead R} : Prop := {
  read_ok : ∀ r r' cap l, 0 < cap → read r cap = (r', Ok l) →
    pending r = l ++ pending r' ∧ length l ≤ cap ∧ (l = [] → pending r = []);
}.

Class AsyncWrite (W : Type) : Type := {
  write_all : W → bytes → W * result unit;
  written : W → bytes;
}.

Class AsyncWriteLaws (W : Type) `{!AsyncWrite W} : Prop := {
  write_all_ok : ∀ w w' l, write_all w l = (w', Ok tt) → written w' = written w ++ l;
  write_all_err : ∀ w w' l e, write_all w l = (w', Err e) →
    ∃ k, k `prefix_of` l ∧ written w' = written w ++ k;
}.

Module Tunnel.

(** The stack buffer of the loop: [16 * 1024]. *)
Definition BUF : nat := N.to_nat 16384.

(** [total += n as u64]. *)
Definition u64_add (a b : Z) : Z := (a + b) mod 2 ^ 64.

Section copy.
Context {R W : Type} `{!AsyncRead R} `{!AsyncWrite W}.

(** [None] is fuel running out. *)
Fixpoint copy_loop (fuel : nat) (total : Z) (r : R) (w : W) : option (R * W * result Z) :=
  match fuel with
  | O => None
  | S fuel =>
      match read r BUF with
      | (r, Err e) => Some (r, w, Err e)
      | (r, Ok []) => Some (r, w, Ok total)
      | (r, Ok l) =>
          match write_all w l with
          | (w, Err e) => Some (r, w, Err e)
          | (w, Ok _) => copy_loop fuel (u64_add total (Z.of_nat (length l))) r w
          end
      end
  end.

Definition copy_flush (fuel : nat) (r : R) (w : W) : option (R * W * result Z) :=
  copy_loop fuel 0 r w.

End copy.

(** ** Opening a tunnel *)

(** [send.write_all(&port.to_be_bytes())] of [open_tunnel]. *)
Definition request (port : Z) : bytes := u16_to_be_bytes port.

(** [recv.read_exact(&mut buf)] and [u16::from_be_bytes] of
    [handle_bi_stream]: the port, and the bytes that follow it. *)
Definition read_request (stream : bytes) : option (Z * bytes) :=
  match stream with
  | hi :: lo :: rest => Some (u16_from_be_bytes hi lo, rest)
  | _ => None
  end.

Section sockets.
(** [TcpListener::bind] and [TcpStream::connect], and how an address prints. *)
Context {Listener Stream : Type}.
Variable tcp_bind : Surface.IpAddr → Z → result Listener.
Variable tcp_connect : Surface.IpAddr → Z → result Stream.
Variable show_addr : Surface.IpAddr → Z → string.

Definition bind_listener (ip : Surface.IpAddr) (port : Z) : result Listener :=
  context (tcp_bind ip port) ("failed to bind " +:+ show_addr ip port).

(** The socket a served request is forwarded to. *)
Definition handle_tunnel (host : Surface.IpAddr) (port : Z) : result Stream :=
  context (tcp_connect host port) ("failed to connect to " +:+ show_addr host port).

End sockets.
End Tunnel.

(** ** Lemmas *)
Import Tunnel.

Lemma BUF_pos : 0 < BUF.
Proof. apply Nat.ltb_lt. vm_compute. done. Qed.

Lemma read_request_request port rest :
  u16_range port → read_request (request port ++ rest) = Some (port, rest).
Proof.
  intros Hp. unfold request. pose proof (u16_be_roundtrip port) as H.
  unfold u16_to_be_bytes in *. simpl. by erewrite H.
Qed.

Lemma u64_add_small a b : (0 <= a)%Z → (0 <= b)%Z → (a + b < 2 ^ 64)%Z → u64_add a b = (a + b)%Z.
Proof. intros. unfold u64_add. apply Z.mod_small. lia. Qed.

(** ** Properties *)
Section tunnel_properties.
Context {R W : Type} `{AsyncReadLaws R} `{AsyncWriteLaws W}.

(** The copy loop forwards a stream unchanged.  From a reader with
    a finite stream it ends; the writer has then taken a prefix of that stream
    in order and nothing else; and when the loop ends without an error the
    prefix is the whole stream and the count returned is its length modulo
    2^64. *)
Theorem copy_flush_forwards (r : R) (w : W) :
  ∃ r' w' res, copy_flush (S (length (pending r))) r w = Some (r', w', res) ∧
    (∃ l, l `prefix_of` pending r ∧ written w' = written w ++ l) ∧
    (∀ n, res = Ok n →
       written w' = written w ++ pending r ∧
       n = (Z.of_nat (length (pending r)) mod 2 ^ 64)%Z).
Proof.
  assert (Hgen : ∀ fuel total r w, length (pending r) < fuel →
    total = (total mod 2 ^ 64)%Z →
    ∃ r' w' res, copy_loop fuel total r w = Some (r', w', res) ∧
      (∃ l, l `prefix_of` pending r ∧ written w' = written w ++ l) ∧
      (∀ n, res = Ok n → written w' = written w ++ pending r ∧
         n = ((total + Z.of_nat (length (pending r))) mod 2 ^ 64)%Z)).
  { clear r w. induction fuel as [|fuel IH]; intros total r w Hf Ht; [lia|]. simpl.
    assert (Hnil : ∃ l, l `prefix_of` pending r ∧ written w = written w ++ l).
    { exists []. split; [apply prefix_nil|by rewrite app_nil_r]. }
    destruct (read r BUF) as [r1 [l|e]] eqn:Hread; [|eexists _, _, _; by split_and!].
    destruct (read_ok r r1 BUF l) as (Hp & _ & Hend); [apply BUF_pos|done|].
    destruct l as [|b l].
    - eexists _, _, _. split_and!; [done|done|]. intros n [= <-].
      rewrite Hend by done. simpl. by rewrite app_nil_r, Z.add_0_r.
    - destruct (write_all w (b :: l)) as [w1 [[]|e]] eqn:Hwrite.
      + apply write_all_ok in Hwrite. rewrite Hp in Hf |- *. rewrite length_app in Hf. simpl in Hf.
        destruct (IH (u64_add total (Z.of_nat (length (b :: l)))) r1 w1)
          as (r2 & w2 & res & Heq & (k & Hk & Hw2) & Hok); [lia| |].
        { unfold u64_add. by rewrite Z.mod_mod. }
        exists r2, w2, res. split_and!; [done| |].
        * exists ((b :: l) ++ k). split; [by apply prefix_app|].
          by rewrite Hw2, Hwrite, <- app_assoc.
        * intros n Hn. destruct (Hok n Hn) as [Hw Hn']. split; [by rewrite Hw, Hwrite, <- app_assoc|].
          rewrite Hn'. unfold u64_add. rewrite Z.add_mod_idemp_l by done.
          rewrite length_app. f_equal. lia.
      + apply write_all_err in Hwrite as (k & Hk & Hw1). eexists _, _, _. split_and!; [done| |done].
        exists k. split; [|done]. rewrite Hp. by apply prefix_app_r. }
  apply (Hgen _ 0%Z); [lia|done].
Qed.

End tunnel_properties.

(** ** A concrete reader and writer: byte lists *)
Definition list_read : AsyncRead bytes := {|
  read l cap := (drop cap l, Ok (take cap l));
  pending l := l;
|}.

Definition list_write : AsyncWrite bytes := {|
  write_all w l := (w ++ l, Ok tt);
  written w := w;
|}.

Lemma list_read_laws : @AsyncReadLaws bytes list_read.
Proof.
  split. simpl. intros r r' cap l Hcap [= <- <-]. split_and!.
  - by rewrite take_drop.
  - rewrite length_take. lia.
  - destruct r, cap; simpl; done || lia.
Qed.

Lemma list_write_laws : @AsyncWriteLaws bytes list_write.
Proof. split; simpl; [by intros w w' l [= <-]|by intros w w' l e [=]]. Qed.

Lemma copy_flush_forwards_witness :
  ∃ r' w' res, @copy_flush bytes bytes list_read list_write 4 [1; 2; 3]%Z [9]%Z = Some (r', w', res) ∧
    res = Ok 3%Z ∧ w' = [9; 1; 2; 3]%Z.
Proof.
  destruct (@copy_flush_forwards bytes bytes list_read list_read_laws list_write list_write_laws
              [1; 2; 3]%Z [9]%Z) as (r' & w' & res & Heq & _ & Hok).
  exists r', w', res. split; [exact Heq|].
  assert (res = Ok 3%Z) as ->.
  { apply (f_equal (fmap snd)) in Heq. vm_compute in Heq. congruence. }
  split; [done|]. by destruct (Hok _ eq_refl).
Defined.
