(* ===== verification/Peer.v ===== *)
(** * The peer manager ([src/src/peer.rs])

    The shell around the session: the [Peer] objects, the map of known peers,
    their surfaces and local bindings, the records on disk and the connections.
    A [PeerManager] here is the manager's own state and everything its methods
    act on.  A [Peer] is shared through [Arc], so the objects live in a heap
    and the map, the connection loops and the streams hold their ids; an object
    outlives its entry in the map.

    Each method is a function of the state.  The methods that change bindings
    and surfaces hold the bind lock throughout and are one step each; a
    connection that waits for its code spans many ([handle_enrollment] is
    [handle_connection], [enroll_message] and [enroll_end] here), and so does a
    connection loop ([PeerLoop.v]).  A message handed to a connection is logged
    in [sent]: the code ignores a failure to send but for a warning.  The task of
    a listener serves until an accept fails, [accept_failed]; its binding stays. *)

From S2P Require Import Prelude RustStr Keys Grants Backoff Dial Store Enroll Protocol Session Surface Resolver Netstack Tunnel.

(** [DashMap] iterates in an order of its own. *)
Class DashMap : Type := {
  dash_iter : ∀ {K A : Type} `{Countable K}, gmap K A → list (K * A);
}.

Class DashMapLaws `{!DashMap} : Prop := {
  dash_iter_perm : ∀ {K A : Type} `{Countable K} (m : gmap K A),
    dash_iter m ≡ₚ map_to_list m;
}.

Module Peers.

Definition BIND_ATTEMPTS : nat := 5.

Notation IpAddr := Surface.IpAddr.
Notation Surface := Surface.Surface.

(** ** Data *)

(** An [iroh] connection: its identity and who is at the other end. *)
Record Conn (K : Type) : Type := mkConn { cid : N; remote_id : K }.
Arguments mkConn {K}.
Arguments cid {K}.
Arguments remote_id {K}.

(** A binding's task: one that accepts, with the address its socket has; one
    that ended with its socket, because an accept failed; or the placeholder of
    the TUN backend. *)
Inductive Binding : Type :=
| Listener (ip : IpAddr) (port : Z)
| Finished
| TunPlaceholder.

Record Peer (K : Type) : Type := mkPeer {
  endpoint_id : K;
  label : option string;
  dial : bool;
  enroll_token : option string;
  slot : Dial.Slot (Conn K);
  exposed_ports : list Z;
  version : option string;
  surface : option Surface;
  bindings : gmap Z Binding;
  notified : bool;
  removed : bool;
}.
Arguments mkPeer {K}.
Arguments endpoint_id {K}.
Arguments label {K}.
Arguments dial {K}.
Arguments enroll_token {K}.
Arguments slot {K}.
Arguments exposed_ports {K}.
Arguments version {K}.
Arguments surface {K}.
Arguments bindings {K}.
Arguments notified {K}.
Arguments removed {K}.

(** [Peer::new]. *)
Definition new_peer {K} (id : K) (l : option string) (d : bool) (token : option string)
    (conn : option (Conn K)) : Peer K :=
  mkPeer id l d token (Dial.mkSlot conn false) [] None None ∅ false false.

Definition ObjId : Type := N.

(** A task in [handle_enrollment]: its connection and [early_version]. *)
Record Waiting (K : Type) : Type := mkWaiting {
  wait_conn : Conn K;
  early_version : option string;
}.
Arguments mkWaiting {K}.
Arguments wait_conn {K}.
Arguments early_version {K}.

(** What the manager is built with, and the system it runs on: commands, how
    addresses print, and [TcpListener::bind], which answers from the sockets
    this process listens on, the attempt and the address: with the port the
    socket has, which the system picks where port 0 is asked for. *)
Record Config (K : Type) : Type := mkConfig {
  me : K;
  host : IpAddr;
  self_name : option string;
  os : Surface.Os;
  run_cmd : string → list string → result unit;
  ip_to_string : IpAddr → string;
  show_addr : IpAddr → Z → string;
  tcp_bind : gset (IpAddr * Z) → nat → IpAddr → Z → result Z;
}.
Arguments mkConfig {K}.
Arguments me {K}.
Arguments host {K}.
Arguments self_name {K}.
Arguments os {K}.
Arguments run_cmd {K}.
Arguments ip_to_string {K}.
Arguments show_addr {K}.
Arguments tcp_bind {K}.

Section peers.
Context {K : Type} `{!EndpointKey K} `{!DashMap}.
Context `{!JsonCodec Pins.Pin} `{!JsonCodec Surface.SurfaceRecord}.

Record PeerManager : Type := mkManager {
  peers : gmap K ObjId;
  objects : gmap ObjId (Peer K);
  session : Session.Session K;
  next_conn_id : Z;
  pins : Store.File;
  surfaces : Store.File;
  netstack : option NetStack.NetStack;
  sockets : gset (IpAddr * Z);
  closed : gmap N string;
  sent : list (Conn K * Protocol.PeerMessage);
  loops : list ObjId;
  waiting : gmap Session.ConnId (Waiting K);
}.

(** [PeerManager::new]. *)
Definition new (pins surfaces : Store.File) (ns : option NetStack.NetStack) : PeerManager :=
  mkManager ∅ ∅ Session.new 1 pins surfaces ns ∅ ∅ [] [] ∅.

(** ** Assignments to the parts of the state *)

Definition set_peers (x : gmap K ObjId) (m : PeerManager) : PeerManager :=
  mkManager x (objects m) (session m) (next_conn_id m) (pins m) (surfaces m) (netstack m)
    (sockets m) (closed m) (sent m) (loops m) (waiting m).

Definition set_objects (x : gmap ObjId (Peer K)) (m : PeerManager) : PeerManager :=
  mkManager (peers m) x (session m) (next_conn_id m) (pins m) (surfaces m) (netstack m)
    (sockets m) (closed m) (sent m) (loops m) (waiting m).

Definition set_session (x : Session.Session K) (m : PeerManager) : PeerManager :=
  mkManager (peers m) (objects m) x (next_conn_id m) (pins m) (surfaces m) (netstack m)
    (sockets m) (closed m) (sent m) (loops m) (waiting m).

Definition set_next_conn_id (x : Z) (m : PeerManager) : PeerManager :=
  mkManager (peers m) (objects m) (session m) x (pins m) (surfaces m) (netstack m)
    (sockets m) (closed m) (sent m) (loops m) (waiting m).

Definition set_pins (x : Store.File) (m : PeerManager) : PeerManager :=
  mkManager (peers m) (objects m) (session m) (next_conn_id m) x (surfaces m) (netstack m)
    (sockets m) (closed m) (sent m) (loops m) (waiting m).

Definition set_surfaces (x : Store.File) (m : PeerManager) : PeerManager :=
  mkManager (peers m) (objects m) (session m) (next_conn_id m) (pins m) x (netstack m)
    (sockets m) (closed m) (sent m) (loops m) (waiting m).

Definition set_netstack (x : option NetStack.NetStack) (m : PeerManager) : PeerManager :=
  mkManager (peers m) (objects m) (session m) (next_conn_id m) (pins m) (surfaces m) x
    (sockets m) (closed m) (sent m) (loops m) (waiting m).

Definition set_sockets (x : gset (IpAddr * Z)) (m : PeerManager) : PeerManager :=
  mkManager (peers m) (objects m) (session m) (next_conn_id m) (pins m) (surfaces m)
    (netstack m) x (closed m) (sent m) (loops m) (waiting m).

Definition set_closed (x : gmap N string) (m : PeerManager) : PeerManager :=
  mkManager (peers m) (objects m) (session m) (next_conn_id m) (pins m) (surfaces m)
    (netstack m) (sockets m) x (sent m) (loops m) (waiting m).

Definition set_sent (x : list (Conn K * Protocol.PeerMessage)) (m : PeerManager) : PeerManager :=
  mkManager (peers m) (objects m) (session m) (next_conn_id m) (pins m) (surfaces m)
    (netstack m) (sockets m) (closed m) x (loops m) (waiting m).

Definition set_loops (x : list ObjId) (m : PeerManager) : PeerManager :=
  mkManager (peers m) (objects m) (session m) (next_conn_id m) (pins m) (surfaces m)
    (netstack m) (sockets m) (closed m) (sent m) x (waiting m).

Definition set_waiting (x : gmap Session.ConnId (Waiting K)) (m : PeerManager) : PeerManager :=
  mkManager (peers m) (objects m) (session m) (next_conn_id m) (pins m) (surfaces m)
    (netstack m) (sockets m) (closed m) (sent m) (loops m) x.

(** Assignments to a field of one object. *)
Definition upd (o : ObjId) (f : Peer K → Peer K) (m : PeerManager) : PeerManager :=
  set_objects (alter f o (objects m)) m.

Definition put_dial (x : bool) (p : Peer K) : Peer K :=
  mkPeer (endpoint_id p) (label p) x (enroll_token p) (slot p) (exposed_ports p) (version p)
    (surface p) (bindings p) (notified p) (removed p).

Definition put_slot (x : Dial.Slot (Conn K)) (p : Peer K) : Peer K :=
  mkPeer (endpoint_id p) (label p) (dial p) (enroll_token p) x (exposed_ports p) (version p)
    (surface p) (bindings p) (notified p) (removed p).

Definition put_exposed (x : list Z) (p : Peer K) : Peer K :=
  mkPeer (endpoint_id p) (label p) (dial p) (enroll_token p) (slot p) x (version p)
    (surface p) (bindings p) (notified p) (removed p).

Definition put_version (x : option string) (p : Peer K) : Peer K :=
  mkPeer (endpoint_id p) (label p) (dial p) (enroll_token p) (slot p) (exposed_ports p) x
    (surface p) (bindings p) (notified p) (removed p).

Definition put_surface (x : option Surface) (p : Peer K) : Peer K :=
  mkPeer (endpoint_id p) (label p) (dial p) (enroll_token p) (slot p) (exposed_ports p)
    (version p) x (bindings p) (notified p) (removed p).

Definition put_bindings (x : gmap Z Binding) (p : Peer K) : Peer K :=
  mkPeer (endpoint_id p) (label p) (dial p) (enroll_token p) (slot p) (exposed_ports p)
    (version p) (surface p) x (notified p) (removed p).

Definition put_notified (x : bool) (p : Peer K) : Peer K :=
  mkPeer (endpoint_id p) (label p) (dial p) (enroll_token p) (slot p) (exposed_ports p)
    (version p) (surface p) (bindings p) x (removed p).

Definition put_removed (x : bool) (p : Peer K) : Peer K :=
  mkPeer (endpoint_id p) (label p) (dial p) (enroll_token p) (slot p) (exposed_ports p)
    (version p) (surface p) (bindings p) (notified p) x.

(** Reads through an id. *)
Definition surface_of (o : ObjId) (m : PeerManager) : option Surface :=
  p ← objects m !! o; surface p.

Definition bindings_of (o : ObjId) (m : PeerManager) : gmap Z Binding :=
  match objects m !! o with Some p => bindings p | None => ∅ end.

Definition exposed_of (o : ObjId) (m : PeerManager) : list Z :=
  match objects m !! o with Some p => exposed_ports p | None => [] end.

Definition conn_of (o : ObjId) (m : PeerManager) : option (Conn K) :=
  p ← objects m !! o; Dial.connection (slot p).

(** [close_reason().is_none()]. *)
Definition live (m : PeerManager) (c : Conn K) : bool :=
  match closed m !! cid c with Some _ => false | None => true end.

(** [Connection::close]: the first close of a connection is the one that counts. *)
Definition close (c : Conn K) (reason : string) (m : PeerManager) : PeerManager :=
  match closed m !! cid c with
  | Some _ => m
  | None => set_closed (<[cid c := reason]> (closed m)) m
  end.

Definition close_all (cs : list (Conn K * string)) (m : PeerManager) : PeerManager :=
  foldl (λ m '(c, reason), close c reason m) m cs.

(** [self.peers.insert(..)] of a fresh object and [spawn_connection_loop]. *)
Definition spawn_peer (p : Peer K) (m : PeerManager) : PeerManager * ObjId :=
  let o := fresh (dom (objects m)) in
  let m := set_objects (<[o := p]> (objects m)) m in
  let m := set_peers (<[endpoint_id p := o]> (peers m)) m in
  (set_loops (loops m ++ [o]) m, o).

(** ** Messages *)

Definition send_message (c : Conn K) (msg : Protocol.PeerMessage) (m : PeerManager) : PeerManager :=
  set_sent (sent m ++ [(c, msg)]) m.

Definition send_to (o : ObjId) (msg : Protocol.PeerMessage) (m : PeerManager) : PeerManager :=
  match conn_of o m with
  | Some c => send_message c msg m
  | None => m
  end.

Definition send_version (o : ObjId) (m : PeerManager) : PeerManager :=
  send_to o (Protocol.enroll EmptyString) m.

Definition send_ports (o : ObjId) (ports : list Z) (m : PeerManager) : PeerManager :=
  send_to o (Protocol.ExposedPorts ports) m.

Definition announce_to (o : ObjId) (m : PeerManager) : PeerManager :=
  match objects m !! o with
  | Some p =>
      match Session.announce (endpoint_id p) (session m) with
      | Session.Announce _ ports => send_ports o ports m
      | _ => m
      end
  | None => m
  end.

Definition broadcast_grants (m : PeerManager) : PeerManager :=
  foldl (λ m e, announce_to e.2 m) m (dash_iter (peers m)).

Section manager.
Variable cfg : Config K.

(** ** Addresses and bindings *)

Definition surface_base (m : PeerManager) : Z * Z * Z :=
  match netstack m with
  | Some _ => Surface.TUN_BASE
  | None => Surface.LOOPBACK_BASE
  end.

Definition projected_ips (m : PeerManager) : list IpAddr :=
  omap (λ e : K * ObjId, Surface.ip <$> surface_of e.2 m) (dash_iter (peers m)).

Definition claim_addr (ip : IpAddr) (name : option string) (m : PeerManager) :
    PeerManager * result unit :=
  match netstack m with
  | Some ns =>
      (match ip with
       | Surface.V4 a b c d => set_netstack (Some (NetStack.add_surface (a, b, c, d) name ns)) m
       | Surface.V6 _ => m
       end, Ok tt)
  | None => (m, Surface.ensure_addr (os cfg) (run_cmd cfg) (ip_to_string cfg) ip)
  end.

Definition unclaim_addr (ip : IpAddr) (m : PeerManager) : PeerManager * result unit :=
  match netstack m with
  | Some ns =>
      (match ip with
       | Surface.V4 a b c d => set_netstack (Some (NetStack.remove_surface (a, b, c, d) ns)) m
       | Surface.V6 _ => m
       end, Ok tt)
  | None => (m, Surface.remove_addr (os cfg) (run_cmd cfg) (ip_to_string cfg) ip)
  end.

(** Take the binding out and drop its listener; the TUN backend also stops
    listening at the peer's surface. *)
Definition release_binding (o : ObjId) (port : Z) (m : PeerManager) : PeerManager :=
  let m := match bindings_of o m !! port with
           | Some b =>
               let m := upd o (λ p, put_bindings (delete port (bindings p)) p) m in
               match b with
               | Listener ip bound => set_sockets (sockets m ∖ {[(ip, bound)]}) m
               | Finished | TunPlaceholder => m
               end
           | None => m
           end in
  match netstack m with
  | Some ns =>
      match surface_of o m with
      | Some s =>
          match Surface.ip s with
          | Surface.V4 a b c d =>
              set_netstack (Some (NetStack.unlisten (a, b, c, d) port ns)) m
          | Surface.V6 _ => m
          end
      | None => m
      end
  | None => m
  end.

Definition release_all (o : ObjId) (ports : list Z) (m : PeerManager) : PeerManager :=
  foldl (λ m port, release_binding o port m) m ports.

(** The ports bound for a peer, as [bindings.iter()] lists them. *)
Definition held_ports (o : ObjId) (m : PeerManager) : list Z :=
  (dash_iter (bindings_of o m)).*1.

(** [for attempt in 0..BIND_ATTEMPTS], from [attempt] with [n] left: the port of
    the socket there is in the end. *)
Fixpoint bind_attempts (n attempt : nat) (ip : IpAddr) (port : Z) (m : PeerManager) : option Z :=
  match n with
  | O => None
  | S n =>
      match Tunnel.bind_listener (tcp_bind cfg (sockets m) attempt) (show_addr cfg) ip port with
      | Ok q => Some q
      | Err _ => bind_attempts n (S attempt) ip port m
      end
  end.

Definition put_binding (o : ObjId) (port : Z) (b : Binding) (m : PeerManager) : PeerManager :=
  upd o (λ p, put_bindings (<[port := b]> (bindings p)) p) m.

Definition bind_one (o : ObjId) (ip : IpAddr) (port : Z) (m : PeerManager) : PeerManager :=
  match netstack m, ip with
  | Some ns, Surface.V4 a b c d =>
      put_binding o port TunPlaceholder
        (set_netstack (Some (NetStack.listen (a, b, c, d) port ns)) m)
  | _, _ =>
      match bind_attempts BIND_ATTEMPTS 0 ip port m with
      | Some q => put_binding o port (Listener ip q) (set_sockets ({[(ip, q)]} ∪ sockets m) m)
      | None => m
      end
  end.

(** The task [bind_one] spawned: [serve_listener] returns when an accept fails,
    which drops the listener; the binding stays. *)
Definition accept_failed (o : ObjId) (port : Z) (m : PeerManager) : PeerManager :=
  match bindings_of o m !! port with
  | Some (Listener ip q) => put_binding o port Finished (set_sockets (sockets m ∖ {[(ip, q)]}) m)
  | _ => m
  end.

Definition bind_missing (o : ObjId) (ip : IpAddr) (ports : list Z) (m : PeerManager) :
    PeerManager :=
  foldl (λ m port, match bindings_of o m !! port with
                   | Some _ => m
                   | None => bind_one o ip port m
                   end) m ports.

(** The address to bind a peer's ports at, projecting it when it has none. *)
Definition surface_ip (o : ObjId) (ports : list Z) (m : PeerManager) :
    PeerManager * option IpAddr :=
  match objects m !! o with
  | None => (m, None)
  | Some p =>
      match surface p with
      | Some s => (m, Some (Surface.ip s))
      | None =>
          match ports with
          | [] => (m, None)
          | _ :: _ =>
              match Surface.allocate (projected_ips m) (surface_base m) with
              | Err _ => (m, None)
              | Ok ip =>
                  let name := Some (match label p with
                                    | Some l => l
                                    | None => Session.default_name (endpoint_id p)
                                    end) in
                  match claim_addr ip name m with
                  | (m, Err _) => (m, None)
                  | (m, Ok _) =>
                      let m := upd o (put_surface (Some (Surface.mkSurface ip name))) m in
                      let '(f, _) := Surface.add (to_string (endpoint_id p)) ip name (surfaces m) in
                      (set_surfaces f m, Some ip)
                  end
              end
          end
      end
  end.

Definition update_peer_ports (o : ObjId) (new_ports : list Z) (m : PeerManager) : PeerManager :=
  let old_ports := exposed_of o m in
  let m := foldl (λ m port, if decide (port ∈ new_ports) then m else release_binding o port m)
                 m old_ports in
  let '(m, ip) := surface_ip o new_ports m in
  match ip with
  | None => upd o (put_exposed new_ports) m
  | Some ip => upd o (put_exposed new_ports) (bind_missing o ip new_ports m)
  end.

(** ** Carrying out the session's actions *)

Definition apply_one (o : ObjId) (m : PeerManager) (a : Session.Action K) : PeerManager :=
  match a with
  | Session.Announce _ ports => send_ports o ports m
  | Session.ApplyPorts _ ports => update_peer_ports o ports m
  | Session.PersistPin key l => set_pins (Pins.add (to_string key) l (pins m)).1 m
  | Session.DropPin key => set_pins (Pins.remove (to_string key) (pins m)).1 m
  | Session.Admit _ _ _ | Session.Refuse _ _ => m
  | Session.ServeTunnel _ | Session.RejectTunnel _ => m
  end.

Definition apply (o : ObjId) (actions : list (Session.Action K)) (m : PeerManager) : PeerManager :=
  foldl (apply_one o) m actions.

(** ** Peers we name *)

Definition admit_known (k : K) (name : option string) (a : Session.Admission) (m : PeerManager) :
    PeerManager :=
  set_session (Session.admit_known k name a (session m)).1 m.

Definition add_peer (k : K) (name code : option string) (m : PeerManager) :
    PeerManager * result unit :=
  match peers m !! k with
  | Some _ => (m, Err "peer already exists")
  | None =>
      let m := admit_known k name Session.Added m in
      ((spawn_peer (new_peer k name true code None) m).1, Ok tt)
  end.

Definition add_pinned (key : string) (name : option string) (m : PeerManager) :
    PeerManager * result unit :=
  match context (ok_or (parse_key key) EmptyString) "invalid key" with
  | Err e => (m, Err e)
  | Ok k =>
      match peers m !! k with
      | Some _ => (m, Ok tt)
      | None =>
          let m := admit_known k name Session.Key m in
          ((spawn_peer (new_peer k name false None None) m).1, Ok tt)
      end
  end.

Definition pin_peer (key : string) (name : option string) (m : PeerManager) :
    PeerManager * result unit :=
  match add_pinned key name m with
  | (m, Err e) => (m, Err e)
  | (m, Ok _) =>
      let '(f, r) := Pins.add key name (pins m) in
      (set_pins f m, r)
  end.

(** ** Connections *)

(** Under the write lock of the slot: keep what is held and close the newcomer,
    or close what is held and install the newcomer.  The boolean is whether it
    was installed. *)
Definition install (o : ObjId) (c : Conn K) (by_us : bool) (m : PeerManager) :
    PeerManager * bool :=
  match objects m !! o with
  | None => (m, false)
  | Some p =>
      let '(slot', closes) :=
        Dial.offer (me cfg) (endpoint_id p) (live m) (slot p) c by_us in
      let keep := Dial.resolve (me cfg) (endpoint_id p) (Dial.held_is_live (live m) (slot p))
                    (Dial.conn_dialed_by_us (slot p)) by_us in
      (upd o (put_slot slot') (close_all closes m),
       match keep with Dial.Held => false | Dial.Arriving => true end)
  end.

Definition handle_connection (c : Conn K) (m : PeerManager) : PeerManager :=
  let id := next_conn_id m in
  let m := set_next_conn_id ((id + 1) mod 2 ^ 64)%Z m in
  let '(s, admission) := Session.on_inbound id (remote_id c) (session m) in
  let m := set_session s m in
  match admission with
  | [] => set_waiting (<[id := mkWaiting c None]> (waiting m)) m
  | _ :: _ =>
      match peers m !! remote_id c with
      | None => m
      | Some o =>
          match install o c false m with
          | (m, false) => m
          | (m, true) => apply o admission (upd o (put_notified true) (upd o (put_dial true) m))
          end
      end
  end.

(** ** Enrollment *)

Definition refusal_of (actions : list (Session.Action K)) : option Session.Refusal :=
  head (omap (λ a, match a with Session.Refuse _ r => Some r | _ => None end) actions).

Definition is_admit (a : Session.Action K) : bool :=
  match a with Session.Admit _ _ _ => true | _ => false end.

(** What [handle_enrollment] does with the verdict. *)
Definition enroll_verdict (id : Session.ConnId) (wt : Waiting K)
    (actions : list (Session.Action K)) (m : PeerManager) : PeerManager :=
  let c := wait_conn wt in
  let m := set_waiting (delete id (waiting m)) m in
  match refusal_of actions with
  | Some reason => close c (Session.refusal_str reason) m
  | None =>
      if existsb is_admit actions
      then
        let l := Session.label_of (remote_id c) (session m) in
        let p := new_peer (remote_id c) l true None (Some c) in
        let p := match early_version wt with
                 | Some v => put_version (Some v) p
                 | None => p
                 end in
        let '(m, o) := spawn_peer p m in
        apply o actions m
      else close c (Session.refusal_str Session.NotAuthorized) m
  end.

(** One control message on a waiting connection; [None] does not parse. *)
Definition enroll_message (id : Session.ConnId) (msg : option Protocol.PeerMessage) (now : Z)
    (m : PeerManager) : PeerManager :=
  match waiting m !! id, msg with
  | Some wt, Some msg =>
      let wt := match msg with
                | Protocol.Enroll _ (Some v) => mkWaiting (wait_conn wt) (Some v)
                | _ => wt
                end in
      let '(s, actions) := Session.on_unadmitted id (remote_id (wait_conn wt)) msg now (session m) in
      let m := set_session s m in
      match actions with
      | [] => set_waiting (<[id := wt]> (waiting m)) m
      | _ :: _ => enroll_verdict id wt actions m
      end
  | _, _ => m
  end.

(** The window closed or the stream failed. *)
Definition enroll_end (id : Session.ConnId) (m : PeerManager) : PeerManager :=
  match waiting m !! id with
  | Some wt =>
      let '(s, actions) := Session.on_enroll_timeout id (session m) in
      enroll_verdict id wt actions (set_session s m)
  | None => m
  end.

(** ** Streams of an admitted connection *)

(** A control message; [None] is a stream that could not be read or parsed. *)
Definition handle_uni_stream (o : ObjId) (msg : option Protocol.PeerMessage) (m : PeerManager) :
    PeerManager :=
  match msg with
  | Some (Protocol.ExposedPorts ports) => update_peer_ports o ports m
  | Some (Protocol.Enroll _ (Some v)) => upd o (put_version (Some v)) m
  | _ => m
  end.

(** What becomes of a tunnel request, read from the head of its stream. *)
Inductive TunnelOutcome : Type :=
| Forward (ip : IpAddr) (port : Z) (rest : bytes)
| Refused
| TunnelError.

Definition handle_bi_stream (o : ObjId) (stream : bytes) (m : PeerManager) : TunnelOutcome :=
  match Tunnel.read_request stream, objects m !! o with
  | Some (port, rest), Some p =>
      match Session.on_tunnel (endpoint_id p) port (session m) with
      | Session.ServeTunnel port => Forward (host cfg) port rest
      | Session.RejectTunnel _ => Refused
      | _ => TunnelError
      end
  | _, _ => TunnelError
  end.

(** [open_tunnel]: the connection a tunnel is opened on and the bytes it
    starts with. *)
Definition open_tunnel (o : ObjId) (port : Z) (m : PeerManager) : result (Conn K * bytes) :=
  match conn_of o m with
  | Some c => if live m c then Ok (c, Tunnel.request port) else Err "failed to open stream"
  | None => Err "peer disconnected"
  end.

(** An accepted connection of the TUN backend goes to the peer whose surface
    it is. *)
Definition peer_for_ip (ip : IpAddr) (m : PeerManager) : option ObjId :=
  head (omap (λ e : K * ObjId,
                if decide (Surface.ip <$> surface_of e.2 m = Some ip) then Some e.2 else None)
             (dash_iter (peers m))).

Definition netstack_accept (ip : Resolver.Ipv4Addr) (port : Z) (m : PeerManager) :
    option (result (Conn K * bytes)) :=
  let '(a, b, c, d) := ip in
  o ← peer_for_ip (Surface.V4 a b c d) m; Some (open_tunnel o port m).

(** ** Forgetting *)

Definition drop_pin (m : PeerManager) (a : Session.Action K) : PeerManager :=
  match a with
  | Session.DropPin key => set_pins (Pins.remove (to_string key) (pins m)).1 m
  | _ => m
  end.

(** What [evict] does with the object it took out of the map. *)
Definition evict_object (o : ObjId) (reason : string) (m : PeerManager) : PeerManager :=
  let m := upd o (put_removed true) m in
  let m := upd o (put_notified true) m in
  let m := match objects m !! o with
           | Some p =>
               match Dial.connection (slot p) with
               | Some c =>
                   close c reason
                     (upd o (put_slot (Dial.mkSlot None (Dial.conn_dialed_by_us (slot p)))) m)
               | None => m
               end
           | None => m
           end in
  let m := release_all o (held_ports o m) m in
  match surface_of o m with
  | Some s => (unclaim_addr (Surface.ip s) (upd o (put_surface None) m)).1
  | None => m
  end.

Definition evict (k : K) (reason : string) (m : PeerManager) : PeerManager :=
  let m := match peers m !! k with
           | Some o => evict_object o reason (set_peers (delete k (peers m)) m)
           | None => m
           end in
  let '(s, actions) := Session.evict k (session m) in
  let m := foldl drop_pin (set_session s m) actions in
  set_surfaces (Surface.remove (to_string k) (surfaces m)).1 m.

Definition label_is (peer_ref : string) (m : PeerManager) (e : K * ObjId) : bool :=
  match objects m !! e.2 with
  | Some p => bool_decide (label p = Some peer_ref)
  | None => false
  end.

Definition resolve_peer (peer_ref : string) (m : PeerManager) : option K :=
  let by_label := fst <$> head (filter (λ e, label_is peer_ref m e = true) (dash_iter (peers m))) in
  match parse_key peer_ref with
  | Some k => match peers m !! k with
              | Some _ => Some k
              | None => by_label
              end
  | None => by_label
  end.

Definition remove_peer (peer_ref : string) (m : PeerManager) : PeerManager * result unit :=
  match resolve_peer peer_ref m with
  | None => (m, Err ("no such peer: " +:+ peer_ref))
  | Some k =>
      match peers m !! k with
      | None => (m, Err "peer not found")
      | Some _ => (evict k "removed" m, Ok tt)
      end
  end.

(** ** Surfaces by request *)

(** Tear down a surface: release every binding, then clear it. *)
Definition clear_surface (o : ObjId) (m : PeerManager) : PeerManager :=
  upd o (put_surface None) (release_all o (held_ports o m) m).

Definition project (peer_ref : string) (ip : option IpAddr) (name : option string)
    (m : PeerManager) : PeerManager * result unit :=
  match resolve_peer peer_ref m with
  | None => (m, Err ("no such peer: " +:+ peer_ref))
  | Some id =>
      match peers m !! id with
      | None => (m, Err ("no such peer: " +:+ peer_ref))
      | Some o =>
          let m := match surface_of o m with
                   | Some old => (unclaim_addr (Surface.ip old) (clear_surface o m)).1
                   | None => m
                   end in
          let name := match name with
                      | Some n => Some n
                      | None => p ← objects m !! o; label p
                      end in
          match (match ip with
                 | Some ip => Ok ip
                 | None => Surface.allocate (projected_ips m) (surface_base m)
                 end) with
          | Err e => (m, Err e)
          | Ok ip =>
              match claim_addr ip name m with
              | (m, Err e) => (m, Err e)
              | (m, Ok _) =>
                  let m := upd o (put_surface (Some (Surface.mkSurface ip name))) m in
                  let '(f, _) := Surface.add (to_string id) ip name (surfaces m) in
                  let m := set_surfaces f m in
                  (bind_missing o ip (exposed_of o m) m, Ok tt)
              end
          end
      end
  end.

Definition unproject (peer_ref : string) (m : PeerManager) : PeerManager * result unit :=
  match resolve_peer peer_ref m with
  | None => (m, Err ("no such peer: " +:+ peer_ref))
  | Some id =>
      match peers m !! id with
      | None => (m, Err ("no such peer: " +:+ peer_ref))
      | Some o =>
          match surface_of o m with
          | None => (m, Err ("peer " +:+ peer_ref +:+ " is not projected"))
          | Some s =>
              match unclaim_addr (Surface.ip s) (clear_surface o m) with
              | (m, Err e) => (m, Err e)
              | (m, Ok _) =>
                  (set_surfaces (Surface.remove (to_string id) (surfaces m)).1 m, Ok tt)
              end
          end
      end
  end.

(** One record of [restore_surfaces]. *)
Definition restore_one (m : PeerManager) (r : Surface.SurfaceRecord) : PeerManager :=
  match parse_key (Surface.rec_key r) with
  | None => m
  | Some id =>
      match peers m !! id with
      | None => m
      | Some o =>
          match claim_addr (Surface.rec_ip r) (Surface.rec_name r) m with
          | (m, Err _) => m
          | (m, Ok _) =>
              upd o (put_surface (Some (Surface.mkSurface (Surface.rec_ip r) (Surface.rec_name r)))) m
          end
      end
  end.

Definition restore_surfaces (m : PeerManager) : PeerManager :=
  match Surface.load (surfaces m) with
  | Err _ => m
  | Ok records => foldl restore_one m records
  end.

(** ** Queries *)

Definition info_of (m : PeerManager) (o : ObjId) : option Protocol.PeerInfo :=
  p ← objects m !! o;
  Some {|
    Protocol.pi_key := to_string (endpoint_id p);
    Protocol.pi_name := label p;
    Protocol.pi_version := version p;
    Protocol.pi_online := Dial.held_is_live (live m) (slot p);
    Protocol.pi_admission :=
      match Session.admission_of (endpoint_id p) (session m) with
      | Some a => Session.admission_str a
      | None => "unknown"
      end;
    Protocol.pi_they_expose := exposed_ports p;
    Protocol.pi_ip := (λ s, ip_to_string cfg (Surface.ip s)) <$> surface p;
    Protocol.pi_bound := merge_sort Z.le (held_ports o m);
  |}.

Definition list_peers (m : PeerManager) : list Protocol.PeerInfo :=
  omap (λ e : K * ObjId, info_of m e.2) (dash_iter (peers m)).

Definition resolve_name (l : string) (m : PeerManager) : option IpAddr :=
  if decide (self_name cfg = Some l) then Some (host cfg)
  else head (omap (λ e : K * ObjId,
                     s ← surface_of e.2 m;
                     if decide (Surface.name s = Some l) then Some (Surface.ip s) else None)
                  (dash_iter (peers m))).

End manager.
End peers.
Arguments PeerManager K {_}.
End Peers.
