(* ===== verification/PeerFacts.v ===== *)
(** * The peer manager: lemmas

    How the operations of [Peer.v] act on the parts of the state.  [frame] is
    the preorder "leaves the peers, the session, the tasks and the identity of
    every object alone", which every operation on bindings, surfaces,
    connections and messages satisfies. *)

From S2P Require Import Prelude RustStr Keys Grants Dial Store Enroll Protocol Session Surface Resolver Netstack Tunnel Peer.
Import Peers.

Section facts.
Context {K : Type} `{EKL : EndpointKeyLaws K} `{DML : DashMapLaws}.
Context `{!JsonCodec Pins.Pin} `{!JsonCodec Surface.SurfaceRecord}.
Implicit Types (m : PeerManager K) (p : Peer K) (o : ObjId) (k : K) (c : Conn K).

(** ** Reading and writing objects *)

Lemma objects_upd o f m o' :
  objects (upd o f m) !! o' = if decide (o' = o) then f <$> objects m !! o else objects m !! o'.
Proof.
  unfold upd. simpl. case_decide as Ho; [subst; apply lookup_alter_eq|].
  by rewrite lookup_alter_ne.
Qed.

Lemma surface_of_upd o f m o' :
  surface_of o' (upd o f m) =
  if decide (o' = o) then p ← objects m !! o; surface (f p) else surface_of o' m.
Proof. unfold surface_of. rewrite objects_upd. case_decide; [|done]. by destruct (objects m !! o). Qed.

Lemma bindings_of_upd o f m o' :
  bindings_of o' (upd o f m) =
  if decide (o' = o) then match objects m !! o with Some p => bindings (f p) | None => ∅ end
  else bindings_of o' m.
Proof. unfold bindings_of. rewrite objects_upd. case_decide; [|done]. by destruct (objects m !! o). Qed.

(** ** What the low-level operations leave alone *)

(** The fields of an object that only its creation and [evict] set. *)
Definition identity p : K * option string * option string * bool :=
  (endpoint_id p, label p, enroll_token p, removed p).

Record frame m m' : Prop := {
  frame_peers : peers m' = peers m;
  frame_session : session m' = session m;
  frame_loops : loops m' = loops m;
  frame_waiting : waiting m' = waiting m;
  frame_next : next_conn_id m' = next_conn_id m;
  frame_identity : ∀ o, identity <$> objects m' !! o = identity <$> objects m !! o;
  frame_netstack : is_Some (netstack m') ↔ is_Some (netstack m);
}.

#[export] Instance frame_preorder : PreOrder frame.
Proof.
  split; [by split|]. intros m1 m2 m3 [] []. split; try congruence.
  all: try (intros o; congruence). by etrans.
Qed.

Lemma frame_upd o f m : (∀ p, identity (f p) = identity p) → frame m (upd o f m).
Proof.
  intros Hf. split; try done. intros o'. rewrite objects_upd. case_decide; [subst|done].
  destruct (objects m !! o); simpl; [|done]. by rewrite Hf.
Qed.

Lemma frame_foldl {A} (f : PeerManager K → A → PeerManager K) (l : list A) m :
  (∀ m x, frame m (f m x)) → frame m (foldl f m l).
Proof.
  intros Hf. revert m. induction l as [|x l IH]; intros m; simpl; [done|].
  etrans; [apply Hf|apply IH].
Qed.

Lemma frame_close c reason m : frame m (close c reason m).
Proof. unfold close. by case_match; split. Qed.

Lemma frame_close_all cs m : frame m (close_all cs m).
Proof. apply frame_foldl. intros ? []. apply frame_close. Qed.

Lemma frame_send_to o msg m : frame m (send_to o msg m).
Proof. unfold send_to. by case_match; split. Qed.

Lemma frame_announce_to o m : frame m (announce_to o m).
Proof. unfold announce_to. repeat case_match; try done. apply frame_send_to. Qed.

Lemma frame_broadcast m : frame m (broadcast_grants m).
Proof. apply frame_foldl. intros. apply frame_announce_to. Qed.

Lemma frame_claim cfg ip name m : frame m (claim_addr cfg ip name m).1.
Proof.
  unfold claim_addr. destruct (netstack m) eqn:Hn; [|done]. destruct ip; [|done].
  split; try done; simpl; by rewrite Hn.
Qed.

Lemma frame_unclaim cfg ip m : frame m (unclaim_addr cfg ip m).1.
Proof.
  unfold unclaim_addr. destruct (netstack m) eqn:Hn; [|done]. destruct ip; [|done].
  split; try done; simpl; by rewrite Hn.
Qed.

Lemma frame_release o port m : frame m (release_binding o port m).
Proof.
  unfold release_binding. set (m1 := match bindings_of o m !! port with Some _ => _ | None => _ end).
  assert (H1 : frame m m1).
  { unfold m1. destruct (bindings_of o m !! port) as [b|]; [|done].
    etrans; [apply (frame_upd o (λ p, put_bindings (delete port (bindings p)) p)); done|].
    destruct b; by split. }
  etrans; [exact H1|]. clearbody m1. repeat case_match; try done; split; try done;
    simpl; by split.
Qed.

Lemma frame_release_all o ports m : frame m (release_all o ports m).
Proof. apply frame_foldl. intros. apply frame_release. Qed.

Lemma frame_put_binding o port b m : frame m (put_binding o port b m).
Proof. by apply frame_upd. Qed.

Lemma frame_bind_one cfg o ip port m : frame m (bind_one cfg o ip port m).
Proof.
  unfold bind_one.
  destruct (netstack m) eqn:Hn, ip; try (case_match; [|done]);
    (etrans; [|apply frame_put_binding]); split; try done; simpl; by rewrite ?Hn.
Qed.

Lemma frame_accept_failed o port m : frame m (accept_failed o port m).
Proof.
  unfold accept_failed. do 2 (case_match; try done).
  etrans; [|apply frame_put_binding]. by split.
Qed.

Lemma frame_bind_missing cfg o ip ports m : frame m (bind_missing cfg o ip ports m).
Proof. apply frame_foldl. intros. case_match; [done|]. apply frame_bind_one. Qed.

Lemma frame_clear_surface o m : frame m (clear_surface o m).
Proof. etrans; [apply frame_release_all|]. by apply frame_upd. Qed.

Lemma frame_set_surfaces f m : frame m (set_surfaces f m).
Proof. by split. Qed.

Lemma frame_set_pins f m : frame m (set_pins f m).
Proof. by split. Qed.

Lemma frame_surface_ip cfg o ports m : frame m (surface_ip cfg o ports m).1.
Proof.
  unfold surface_ip. destruct (objects m !! o) as [p|]; [|done].
  destruct (surface p); [done|]. destruct ports; [done|].
  destruct (Surface.allocate _ _) as [ip|]; [|done].
  pose proof (frame_claim cfg ip (Some (match label p with
    Some l => l | None => Session.default_name (endpoint_id p) end)) m) as Hc.
  destruct (claim_addr _ _ _ _) as [m1 [[]|]]; [|done]. simpl in Hc.
  destruct (Surface.add _ _ _ _) as [f r]. simpl.
  etrans; [exact Hc|]. etrans; [|apply frame_set_surfaces]. by apply frame_upd.
Qed.

Lemma frame_update_ports cfg o ports m : frame m (update_peer_ports cfg o ports m).
Proof.
  unfold update_peer_ports. set (m1 := foldl _ m _).
  assert (H1 : frame m m1).
  { apply frame_foldl. intros. case_decide; [done|]. apply frame_release. }
  etrans; [exact H1|]. pose proof (frame_surface_ip cfg o ports m1) as H2.
  destruct (surface_ip cfg o ports m1) as [m2 [ip|]]; simpl in H2; (etrans; [exact H2|]).
  - etrans; [apply (frame_bind_missing cfg o ip ports)|]. by apply frame_upd.
  - by apply frame_upd.
Qed.

Lemma frame_apply cfg o actions m : frame m (apply cfg o actions m).
Proof.
  apply frame_foldl. intros m' []; simpl; try done;
    auto using frame_send_to, frame_update_ports, frame_set_pins. apply frame_send_to.
Qed.

Lemma frame_install cfg o c by_us m : frame m (install cfg o c by_us m).1.
Proof.
  unfold install. destruct (objects m !! o) as [p|]; [|done].
  destruct (Dial.offer _ _ _ _ _ _) as [s cs]. simpl.
  etrans; [apply (frame_close_all cs)|]. by apply frame_upd.
Qed.

End facts.

#[export] Hint Resolve frame_close frame_close_all frame_send_to frame_claim frame_unclaim
  frame_release frame_release_all frame_accept_failed frame_bind_one frame_bind_missing frame_clear_surface
  frame_set_surfaces frame_set_pins frame_surface_ip frame_update_ports frame_apply
  frame_install frame_broadcast : pai_sho.
