(* ===== verification/PeerLoop.v ===== *)
(** * The connection loop ([peer_connection_loop] and [run_connection] of
    [src/src/peer.rs])

    A state machine per peer object: where the task is, its backoff, and one
    function of the input that lets it go on (its own next statement, the
    failure of its connection, a permit of [conn_notify], the timer, the end of
    a dial).  The messages of a running connection are handled by
    [handle_uni_stream] and [handle_bi_stream] in tasks of their own. *)

From S2P Require Import Prelude RustStr Keys Grants Backoff Dial Store Enroll Protocol Session Surface Resolver Netstack Tunnel Peer.

Module Loop.
Import Peers.

Section loop.
Context {K : Type} `{!EndpointKey K} `{!DashMap}.
Context `{!JsonCodec Pins.Pin} `{!JsonCodec Surface.SurfaceRecord}.
Variable cfg : Config K.

Inductive Pc : Type :=
| Start
| Top
| Running (c : Conn K)
| After
| AwaitNotify
| Retry
| Sleeping
| Dialing
| Exited
| Panicked.

Inductive Input : Type :=
| Go
| ConnFailed
| Woken
| TimerFired
| DialOk (c : Conn K)
| DialFailed.

Definition State : Type := Pc * Backoff.Backoff.

(** Take the permit of [conn_notify]. *)
Definition take_permit (o : ObjId) (m : PeerManager K) : PeerManager K :=
  upd o (put_notified false) m.

(** [run_connection] up to its accept loop. *)
Definition run_connection (o : ObjId) (p : Peer K) (m : PeerManager K) : PeerManager K :=
  match enroll_token p with
  | None => send_version o m
  | Some _ => m
  end.

(** A dial returned: install the connection, present the code, announce. *)
Definition dialed (o : ObjId) (p : Peer K) (c : Conn K) (m : PeerManager K) : PeerManager K :=
  match install cfg o c true m with
  | (m, false) => m
  | (m, true) =>
      let m := match enroll_token p with
               | Some token => send_message c (Protocol.enroll token) m
               | None => m
               end in
      announce_to o m
  end.

(** [None] when the input does not concern the task where it is. *)
Definition step (o : ObjId) (st : State) (i : Input) (m : PeerManager K) :
    option (State * PeerManager K) :=
  p ← objects m !! o;
  let '(pc, b) := st in
  match pc, i with
  | Start, Go =>
      match conn_of o m with
      | Some _ => Some ((Top, Backoff.connected), m)
      | None => Some ((Top, Backoff.unreached), m)
      end
  | Top, Go =>
      match conn_of o m with
      | Some c => Some ((Running c, b), run_connection o p m)
      | None => Some ((After, b), m)
      end
  | Running c, ConnFailed =>
      if live m c then None
      else if removed p then Some ((Exited, b), m) else Some ((After, b), m)
  | After, Go =>
      if removed p then Some ((Exited, b), m)
      else if dial p then Some ((Retry, b), m) else Some ((AwaitNotify, b), m)
  | AwaitNotify, Woken =>
      if notified p
      then Some ((if removed p then Exited else Top, b), take_permit o m)
      else None
  | Retry, Go =>
      if removed p then Some ((Exited, b), m) else Some ((Sleeping, b), m)
  | Sleeping, TimerFired =>
      if removed p then Some ((Exited, b), m) else Some ((Dialing, b), m)
  | Sleeping, Woken =>
      if notified p then Some ((Top, Backoff.reset b), take_permit o m) else None
  | Dialing, DialFailed =>
      match Backoff.failed b with
      | Some b => Some ((Retry, b), m)
      | None => Some ((Panicked, b), m)
      end
  | Dialing, DialOk c =>
      if decide (remote_id c = endpoint_id p)
      then Some ((Top, Backoff.reset b), dialed o p c m)
      else None
  | _, _ => None
  end.

(** Runs of one loop, other tasks idle. *)
Fixpoint run (o : ObjId) (st : State) (inputs : list Input) (m : PeerManager K) :
    option (State * PeerManager K) :=
  match inputs with
  | [] => Some (st, m)
  | i :: inputs => '(st, m) ← step o st i m; run o st inputs m
  end.

End loop.
Arguments Start {K}.
Arguments Top {K}.
Arguments Running {K}.
Arguments After {K}.
Arguments AwaitNotify {K}.
Arguments Retry {K}.
Arguments Sleeping {K}.
Arguments Dialing {K}.
Arguments Exited {K}.
Arguments Panicked {K}.
Arguments Go {K}.
Arguments ConnFailed {K}.
Arguments Woken {K}.
Arguments TimerFired {K}.
Arguments DialOk {K}.
Arguments DialFailed {K}.
End Loop.
