(* ===== verification/Daemon.v ===== *)
(** * The daemon ([src/src/daemon.rs])

    The control requests, each over the peer manager and the session it
    shares, and the start of the daemon: the key file, the pins and surfaces of
    the last run, and what the command line asked to accept and expose.  The
    control socket around them is in [Control.v]. *)

From S2P Require Import Prelude RustStr Keys Grants Dial Invite Store Enroll Protocol Session Surface Resolver Netstack Tunnel Peer.

Module Daemon.
Import Peers.

Section daemon.
Context {K : Type} `{!EndpointKey K} `{!DashMap}.
Context `{!JsonCodec Pins.Pin} `{!JsonCodec Surface.SurfaceRecord}.
Variable cfg : Config K.
(** [str::parse::<IpAddr>]. *)
Variable parse_ip : string → option IpAddr.

(** [Daemon::ticket]. *)
Definition ticket : string := to_string (me cfg).

(** Grant, then tell every peer its own list.  The actions the session returns
    are dropped: the shell asks for each announcement itself. *)
Definition expose (port : Z) (to : list K) (m : PeerManager K) : PeerManager K :=
  broadcast_grants (set_session (Session.expose port to (session m)).1 m).

Definition unexpose (port : Z) (to : option K) (m : PeerManager K) : PeerManager K :=
  broadcast_grants (set_session (Session.unexpose port to (session m)).1 m).

(** The random bytes and the clock are [mint_token]'s.  A key that does not
    parse already fails in [pin_peer], so its second error text is never seen. *)
Definition invite (key name : option string) (ports : list Z) (random : bytes) (now : Z)
    (m : PeerManager K) : PeerManager K * Protocol.Response :=
  match key with
  | Some key =>
      match pin_peer key name m with
      | (m, Err e) => (m, Protocol.RespError e)
      | (m, Ok _) =>
          match parse_key key with
          | Some grantee => (foldl (λ m port, expose port [grantee] m) m ports, Protocol.RespOk)
          | None => (m, Protocol.RespError "invalid key")
          end
      end
  | None =>
      let '(s, code) := Session.mint_token random now name ports (session m) in
      (set_session s m, Protocol.RespInvite (Invite.fmt (Invite.mkInvite (me cfg) code)))
  end.

Definition accept (handle : string) (name : option string) (m : PeerManager K) :
    PeerManager K * result unit :=
  match Invite.from_str (K:=K) handle with
  | Err e => (m, Err e)
  | Ok h => add_peer (Invite.handle_key h) name (Invite.handle_code h) m
  end.

Definition list_info (m : PeerManager K) : Protocol.ListInfo := {|
  Protocol.li_me := to_string (me cfg);
  Protocol.li_cli := EmptyString;
  Protocol.li_daemon := Protocol.VERSION;
  Protocol.li_peers := list_peers cfg m;
  Protocol.li_i_expose := Session.granted_ports (session m);
  Protocol.li_grants :=
    (λ g : Z * K, Protocol.mkGrantInfo g.1 (to_string g.2)) <$> Session.all_grants (session m);
|}.

(** A unit result as a response. *)
Definition respond (r : PeerManager K * result unit) : PeerManager K * Protocol.Response :=
  match r with
  | (m, Ok _) => (m, Protocol.RespOk)
  | (m, Err e) => (m, Protocol.RespError e)
  end.

(** Whom an [expose] names. *)
Definition grantees (to : list string) (all : bool) (s : Session.Session K) : result (list K) :=
  if all
  then match Session.peer_keys s with
       | [] => Err "no peers to grant to"
       | ids => Ok ids
       end
  else collect_results ((λ r, Session.resolve_grantee r s) <$> to).

Definition handle_request (req : Protocol.Request) (random : bytes) (now : Z)
    (m : PeerManager K) : PeerManager K * Protocol.Response :=
  match req with
  | Protocol.ReqInvite key name ports => invite key name ports random now m
  | Protocol.ReqAccept handle name => respond (accept handle name m)
  | Protocol.ReqForget peer => respond (remove_peer cfg peer m)
  | Protocol.ReqExpose port to all =>
      match grantees to all (session m) with
      | Ok ks => (expose port ks m, Protocol.RespOk)
      | Err e => (m, Protocol.RespError e)
      end
  | Protocol.ReqUnexpose port to =>
      match (match to with
             | Some r => Some <$> Session.resolve_grantee r (session m)
             | None => Ok None
             end) with
      | Ok k => (unexpose port k m, Protocol.RespOk)
      | Err e => (m, Protocol.RespError e)
      end
  | Protocol.ReqList => (m, Protocol.RespList (list_info m))
  | Protocol.ReqKey => (m, Protocol.RespKey (to_string (me cfg)))
  | Protocol.ReqProject peer ip name =>
      match (match ip with
             | Some s => Some <$> ok_or (parse_ip s) EmptyString
             | None => Ok None
             end) with
      | Ok ip => respond (project cfg peer ip name m)
      | Err _ => (m, Protocol.RespError "invalid --ip address")
      end
  | Protocol.ReqUnproject peer => respond (unproject cfg peer m)
  end.

(** ** Start *)

(** [load_or_create_key], with the bytes [SecretKey::generate] would pick. *)
Definition load_or_create_key (generated : bytes) (f : Store.File) : Store.File * result bytes :=
  match Store.contents f with
  | Some data =>
      if Store.can_read f
      then if decide (length data = 32) then (f, Ok data)
           else (f, Err ("key file " +:+ Store.path f +:+ " is not 32 bytes"))
      else (f, Err ("failed to read key file " +:+ Store.path f))
  | None =>
      match (match Store.parent f with
             | Some dir => if Store.can_create_dir f then Ok tt
                           else Err ("failed to create " +:+ dir)
             | None => Ok tt
             end) with
      | Err e => (f, Err e)
      | Ok _ =>
          if Store.can_write f then (Store.with_contents generated f, Ok generated)
          else (f, Err ("failed to create key file " +:+ Store.path f))
      end
  end.

(** [Daemon::with_endpoint]: the manager with the pinned peers and their
    surfaces. *)
Definition with_endpoint (pins_file surfaces_file : Store.File)
    (ns : option NetStack.NetStack) : result (PeerManager K) :=
  match Pins.load pins_file with
  | Err e => Err e
  | Ok pinned =>
      let m := foldl (λ m pin, (add_pinned (Pins.key pin) (Pins.label pin) m).1)
                     (new pins_file surfaces_file ns) pinned in
      Ok (restore_surfaces cfg m)
  end.

(** [run]'s own name on the TUN backend. *)
Definition register_self (ns : option NetStack.NetStack) : option NetStack.NetStack :=
  match ns, self_name cfg, host cfg with
  | Some ns, Some n, Surface.V4 a b c d => Some (NetStack.add_surface (a, b, c, d) (Some n) ns)
  | ns, _, _ => ns
  end.

(** The [--accept] handles that parse. *)
Definition accept_handles (texts : list string) : list (Invite.Handle K) :=
  omap (λ s, ok (Invite.from_str s)) texts.

Definition start_accepts (texts : list string) (ports : list Z) (m : PeerManager K) :
    PeerManager K :=
  let handles := accept_handles texts in
  let ks := Invite.handle_key <$> handles in
  let m := foldl (λ m port, expose port ks m) m ports in
  let m := foldl (λ m h, (add_peer (Invite.handle_key h) None (Invite.handle_code h) m).1)
                 m handles in
  match handles with
  | [] => m
  | _ :: _ => broadcast_grants m
  end.

(** [run], up to the loops that serve connections and requests. *)
Definition run (texts : list string) (ports : list Z) (pins_file surfaces_file : Store.File)
    (ns : option NetStack.NetStack) : result (PeerManager K) :=
  match with_endpoint pins_file surfaces_file (register_self ns) with
  | Err e => Err e
  | Ok m => Ok (start_accepts texts ports m)
  end.

End daemon.
End Daemon.
