(* ===== verification/KeyFile.v ===== *)
(** * The key file ([load_or_create_key] in [src/src/daemon.rs])

    [Daemon.load_or_create_key] takes the creation of a file and the write of
    its contents for one step that succeeds or does nothing.  Here they are the
    system calls they are: the file is created with its permission bits, and the
    write can fail half way.  The properties relate the two, say what the bits
    are, and what a failed write leaves. *)

From S2P Require Import Prelude RustStr Keys Store Enroll Surface Daemon.

Module KeyFile.

Record Entry : Type := mkEntry { data : bytes; mode : Z }.

(** The file at the path and what the system lets the daemon do there: look it
    up, read it, create its directory and the file, and write so many bytes
    ([None] is no limit).  [umask] is the process's. *)
Record Disk : Type := mkDisk {
  path : string;
  parent : option string;
  entry : option Entry;
  can_stat : bool;
  can_read : bool;
  can_create_dir : bool;
  can_create : bool;
  room : option nat;
  umask : Z;
}.

Definition with_entry (e : Entry) (d : Disk) : Disk :=
  mkDisk (path d) (parent d) (Some e) (can_stat d) (can_read d) (can_create_dir d) (can_create d)
    (room d) (umask d).

(** [Path::exists]: an error is [false] too. *)
Definition exists_ (d : Disk) : bool := bool_decide (is_Some (entry d)) && can_stat d.

(** [create_new(true)] with a mode: not if there is a file already. *)
Definition open_new (mode : Z) (d : Disk) : option Disk :=
  if bool_decide (entry d = None) && can_create d
  then Some (with_entry (mkEntry [] (Z.land mode (Z.lnot (umask d)))) d)
  else None.

(** [write_all] into the file just created. *)
Definition write_all (l : bytes) (d : Disk) : Disk * bool :=
  match entry d with
  | None => (d, false)
  | Some e =>
      let n := match room d with Some n => n | None => length l end in
      (with_entry (mkEntry (data e ++ take n l) (mode e)) d, bool_decide (length l <= n))
  end.

(** [0o600]. *)
Definition KEY_MODE : Z := 384.

Definition load_or_create_key (generated : bytes) (d : Disk) : Disk * result bytes :=
  if exists_ d then
    match entry d with
    | Some e =>
        if can_read d
        then if decide (length (data e) = 32) then (d, Ok (data e))
             else (d, Err ("key file " +:+ path d +:+ " is not 32 bytes"))
        else (d, Err ("failed to read key file " +:+ path d))
    | None => (d, Err ("failed to read key file " +:+ path d))
    end
  else
    match (match parent d with
           | Some dir => if can_create_dir d then Ok tt
                         else Err ("failed to create " +:+ dir)
           | None => Ok tt
           end) with
    | Err e => (d, Err e)
    | Ok _ =>
        match open_new KEY_MODE d with
        | None => (d, Err ("failed to create key file " +:+ path d))
        | Some d =>
            match write_all generated d with
            | (d, true) => (d, Ok generated)
            | (d, false) => (d, Err ("failed to write key file " +:+ path d))
            end
        end
    end.

(** The disk as [Daemon] sees it. *)
Definition as_file (d : Disk) : Store.File :=
  Store.mkFile (path d) (parent d) (data <$> entry d) (can_read d) (can_create_dir d) (can_create d).

(** Starts one after the other, each with the key it would generate and the
    disk as the others left it, but for what it lets the daemon do by then. *)
Definition start (d : Disk) (s : bytes * (Disk → Disk)) : Disk :=
  (load_or_create_key s.1 (s.2 d)).1.

Fixpoint outcomes (d : Disk) (starts : list (bytes * (Disk → Disk))) : list (result bytes) :=
  match starts with
  | [] => []
  | s :: starts => (load_or_create_key s.1 (s.2 d)).2 :: outcomes (start d s) starts
  end.

(** What may change between starts leaves the file alone. *)
Definition keeps_file (f : Disk → Disk) : Prop := ∀ d, entry (f d) = entry d ∧ path (f d) = path d.

End KeyFile.

(** ** Lemmas *)
Import KeyFile.

Section key_lemmas.
Implicit Types (d : Disk) (generated : bytes).

(** A file that is there is left as it is. *)
Lemma load_keeps_entry generated d e :
  entry d = Some e →
  (load_or_create_key generated d).1 = d ∧
  ((load_or_create_key generated d).2 = Ok (data e) ∨
   is_ok (load_or_create_key generated d).2 = false).
Proof.
  intros He. unfold load_or_create_key, exists_, open_new. rewrite He. simpl.
  repeat case_match; naive_solver.
Qed.

(** One that is not is created with the bits of the mode the mask leaves. *)
Lemma load_creates generated d :
  entry d = None →
  let '(d', r) := load_or_create_key generated d in
  match entry d' with
  | None => is_ok r = false ∧ d' = d
  | Some e =>
      mode e = Z.land KEY_MODE (Z.lnot (umask d)) ∧
      path d' = path d ∧
      data e = (match room d with Some n => take n generated | None => generated end) ∧
      (r = Ok generated ∧ data e = generated ∨
       is_ok r = false ∧ length (data e) < length generated)
  end.
Proof.
  intros He. unfold load_or_create_key, exists_, open_new, write_all. rewrite He. simpl.
  destruct (match parent d with Some _ => _ | None => _ end) as [[]|err]; [|by rewrite He].
  destruct (can_create d); simpl; [|by rewrite He].
  destruct (room d) as [n|]; simpl.
  - case_bool_decide as Hn; simpl; (do 3 (split; [done|])).
    + left. by rewrite take_ge.
    + right. split; [done|]. rewrite length_take. lia.
  - rewrite bool_decide_true by done. simpl. rewrite firstn_all. by split_and!; [..|left].
Qed.

Lemma entry_start d s e : keeps_file s.2 → entry d = Some e → entry (start d s) = Some e.
Proof.
  intros Hs He. unfold start. destruct (Hs d) as [Hsd _]. rewrite <- Hsd in He.
  by rewrite (proj1 (load_keeps_entry s.1 _ e He)).
Qed.

Lemma entry_starts d starts e :
  Forall (λ s, keeps_file s.2) starts → entry d = Some e → entry (foldl start d starts) = Some e.
Proof.
  intros Hs. revert d. induction Hs as [|s starts Hs Hss IH]; intros d He; [done|].
  by apply IH, entry_start.
Qed.

(** [0o600] has no bit in common with [0o077]. *)
Lemma entry_created d s e :
  keeps_file s.2 → entry d = None → entry (start d s) = Some e → Z.land (mode e) 63 = 0%Z.
Proof.
  intros Hs He. destruct (Hs d) as [Hsd _]. rewrite <- Hsd in He. unfold start.
  pose proof (load_creates s.1 (s.2 d) He) as H.
  destruct (load_or_create_key s.1 (s.2 d)) as [d1 r]. simpl. intros He1. rewrite He1 in H.
  destruct H as (-> & _). by rewrite (Z.land_comm KEY_MODE), <- Z.land_assoc, Z.land_0_r.
Qed.

(** A start that succeeds has the key in its file. *)
Lemma outcome_entry d s key :
  (load_or_create_key s.1 (s.2 d)).2 = Ok key → ∃ e, entry (start d s) = Some e ∧ data e = key.
Proof.
  unfold start. destruct (entry (s.2 d)) as [e|] eqn:He.
  - destruct (load_keeps_entry s.1 _ e He) as [-> [->|Hf]]; [|by intros Hk; rewrite Hk in Hf].
    intros [= <-]. by exists e.
  - pose proof (load_creates s.1 _ He) as H.
    destruct (load_or_create_key s.1 (s.2 d)) as [d1 r]. simpl. intros ->.
    destruct (entry d1) as [e|]; [|naive_solver]. exists e. naive_solver.
Qed.

Lemma outcomes_entry d starts e key :
  Forall (λ s, keeps_file s.2) starts → entry d = Some e → Ok key ∈ outcomes d starts →
  key = data e.
Proof.
  intros Hs. revert d. induction Hs as [|s starts Hs Hss IH]; intros d He; simpl;
    [by intros ?%not_elem_of_nil|].
  pose proof (entry_start d s e Hs He) as He1. rewrite elem_of_cons. intros [Hk|Hk].
  - symmetry in Hk. apply outcome_entry in Hk as (e' & He' & <-). congruence.
  - by apply (IH (start d s)).
Qed.

Lemma outcome_length generated d key :
  (load_or_create_key generated d).2 = Ok key → ∀ e, entry d = Some e → length (data e) = 32.
Proof.
  intros Hk e He. unfold load_or_create_key, exists_, open_new in Hk. rewrite He in Hk. simpl in Hk.
  repeat case_match; naive_solver.
Qed.

End key_lemmas.

(** ** Properties *)
Section key_properties.
Implicit Types (d : Disk) (generated : bytes).

(** The creation in one step is the creation in two.  Where the path can be
    looked up and the disk has room for a key, the system calls do to the file
    what [Daemon.load_or_create_key] does, and end in the same way. *)
Theorem key_file_refines generated d :
  length generated = 32 → can_stat d = true →
  (∀ n, room d = Some n → 32 <= n) →
  let '(d', r) := load_or_create_key generated d in
  Daemon.load_or_create_key generated (as_file d) = (as_file d', r).
Proof.
  intros Hlen Hstat Hroom.
  unfold load_or_create_key, Daemon.load_or_create_key, exists_, open_new, write_all.
  rewrite Hstat. destruct (entry d) as [e|] eqn:He; simpl; rewrite He; simpl.
  - destruct (can_read d); [|done]. by case_decide.
  - destruct (match parent d with Some _ => _ | None => _ end) as [[]|err]; [|done].
    destruct (can_create d) eqn:Hc; simpl; [|done]. rewrite bool_decide_true.
    + unfold as_file, Store.with_contents. simpl. rewrite Hc. do 3 f_equal.
      destruct (room d) as [n|] eqn:Hn; [|by rewrite firstn_all].
      rewrite take_ge; [done|]. rewrite Hlen. by apply Hroom.
    + destruct (room d) as [n|] eqn:Hn; [|done]. rewrite Hlen. by apply Hroom.
Qed.

(** C17: The key stays private and stays the same.  Over any starts, each with
    another key it would generate, and whatever becomes possible or impossible
    on the disk in between: a key file that was there at first is never touched;
    one that a start created can be opened by nobody but its owner; and a start
    succeeds with no key but the one the file holds after the last of them, so
    that all that succeed load the same.  A start on a path without a file, on a
    disk that can be written, creates one and succeeds with the key it made. *)
Theorem key_stays_private (d : Disk) (starts : list (bytes * (Disk → Disk))) :
  Forall (λ s, keeps_file s.2) starts →
  match entry d with
  | Some e => entry (foldl start d starts) = Some e
  | None => ∀ e, entry (foldl start d starts) = Some e → Z.land (mode e) 63 = 0%Z
  end ∧
  (∀ key, Ok key ∈ outcomes d starts →
     ∃ e, entry (foldl start d starts) = Some e ∧ data e = key) ∧
  (∀ generated, entry d = None → can_create_dir d = true → can_create d = true → room d = None →
     (load_or_create_key generated d).2 = Ok generated).
Proof.
  intros Hs. split; [|split].
  - destruct (entry d) as [e|] eqn:He; [by apply entry_starts|]. intros e. revert d He.
    induction Hs as [|s starts Hs Hss IH]; intros d He; simpl; [by rewrite He|].
    destruct (entry (start d s)) as [e'|] eqn:He'; [|by apply IH].
    rewrite (entry_starts _ _ e') by done. intros [= <-]. by eapply entry_created.
  - revert d. induction Hs as [|s starts Hs Hss IH]; intros d key; simpl; [by intros ?%not_elem_of_nil|].
    rewrite elem_of_cons. intros [Hk|Hk]; [|by apply IH].
    symmetry in Hk. apply outcome_entry in Hk as (e & He & <-). exists e. by rewrite (entry_starts _ _ e).
  - intros generated He Hdir Hc Hroom.
    unfold load_or_create_key, exists_, open_new, write_all. rewrite He, Hc, Hdir. simpl.
    destruct (parent d); simpl; rewrite Hroom, bool_decide_true by done; done.
Qed.

(** A write that fails half way is final.  It leaves a file too short to
    be a key, and from then on no start succeeds, however much room there is,
    until somebody removes the file. *)
Theorem failed_write_is_final generated d n (starts : list (bytes * (Disk → Disk))) :
  entry d = None → room d = Some n → n < length generated → length generated = 32 →
  Forall (λ s, keeps_file s.2) starts →
  let d' := (load_or_create_key generated d).1 in
  is_Some (entry d') → Forall (λ r, is_ok r = false) (outcomes d' starts).
Proof.
  intros He Hr Hn Hlen Hs d' [e Hd'].
  assert (Hshort : length (data e) < 32).
  { pose proof (load_creates generated d He) as H. unfold d' in Hd'.
    destruct (load_or_create_key generated d) as [d1 r]. simpl in Hd'. rewrite Hd', Hr in H.
    destruct H as (_ & _ & -> & _). rewrite length_take. lia. }
  clearbody d'. revert d' Hd'. induction Hs as [|s starts Hs Hss IH]; intros d' Hd'; simpl; constructor.
  - destruct (load_or_create_key s.1 (s.2 d')) as [d2 [k|]] eqn:Hk; [|done].
    apply (f_equal snd) in Hk. simpl in Hk.
    pose proof (outcome_length _ _ _ Hk) as Hl. destruct (Hs d') as [Hsd _].
    rewrite <- Hsd in Hd'. by pose proof (Hl _ Hd'); lia.
  - apply IH. by apply entry_start.
Qed.

End key_properties.

Section key_witnesses.

(** Nothing at the path; the first start creates a key, the second loads it and
    not the one it would make, though the disk cannot be written any more. *)
Definition no_key : Disk := mkDisk "/d/key" (Some "/d") None true true true true None 18.

Definition full (d : Disk) : Disk :=
  mkDisk (path d) (parent d) (entry d) true true false false (Some 0) (umask d).

Lemma key_stays_private_witness :
  let key := replicate 32 7%Z in
  let starts := [(key, id); (replicate 32 8%Z, full)] in
  outcomes no_key starts = [Ok key; Ok key] ∧
  (∃ e, entry (foldl start no_key starts) = Some e ∧ data e = key).
Proof.
  intros key starts. split; [by vm_compute|].
  apply (key_stays_private no_key starts).
  - by repeat constructor.
  - assert (Ho : outcomes no_key starts = [Ok key; Ok key]) by (by vm_compute).
    rewrite Ho. by left.
Defined.

End key_witnesses.
