(* ===== verification/Shell.v ===== *)
(** * The shell and the session agree

    [Module Shell] is everything that can happen to a running daemon, one
    event at a time, and the states that can be reached.  The invariant
    [agree] says that what the shell holds is what the session decided: the
    same peers under the same names, with live objects and running loops, and
    one waiting task per connection the session holds. *)

From S2P Require Import Prelude RustStr Keys Grants Dial Invite Store Enroll Protocol Session Surface Resolver Netstack Tunnel Peer PeerFacts PeerLoop Daemon.

Module Shell.
Import Peers.

Section shell.
Context {K : Type} `{!EndpointKey K} `{!DashMap}.
Context `{!JsonCodec Pins.Pin} `{!JsonCodec Surface.SurfaceRecord}.
Variable cfg : Config K.
Variable parse_ip : string → option IpAddr.

(** A request; a connection arriving; a message on one that waits, and the end
    of its wait; a control message on an admitted one; a loop starting on a
    connection, taking its permit or installing what it dialed; a connection
    lost; an accept that failed on the listener of a binding. *)
Inductive Event : Type :=
| EvRequest (req : Protocol.Request) (random : bytes) (now : Z)
| EvConnection (c : Conn K)
| EvEnroll (id : Session.ConnId) (msg : option Protocol.PeerMessage) (now : Z)
| EvEnrollEnd (id : Session.ConnId)
| EvUni (o : ObjId) (msg : option Protocol.PeerMessage)
| EvRunning (o : ObjId)
| EvPermit (o : ObjId)
| EvDialed (o : ObjId) (c : Conn K)
| EvLost (c : Conn K) (reason : string)
| EvAcceptFailed (o : ObjId) (port : Z).

Definition with_object (o : ObjId) (f : Peer K → PeerManager K → PeerManager K)
    (m : PeerManager K) : PeerManager K :=
  match objects m !! o with
  | Some p => f p m
  | None => m
  end.

Definition step (m : PeerManager K) (e : Event) : PeerManager K :=
  match e with
  | EvRequest req random now => (Daemon.handle_request cfg parse_ip req random now m).1
  | EvConnection c => handle_connection cfg c m
  | EvEnroll id msg now => enroll_message cfg id msg now m
  | EvEnrollEnd id => enroll_end cfg id m
  | EvUni o msg => handle_uni_stream cfg o msg m
  | EvRunning o => with_object o (λ p m, Loop.run_connection o p m) m
  | EvPermit o => Loop.take_permit o m
  | EvDialed o c => with_object o (λ p m, Loop.dialed cfg o p c m) m
  | EvLost c reason => close c reason m
  | EvAcceptFailed o port => accept_failed o port m
  end.

(** The states a daemon can be in: its start, then events. *)
Definition reachable (m : PeerManager K) : Prop :=
  ∃ texts ports pins_file surfaces_file ns m0 es,
    Daemon.run cfg texts ports pins_file surfaces_file ns = Ok m0 ∧ m = foldl step m0 es.

(** What the shell holds is what the session decided. *)
Definition represents_peer (m : PeerManager K) (k : K) (o : ObjId) : Prop :=
  ∃ p, objects m !! o = Some p ∧ endpoint_id p = k ∧
       label p = Session.label_of k (session m) ∧ removed p = false ∧ o ∈ loops m.

Record agree (m : PeerManager K) : Prop := {
  agree_keys : ∀ k, is_Some (peers m !! k) ↔ is_Some (Session.peers (session m) !! k);
  agree_objects : ∀ k o, peers m !! k = Some o → represents_peer m k o;
  agree_waiting : ∀ id,
    is_Some (waiting m !! id) ↔ is_Some (Session.pending (session m) !! id);
}.

End shell.
End Shell.

(** ** Lemmas *)
Section agree_lemmas.
Context {K : Type} `{EKL : EndpointKeyLaws K} `{DML : DashMapLaws}.
Context `{!JsonCodec Pins.Pin} `{!JsonCodec Surface.SurfaceRecord}.
Import Peers Shell.
Implicit Types (m : PeerManager K) (p : Peer K) (o : ObjId) (k : K) (c : Conn K).

Lemma frame_agree m m' : frame m m' → agree m → agree m'.
Proof.
  intros [Hp Hs Hl Hw _ Hi _] [Hk Ho Hwt]. split.
  - intros k. by rewrite Hp, Hs.
  - intros k o. rewrite Hp. intros (p & Hobj & Hid & Hlab & Hrem & Hin)%Ho.
    specialize (Hi o). rewrite Hobj in Hi. simpl in Hi.
    destruct (objects m' !! o) as [p'|] eqn:Hp'; [|done]. injection Hi as Hi.
    exists p'. rewrite Hs, Hl. unfold identity in Hi. naive_solver congruence.
  - intros id. by rewrite Hw, Hs.
Qed.

Lemma agree_session s m :
  Session.peers s = Session.peers (session m) →
  Session.pending s = Session.pending (session m) →
  agree m → agree (set_session s m).
Proof.
  intros Hp Hw [Hk Ho Hwt]. split; simpl.
  - intros k. by rewrite Hp.
  - intros k o Hko. destruct (Ho k o Hko) as (p & ?). exists p. simpl.
    unfold Session.label_of in *. rewrite Hp. done.
  - intros id. by rewrite Hw.
Qed.

Lemma agree_spawn p a m :
  (∀ k, k ≠ endpoint_id p →
     is_Some (peers m !! k) ↔ is_Some (Session.peers (session m) !! k)) →
  (∀ k o, k ≠ endpoint_id p → peers m !! k = Some o → represents_peer m k o) →
  (∀ id, is_Some (waiting m !! id) ↔ is_Some (Session.pending (session m) !! id)) →
  Session.peers (session m) !! endpoint_id p = Some a →
  Session.label a = label p → removed p = false →
  agree (spawn_peer p m).1.
Proof.
  intros Hk Ho Hw Ha Hl Hr. set (o := fresh (dom (objects m))).
  assert (Hfresh : objects m !! o = None) by (apply not_elem_of_dom, is_fresh).
  split; simpl.
  - intros k. destruct (decide (k = endpoint_id p)) as [->|Hne].
    + rewrite lookup_insert_eq, Ha. by split; eexists.
    + rewrite lookup_insert_ne by done. by apply Hk.
  - intros k o'. unfold represents_peer. simpl.
    destruct (decide (k = endpoint_id p)) as [->|Hne].
    + rewrite lookup_insert_eq. intros [= <-]. exists p. fold o.
      rewrite lookup_insert_eq. split_and!; try done.
      * unfold Session.label_of. by rewrite Ha, <- Hl.
      * set_solver.
    + rewrite lookup_insert_ne by done.
      intros (q & Hq & ?)%Ho; [|done]. exists q. fold o.
      rewrite lookup_insert_ne by congruence. set_solver.
  - done.
Qed.

Lemma agree_admit p k name a m :
  agree m → peers m !! k = None → endpoint_id p = k → label p = name → removed p = false →
  agree (spawn_peer p (admit_known k name a m)).1.
Proof.
  intros [Hk Ho Hw] Hnone <- <- Hr.
  assert (Hs : Session.peers (session m) !! endpoint_id p = None).
  { apply eq_None_not_Some. rewrite <- Hk, Hnone. by intros []. }
  unfold admit_known, Session.admit_known. rewrite Hs. cbn [fst].
  apply (agree_spawn p (Session.mkAdmitted (label p) a)); simpl; [..|done|done].
  - intros k Hne. by rewrite lookup_insert_ne, Hk by done.
  - intros k o Hne (q & ?)%Ho. exists q. simpl. unfold Session.label_of in *. simpl.
    by rewrite lookup_insert_ne by done.
  - done.
  - apply lookup_insert_eq.
Qed.

Lemma agree_add_peer k name code m : agree m → agree (add_peer k name code m).1.
Proof.
  intros Hm. unfold add_peer. destruct (peers m !! k) eqn:Hk; [done|]. by apply agree_admit.
Qed.

Lemma agree_add_pinned key name m : agree m → agree (add_pinned key name m).1.
Proof.
  intros Hm. unfold add_pinned. case_match; [|done].
  destruct (peers m !! a) eqn:Hk; [done|]. by apply agree_admit.
Qed.

Lemma agree_pin_peer key name m : agree m → agree (pin_peer key name m).1.
Proof.
  intros Hm. unfold pin_peer. pose proof (agree_add_pinned key name m Hm) as H1.
  destruct (add_pinned key name m) as [m1 [[]|]]; [|done].
  destruct (Pins.add _ _ _) as [f r]. eapply frame_agree; [|exact H1]. apply frame_set_pins.
Qed.

(** Two keys have different objects. *)
Lemma agree_inj m k k' o :
  agree m → peers m !! k = Some o → peers m !! k' = Some o → k = k'.
Proof.
  intros [_ Ho _] (p & Hp & <- & _)%Ho (p' & Hp' & <- & _)%Ho. congruence.
Qed.

Lemma evict_object_frame cfg o reason m :
  frame (upd o (put_removed true) m) (evict_object cfg o reason m).
Proof.
  unfold evict_object. set (m1 := upd o (put_removed true) m).
  set (m2 := upd o (put_notified true) m1).
  set (m3 := match objects m2 !! o with Some _ => _ | None => m2 end).
  assert (H12 : frame m1 m2) by (by apply frame_upd).
  assert (H23 : frame m2 m3).
  { unfold m3. destruct (objects m2 !! o); [|done]. case_match; [|done].
    etrans; [|apply frame_close]. by apply frame_upd. }
  assert (H34 : frame m3 (release_all o (held_ports o m3) m3)) by apply frame_release_all.
  set (m4 := release_all _ _ m3) in *. etrans; [exact H12|]. etrans; [exact H23|].
  etrans; [exact H34|]. destruct (surface_of o m4); [|done].
  etrans; [|apply frame_unclaim]. by apply frame_upd.
Qed.

Lemma frame_drop_pins actions m : frame m (foldl drop_pin m actions).
Proof. apply frame_foldl. by intros m' []. Qed.

Lemma session_evict_agree k (s : Session.Session K) :
  Session.peers (Session.evict k s).1 = delete k (Session.peers s) ∧
  Session.pending (Session.evict k s).1 = Session.pending s.
Proof.
  unfold Session.evict. destruct (Session.peers s !! k) eqn:Hk; [done|].
  simpl. by rewrite delete_id.
Qed.

Lemma agree_evict cfg k reason m : agree m → agree (evict cfg k reason m).
Proof.
  intros Hm. unfold evict.
  set (m1 := match peers m !! k with Some _ => _ | None => m end).
  assert (Hm1 : peers m1 = delete k (peers m) ∧ session m1 = session m ∧
                waiting m1 = waiting m ∧
                ∀ k' o, k' ≠ k → peers m !! k' = Some o → represents_peer m1 k' o).
  { unfold m1. destruct (peers m !! k) as [o|] eqn:Hk.
    - pose proof (evict_object_frame cfg o reason (set_peers (delete k (peers m)) m)) as Hf.
      destruct Hf as [Hp Hs Hl Hw _ Hi _]. split_and!; [done..|].
      intros k' o' Hne Ho'.
      assert (o' ≠ o) by (intros ->; apply Hne; by eapply agree_inj).
      destruct (agree_objects _ Hm _ _ Ho') as (p & Hobj & Hid & Hlab & Hrem & Hin).
      specialize (Hi o'). rewrite objects_upd, decide_False in Hi by done. simpl in Hi.
      rewrite Hobj in Hi. destruct (objects _ !! o') as [p'|] eqn:Hp'; [|done].
      injection Hi as Hi. exists p'. rewrite Hs, Hl. simpl.
      unfold identity in Hi. naive_solver congruence.
    - split_and!; [by rewrite delete_id|done..|]. intros. by apply Hm. }
  clearbody m1. destruct Hm1 as (Hp & Hs & Hw & Ho).
  destruct (session_evict_agree k (session m1)) as [Hsp Hsw].
  destruct (Session.evict k (session m1)) as [s actions]. simpl in Hsp, Hsw.
  eapply frame_agree; [apply frame_set_surfaces|].
  eapply frame_agree; [apply frame_drop_pins|].
  destruct Hm as [Hk _ Hwt]. split; simpl.
  - intros k'. rewrite Hp, Hsp, Hs. destruct (decide (k' = k)) as [->|Hne].
    + rewrite !lookup_delete_eq. done.
    + rewrite !lookup_delete_ne by done. apply Hk.
  - intros k' o. rewrite Hp, lookup_delete_Some. intros [Hne Hk'].
    destruct (Ho k' o) as (p & ?); [done..|]. exists p. simpl.
    unfold Session.label_of in *. rewrite Hsp, lookup_delete_ne by done. done.
  - intros id. by rewrite Hw, Hsw, Hs.
Qed.

Lemma agree_verdict cfg id wt actions m :
  (∀ k, is_Some (peers m !! k) ↔ is_Some (Session.peers (session m) !! k)) →
  (∀ k o, peers m !! k = Some o → represents_peer m k o) →
  (∀ id', is_Some (delete id (waiting m) !! id') ↔ is_Some (Session.pending (session m) !! id')) →
  (existsb is_admit actions = false ∨ refusal_of actions ≠ None) →
  agree (enroll_verdict cfg id wt actions m).
Proof.
  intros Hk Ho Hw Hv. unfold enroll_verdict.
  assert (Hbase : agree (set_waiting (delete id (waiting m)) m)) by (split; [done..|exact Hw]).
  destruct (refusal_of actions); [eapply frame_agree; [apply frame_close|done]|].
  destruct Hv as [->|?]; [|done]. eapply frame_agree; [apply frame_close|done].
Qed.

(** What the session says to a message on a waiting connection. *)
Lemma on_unadmitted_cases id k msg now (s : Session.Session K) :
  let '(s', acts) := Session.on_unadmitted id k msg now s in
  (acts = [] ∧ Session.peers s' = Session.peers s ∧
   (∀ id', is_Some (Session.pending s' !! id') ↔ is_Some (Session.pending s !! id'))) ∨
  (acts = [Session.Refuse id Session.NotAuthorized] ∧ Session.peers s' = Session.peers s ∧
   Session.pending s' = delete id (Session.pending s)) ∨
  (∃ l, refusal_of acts = None ∧ existsb is_admit acts = true ∧
        Session.peers s' = <[k := Session.mkAdmitted l Session.Code]> (Session.peers s) ∧
        Session.pending s' = delete id (Session.pending s)).
Proof.
  destruct msg as [ports|port|token v|e]; simpl; try by left.
  - destruct (Session.pending s !! id) as [q|] eqn:Hp; left; [|done]. split_and!; try done.
    intros id'. simpl. destruct (decide (id' = id)) as [->|Hne].
    + rewrite lookup_insert_eq, Hp. by split; eexists.
    + by rewrite lookup_insert_ne.
  - destruct (Tokens.claim now token (Session.tokens s)) as [t [c|]].
    + right; right. exists (Tokens.claimed_name c). split_and!; try done.
      unfold refusal_of. by destruct (Session.early_of id _).
    + right; left. done.
Qed.

Lemma agree_handle_connection cfg c m : agree m → agree (handle_connection cfg c m).
Proof.
  intros [Hk Ho Hw]. unfold handle_connection, Session.on_inbound. simpl.
  destruct (Session.peers (session m) !! remote_id c) as [a|] eqn:Ha.
  - destruct (peers m !! remote_id c) as [o|]; [|by split].
    set (m1 := set_session _ (set_next_conn_id _ m)).
    assert (H1 : agree m1) by (by split). pose proof (frame_install cfg o c false m1) as Hf.
    destruct (install cfg o c false m1) as [m2 []]; simpl in Hf.
    + eapply frame_agree; [|exact H1]. etrans; [exact Hf|]. etrans; [|apply frame_apply].
      etrans; [apply (frame_upd o (put_dial true)); done|]. by apply frame_upd.
    + by eapply frame_agree.
  - split; [done..|]. simpl. intros id. destruct (decide (id = next_conn_id m)) as [->|Hne].
    + rewrite !lookup_insert_eq. by split; eexists.
    + by rewrite !lookup_insert_ne.
Qed.

Lemma delete_agree {A B} (f : gmap Session.ConnId A) (g : gmap Session.ConnId B) id :
  (∀ i, is_Some (f !! i) ↔ is_Some (g !! i)) →
  ∀ i, is_Some (delete id f !! i) ↔ is_Some (delete id g !! i).
Proof.
  intros Hfg i. destruct (decide (i = id)) as [->|Hne].
  - by rewrite !lookup_delete_eq.
  - by rewrite !lookup_delete_ne.
Qed.

Lemma agree_admitted cfg id wt acts m l :
  (∀ k, k ≠ remote_id (wait_conn wt) →
     is_Some (peers m !! k) ↔ is_Some (Session.peers (session m) !! k)) →
  (∀ k o, k ≠ remote_id (wait_conn wt) → peers m !! k = Some o → represents_peer m k o) →
  (∀ i, is_Some (delete id (waiting m) !! i) ↔ is_Some (Session.pending (session m) !! i)) →
  Session.peers (session m) !! remote_id (wait_conn wt) = Some (Session.mkAdmitted l Session.Code) →
  refusal_of acts = None → existsb is_admit acts = true →
  agree (enroll_verdict cfg id wt acts m).
Proof.
  intros Hk Ho Hw Hl Hr Ha. unfold enroll_verdict. rewrite Hr, Ha.
  set (m1 := set_waiting _ m).
  set (p := match early_version wt with Some _ => _ | None => _ end).
  assert (Hp : endpoint_id p = remote_id (wait_conn wt) ∧ removed p = false ∧
               label p = Session.label_of (remote_id (wait_conn wt)) (session m)).
  { unfold p. by destruct (early_version wt). }
  clearbody p. destruct Hp as (Hpid & Hprem & Hplab).
  assert (H1 : agree (spawn_peer p m1).1).
  { apply (agree_spawn p (Session.mkAdmitted l Session.Code)); rewrite ?Hpid; try done.
    rewrite Hplab. unfold Session.label_of. by rewrite Hl. }
  destruct (spawn_peer p m1) as [m2 o]. eapply frame_agree; [apply frame_apply|done].
Qed.

Lemma agree_enroll_message cfg id msg now m : agree m → agree (enroll_message cfg id msg now m).
Proof.
  intros Hm. destruct Hm as [Hk Ho Hw] eqn:E. clear E. unfold enroll_message.
  destruct (waiting m !! id) as [wt0|] eqn:Hwt; [|done].
  destruct msg as [msg|]; [|done].
  set (wt := match msg with Protocol.Enroll _ (Some _) => _ | _ => wt0 end).
  clearbody wt.
  pose proof (on_unadmitted_cases id (remote_id (wait_conn wt)) msg now (session m)) as Hc.
  destruct (Session.on_unadmitted _ _ _ _ _) as [s acts].
  destruct Hc as [(-> & Hsp & Hsw)|[(-> & Hsp & Hsw)|(l & Hr & Ha & Hsp & Hsw)]].
  - assert (H1 : agree (set_session s m)).
    { split; simpl.
      - intros k. by rewrite Hsp.
      - intros k o (p & ?)%Ho. exists p. unfold Session.label_of in *. simpl. by rewrite Hsp.
      - intros i. by rewrite Hsw. }
    destruct H1 as [H1 H2 H3]. split; [done..|]. intros i. rewrite <- H3. simpl.
    destruct (decide (i = id)) as [->|Hne].
    + rewrite lookup_insert_eq, Hwt. by split; eexists.
    + by rewrite lookup_insert_ne.
  - apply agree_verdict; simpl.
    + intros k. by rewrite Hsp.
    + intros k o (p & ?)%Ho. exists p. unfold Session.label_of in *. simpl. by rewrite Hsp.
    + rewrite Hsw. by apply delete_agree.
    + by left.
  - assert (∃ a acts', acts = a :: acts') as (a & acts' & ->) by (destruct acts; [done|eauto]).
    apply (agree_admitted cfg id wt _ _ l); simpl; try done.
    + intros k Hne. by rewrite Hsp, lookup_insert_ne.
    + intros k o Hne (p & ?)%Ho. exists p. unfold Session.label_of in *. simpl.
      by rewrite Hsp, lookup_insert_ne by done.
    + rewrite Hsw. by apply delete_agree.
    + by rewrite Hsp, lookup_insert_eq.
Qed.

Lemma agree_enroll_end cfg id m : agree m → agree (enroll_end cfg id m).
Proof.
  intros Hm. pose proof Hm as [Hk Ho Hw]. unfold enroll_end.
  destruct (waiting m !! id) as [wt|] eqn:Hwt; [|done].
  unfold Session.on_enroll_timeout.
  assert (is_Some (Session.pending (session m) !! id)) as [q Hq] by (rewrite <- Hw, Hwt; eauto).
  rewrite Hq. apply agree_verdict; simpl; try done; [|by left]. by apply delete_agree.
Qed.

(** ** Requests and the start *)

Lemma frame_project cfg ref ip name m : frame m (project cfg ref ip name m).1.
Proof.
  unfold project. destruct (resolve_peer ref m) as [id|]; [|done].
  destruct (peers m !! id) as [o|]; [|done].
  set (m1 := match surface_of o m with Some _ => _ | None => m end).
  assert (H1 : frame m m1).
  { unfold m1. destruct (surface_of o m); [|done].
    etrans; [apply frame_clear_surface|apply frame_unclaim]. }
  clearbody m1. destruct (match ip with Some _ => _ | None => _ end) as [a|]; [|done].
  set (n := match name with Some _ => _ | None => _ end).
  pose proof (frame_claim cfg a n m1) as H2.
  destruct (claim_addr cfg a n m1) as [m2 [[]|]]; simpl in H2; [|by etrans].
  destruct (Surface.add _ _ _ _) as [f r]. cbn [fst].
  etrans; [exact H1|]. etrans; [exact H2|]. etrans; [|apply frame_bind_missing].
  etrans; [|apply frame_set_surfaces]. by apply frame_upd.
Qed.

Lemma frame_unproject cfg ref m : frame m (unproject cfg ref m).1.
Proof.
  unfold unproject. destruct (resolve_peer ref m) as [id|]; [|done].
  destruct (peers m !! id) as [o|]; [|done]. destruct (surface_of o m) as [s|]; [|done].
  pose proof (frame_unclaim cfg (Surface.ip s) (clear_surface o m)) as H2.
  assert (H1 : frame m (clear_surface o m)) by apply frame_clear_surface.
  destruct (unclaim_addr _ _ _) as [m2 [[]|]]; simpl in H2 |- *; [|by etrans].
  etrans; [exact H1|]. etrans; [exact H2|]. apply frame_set_surfaces.
Qed.

Lemma frame_restore cfg m : frame m (restore_surfaces cfg m).
Proof.
  unfold restore_surfaces. case_match; [|done]. apply frame_foldl. intros m' r.
  unfold restore_one. destruct (parse_key _) as [id|]; [|done].
  destruct (peers m' !! id); [|done].
  pose proof (frame_claim cfg (Surface.rec_ip r) (Surface.rec_name r) m') as H2.
  destruct (claim_addr _ _ _ _) as [m2 [[]|]]; simpl in H2 |- *; [|done].
  etrans; [exact H2|]. by apply frame_upd.
Qed.

Lemma agree_expose port to m : agree m → agree (Daemon.expose port to m).
Proof.
  intros Hm. eapply frame_agree; [apply frame_broadcast|]. by apply agree_session.
Qed.

Lemma agree_unexpose port to m : agree m → agree (Daemon.unexpose port to m).
Proof.
  intros Hm. eapply frame_agree; [apply frame_broadcast|]. by apply agree_session.
Qed.

Lemma agree_foldl {A} (f : PeerManager K → A → PeerManager K) (l : list A) m :
  (∀ m x, agree m → agree (f m x)) → agree m → agree (foldl f m l).
Proof. intros Hf. revert m. induction l as [|x l IH]; intros m Hm; simpl; auto. Qed.

Lemma agree_invite cfg key name ports random now m :
  agree m → agree (Daemon.invite cfg key name ports random now m).1.
Proof.
  intros Hm. unfold Daemon.invite. destruct key as [key|].
  - pose proof (agree_pin_peer key name m Hm) as H1.
    destruct (pin_peer key name m) as [m1 [[]|]]; [|done].
    destruct (parse_key key); [|done]. apply agree_foldl; [|done].
    intros. by apply agree_expose.
  - unfold Session.mint_token. destruct (Tokens.mint _ _ _ _ _). by apply agree_session.
Qed.

Lemma agree_request cfg parse_ip req random now m :
  agree m → agree (Daemon.handle_request cfg parse_ip req random now m).1.
Proof.
  intros Hm. destruct req; simpl; try done.
  - by apply agree_invite.
  - unfold Daemon.accept. destruct (Invite.from_str _) as [h|]; [|done].
    pose proof (agree_add_peer (Invite.handle_key h) name (Invite.handle_code h) m Hm) as H1.
    by destruct (add_peer _ _ _ _) as [m1 [[]|]].
  - unfold remove_peer. destruct (resolve_peer _ _) as [k|]; [|done].
    destruct (peers m !! k); [|done]. by apply agree_evict.
  - destruct (Daemon.grantees _ _ _); [|done]. by apply agree_expose.
  - case_match; [|done]. by apply agree_unexpose.
  - destruct (match ip with Some _ => _ | None => _ end) as [a|]; [|done].
    pose proof (frame_project cfg peer a name m) as H1.
    destruct (project _ _ _ _ _) as [m1 [[]|]]; by eapply frame_agree.
  - pose proof (frame_unproject cfg peer m) as H1.
    destruct (unproject _ _ _) as [m1 [[]|]]; by eapply frame_agree.
Qed.

Lemma agree_new f1 f2 ns : agree (new f1 f2 ns : PeerManager K).
Proof.
  split; simpl.
  - intros k. by rewrite !lookup_empty.
  - intros k o. by rewrite lookup_empty.
  - intros id. by rewrite !lookup_empty.
Qed.

Lemma agree_start cfg texts ports f1 f2 ns m :
  Daemon.run cfg texts ports f1 f2 ns = Ok m → agree m.
Proof.
  unfold Daemon.run, Daemon.with_endpoint. destruct (Pins.load f1) as [pinned|]; [|done].
  intros [= <-]. unfold Daemon.start_accepts.
  set (m0 := restore_surfaces cfg _).
  assert (H0 : agree m0).
  { eapply frame_agree; [apply frame_restore|]. apply agree_foldl; [|apply agree_new].
    intros. by apply agree_add_pinned. }
  clearbody m0. set (m1 := foldl _ _ (Daemon.accept_handles texts)).
  assert (H1 : agree m1).
  { apply agree_foldl; [intros; by apply agree_add_peer|].
    apply agree_foldl; [intros; by apply agree_expose|done]. }
  clearbody m1. case_match; [done|]. eapply frame_agree; [apply frame_broadcast|done].
Qed.

Lemma frame_dialed cfg o p c m : frame m (Loop.dialed cfg o p c m).
Proof.
  unfold Loop.dialed. pose proof (frame_install cfg o c true m) as H1.
  destruct (install cfg o c true m) as [m1 []]; simpl in H1; [|done].
  etrans; [exact H1|]. etrans; [|apply frame_announce_to]. by destruct (enroll_token p).
Qed.

Lemma frame_uni cfg o msg m : frame m (handle_uni_stream cfg o msg m).
Proof.
  unfold handle_uni_stream. repeat case_match; try done.
  - apply frame_update_ports.
  - by apply frame_upd.
Qed.

Lemma agree_step cfg parse_ip m e : agree m → agree (step cfg parse_ip m e).
Proof.
  intros Hm. destruct e; simpl.
  - by apply agree_request.
  - by apply agree_handle_connection.
  - by apply agree_enroll_message.
  - by apply agree_enroll_end.
  - eapply frame_agree; [apply frame_uni|done].
  - unfold with_object, Loop.run_connection. repeat case_match; try done.
    eapply frame_agree; [apply frame_send_to|done].
  - eapply frame_agree; [by apply frame_upd|done].
  - unfold with_object. case_match; [|done]. eapply frame_agree; [apply frame_dialed|done].
  - eapply frame_agree; [apply frame_close|done].
  - eapply frame_agree; [apply frame_accept_failed|done].
Qed.

Lemma agree_reachable cfg parse_ip m : reachable cfg parse_ip m → agree m.
Proof.
  intros (texts & ports & f1 & f2 & ns & m0 & es & Hrun & ->).
  apply agree_start in Hrun. revert m0 Hrun. induction es as [|e es IH]; intros m0 Hm; [done|].
  apply IH. by apply agree_step.
Qed.

End agree_lemmas.

#[export] Hint Resolve agree_reachable agree_step agree_start : pai_sho.

(** ** Properties *)
Section agree_properties.
Context {K : Type} `{EKL : EndpointKeyLaws K} `{DML : DashMapLaws}.
Context `{!JsonCodec Pins.Pin} `{!JsonCodec Surface.SurfaceRecord}.
Import Peers Shell.


(** [list] tells the truth about who is known: in every reachable
    state it has exactly one row for each admitted peer and none for anyone
    else, each with the name and the admission the session has for its key, so
    never the admission [unknown]. *)
Theorem list_reports_admitted_peers (cfg : Config K) (parse_ip : string → option IpAddr)
    (m : PeerManager K) :
  reachable cfg parse_ip m →
  let rows := Protocol.li_peers (Daemon.list_info cfg m) in
  (Protocol.pi_key <$> rows) ≡ₚ (to_string <$> Session.peer_keys (session m)) ∧
  Forall (λ row, ∃ k a, Protocol.pi_key row = to_string k ∧
                        Session.admission_of k (session m) = Some a ∧
                        Protocol.pi_admission row = Session.admission_str a ∧
                        Protocol.pi_name row = Session.label_of k (session m)) rows.
Proof.
  intros Hm. apply agree_reachable in Hm as [Hk Ho _]. unfold Daemon.list_info. simpl.
  unfold list_peers.
  assert (Hall : ∀ k o, (k, o) ∈ dash_iter (peers m) ↔ peers m !! k = Some o).
  { intros k o. rewrite dash_iter_perm. apply elem_of_map_to_list. }
  assert (Hrow : ∀ k o, peers m !! k = Some o → ∃ row, info_of cfg m o = Some row ∧
     Protocol.pi_key row = to_string k ∧ ∃ a, Session.admission_of k (session m) = Some a ∧
     Protocol.pi_admission row = Session.admission_str a ∧
     Protocol.pi_name row = Session.label_of k (session m)).
  { intros k o Hko. destruct (Ho k o Hko) as (p & Hp & Hid & Hlab & _).
    destruct (proj1 (Hk k)) as [a Ha]; [by eexists|].
    unfold info_of. rewrite Hp. simpl. eexists. split; [done|]. simpl.
    rewrite Hid. split; [done|]. unfold Session.admission_of. rewrite Ha. simpl. eauto. }
  split.
  - assert (Hkeys : (dash_iter (peers m)).*1 ≡ₚ Session.peer_keys (session m)).
    { apply NoDup_Permutation.
      - rewrite dash_iter_perm. apply NoDup_fst_map_to_list.
      - apply NoDup_btree_keys.
      - intros k. unfold Session.peer_keys. rewrite elem_of_btree_keys, <- Hk, list_elem_of_fmap. split.
        + intros ([k' o] & -> & Hin). apply Hall in Hin. by eexists.
        + intros [o Hko]. exists (k, o). by rewrite Hall. }
    rewrite <- Hkeys. clear Hkeys. revert Hall. generalize (dash_iter (peers m)) as l.
    intros l Hall. assert (Hl : ∀ k o, (k, o) ∈ l → peers m !! k = Some o) by naive_solver.
    clear Hall. induction l as [|[k o] l IH]; simpl; [done|].
    destruct (Hrow k o) as (row & Hrow' & Hkey & _); [apply Hl; by left|].
    rewrite Hrow'. simpl. rewrite Hkey. f_equiv. apply IH. intros. apply Hl. by right.
  - apply Forall_forall. intros row. rewrite list_elem_of_omap.
    intros ([k o] & Hin & Heq). apply Hall in Hin. simpl in Heq.
    destruct (Hrow k o Hin) as (row' & Heq' & Hkey & a & ?). rewrite Heq in Heq'.
    injection Heq' as <-. by exists k, a.
Qed.

End agree_properties.

(** ** A concrete daemon

    Numbers for keys, maps in their own order, files whose codec is a number,
    an address printed as nothing, and a system that refuses a socket only when
    this process already listens on it. *)
Module Toy.
Import Peers.

#[global] Instance toy_dash : DashMap := {| dash_iter _ _ _ _ m := map_to_list m |}.

#[global] Instance toy_dash_laws : DashMapLaws.
Proof. by split. Qed.

#[global] Instance pin_codec : JsonCodec Pins.Pin := countable_codec.
#[global] Instance surface_codec : JsonCodec Surface.SurfaceRecord := countable_codec.
#[global] Instance pin_codec_laws : JsonCodecLaws Pins.Pin := countable_codec_laws.
#[global] Instance surface_codec_laws : JsonCodecLaws Surface.SurfaceRecord :=
  countable_codec_laws.

Definition tcp_bind (held : gset (IpAddr * Z)) (attempt : nat) (ip : IpAddr) (port : Z) :
    result Z :=
  if decide (port = 0%Z) then Ok (fresh (set_map (C:=gset (IpAddr * Z)) (D:=gset Z) snd held))
  else if decide ((ip, port) ∈ held) then Err "address in use" else Ok port.

Definition config : Config N :=
  mkConfig 1%N Surface.LOCALHOST (Some "me") Surface.Linux (λ _ _, Ok tt) (λ _, EmptyString)
    (λ _ _, EmptyString) tcp_bind.

Definition parse_ip (s : string) : option IpAddr :=
  if decide (s = "127.0.0.1") then Some Surface.LOCALHOST else None.

Definition file (name : string) : Store.File := Store.mkFile name None None true true true.

(** The daemon just started, with peer 7 accepted and port 8080 exposed to it. *)
Definition start : PeerManager N :=
  match Daemon.run config ["7"] [8080%Z] (file "peers") (file "surfaces") None with
  | Ok m => m
  | Err _ => new (file "peers") (file "surfaces") None
  end.

Lemma start_run : Daemon.run config ["7"] [8080%Z] (file "peers") (file "surfaces") None = Ok start.
Proof.
  unfold start. destruct (Daemon.run _ _ _ _ _ _) as [m|e] eqn:Hrun; [done|].
  exfalso. revert Hrun. unfold Daemon.run. by vm_compute.
Qed.

Lemma start_reachable es :
  Shell.reachable config parse_ip (foldl (Shell.step config parse_ip) start es).
Proof.
  exists ["7"], [8080%Z], (file "peers"), (file "surfaces"), None, start, es. split; [|done].
  apply start_run.
Qed.

End Toy.

Section agree_witnesses.
Import Peers Shell.

(** Peer 7 calls; a stranger with key 9 calls too and waits. *)
Definition toy_events : list (Event (K:=N)) :=
  [EvConnection (mkConn 100%N 7%N); EvConnection (mkConn 101%N 9%N)].


Lemma list_reports_admitted_peers_witness :
  let m := foldl (step Toy.config Toy.parse_ip) Toy.start toy_events in
  length (Protocol.li_peers (Daemon.list_info Toy.config m)) = 1.
Proof.
  intros m. destruct (list_reports_admitted_peers Toy.config Toy.parse_ip m
                        (Toy.start_reachable toy_events)) as [Hp _].
  apply Permutation_length in Hp. rewrite !length_fmap in Hp.
  etrans; [exact Hp|]. by vm_compute.
Defined.

End agree_witnesses.
