(* ===== verification/Bindings.v ===== *)
(** * Bindings, surfaces and sockets

    The invariant [bound] ties three parts of the shell together: a port of a
    peer is bound only while the peer has a surface, and a binding whose task
    still accepts is at that surface's address, on a socket this process listens
    on; no two bindings share a socket; and every socket belongs to a binding.
    [announced] says that only ports a peer announced are bound.  Both hold in
    every reachable state, for every object, the replaced and the removed ones
    too.  [bound_or_refused] is what becomes of a port there is to bind. *)

From S2P Require Import Prelude RustStr Keys Grants Dial Invite Store Enroll Protocol Session Surface Resolver Netstack Tunnel Peer PeerFacts PeerLoop Daemon Shell.
Import Peers.

Section bindings.
Context {K : Type} `{EKL : EndpointKeyLaws K} `{DML : DashMapLaws}.
Context `{!JsonCodec Pins.Pin} `{!JsonCodec Surface.SurfaceRecord}.
Implicit Types (m : PeerManager K) (p : Peer K) (o : ObjId) (k : K) (c : Conn K).

(** A binding is where it should be. *)
Definition in_place m (s : Surface) (port : Z) (b : Binding) : Prop :=
  match b with
  | Listener ip q => ip = Surface.ip s ∧ (port ≠ 0%Z → q = port) ∧ (ip, q) ∈ sockets m
  | Finished => True
  | TunPlaceholder => is_Some (netstack m) ∧ ∃ w x y z, Surface.ip s = Surface.V4 w x y z
  end.

Record bound m : Prop := {
  bound_place : ∀ o port b, bindings_of o m !! port = Some b →
    ∃ s, surface_of o m = Some s ∧ in_place m s port b;
  bound_unique : ∀ o o' port port' ip q,
    bindings_of o m !! port = Some (Listener ip q) →
    bindings_of o' m !! port' = Some (Listener ip q) → o = o' ∧ port = port';
  bound_sockets : ∀ x, x ∈ sockets m →
    ∃ o port, bindings_of o m !! port = Some (Listener x.1 x.2);
}.

Definition announced m : Prop :=
  ∀ o port, is_Some (bindings_of o m !! port) → port ∈ exposed_of o m.

(** [TcpListener::bind] never hands out a socket this process listens on, and
    gives the port that is asked for, but for port 0. *)
Definition exclusive (cfg : Config K) : Prop :=
  ∀ held n ip port q, tcp_bind cfg held n ip port = Ok q →
    (ip, q) ∉ held ∧ (port ≠ 0%Z → q = port).

(** Every attempt to bind [port] fails while the process has the sockets [held]. *)
Definition refused (cfg : Config K) (held : gset (IpAddr * Z)) (ip : IpAddr) (port : Z) : Prop :=
  ∀ n, n < BIND_ATTEMPTS → ∃ e, tcp_bind cfg held n ip port = Err e.

(** ** Operations that do not touch bindings *)

Record bframe m m' : Prop := {
  bframe_bindings : ∀ o, bindings_of o m' = bindings_of o m;
  bframe_surface : ∀ o, surface_of o m' = surface_of o m;
  bframe_exposed : ∀ o, exposed_of o m' = exposed_of o m;
  bframe_sockets : sockets m' = sockets m;
  bframe_netstack : is_Some (netstack m') ↔ is_Some (netstack m);
}.

#[export] Instance bframe_preorder : PreOrder bframe.
Proof.
  split; [by split|]. intros m1 m2 m3 [] []. split; try congruence; by etrans.
Qed.

Lemma in_place_frame m m' s port b :
  sockets m' = sockets m → (is_Some (netstack m') ↔ is_Some (netstack m)) →
  in_place m' s port b ↔ in_place m s port b.
Proof. intros Hs Hn. unfold in_place. destruct b; [by rewrite Hs|done|by rewrite Hn]. Qed.

Lemma bframe_bound m m' : bframe m m' → bound m → bound m'.
Proof.
  intros [Hb Hs _ Hk Hn] [Hp Hu Hso]. split.
  - intros o port b. rewrite Hb, Hs. intros (s & Hsur & Hpl)%Hp. exists s. split; [done|].
    by apply (in_place_frame m).
  - intros o o' port port' ip q. rewrite !Hb. apply Hu.
  - intros x. rewrite Hk. intros (o & port & Ho)%Hso. exists o, port. by rewrite Hb.
Qed.

Lemma bframe_announced m m' : bframe m m' → announced m → announced m'.
Proof. intros [Hb _ He _ _] Ha o port. rewrite Hb, He. apply Ha. Qed.

Lemma exposed_of_upd o f m o' :
  exposed_of o' (upd o f m) =
  if decide (o' = o) then match objects m !! o with Some p => exposed_ports (f p) | None => [] end
  else exposed_of o' m.
Proof. unfold exposed_of. rewrite objects_upd. case_decide; [|done]. by destruct (objects m !! o). Qed.

Lemma bframe_upd o f m :
  (∀ p, bindings (f p) = bindings p ∧ surface (f p) = surface p ∧
        exposed_ports (f p) = exposed_ports p) → bframe m (upd o f m).
Proof.
  intros Hf. split; try done; intros o'.
  - rewrite bindings_of_upd. case_decide; [subst|done]. unfold bindings_of.
    destruct (objects m !! o) as [p|]; [|done]. by destruct (Hf p).
  - rewrite surface_of_upd. case_decide; [subst|done]. unfold surface_of.
    destruct (objects m !! o) as [p|]; [|done]. simpl. by destruct (Hf p) as (_ & ? & _).
  - rewrite exposed_of_upd. case_decide; [subst|done]. unfold exposed_of.
    destruct (objects m !! o) as [p|]; [|done]. by destruct (Hf p) as (_ & _ & ?).
Qed.

Lemma bframe_foldl {A} (f : PeerManager K → A → PeerManager K) (l : list A) m :
  (∀ m x, bframe m (f m x)) → bframe m (foldl f m l).
Proof.
  intros Hf. revert m. induction l as [|x l IH]; intros m; simpl; [done|].
  etrans; [apply Hf|apply IH].
Qed.

Lemma bframe_close c reason m : bframe m (close c reason m).
Proof. unfold close. by case_match; split. Qed.

Lemma bframe_close_all cs m : bframe m (close_all cs m).
Proof. apply bframe_foldl. intros ? []. apply bframe_close. Qed.

Lemma bframe_send_to o msg m : bframe m (send_to o msg m).
Proof. unfold send_to. by case_match; split. Qed.

Lemma bframe_announce_to o m : bframe m (announce_to o m).
Proof. unfold announce_to. repeat case_match; try done. apply bframe_send_to. Qed.

Lemma bframe_broadcast m : bframe m (broadcast_grants m).
Proof. apply bframe_foldl. intros. apply bframe_announce_to. Qed.

Lemma bframe_claim cfg ip name m : bframe m (claim_addr cfg ip name m).1.
Proof.
  unfold claim_addr. destruct (netstack m) eqn:Hn; [|done]. destruct ip; [|done].
  split; try done; simpl; by rewrite Hn.
Qed.

Lemma bframe_unclaim cfg ip m : bframe m (unclaim_addr cfg ip m).1.
Proof.
  unfold unclaim_addr. destruct (netstack m) eqn:Hn; [|done]. destruct ip; [|done].
  split; try done; simpl; by rewrite Hn.
Qed.

Lemma bframe_install cfg o c by_us m : bframe m (install cfg o c by_us m).1.
Proof.
  unfold install. destruct (objects m !! o) as [p|]; [|done].
  destruct (Dial.offer _ _ _ _ _ _) as [s cs]. simpl.
  etrans; [apply (bframe_close_all cs)|]. by apply bframe_upd.
Qed.

Lemma bframe_dialed cfg o p c m : bframe m (Loop.dialed cfg o p c m).
Proof.
  unfold Loop.dialed. pose proof (bframe_install cfg o c true m) as H1.
  destruct (install cfg o c true m) as [m1 []]; simpl in H1; [|done].
  etrans; [exact H1|]. etrans; [|apply bframe_announce_to]. by destruct (enroll_token p).
Qed.

(** A fresh object has no bindings. *)
Lemma bframe_spawn p m :
  bindings p = ∅ → surface p = None → exposed_ports p = [] → bframe m (spawn_peer p m).1.
Proof.
  intros Hb Hs He. set (o := fresh (dom (objects m))).
  assert (Hfresh : objects m !! o = None) by (apply not_elem_of_dom, is_fresh).
  split; try done; intros o'; unfold bindings_of, surface_of, exposed_of; simpl; fold o;
    (destruct (decide (o' = o)) as [->|Hne];
       [rewrite lookup_insert_eq, Hfresh|by rewrite lookup_insert_ne]); done.
Qed.

(** ** Releasing *)

Lemma release_bindings o port m o' :
  bindings_of o' (release_binding o port m) =
  if decide (o' = o) then delete port (bindings_of o m) else bindings_of o' m.
Proof.
  unfold release_binding. set (m1 := match bindings_of o m !! port with Some _ => _ | None => m end).
  assert (H1 : bindings_of o' m1 = if decide (o' = o) then delete port (bindings_of o m)
                                   else bindings_of o' m).
  { unfold m1. destruct (bindings_of o m !! port) as [b|] eqn:Hb.
    - trans (bindings_of o' (upd o (λ p, put_bindings (delete port (bindings p)) p) m));
        [by destruct b|].
      rewrite bindings_of_upd. case_decide; [subst|done]. unfold bindings_of in *.
      destruct (objects m !! o); [done|]. by rewrite delete_empty.
    - case_decide; [subst|done]. by rewrite delete_id. }
  rewrite <- H1. clearbody m1. by repeat case_match.
Qed.

Lemma release_same o port m :
  (∀ o', surface_of o' (release_binding o port m) = surface_of o' m) ∧
  (∀ o', exposed_of o' (release_binding o port m) = exposed_of o' m) ∧
  sockets (release_binding o port m) =
    match bindings_of o m !! port with
    | Some (Listener ip q) => sockets m ∖ {[(ip, q)]}
    | _ => sockets m
    end.
Proof.
  unfold release_binding. set (m1 := match bindings_of o m !! port with Some _ => _ | None => m end).
  assert (H1 : (∀ o', surface_of o' m1 = surface_of o' m) ∧
               (∀ o', exposed_of o' m1 = exposed_of o' m) ∧
               sockets m1 = match bindings_of o m !! port with
                            | Some (Listener ip q) => sockets m ∖ {[(ip, q)]}
                            | _ => sockets m
                            end).
  { unfold m1. destruct (bindings_of o m !! port) as [b|]; [|done]. split_and!.
    - intros o'. trans (surface_of o' (upd o (λ p, put_bindings (delete port (bindings p)) p) m));
        [by destruct b|]. rewrite surface_of_upd. case_decide; [subst|done].
      unfold surface_of. by destruct (objects m !! o).
    - intros o'. trans (exposed_of o' (upd o (λ p, put_bindings (delete port (bindings p)) p) m));
        [by destruct b|]. rewrite exposed_of_upd. case_decide; [subst|done].
      unfold exposed_of. by destruct (objects m !! o).
    - by destruct b. }
  destruct H1 as (H1 & H2 & H3). rewrite <- H3. clearbody m1.
  split_and!; [intros o'; rewrite <- H1|intros o'; rewrite <- H2|]; by repeat case_match.
Qed.

Lemma bound_release o port m : bound m → bound (release_binding o port m).
Proof.
  intros [Hp Hu Hso]. destruct (release_same o port m) as (Hs & _ & Hk).
  pose proof (frame_netstack _ _ (frame_release o port m)) as Hn.
  assert (Hb : ∀ o' port' b, bindings_of o' (release_binding o port m) !! port' = Some b ↔
                 bindings_of o' m !! port' = Some b ∧ (o', port') ≠ (o, port)).
  { intros o' port' b. rewrite release_bindings.
    destruct (decide (o' = o)) as [->|]; [rewrite lookup_delete_Some|]; naive_solver. }
  split.
  - intros o' port' b [Hb' Hne]%Hb. destruct (Hp _ _ _ Hb') as (s & Hsur & Hpl).
    exists s. rewrite Hs. split; [done|].
    destruct b as [ip q| |]; [|done|simpl in *; by rewrite Hn]. simpl in *. rewrite Hk.
    destruct Hpl as (-> & Hq & Hin). split_and!; [done..|].
    destruct (bindings_of o m !! port) as [[ip' q'| |]|] eqn:Hrel; [|done..].
    apply elem_of_difference. split; [done|]. rewrite elem_of_singleton. intros [= <- <-].
    apply Hne. by destruct (Hu _ _ _ _ _ _ Hb' Hrel) as [-> ->].
  - intros o1 o2 p1 p2 ip q [H1 _]%Hb [H2 _]%Hb. eauto.
  - intros x. rewrite Hk. intros Hx.
    assert (Hx' : x ∈ sockets m) by (repeat case_match; set_solver).
    destruct (Hso x Hx') as (o' & port' & Ho'). exists o', port'. apply Hb. split; [done|].
    intros [= -> ->]. rewrite Ho' in Hx. destruct x. set_solver.
Qed.


Lemma release_all_bindings o ports m o' :
  bindings_of o' (release_all o ports m) =
  if decide (o' = o) then foldl (λ b port, delete port b) (bindings_of o m) ports
  else bindings_of o' m.
Proof.
  unfold release_all. revert m. induction ports as [|port ports IH]; intros m; simpl.
  - by case_decide; subst.
  - rewrite IH, !release_bindings. case_decide; [by rewrite decide_True|done].
Qed.

Lemma release_all_same o ports m :
  (∀ o', surface_of o' (release_all o ports m) = surface_of o' m) ∧
  (∀ o', exposed_of o' (release_all o ports m) = exposed_of o' m).
Proof.
  unfold release_all. revert m. induction ports as [|port ports IH]; intros m; simpl; [done|].
  destruct (IH (release_binding o port m)) as [IHs IHe].
  destruct (release_same o port m) as (Hs & He & _).
  split; intros o'; [by rewrite IHs, Hs|by rewrite IHe, He].
Qed.

Lemma bound_release_all o ports m : bound m → bound (release_all o ports m).
Proof.
  unfold release_all. revert m. induction ports as [|port ports IH]; intros m Hm; simpl; [done|].
  apply IH. by apply bound_release.
Qed.

Lemma delete_keys (b : gmap Z Binding) (ports : list Z) port :
  foldl (λ b port, delete port b) b ports !! port =
  if decide (port ∈ ports) then None else b !! port.
Proof.
  revert b. induction ports as [|q ports IH]; intros b; simpl; [done|].
  rewrite IH. destruct (decide (port ∈ ports)) as [Hin|Hin].
  - by rewrite decide_True by set_solver.
  - destruct (decide (port = q)) as [->|Hne].
    + rewrite lookup_delete_eq, decide_True; [done|set_solver].
    + rewrite lookup_delete_ne by done. rewrite decide_False; [done|set_solver].
Qed.

Lemma elem_of_held_ports o m port : port ∈ held_ports o m ↔ is_Some (bindings_of o m !! port).
Proof.
  unfold held_ports. rewrite dash_iter_perm, list_elem_of_fmap. split.
  - intros ([q b] & -> & Hin%elem_of_map_to_list). by eexists.
  - intros [b Hb]. exists (port, b). by rewrite elem_of_map_to_list.
Qed.

(** Releasing what is held leaves nothing bound. *)
Lemma release_held o m : bindings_of o (release_all o (held_ports o m) m) = ∅.
Proof.
  rewrite release_all_bindings, decide_True by done. apply map_empty. intros port.
  rewrite delete_keys. case_decide as Hin; [done|].
  apply eq_None_not_Some. by rewrite <- elem_of_held_ports.
Qed.

(** ** Surfaces and binding *)

Lemma bound_put_surface o x m :
  bindings_of o m = ∅ → bound m → bound (upd o (put_surface x) m).
Proof.
  intros Hnone [Hp Hu Hso].
  assert (Hb : ∀ o', bindings_of o' (upd o (put_surface x) m) = bindings_of o' m).
  { intros o'. rewrite bindings_of_upd. case_decide; [subst|done].
    unfold bindings_of. by destruct (objects m !! o). }
  split.
  - intros o' port b. rewrite Hb. intros Hob. destruct (Hp _ _ _ Hob) as (s & Hs & Hpl).
    exists s. split; [|done]. rewrite surface_of_upd, decide_False; [done|].
    intros ->. by rewrite Hnone in Hob.
  - intros o1 o2 p1 p2 ip q. rewrite !Hb. apply Hu.
  - intros y (o' & port & Ho')%Hso. exists o', port. by rewrite Hb.
Qed.

Lemma bind_attempts_socket cfg n attempt ip port m q :
  exclusive cfg → bind_attempts cfg n attempt ip port m = Some q →
  (ip, q) ∉ sockets m ∧ (port ≠ 0%Z → q = port).
Proof.
  intros Hex. revert attempt. induction n as [|n IH]; intros attempt; simpl; [done|].
  unfold Tunnel.bind_listener. destruct (tcp_bind _ _ _ _ _) as [q'|] eqn:Hb; simpl; [|apply IH].
  intros [= <-]. by apply (Hex _ _ _ _ _ Hb).
Qed.

Lemma bind_attempts_refused cfg n attempt ip port m :
  bind_attempts cfg n attempt ip port m = None →
  ∀ i, attempt <= i < n + attempt → ∃ e, tcp_bind cfg (sockets m) i ip port = Err e.
Proof.
  revert attempt. induction n as [|n IH]; intros attempt; simpl; [lia|].
  unfold Tunnel.bind_listener. destruct (tcp_bind _ _ _ _ _) as [q'|] eqn:Hb; simpl; [done|].
  intros Hn i Hi. destruct (decide (i = attempt)) as [->|]; [by eexists|]. apply (IH _ Hn). lia.
Qed.

(** What a fresh binding of [port] at [ip] can be. *)
Definition fresh_binding (cfg : Config K) m (ip : IpAddr) (port : Z) (b : Binding) : Prop :=
  match b with
  | Listener ip' q => ip' = ip ∧ bind_attempts cfg BIND_ATTEMPTS 0 ip port m = Some q
  | Finished => False
  | TunPlaceholder => is_Some (netstack m) ∧ ∃ w x y z, ip = Surface.V4 w x y z
  end.

Definition socket_of (b : Binding) : gset (IpAddr * Z) :=
  match b with
  | Listener ip port => {[(ip, port)]}
  | Finished | TunPlaceholder => ∅
  end.

Lemma put_binding_bindings o port b m o' :
  is_Some (objects m !! o) →
  bindings_of o' (put_binding o port b m) =
  if decide (o' = o) then <[port := b]> (bindings_of o m) else bindings_of o' m.
Proof.
  intros [p Hp]. unfold put_binding. rewrite bindings_of_upd. unfold bindings_of.
  by rewrite Hp.
Qed.

Lemma bind_one_cases cfg o ip port m :
  is_Some (objects m !! o) →
  (bind_one cfg o ip port m = m ∧ refused cfg (sockets m) ip port ∧
   (netstack m = None ∨ ∃ segs, ip = Surface.V6 segs)) ∨
  ∃ b, fresh_binding cfg m ip port b ∧
    (∀ o', bindings_of o' (bind_one cfg o ip port m) =
       if decide (o' = o) then <[port := b]> (bindings_of o m) else bindings_of o' m) ∧
    sockets (bind_one cfg o ip port m) = socket_of b ∪ sockets m.
Proof.
  intros Ho. unfold bind_one.
  assert (Hrefused : bind_attempts cfg BIND_ATTEMPTS 0 ip port m = None →
            refused cfg (sockets m) ip port).
  { intros Hn i Hi. by apply (bind_attempts_refused _ _ _ _ _ _ Hn); lia. }
  destruct (netstack m) as [ns|] eqn:Hns, ip as [w x y z|segs] eqn:Hip;
    try (destruct (bind_attempts _ _ _ _ _ _) as [q|] eqn:Hba;
         [right; exists (Listener ip q)|left; split_and!; [done|by apply Hrefused|by eauto]]);
    subst ip; [right; exists TunPlaceholder|..];
    (split_and!; [|intros o'; by rewrite put_binding_bindings|simpl; set_solver]); simpl; rewrite ?Hns;
    eauto 7.
Qed.

Lemma bind_one_same cfg o ip port m :
  (∀ o', surface_of o' (bind_one cfg o ip port m) = surface_of o' m) ∧
  (∀ o', exposed_of o' (bind_one cfg o ip port m) = exposed_of o' m) ∧
  (∀ o', is_Some (objects (bind_one cfg o ip port m) !! o') ↔ is_Some (objects m !! o')).
Proof.
  assert (Hput : ∀ b m1, objects m1 = objects m →
    (∀ o', surface_of o' (put_binding o port b m1) = surface_of o' m) ∧
    (∀ o', exposed_of o' (put_binding o port b m1) = exposed_of o' m) ∧
    (∀ o', is_Some (objects (put_binding o port b m1) !! o') ↔ is_Some (objects m !! o'))).
  { intros b m1 Hm1. unfold put_binding. split_and!; intros o'.
    - rewrite surface_of_upd. unfold surface_of. rewrite Hm1. case_decide; [subst|done].
      by destruct (objects m !! o).
    - rewrite exposed_of_upd. unfold exposed_of. rewrite Hm1. case_decide; [subst|done].
      by destruct (objects m !! o).
    - rewrite objects_upd, Hm1. case_decide; [subst|done]. apply fmap_is_Some. }
  unfold bind_one. destruct (netstack m) as [ns|], ip as [w x y z|segs];
    try (destruct (bind_attempts _ _ _ _ _ _); [|by split_and!]); by apply Hput.
Qed.

Lemma bound_bind_one cfg o s port m :
  exclusive cfg → is_Some (objects m !! o) → surface_of o m = Some s →
  bindings_of o m !! port = None → bound m → bound (bind_one cfg o (Surface.ip s) port m).
Proof.
  intros Hex Ho Hs Hnone [Hp Hu Hso].
  destruct (bind_one_cases cfg o (Surface.ip s) port m Ho) as [[-> _]|(b0 & Hfb & Hb & Hk)];
    [by split|].
  destruct (bind_one_same cfg o (Surface.ip s) port m) as (Hs' & _ & _).
  pose proof (frame_netstack _ _ (frame_bind_one cfg o (Surface.ip s) port m)) as Hn.
  set (m' := bind_one _ _ _ _ _) in *.
  assert (Hb' : ∀ o' port' b, bindings_of o' m' !! port' = Some b ↔
            (o' = o ∧ port' = port ∧ b = b0) ∨ bindings_of o' m !! port' = Some b).
  { intros o' port' b. rewrite Hb. destruct (decide (o' = o)) as [->|]; [|naive_solver].
    rewrite lookup_insert_Some. destruct (decide (port' = port)) as [->|]; naive_solver. }
  assert (Hfree : ∀ ip q, b0 = Listener ip q →
            ip = Surface.ip s ∧ (port ≠ 0%Z → q = port) ∧ (ip, q) ∉ sockets m).
  { intros ip q ->. destruct Hfb as [-> Hba].
    by destruct (bind_attempts_socket _ _ _ _ _ _ _ Hex Hba). }
  assert (Hb0 : in_place m' s port b0).
  { destruct b0 as [ip q| |]; [|done|by destruct Hfb; split; [apply Hn|]].
    destruct (Hfree ip q eq_refl) as (-> & Hq & _). simpl. rewrite Hk. split_and!; [done..|].
    simpl. set_solver. }
  split.
  - intros o' port' b [(-> & -> & ->)|Hold]%Hb'; [exists s; by rewrite Hs'|].
    destruct (Hp _ _ _ Hold) as (s' & Hsur & Hpl). exists s'. rewrite Hs'. split; [done|].
    destruct b as [ip q| |]; [|done|destruct Hpl; split; [by apply Hn|done]].
    simpl in *. rewrite Hk. set_solver.
  - assert (Hold : ∀ o' port' ip q, bindings_of o' m !! port' = Some (Listener ip q) →
              (ip, q) ∈ sockets m).
    { by intros o' port' ip q (s' & _ & _ & _ & ?)%Hp. }
    intros o1 o2 p1 p2 ip q [(-> & -> & H1)|H1]%Hb' [(-> & -> & H2)|H2]%Hb'; eauto;
      exfalso; (destruct (Hfree ip q) as (_ & _ & []); [done|eauto]).
  - intros x. rewrite Hk, elem_of_union. intros [Hx|(o' & port' & Ho')%Hso].
    + exists o, port. apply Hb'. left. split_and!; [done..|].
      destruct b0; simpl in Hx; [|set_solver..]. apply elem_of_singleton in Hx as ->. done.
    + exists o', port'. apply Hb'. by right.
Qed.

Lemma bind_missing_same cfg o ip ports m :
  (∀ o', surface_of o' (bind_missing cfg o ip ports m) = surface_of o' m) ∧
  (∀ o', exposed_of o' (bind_missing cfg o ip ports m) = exposed_of o' m) ∧
  (∀ o', is_Some (objects (bind_missing cfg o ip ports m) !! o') ↔ is_Some (objects m !! o')).
Proof.
  unfold bind_missing. revert m. induction ports as [|port ports IH]; intros m; simpl; [done|].
  set (m1 := match bindings_of o m !! port with Some _ => m | None => _ end).
  assert (H1 : (∀ o', surface_of o' m1 = surface_of o' m) ∧
               (∀ o', exposed_of o' m1 = exposed_of o' m) ∧
               (∀ o', is_Some (objects m1 !! o') ↔ is_Some (objects m !! o'))).
  { unfold m1. case_match; [done|]. apply bind_one_same. }
  clearbody m1. destruct (IH m1) as (H2 & H3 & H4), H1 as (H5 & H6 & H7).
  split_and!; intros o'; [by rewrite H2|by rewrite H3|by rewrite H4].
Qed.

Lemma bind_missing_keys cfg o ip ports m o' port :
  is_Some (objects m !! o) →
  is_Some (bindings_of o' (bind_missing cfg o ip ports m) !! port) →
  is_Some (bindings_of o' m !! port) ∨ (o' = o ∧ port ∈ ports).
Proof.
  unfold bind_missing. revert m. induction ports as [|q ports IH]; intros m Ho; simpl; [by left|].
  destruct (bindings_of o m !! q) eqn:Hq.
  - intros [?|[? ?]]%IH; [by left| |done]. right. set_solver.
  - destruct (bind_one_same cfg o ip q m) as (_ & _ & Hobj).
    intros [Hb|[? ?]]%IH; [|right; set_solver|by apply Hobj].
    destruct (bind_one_cases cfg o ip q m Ho) as [[Heq _]|(b & _ & Hb' & _)].
    + rewrite Heq in Hb. by left.
    + rewrite Hb' in Hb. case_decide as Ho'; [subst|by left].
      destruct (decide (port = q)) as [->|Hne]; [right; set_solver|].
      rewrite lookup_insert_ne in Hb by done. by left.
Qed.

Lemma bound_bind_missing cfg o s ports m :
  exclusive cfg → is_Some (objects m !! o) → surface_of o m = Some s → bound m →
  bound (bind_missing cfg o (Surface.ip s) ports m).
Proof.
  intros Hex. unfold bind_missing. revert m.
  induction ports as [|port ports IH]; intros m Ho Hs Hm; simpl; [done|].
  destruct (bindings_of o m !! port) eqn:Hport; [by apply IH|].
  destruct (bind_one_same cfg o (Surface.ip s) port m) as (Hs' & _ & Ho').
  apply IH; [by apply Ho'|by rewrite Hs'|by apply bound_bind_one].
Qed.

(** A peer without a surface has nothing bound. *)
Lemma unprojected_unbound o m : bound m → surface_of o m = None → bindings_of o m = ∅.
Proof.
  intros Hm Hs. apply map_empty. intros port. apply eq_None_not_Some. intros [b Hb].
  destruct (bound_place _ Hm _ _ _ Hb) as (s & Hs' & _). congruence.
Qed.

Lemma upd_surface_same o x m o' :
  bindings_of o' (upd o (put_surface x) m) = bindings_of o' m ∧
  exposed_of o' (upd o (put_surface x) m) = exposed_of o' m.
Proof.
  rewrite bindings_of_upd, exposed_of_upd. unfold bindings_of, exposed_of.
  case_decide; [subst|done]. by destruct (objects m !! o).
Qed.

Lemma surface_ip_facts cfg o ports m :
  let '(m', r) := surface_ip cfg o ports m in
  (∀ o', bindings_of o' m' = bindings_of o' m) ∧
  (∀ o', exposed_of o' m' = exposed_of o' m) ∧
  (bound m → bound m') ∧
  (∀ ip, r = Some ip → is_Some (objects m' !! o) ∧
     ∃ s, surface_of o m' = Some s ∧ Surface.ip s = ip).
Proof.
  unfold surface_ip. destruct (objects m !! o) as [p|] eqn:Hp; [|done].
  destruct (surface p) as [s|] eqn:Hs.
  { split_and!; [done..|]. intros ip [= <-]. split; [by eexists|]. exists s.
    unfold surface_of. by rewrite Hp. }
  destruct ports as [|port ports]; [done|].
  destruct (Surface.allocate _ _) as [ip|]; [|done].
  set (n := Some (match label p with Some l => l | None => _ end)).
  pose proof (bframe_claim cfg ip n m) as Hc.
  pose proof (frame_identity _ _ (frame_claim cfg ip n m) o) as Hi.
  destruct (claim_addr cfg ip n m) as [m1 [[]|e]]; simpl in Hc, Hi.
  - destruct (Surface.add _ _ _ _) as [f r].
    assert (Ho1 : is_Some (objects m1 !! o)).
    { rewrite Hp in Hi. destruct (objects m1 !! o); [by eexists|done]. }
    destruct Hc as [Hb Hsur He Hk Hn] eqn:E. clear E.
    split_and!.
    + intros o'. simpl. rewrite <- Hb. apply (upd_surface_same o _ m1 o').
    + intros o'. simpl. rewrite <- He. apply (upd_surface_same o _ m1 o').
    + intros Hm. apply (bframe_bound (upd o (put_surface (Some (Surface.mkSurface ip n))) m1));
        [by split|]. apply bound_put_surface; [|by eapply bframe_bound].
      rewrite Hb. apply unprojected_unbound; [done|]. unfold surface_of. by rewrite Hp.
    + intros ip' [= <-]. destruct Ho1 as [p1 Hp1]. split.
      * simpl. rewrite lookup_alter_eq, Hp1. by eexists.
      * exists (Surface.mkSurface ip n). split; [|done]. unfold surface_of. simpl.
        by rewrite lookup_alter_eq, Hp1.
  - split_and!; [apply Hc..| |done]. by apply bframe_bound.
Qed.

Lemma bound_put_exposed o ports m : bound m → bound (upd o (put_exposed ports) m).
Proof.
  assert (Hb : ∀ o', bindings_of o' (upd o (put_exposed ports) m) = bindings_of o' m).
  { intros o'. rewrite bindings_of_upd. case_decide; [subst|done].
    unfold bindings_of. by destruct (objects m !! o). }
  assert (Hs : ∀ o', surface_of o' (upd o (put_exposed ports) m) = surface_of o' m).
  { intros o'. rewrite surface_of_upd. case_decide; [subst|done].
    unfold surface_of. by destruct (objects m !! o). }
  intros [Hp Hu Hso]. split.
  - intros o' port b. rewrite Hb, Hs. apply Hp.
  - intros o1 o2 p1 p2 ip q. rewrite !Hb. apply Hu.
  - intros x (o' & port & Ho')%Hso. exists o', port. by rewrite Hb.
Qed.

(** The first half of [update_peer_ports]: what is no longer announced. *)
Definition release_stale o (new_ports : list Z) (old : list Z) m : PeerManager K :=
  foldl (λ m port, if decide (port ∈ new_ports) then m else release_binding o port m) m old.

Lemma release_stale_facts o new_ports old m :
  (∀ o' port, bindings_of o' (release_stale o new_ports old m) !! port =
     if decide (o' = o ∧ port ∈ old ∧ port ∉ new_ports) then None else bindings_of o' m !! port) ∧
  (∀ o', surface_of o' (release_stale o new_ports old m) = surface_of o' m) ∧
  (∀ o', exposed_of o' (release_stale o new_ports old m) = exposed_of o' m) ∧
  (bound m → bound (release_stale o new_ports old m)).
Proof.
  unfold release_stale. revert m. induction old as [|q old IH]; intros m; simpl.
  - split_and!; try done. intros. rewrite decide_False; [done|]. set_solver.
  - destruct (decide (q ∈ new_ports)) as [Hq|Hq].
    + destruct (IH m) as (IHb & IHs & IHe & IHbound). split_and!; [|done..].
      intros o' port. rewrite IHb. apply decide_ext. set_solver.
    + destruct (IH (release_binding o q m)) as (IHb & IHs & IHe & IHbound).
      destruct (release_same o q m) as (Hs & He & _). split_and!.
      * intros o' port. rewrite IHb, release_bindings.
        destruct (decide (o' = o)) as [->|Hne].
        -- destruct (decide (port = q)) as [->|Hneq].
           ++ rewrite lookup_delete_eq. rewrite (decide_True (P := o = o ∧ q ∈ q :: old ∧ _));
                [by case_decide|]. set_solver.
           ++ rewrite lookup_delete_ne by done. apply decide_ext. set_solver.
        -- rewrite !decide_False; [done|naive_solver..].
      * intros o'. by rewrite IHs, Hs.
      * intros o'. by rewrite IHe, He.
      * intros Hm. apply IHbound. by apply bound_release.
Qed.

Lemma exposed_of_put o ports m o' :
  exposed_of o' (upd o (put_exposed ports) m) =
  if decide (o' = o ∧ is_Some (objects m !! o)) then ports else exposed_of o' m.
Proof.
  rewrite exposed_of_upd. unfold exposed_of. destruct (decide (o' = o)) as [->|].
  - destruct (objects m !! o) as [p|].
    + rewrite decide_True; [done|]. by split; [|eexists].
    + rewrite decide_False; [done|]. by intros [_ []].
  - rewrite decide_False; naive_solver.
Qed.

Lemma bindings_of_put_exposed o ports m o' :
  bindings_of o' (upd o (put_exposed ports) m) = bindings_of o' m.
Proof.
  rewrite bindings_of_upd. unfold bindings_of. case_decide; [subst|done].
  by destruct (objects m !! o).
Qed.

Lemma unknown_unbound o m : objects m !! o = None → bindings_of o m = ∅.
Proof. unfold bindings_of. by intros ->. Qed.

Lemma is_Some_objects_frame m m' o :
  frame m m' → is_Some (objects m' !! o) ↔ is_Some (objects m !! o).
Proof.
  intros Hf. pose proof (frame_identity _ _ Hf o) as Hi.
  rewrite <- (fmap_is_Some identity), Hi, fmap_is_Some. done.
Qed.

(** A port announcement keeps both invariants. *)
Lemma update_ports_inv cfg o ports m :
  exclusive cfg → bound m → announced m →
  bound (update_peer_ports cfg o ports m) ∧ announced (update_peer_ports cfg o ports m).
Proof.
  intros Hex Hm Ha. unfold update_peer_ports. fold (release_stale o ports (exposed_of o m) m).
  destruct (release_stale_facts o ports (exposed_of o m) m) as (Hb1 & Hs1 & He1 & Hbound1).
  set (m1 := release_stale _ _ _ m) in *.
  assert (Hf1 : frame m m1).
  { apply frame_foldl. intros. case_decide; [done|]. apply frame_release. }
  pose proof (surface_ip_facts cfg o ports m1) as Hsi.
  pose proof (frame_surface_ip cfg o ports m1) as Hf2.
  destruct (surface_ip cfg o ports m1) as [m2 r]. simpl in Hf2.
  destruct Hsi as (Hb2 & He2 & Hbound2 & Hr).
  assert (Hm2 : bound m2) by auto.
  assert (Hold : ∀ o' port, is_Some (bindings_of o' m2 !! port) →
            port ∈ exposed_of o' m ∧ (o' = o → port ∈ ports)).
  { intros o' port. rewrite Hb2, Hb1. case_decide as Hd; [by intros []|]. intros Hport.
    split; [by apply Ha|]. intros ->. destruct (decide (port ∈ ports)); [done|].
    exfalso. apply Hd. split_and!; [done| |done]. by apply Ha. }
  assert (Hdone : ∀ m3, (∀ o', exposed_of o' m3 = exposed_of o' m2) →
    (∀ o' port, is_Some (bindings_of o' m3 !! port) →
       is_Some (bindings_of o' m2 !! port) ∨
       (o' = o ∧ port ∈ ports ∧ is_Some (objects m3 !! o))) →
    announced (upd o (put_exposed ports) m3)).
  { intros m3 He3 Hb3 o' port. rewrite bindings_of_put_exposed, exposed_of_put.
    intros [Hport|(-> & Hin & Ho)]%Hb3.
    - apply Hold in Hport as [Hin Hnew]. case_decide as Hd; [naive_solver|].
      by rewrite He3, He2, He1.
    - by rewrite decide_True. }
  destruct r as [ip|].
  - destruct (Hr ip eq_refl) as (Ho & s & Hs & <-).
    destruct (bind_missing_same cfg o (Surface.ip s) ports m2) as (_ & He3 & Ho3).
    split; [by apply bound_put_exposed, bound_bind_missing|].
    apply Hdone; [done|]. intros o' port Hport.
    apply bind_missing_keys in Hport as [?|[-> ?]]; [by left|right|done].
    split_and!; [done..|]. by apply Ho3.
  - split; [by apply bound_put_exposed|]. apply Hdone; [done|]. by left.
Qed.

(** ** Both invariants, along every step *)
Definition inv m : Prop := bound m ∧ announced m.

Lemma bframe_inv m m' : bframe m m' → inv m → inv m'.
Proof. intros Hf [? ?]. split; [by eapply bframe_bound|by eapply bframe_announced]. Qed.

Lemma bframe_set_session s m : bframe m (set_session s m).
Proof. by split. Qed.

Lemma inv_apply cfg o actions m : exclusive cfg → inv m → inv (apply cfg o actions m).
Proof.
  intros Hex. unfold apply. revert m. induction actions as [|a actions IH]; intros m Hm; [done|].
  simpl. apply IH. destruct a; simpl; try done.
  - eapply bframe_inv; [apply bframe_send_to|done].
  - destruct Hm. by apply update_ports_inv.
  - by eapply (bframe_inv m).
  - by eapply (bframe_inv m).
Qed.

Lemma inv_release_all o ports m : inv m → inv (release_all o ports m).
Proof.
  intros [Hb Ha]. split; [by apply bound_release_all|].
  destruct (release_all_same o ports m) as [_ He]. intros o' port. rewrite He, release_all_bindings.
  case_decide as Ho; [|apply Ha]. subst. rewrite delete_keys. case_decide; [by intros []|apply Ha].
Qed.

Lemma inv_put_surface o x m : bindings_of o m = ∅ → inv m → inv (upd o (put_surface x) m).
Proof.
  intros Hnone [Hb Ha]. split; [by apply bound_put_surface|].
  intros o' port. destruct (upd_surface_same o x m o') as [-> ->]. apply Ha.
Qed.

Lemma inv_clear_surface o m : inv m → inv (clear_surface o m) ∧ bindings_of o (clear_surface o m) = ∅.
Proof.
  intros Hm. unfold clear_surface. split.
  - apply inv_put_surface; [apply release_held|by apply inv_release_all].
  - destruct (upd_surface_same o None (release_all o (held_ports o m) m) o) as [-> _].
    apply release_held.
Qed.

Lemma bframe_set_surfaces f m : bframe m (set_surfaces f m).
Proof. by split. Qed.

Lemma bind_missing_exposed_inv cfg o s m :
  exclusive cfg → is_Some (objects m !! o) → surface_of o m = Some s → inv m →
  inv (bind_missing cfg o (Surface.ip s) (exposed_of o m) m).
Proof.
  intros Hex Ho Hs [Hb Ha]. split; [by apply bound_bind_missing|].
  destruct (bind_missing_same cfg o (Surface.ip s) (exposed_of o m) m) as (_ & He & _).
  intros o' port Hport. rewrite He.
  apply bind_missing_keys in Hport as [Hport|[-> ?]]; [by apply Ha|done|done].
Qed.

Lemma inv_project cfg ref ip name m :
  exclusive cfg → Shell.agree m → inv m → inv (project cfg ref ip name m).1.
Proof.
  intros Hex Hagree Hm. unfold project. destruct (resolve_peer ref m) as [id|]; [|done].
  destruct (peers m !! id) as [o|] eqn:Ho; [|done].
  set (m1 := match surface_of o m with Some _ => _ | None => m end).
  assert (H1 : inv m1 ∧ bindings_of o m1 = ∅ ∧ is_Some (objects m1 !! o)).
  { assert (Hobj : is_Some (objects m !! o)).
    { destruct (Shell.agree_objects _ Hagree _ _ Ho) as (p & -> & _). by eexists. }
    unfold m1. destruct (surface_of o m) as [s|] eqn:Hs.
    - destruct (inv_clear_surface o m Hm) as [H1 H2].
      pose proof (bframe_unclaim cfg (Surface.ip s) (clear_surface o m)) as Hf.
      split_and!; [by eapply bframe_inv|by rewrite (bframe_bindings _ _ Hf)|].
      rewrite (is_Some_objects_frame m); [done|].
      etrans; [apply frame_clear_surface|apply frame_unclaim].
    - split_and!; [done| |done]. apply unprojected_unbound; [apply Hm|done]. }
  clearbody m1. destruct H1 as (H1 & Hnone & Hobj).
  destruct (match ip with Some _ => _ | None => _ end) as [a|]; [|done].
  set (n := match name with Some _ => _ | None => _ end).
  pose proof (bframe_claim cfg a n m1) as Hf.
  pose proof (is_Some_objects_frame _ _ o (frame_claim cfg a n m1)) as Hobj2.
  destruct (claim_addr cfg a n m1) as [m2 [[]|]]; simpl in Hf, Hobj2; [|by eapply bframe_inv].
  destruct (Surface.add _ _ _ _) as [f r]. cbn [fst].
  set (m3 := set_surfaces f _).
  assert (Hs3 : surface_of o m3 = Some (Surface.mkSurface a n)).
  { unfold m3, surface_of. simpl. rewrite lookup_alter_eq.
    apply Hobj2 in Hobj as [p Hp]. by rewrite Hp. }
  change a with (Surface.ip (Surface.mkSurface a n)).
  apply bind_missing_exposed_inv; [done| |done|].
  - unfold m3. simpl. rewrite lookup_alter_eq, fmap_is_Some. by apply Hobj2.
  - eapply bframe_inv; [apply bframe_set_surfaces|].
    apply inv_put_surface; [by rewrite (bframe_bindings _ _ Hf)|by eapply bframe_inv].
Qed.

Lemma inv_unproject cfg ref m : inv m → inv (unproject cfg ref m).1.
Proof.
  intros Hm. unfold unproject. destruct (resolve_peer ref m) as [id|]; [|done].
  destruct (peers m !! id) as [o|]; [|done]. destruct (surface_of o m) as [s|]; [|done].
  destruct (inv_clear_surface o m Hm) as [H1 _].
  pose proof (bframe_unclaim cfg (Surface.ip s) (clear_surface o m)) as Hf.
  destruct (unclaim_addr _ _ _) as [m2 [[]|]]; cbn [fst] in *; [|by eapply bframe_inv].
  eapply bframe_inv; [apply bframe_set_surfaces|]. by eapply bframe_inv.
Qed.

Lemma inv_evict_object cfg o reason m : inv m → inv (evict_object cfg o reason m).
Proof.
  intros Hm. unfold evict_object. set (m1 := upd o (put_removed true) m).
  set (m2 := upd o (put_notified true) m1).
  set (m3 := match objects m2 !! o with Some _ => _ | None => m2 end).
  assert (H3 : inv m3).
  { eapply bframe_inv; [|exact Hm]. trans m1; [by apply bframe_upd|].
    trans m2; [by apply bframe_upd|]. unfold m3. destruct (objects m2 !! o); [|done].
    case_match; [|done]. etrans; [|apply bframe_close]. by apply bframe_upd. }
  clearbody m3. set (m4 := release_all _ _ m3).
  assert (H4 : inv m4) by (by apply inv_release_all).
  destruct (surface_of o m4) as [s|]; [|done].
  eapply bframe_inv; [apply bframe_unclaim|]. apply inv_put_surface; [|done].
  apply release_held.
Qed.

Lemma bframe_drop_pins actions m : bframe m (foldl drop_pin m actions).
Proof. apply bframe_foldl. by intros m' []. Qed.

Lemma inv_evict cfg k reason m : inv m → inv (evict cfg k reason m).
Proof.
  intros Hm. unfold evict.
  set (m1 := match peers m !! k with Some _ => _ | None => m end).
  assert (H1 : inv m1).
  { unfold m1. destruct (peers m !! k); [|done]. apply inv_evict_object.
    by eapply (bframe_inv m). }
  clearbody m1. destruct (Session.evict k (session m1)) as [s actions].
  eapply bframe_inv; [apply bframe_set_surfaces|].
  eapply bframe_inv; [apply bframe_drop_pins|]. by eapply bframe_inv; [apply bframe_set_session|].
Qed.

Lemma bframe_add_peer k name code m : bframe m (add_peer k name code m).1.
Proof. unfold add_peer. case_match; [done|]. etrans; [|by apply bframe_spawn]. by split. Qed.

Lemma bframe_add_pinned key name m : bframe m (add_pinned key name m).1.
Proof.
  unfold add_pinned. case_match; [|done]. case_match; [done|].
  etrans; [|by apply bframe_spawn]. by split.
Qed.

Lemma bframe_expose port to m : bframe m (Daemon.expose port to m).
Proof. etrans; [apply bframe_set_session|apply bframe_broadcast]. Qed.

Lemma bframe_unexpose port to m : bframe m (Daemon.unexpose port to m).
Proof. etrans; [apply bframe_set_session|apply bframe_broadcast]. Qed.

Lemma bframe_invite cfg key name ports random now m :
  bframe m (Daemon.invite cfg key name ports random now m).1.
Proof.
  unfold Daemon.invite, pin_peer. destruct key as [key|].
  - pose proof (bframe_add_pinned key name m) as H1.
    destruct (add_pinned key name m) as [m1 [[]|]]; simpl in H1; [|done].
    destruct (Pins.add _ _ _) as [f [[]|]]; cbn [fst snd]; [|by etrans].
    case_match; cbn [fst]; etrans; try exact H1; [|by split].
    trans (set_pins f m1); [by split|]. apply bframe_foldl. intros. apply bframe_expose.
  - by destruct (Session.mint_token _ _ _ _ _).
Qed.

Lemma inv_request cfg parse_ip req random now m :
  exclusive cfg → Shell.agree m → inv m →
  inv (Daemon.handle_request cfg parse_ip req random now m).1.
Proof.
  intros Hex Hagree Hm. destruct req; simpl; try done.
  - eapply bframe_inv; [apply bframe_invite|done].
  - unfold Daemon.accept. destruct (Invite.from_str _) as [h|]; [|done].
    pose proof (bframe_add_peer (Invite.handle_key h) name (Invite.handle_code h) m) as H1.
    by destruct (add_peer _ _ _ _) as [m1 [[]|]]; eapply bframe_inv.
  - unfold remove_peer. destruct (resolve_peer _ _) as [k|]; [|done].
    destruct (peers m !! k); [|done]. by apply inv_evict.
  - destruct (Daemon.grantees _ _ _); [|done]. eapply bframe_inv; [apply bframe_expose|done].
  - case_match; [|done]. eapply bframe_inv; [apply bframe_unexpose|done].
  - destruct (match ip with Some _ => _ | None => _ end) as [a|]; [|done].
    pose proof (inv_project cfg peer a name m Hex Hagree Hm) as H1.
    by destruct (project _ _ _ _ _) as [m1 [[]|]].
  - pose proof (inv_unproject cfg peer m Hm) as H1.
    by destruct (unproject _ _ _) as [m1 [[]|]].
Qed.

Lemma inv_handle_connection cfg c m : exclusive cfg → inv m → inv (handle_connection cfg c m).
Proof.
  intros Hex Hm. unfold handle_connection. destruct (Session.on_inbound _ _ _) as [s acts].
  set (m1 := set_session s _). assert (H1 : inv m1) by (by eapply (bframe_inv m)).
  clearbody m1. destruct acts as [|a acts]; [by eapply (bframe_inv m1)|].
  destruct (peers m1 !! remote_id c) as [o|]; [|done].
  pose proof (bframe_install cfg o c false m1) as Hf.
  destruct (install cfg o c false m1) as [m2 []]; simpl in Hf; [|by eapply bframe_inv].
  apply inv_apply; [done|]. eapply bframe_inv; [by apply bframe_upd|].
  eapply bframe_inv; [by apply bframe_upd|]. by eapply bframe_inv.
Qed.

Lemma inv_verdict cfg id wt acts m : exclusive cfg → inv m → inv (enroll_verdict cfg id wt acts m).
Proof.
  intros Hex Hm. unfold enroll_verdict. set (m1 := set_waiting _ m).
  assert (H1 : inv m1) by (by eapply (bframe_inv m)). clearbody m1.
  destruct (refusal_of acts); [eapply bframe_inv; [apply bframe_close|done]|].
  destruct (existsb is_admit acts); [|eapply bframe_inv; [apply bframe_close|done]].
  set (p := match early_version wt with Some _ => _ | None => _ end).
  assert (Hf : bframe m1 (spawn_peer p m1).1).
  { unfold p. by destruct (early_version wt); apply bframe_spawn. }
  destruct (spawn_peer p m1) as [m2 o]. apply inv_apply; [done|]. by eapply bframe_inv.
Qed.

Lemma accept_failed_cases o port m :
  accept_failed o port m = m ∨
  ∃ ip q, bindings_of o m !! port = Some (Listener ip q) ∧
    (∀ o', bindings_of o' (accept_failed o port m) =
       if decide (o' = o) then <[port := Finished]> (bindings_of o m) else bindings_of o' m) ∧
    (∀ o', surface_of o' (accept_failed o port m) = surface_of o' m) ∧
    (∀ o', exposed_of o' (accept_failed o port m) = exposed_of o' m) ∧
    sockets (accept_failed o port m) = sockets m ∖ {[(ip, q)]} ∧
    netstack (accept_failed o port m) = netstack m.
Proof.
  unfold accept_failed. destruct (bindings_of o m !! port) as [[ip q| |]|] eqn:Hb; [right|by left..].
  assert (Ho : is_Some (objects m !! o)).
  { unfold bindings_of in Hb. destruct (objects m !! o); [by eexists|done]. }
  exists ip, q. split; [done|]. set (m1 := set_sockets _ m). split_and!; try done; intros o'.
  - by apply (put_binding_bindings o port Finished m1).
  - unfold put_binding. rewrite surface_of_upd. case_decide; [subst|done].
    destruct Ho as [p Hp]. unfold surface_of. simpl. by rewrite Hp.
  - unfold put_binding. rewrite exposed_of_upd. case_decide; [subst|done].
    destruct Ho as [p Hp]. unfold exposed_of. simpl. by rewrite Hp.
Qed.

Lemma accept_failed_same o port m :
  (∀ o', surface_of o' (accept_failed o port m) = surface_of o' m) ∧
  (∀ o', exposed_of o' (accept_failed o port m) = exposed_of o' m) ∧
  netstack (accept_failed o port m) = netstack m.
Proof.
  by destruct (accept_failed_cases o port m) as [->|(ip & q & _ & _ & ? & ? & _ & ?)].
Qed.

Lemma bound_accept_failed o port m : bound m → bound (accept_failed o port m).
Proof.
  intros Hm. destruct (accept_failed_cases o port m) as [->|(ip & q & Hl & Hb & Hs & _ & Hk & Hn)]; [done|].
  destruct Hm as [Hp Hu Hso]. set (m' := accept_failed o port m) in *.
  assert (Hold : ∀ o' port' b, bindings_of o' m' !! port' = Some b → b ≠ Finished →
            bindings_of o' m !! port' = Some b ∧ (o', port') ≠ (o, port)).
  { intros o' port' b. rewrite Hb. destruct (decide (o' = o)) as [->|]; [|naive_solver].
    rewrite lookup_insert_Some. naive_solver. }
  split.
  - intros o' port' b Hb'. rewrite Hs.
    assert (is_Some (bindings_of o' m !! port')) as [b1 Hb1].
    { revert Hb'. rewrite Hb. case_decide as Ho'; [subst|by eexists].
      rewrite lookup_insert_Some. intros [[-> _]|[_ ?]]; by eexists. }
    destruct (Hp _ _ _ Hb1) as (s & Hsur & _). exists s. split; [done|].
    assert (b = Finished ∨ b ≠ Finished) as [->|Hne] by (destruct b; auto); [done|].
    destruct (Hold _ _ _ Hb' Hne) as [Hb2 Hneq]. destruct (Hp _ _ _ Hb2) as (s2 & Hs2 & Hpl).
    rewrite Hsur in Hs2. injection Hs2 as <-.
    destruct b as [ip' q'| |]; [|done|simpl in *; by rewrite Hn].
    destruct Hpl as (-> & Hq & Hin). split_and!; [done..|]. rewrite Hk, elem_of_difference.
    split; [done|]. rewrite elem_of_singleton. intros [= <- <-].
    apply Hneq. by destruct (Hu _ _ _ _ _ _ Hb2 Hl) as [-> ->].
  - intros o1 o2 p1 p2 ip' q' [H1 _]%Hold [H2 _]%Hold; [eauto|done..].
  - intros x. rewrite Hk, elem_of_difference, elem_of_singleton. intros [Hx Hne].
    destruct (Hso x Hx) as (o' & port' & Ho'). exists o', port'. rewrite Hb.
    case_decide as Heq; [subst|done]. rewrite lookup_insert_ne; [done|]. intros ->.
    rewrite Hl in Ho'. injection Ho' as -> ->. by destruct x.
Qed.

Lemma announced_accept_failed o port m : announced m → announced (accept_failed o port m).
Proof.
  intros Ha. destruct (accept_failed_cases o port m) as [->|(ip & q & Hl & Hb & _ & He & _)]; [done|].
  intros o' port'. rewrite Hb, He. case_decide; [subst|apply Ha].
  rewrite lookup_insert_is_Some. intros [->|[_ ?]]; apply Ha; [by eexists|done].
Qed.

Lemma inv_step cfg parse_ip m e :
  exclusive cfg → Shell.agree m → inv m → inv (Shell.step cfg parse_ip m e).
Proof.
  intros Hex Hagree Hm. destruct e; simpl.
  - by apply inv_request.
  - by apply inv_handle_connection.
  - unfold enroll_message. destruct (waiting m !! id) as [wt0|]; [|done]. destruct msg as [msg|]; [|done].
    destruct (Session.on_unadmitted _ _ _ _ _) as [s acts].
    assert (H1 : inv (set_session s m)) by (by eapply bframe_inv; [apply bframe_set_session|]).
    destruct acts; [by eapply (bframe_inv (set_session s m))|by apply inv_verdict].
  - unfold enroll_end. destruct (waiting m !! id) as [wt|]; [|done].
    destruct (Session.on_enroll_timeout _ _) as [s acts]. apply inv_verdict; [done|].
    by eapply bframe_inv; [apply bframe_set_session|].
  - unfold handle_uni_stream. destruct msg as [[ports| |token [v|]|]|]; try done.
    + destruct Hm. by apply update_ports_inv.
    + eapply bframe_inv; [by apply bframe_upd|done].
  - unfold Shell.with_object, Loop.run_connection. repeat case_match; try done.
    eapply bframe_inv; [apply bframe_send_to|done].
  - eapply bframe_inv; [by apply bframe_upd|done].
  - unfold Shell.with_object. case_match; [|done]. eapply bframe_inv; [apply bframe_dialed|done].
  - eapply bframe_inv; [apply bframe_close|done].
  - destruct Hm. split; [by apply bound_accept_failed|by apply announced_accept_failed].
Qed.

(** At the start nothing is bound, so surfaces are restored freely. *)
Definition quiet m : Prop := (∀ o, bindings_of o m = ∅) ∧ sockets m = ∅.

Lemma quiet_inv m : quiet m → inv m.
Proof.
  intros [Hb Hs]. split; [split|].
  - intros o port b. by rewrite Hb.
  - intros o o' port port' ip q. by rewrite Hb.
  - intros x. rewrite Hs. set_solver.
  - intros o port. rewrite Hb, lookup_empty. by intros [].
Qed.

Lemma bframe_quiet m m' : bframe m m' → quiet m → quiet m'.
Proof. intros [Hb _ _ Hs _] [Hq Hk]. split; [intros o; by rewrite Hb|by rewrite Hs]. Qed.

Lemma quiet_restore cfg m : quiet m → quiet (restore_surfaces cfg m).
Proof.
  unfold restore_surfaces. destruct (Surface.load _) as [l|]; [|done].
  revert m. induction l as [|r l IH]; intros m Hm; simpl; [done|]. apply IH.
  unfold restore_one. destruct (parse_key _) as [id|]; [|done].
  destruct (peers m !! id) as [o|]; [|done].
  pose proof (bframe_claim cfg (Surface.rec_ip r) (Surface.rec_name r) m) as Hf.
  destruct (claim_addr _ _ _ _) as [m2 [[]|]]; simpl in Hf; [|by eapply bframe_quiet].
  destruct (bframe_quiet _ _ Hf Hm) as [Hb Hs]. split; [|done]. intros o'.
  destruct (upd_surface_same o (Some (Surface.mkSurface (Surface.rec_ip r) (Surface.rec_name r)))
              m2 o') as [-> _]. apply Hb.
Qed.

Lemma quiet_start cfg texts ports f1 f2 ns m :
  Daemon.run cfg texts ports f1 f2 ns = Ok m → quiet m.
Proof.
  unfold Daemon.run, Daemon.with_endpoint. destruct (Pins.load f1) as [pinned|]; [|done].
  intros [= <-]. unfold Daemon.start_accepts.
  set (m0 := restore_surfaces cfg _).
  assert (H0 : quiet m0).
  { apply quiet_restore. eapply bframe_quiet.
    - apply bframe_foldl. intros. apply bframe_add_pinned.
    - split; [|done]. intros o. unfold bindings_of. simpl. by rewrite lookup_empty. }
  clearbody m0. eapply bframe_quiet; [|exact H0].
  etrans; [apply (bframe_foldl (λ m port, Daemon.expose port (Invite.handle_key <$>
     Daemon.accept_handles texts) m) ports); intros; apply bframe_expose|].
  set (m1 := foldl _ m0 ports).
  etrans; [apply (bframe_foldl (λ m h, (add_peer (Invite.handle_key h) None
     (Invite.handle_code h) m).1) (Daemon.accept_handles texts)); intros; apply bframe_add_peer|].
  case_match; [done|]. apply bframe_broadcast.
Qed.

Lemma inv_start cfg texts ports f1 f2 ns m :
  Daemon.run cfg texts ports f1 f2 ns = Ok m → inv m.
Proof. intros Hrun. by eapply quiet_inv, quiet_start. Qed.

Lemma inv_reachable cfg parse_ip m :
  exclusive cfg → Shell.reachable cfg parse_ip m → inv m.
Proof.
  intros Hex (texts & ports & f1 & f2 & ns & m0 & es & Hrun & ->).
  pose proof (agree_start _ _ _ _ _ _ _ Hrun) as Ha. apply inv_start in Hrun as Hm.
  clear Hrun. revert m0 Ha Hm. induction es as [|e es IH]; intros m0 Ha Hm; [done|].
  apply IH; [by apply agree_step|by apply inv_step].
Qed.

(** ** Binding what is announced *)

Lemma bind_missing_keeps cfg o ip ports m port b :
  is_Some (objects m !! o) → bindings_of o m !! port = Some b →
  bindings_of o (bind_missing cfg o ip ports m) !! port = Some b.
Proof.
  unfold bind_missing. revert m. induction ports as [|q ports IH]; intros m Ho Hb; simpl; [done|].
  destruct (bindings_of o m !! q) eqn:Hq; [by apply IH|].
  destruct (bind_one_same cfg o ip q m) as (_ & _ & Ho'). apply IH; [by apply Ho'|].
  destruct (bind_one_cases cfg o ip q m Ho) as [[-> _]|(b' & _ & Hb' & _)]; [done|].
  rewrite Hb', decide_True by done. rewrite lookup_insert_ne; [done|congruence].
Qed.

Lemma bind_missing_sockets cfg o ip ports m :
  is_Some (objects m !! o) → sockets m ⊆ sockets (bind_missing cfg o ip ports m).
Proof.
  unfold bind_missing. revert m. induction ports as [|q ports IH]; intros m Ho; simpl; [done|].
  destruct (bindings_of o m !! q) eqn:Hq; [by apply IH|].
  destruct (bind_one_same cfg o ip q m) as (_ & _ & Ho'). etrans; [|apply IH; by apply Ho'].
  destruct (bind_one_cases cfg o ip q m Ho) as [[-> _]|(b' & _ & _ & ->)]; [done|set_solver].
Qed.

(** A port that is left dark is one the system refused, at every attempt, while
    the process had some of the sockets it has in the end. *)
Definition dark (cfg : Config K) m m' (ip : IpAddr) (port : Z) : Prop :=
  (netstack m = None ∨ ∃ segs, ip = Surface.V6 segs) ∧
  ∃ held, sockets m ⊆ held ∧ held ⊆ sockets m' ∧ refused cfg held ip port.

(** What becomes of each port there is to bind. *)
Lemma bind_missing_outcome cfg o ip ports m port :
  is_Some (objects m !! o) → port ∈ ports → bindings_of o m !! port = None →
  let m' := bind_missing cfg o ip ports m in
  match bindings_of o m' !! port with
  | Some b => b ≠ Finished
  | None => dark cfg m m' ip port
  end.
Proof.
  unfold bind_missing. revert m.
  induction ports as [|q ports IH]; intros m Ho Hin Hnone; [by apply elem_of_nil in Hin|].
  cbn [foldl]. destruct (bindings_of o m !! q) as [b|] eqn:Hq.
  { apply elem_of_cons in Hin as [->|Hin]; [congruence|by apply IH]. }
  destruct (bind_one_same cfg o ip q m) as (_ & _ & Ho').
  assert (Ho1 : is_Some (objects (bind_one cfg o ip q m) !! o)) by by apply Ho'.
  pose proof (bind_missing_keeps cfg o ip ports (bind_one cfg o ip q m) port) as Hkeep.
  pose proof (bind_missing_sockets cfg o ip ports (bind_one cfg o ip q m) Ho1) as Hsub.
  unfold bind_missing in Hkeep, Hsub.
  destruct (bind_one_cases cfg o ip q m Ho) as [(Heq & Href & Hns)|(b & Hfb & Hb & Hk)].
  - destruct (decide (port ∈ ports)) as [Hin'|Hout]; [rewrite Heq; by apply IH|].
    apply elem_of_cons in Hin as [->|?]; [|done].
    rewrite Heq in *. set (m' := foldl _ m ports) in *.
    destruct (bindings_of o m' !! q) as [b|] eqn:Hlast.
    + destruct (bind_missing_keys cfg o ip ports m o q Ho) as [[? ?]|[_ ?]]; [by eexists|congruence|done].
    + split; [done|]. by exists (sockets m).
  - destruct (decide (port = q)) as [->|Hne].
    + rewrite (Hkeep b Ho1); [by destruct b|]. by rewrite Hb, decide_True, lookup_insert_eq.
    + apply elem_of_cons in Hin as [->|Hin]; [done|].
      specialize (IH (bind_one cfg o ip q m) Ho1 Hin). rewrite Hb, decide_True in IH by done.
      rewrite lookup_insert_ne in IH by done. specialize (IH Hnone). cbv zeta in IH.
      set (m' := foldl _ _ ports) in *. destruct (bindings_of o m' !! port); [done|].
      destruct IH as (Hns & held & H1 & H2 & H3).
      pose proof (frame_netstack _ _ (frame_bind_one cfg o ip q m)) as Hn.
      split.
      * destruct Hns as [Hns|?]; [left|by right]. apply eq_None_not_Some. rewrite <- Hn, Hns. by intros [].
      * exists held. split_and!; [|done..]. set_solver.
Qed.

(** What an operation that is to bind [port] at [ip] leaves: a binding that
    works, or none because the system refused every attempt, while the process had
    no socket it does not have in the end. *)
Definition bound_or_refused (cfg : Config K) m' o (ip : IpAddr) (port : Z) : Prop :=
  match bindings_of o m' !! port with
  | Some (Listener ip' q) => ip' = ip ∧ (port ≠ 0%Z → q = port) ∧ (ip', q) ∈ sockets m'
  | Some Finished => False
  | Some TunPlaceholder => is_Some (netstack m') ∧ ∃ w x y z, ip = Surface.V4 w x y z
  | None => (netstack m' = None ∨ ∃ segs, ip = Surface.V6 segs) ∧
            ∃ held, held ⊆ sockets m' ∧ refused cfg held ip port
  end.

Lemma bound_or_refused_intro cfg m m' o s port :
  bound m' → surface_of o m' = Some s → (is_Some (netstack m') ↔ is_Some (netstack m)) →
  match bindings_of o m' !! port with
  | Some b => b ≠ Finished
  | None => dark cfg m m' (Surface.ip s) port
  end →
  bound_or_refused cfg m' o (Surface.ip s) port.
Proof.
  intros Hm Hs Hn. unfold bound_or_refused. destruct (bindings_of o m' !! port) as [b|] eqn:Hb.
  - destruct (bound_place _ Hm _ _ _ Hb) as (s' & Hs' & Hpl). rewrite Hs in Hs'.
    injection Hs' as <-. by destruct b.
  - intros (Hns & held & _ & Hsub & Href). split; [|by exists held].
    destruct Hns as [Hns|?]; [left|by right]. apply eq_None_not_Some. rewrite Hn, Hns. by intros [].
Qed.

(** Only a failed accept ends a listener. *)
Definition ends_none m m' : Prop :=
  ∀ o port, bindings_of o m' !! port = Some Finished → bindings_of o m !! port = Some Finished.

#[export] Instance ends_none_preorder : PreOrder ends_none.
Proof. split; [by intros m o port|]. intros m1 m2 m3 H1 H2 o port Hp. by apply H1, H2. Qed.

Lemma ends_none_bframe m m' : bframe m m' → ends_none m m'.
Proof. intros Hf o port. by rewrite (bframe_bindings _ _ Hf). Qed.

Lemma ends_none_surface o x m : ends_none m (upd o (put_surface x) m).
Proof. intros o' port. by destruct (upd_surface_same o x m o') as [-> _]. Qed.

Lemma ends_none_exposed o x m : ends_none m (upd o (put_exposed x) m).
Proof. intros o' port. by rewrite bindings_of_put_exposed. Qed.

Lemma ends_none_release o port m : ends_none m (release_binding o port m).
Proof.
  intros o' q. rewrite release_bindings. case_decide; [subst|done]. by intros [_ ?]%lookup_delete_Some.
Qed.

Lemma ends_none_bind_one cfg o ip port m : ends_none m (bind_one cfg o ip port m).
Proof.
  destruct (objects m !! o) as [p|] eqn:Ho.
  2: { intros o' q. unfold bind_one, put_binding. repeat case_match; try done;
         rewrite bindings_of_upd; (case_decide; [subst; simpl; by rewrite Ho|done]). }
  assert (Hobj : is_Some (objects m !! o)) by by eexists.
  intros o' q. destruct (bind_one_cases cfg o ip port m Hobj) as [[-> _]|(b & Hb & -> & _)]; [done|].
  case_decide; [subst|done]. intros [[_ ->]|[_ ?]]%lookup_insert_Some; done.
Qed.

Lemma ends_none_update_ports cfg o ports m : ends_none m (update_peer_ports cfg o ports m).
Proof.
  unfold update_peer_ports. set (m1 := foldl _ m _).
  assert (H1 : ends_none m m1).
  { unfold m1. generalize (exposed_of o m) as old. clear m1. intros old.
    revert m. induction old as [|q old IH]; intros m; simpl; [done|].
    etrans; [|apply IH]. case_decide; [done|apply ends_none_release]. }
  clearbody m1. pose proof (surface_ip_facts cfg o ports m1) as Hsi.
  destruct (surface_ip cfg o ports m1) as [m2 [ip|]]; destruct Hsi as (Hb2 & _ & _ & Hr).
  - assert (H2 : ends_none m1 m2) by (intros o' q; by rewrite Hb2).
    etrans; [|apply ends_none_exposed].
    etrans; [exact H1|]. etrans; [exact H2|]. clear -EKL DML. unfold bind_missing.
    revert m2. induction ports as [|q ports IH]; intros m2; [done|]. simpl.
    etrans; [|apply IH]. destruct (bindings_of o m2 !! q); [done|apply ends_none_bind_one].
  - etrans; [|apply ends_none_exposed]. etrans; [exact H1|]. intros o' q. by rewrite Hb2.
Qed.

(** ** Evicting *)

Lemma close_closed c reason m c' :
  is_Some (closed m !! cid c') → closed (close c reason m) !! cid c' = closed m !! cid c'.
Proof.
  intros [r Hr]. unfold close. destruct (closed m !! cid c) eqn:Hc; [done|]. simpl.
  rewrite lookup_insert_ne; [done|]. intros Heq. congruence.
Qed.

Lemma release_closed o port m : closed (release_binding o port m) = closed m.
Proof.
  unfold release_binding. set (m1 := match bindings_of o m !! port with Some _ => _ | None => m end).
  assert (closed m1 = closed m) as <- by (unfold m1; destruct (_ !! port) as [[]|]; done).
  by repeat case_match.
Qed.

Lemma release_all_closed o ports m : closed (release_all o ports m) = closed m.
Proof.
  unfold release_all. revert m. induction ports as [|q ports IH]; intros m; simpl; [done|].
  by rewrite IH, release_closed.
Qed.

Lemma unclaim_closed cfg ip m : closed (unclaim_addr cfg ip m).1 = closed m.
Proof. unfold unclaim_addr. by repeat case_match. Qed.

(** The object after [evict] took it out. *)
Lemma evict_object_facts cfg o reason m :
  is_Some (objects m !! o) →
  let m' := evict_object cfg o reason m in
  bindings_of o m' = ∅ ∧ surface_of o m' = None ∧
  (∀ o', o' ≠ o → bindings_of o' m' = bindings_of o' m ∧ surface_of o' m' = surface_of o' m) ∧
  (∀ c, conn_of o m = Some c →
     closed m' !! cid c = Some (default reason (closed m !! cid c))).
Proof.
  intros [p Hp]. unfold evict_object.
  set (m2 := upd o (put_notified true) (upd o (put_removed true) m)).
  set (m3 := match objects m2 !! o with Some _ => _ | None => m2 end).
  assert (H2 : bframe m m2).
  { unfold m2. etrans; by apply bframe_upd. }
  assert (H3 : bframe m m3 ∧ ∀ c, conn_of o m = Some c →
             closed m3 !! cid c = Some (default reason (closed m !! cid c))).
  { unfold m3. assert (Hp2 : objects m2 !! o = Some (put_notified true (put_removed true p))).
    { unfold m2. by rewrite !objects_upd, !decide_True, Hp by done. }
    rewrite Hp2. unfold conn_of. rewrite Hp. simpl.
    destruct (Dial.connection (slot p)) as [c|]; [|split; [done|naive_solver]].
    split.
    - etrans; [exact H2|]. etrans; [|apply bframe_close]. by apply bframe_upd.
    - intros c' [= <-]. unfold close. simpl.
      destruct (closed m !! cid c) as [r|] eqn:Hc; [exact Hc|]. simpl.
      by rewrite lookup_insert_eq. }
  clearbody m3. destruct H3 as [H3 Hclosed]. set (m4 := release_all _ _ m3).
  assert (H4 : bindings_of o m4 = ∅) by apply release_held.
  assert (H4' : ∀ o', o' ≠ o → bindings_of o' m4 = bindings_of o' m ∧
                                surface_of o' m4 = surface_of o' m).
  { intros o' Hne. unfold m4. rewrite release_all_bindings, decide_False by done.
    destruct (release_all_same o (held_ports o m3) m3) as [-> _].
    by rewrite (bframe_bindings _ _ H3), (bframe_surface _ _ H3). }
  assert (H4c : closed m4 = closed m3) by apply release_all_closed.
  destruct (surface_of o m4) as [s|] eqn:Hs4; [|by rewrite H4c].
  pose proof (bframe_unclaim cfg (Surface.ip s) (upd o (put_surface None) m4)) as Hf.
  rewrite !(bframe_bindings _ _ Hf), !(bframe_surface _ _ Hf).
  destruct (upd_surface_same o None m4 o) as [-> _]. split_and!; [done|..].
  - rewrite surface_of_upd, decide_True by done. by destruct (objects m4 !! o).
  - intros o' Hne. rewrite (bframe_bindings _ _ Hf), (bframe_surface _ _ Hf).
    destruct (upd_surface_same o None m4 o') as [-> _]. rewrite surface_of_upd, decide_False by done.
    by apply H4'.
  - intros c Hc. rewrite unclaim_closed. simpl. rewrite H4c. by apply Hclosed.
Qed.
End bindings.

(** The toy system hands out no socket twice. *)
Lemma toy_exclusive : exclusive Shell.Toy.config.
Proof.
  intros held n ip port q. simpl. unfold Shell.Toy.tcp_bind. case_decide as H0.
  - intros [= <-]. split; [|done]. intros Hin. set (X := set_map (C:=gset (IpAddr * Z)) (D:=gset Z) snd held) in *.
    apply (is_fresh X). apply elem_of_map. by exists (ip, fresh X).
  - case_decide; [done|]. by intros [= <-].
Qed.
