(* ===== verification/BindingProps.v ===== *)
(** * Bindings: properties

    What the invariants of [Bindings.v] say of every reachable state, what a
    port announcement binds, and what forgetting a peer tears down; and two
    things the invariants allow: a listener that ended stays dark for good, and
    a peer that is gone can keep a hold. *)

From S2P Require Import Prelude RustStr Keys Grants Dial Invite Store Enroll Protocol Session Surface Resolver Netstack Tunnel Peer PeerFacts PeerLoop Daemon Shell Bindings.
Import Peers.

(** ** Lemmas on forgetting *)
Section forget_lemmas.
Context {K : Type} `{EKL : EndpointKeyLaws K} `{DML : DashMapLaws}.
Context `{!JsonCodec Pins.Pin} `{!JsonCodec Surface.SurfaceRecord}.
Implicit Types (m : PeerManager K) (p : Peer K) (o : ObjId) (k : K) (c : Conn K).

(** What the connection loop looks at. *)
Definition flags p : bool * bool * bool * option (Conn K) :=
  (removed p, notified p, dial p, Dial.connection (slot p)).

Lemma release_flags o port m o' :
  flags <$> objects (release_binding o port m) !! o' = flags <$> objects m !! o'.
Proof.
  unfold release_binding. set (m1 := match bindings_of o m !! port with Some _ => _ | None => m end).
  assert (flags <$> objects m1 !! o' = flags <$> objects m !! o') as <-.
  { unfold m1. destruct (bindings_of o m !! port) as [b|]; [|done].
    trans (flags <$> objects (upd o (λ p, put_bindings (delete port (bindings p)) p) m) !! o');
      [by destruct b|]. rewrite objects_upd. case_decide; [subst|done].
    by destruct (objects m !! o). }
  by repeat case_match.
Qed.

Lemma release_all_flags o ports m o' :
  flags <$> objects (release_all o ports m) !! o' = flags <$> objects m !! o'.
Proof.
  unfold release_all. revert m. induction ports as [|q ports IH]; intros m; simpl; [done|].
  by rewrite IH, release_flags.
Qed.

Lemma release_all_files o ports m :
  pins (release_all o ports m) = pins m ∧ surfaces (release_all o ports m) = surfaces m.
Proof.
  unfold release_all. revert m. induction ports as [|q ports IH]; intros m; simpl; [done|].
  destruct (IH (release_binding o q m)) as [-> ->]. unfold release_binding.
  repeat case_match; done.
Qed.

Lemma unclaim_objects cfg ip m :
  objects (unclaim_addr cfg ip m).1 = objects m ∧ pins (unclaim_addr cfg ip m).1 = pins m ∧
  surfaces (unclaim_addr cfg ip m).1 = surfaces m.
Proof. unfold unclaim_addr. by repeat case_match. Qed.

(** After [evict] the loop of the object finds it removed, without a
    connection and with a permit to wake it. *)
Lemma evict_object_flags cfg o reason m p :
  objects m !! o = Some p →
  flags <$> objects (evict_object cfg o reason m) !! o = Some (true, true, dial p, None) ∧
  pins (evict_object cfg o reason m) = pins m ∧
  surfaces (evict_object cfg o reason m) = surfaces m.
Proof.
  intros Hp. unfold evict_object.
  set (m2 := upd o (put_notified true) (upd o (put_removed true) m)).
  assert (Hp2 : objects m2 !! o = Some (put_notified true (put_removed true p))).
  { unfold m2. by rewrite !objects_upd, !decide_True, Hp by done. }
  rewrite Hp2. set (m3 := match Dial.connection _ with Some _ => _ | None => m2 end).
  assert (H3 : flags <$> objects m3 !! o = Some (true, true, dial p, None) ∧
               pins m3 = pins m ∧ surfaces m3 = surfaces m).
  { unfold m3. simpl. destruct (Dial.connection (slot p)) as [c|] eqn:Hc.
    - assert (Hobj : objects (close c reason (upd o (put_slot (Dial.mkSlot None
                (Dial.conn_dialed_by_us (slot p)))) m2)) !! o =
              Some (put_slot (Dial.mkSlot None (Dial.conn_dialed_by_us (slot p)))
                      (put_notified true (put_removed true p)))).
      { trans (objects (upd o (put_slot (Dial.mkSlot None
                (Dial.conn_dialed_by_us (slot p)))) m2) !! o);
          [unfold close; by case_match|]. by rewrite objects_upd, decide_True, Hp2. }
      rewrite Hobj. split; [done|]. unfold close. by case_match.
    - rewrite Hp2. unfold flags. simpl. by rewrite Hc. }
  clearbody m3. destruct H3 as (H3 & Hpins & Hsurf).
  set (m4 := release_all _ _ m3).
  assert (H4 : flags <$> objects m4 !! o = Some (true, true, dial p, None) ∧
               pins m4 = pins m ∧ surfaces m4 = surfaces m).
  { unfold m4. rewrite release_all_flags.
    destruct (release_all_files o (held_ports o m3) m3) as [-> ->]. done. }
  clearbody m4. destruct (surface_of o m4) as [s|]; [|done].
  destruct (unclaim_objects cfg (Surface.ip s) (upd o (put_surface None) m4)) as (-> & -> & ->).
  destruct H4 as (H4 & ? & ?). split; [|done]. rewrite objects_upd, decide_True by done.
  destruct (objects m4 !! o); exact H4.
Qed.

(** Removing a record from a file that can be written. *)
Lemma store_remove_load {R} `{JsonCodecLaws R} (rkey : R → string) key (f : Store.File) l :
  Store.load f = Ok l → Store.working f →
  Store.load (Store.remove rkey key f).1 = Ok (filter (λ r, rkey r ≠ key) l).
Proof.
  intros Hl Hw. unfold Store.remove. rewrite Hl.
  destruct (load_save (filter (λ r, rkey r ≠ key) l) f Hw) as (f' & Hsave & _ & Hload).
  unfold Store.retain_other. by rewrite Hsave.
Qed.

(** What is left of the sockets when one object loses all its bindings. *)
Lemma sockets_without o m m' :
  bound m → bound m' → bindings_of o m' = ∅ →
  (∀ o', o' ≠ o → bindings_of o' m' = bindings_of o' m) →
  ∀ ip q, (ip, q) ∈ sockets m' ↔
    (ip, q) ∈ sockets m ∧ ∀ port, bindings_of o m !! port ≠ Some (Listener ip q).
Proof.
  intros [Hpl Hu Hso] [Hpl' Hu' Hso'] Hb Hother ip q. split.
  - intros Hin. destruct (Hso' _ Hin) as (o' & port' & Ho'). simpl in Ho'.
    assert (Hne : o' ≠ o) by (intros ->; by rewrite Hb in Ho').
    rewrite Hother in Ho' by done. split.
    + by destruct (Hpl _ _ _ Ho') as (s & _ & _ & _ & ?).
    + intros port Hmine. by destruct (Hu _ _ _ _ _ _ Ho' Hmine).
  - intros [Hin Hnot]. destruct (Hso _ Hin) as (o' & port' & Ho'). simpl in Ho'.
    assert (Hne : o' ≠ o) by (intros ->; by eapply Hnot).
    rewrite <- Hother in Ho' by done.
    by destruct (Hpl' _ _ _ Ho') as (s' & _ & _ & _ & ?).
Qed.

(** The bindings of the others do not change. *)
Lemma bind_missing_others (cfg : Config K) o ip ports m o' :
  is_Some (objects m !! o) → o' ≠ o →
  bindings_of o' (bind_missing cfg o ip ports m) = bindings_of o' m.
Proof.
  intros Ho Hne. unfold bind_missing. revert m Ho.
  induction ports as [|q ports IH]; intros m Ho; simpl; [done|].
  destruct (bindings_of o m !! q); [by apply IH|].
  destruct (bind_one_same cfg o ip q m) as (_ & _ & Ho'). rewrite IH by by apply Ho'.
  destruct (bind_one_cases cfg o ip q m Ho) as [[-> _]|(b & _ & -> & _)]; [done|].
  by rewrite decide_False.
Qed.

(** An announcement of a projected peer: what is announced is listed and no
    surface moves; what is no longer announced is released; what is bound stays as
    it is, and the other ports are bound or refused. *)
Lemma update_ports_outcome (cfg : Config K) o (s : Surface) ports m :
  surface_of o m = Some s →
  let m' := update_peer_ports cfg o ports m in
  exposed_of o m' = ports ∧ (∀ o', surface_of o' m' = surface_of o' m) ∧
  (∀ o', o' ≠ o → bindings_of o' m' = bindings_of o' m) ∧
  ∀ port, port ∈ ports →
    match bindings_of o m !! port with
    | Some b => bindings_of o m' !! port = Some b
    | None => bound m' → bound_or_refused cfg m' o (Surface.ip s) port
    end.
Proof.
  intros Hs. simpl. unfold update_peer_ports.
  assert (Hobj : is_Some (objects m !! o)).
  { unfold surface_of in Hs. destruct (objects m !! o); [by eexists|done]. }
  fold (release_stale o ports (exposed_of o m) m).
  destruct (release_stale_facts o ports (exposed_of o m) m) as (Hb1 & Hs1 & _ & _).
  assert (Hf1 : frame m (release_stale o ports (exposed_of o m) m)).
  { apply frame_foldl. intros. case_decide; [done|]. apply frame_release. }
  set (m1 := release_stale _ _ _ m) in *.
  assert (Hobj1 : is_Some (objects m1 !! o)) by (by apply (is_Some_objects_frame m)).
  assert (Hsi : surface_ip cfg o ports m1 = (m1, Some (Surface.ip s))).
  { pose proof (Hs1 o) as Hs1o. rewrite Hs in Hs1o. unfold surface_ip. unfold surface_of in Hs1o.
    destruct (objects m1 !! o) as [p|]; [|done]. simpl in Hs1o. by rewrite Hs1o. }
  rewrite Hsi. destruct (bind_missing_same cfg o (Surface.ip s) ports m1) as (Hs2 & _ & Ho2).
  split_and!.
  - rewrite exposed_of_put, decide_True; [done|]. split; [done|]. by apply Ho2.
  - intros o'. rewrite <- Hs1, <- Hs2, surface_of_upd. unfold surface_of.
    case_decide; [subst|done]. by destruct (objects (bind_missing _ _ _ _ _) !! o).
  - intros o' Hne. rewrite bindings_of_put_exposed, bind_missing_others by done.
    apply map_eq. intros port. rewrite Hb1, decide_False; [done|naive_solver].
  - intros port Hin. rewrite bindings_of_put_exposed.
    assert (Hb1p : bindings_of o m1 !! port = bindings_of o m !! port).
    { rewrite Hb1, decide_False; [done|naive_solver]. }
    destruct (bindings_of o m !! port) as [b|]; [by apply bind_missing_keeps|].
    pose proof (bind_missing_outcome cfg o (Surface.ip s) ports m1 port Hobj1 Hin Hb1p) as Hout.
    pose proof (frame_netstack _ _ (frame_bind_missing cfg o (Surface.ip s) ports m1)) as Hn.
    set (m2 := bind_missing _ _ _ _ _) in *. intros Hm'.
    apply (bound_or_refused_intro cfg m1); [done| |done|].
    + rewrite <- Hs, <- Hs1, <- Hs2, surface_of_upd, decide_True by done. unfold surface_of.
      by destruct (objects m2 !! o).
    + by rewrite bindings_of_put_exposed.
Qed.

(** Whatever is announced, a port that is bound and announced again stays bound
    as it is, by a task that ended too. *)
Lemma update_ports_keeps (cfg : Config K) o ports m port b :
  bindings_of o m !! port = Some b → port ∈ ports →
  bindings_of o (update_peer_ports cfg o ports m) !! port = Some b.
Proof.
  intros Hb Hin. unfold update_peer_ports. fold (release_stale o ports (exposed_of o m) m).
  destruct (release_stale_facts o ports (exposed_of o m) m) as (Hb1 & _).
  set (m1 := release_stale _ _ _ m) in *.
  assert (Hb1p : bindings_of o m1 !! port = Some b).
  { rewrite Hb1, decide_False; [done|naive_solver]. }
  pose proof (surface_ip_facts cfg o ports m1) as Hsi.
  destruct (surface_ip cfg o ports m1) as [m2 [ip|]]; destruct Hsi as (Hb2 & _ & _ & Hr);
    rewrite bindings_of_put_exposed; [apply bind_missing_keeps; [by destruct (Hr ip eq_refl)|]|];
    by rewrite Hb2.
Qed.

End forget_lemmas.

Section binding_properties.
Context {K : Type} `{EKL : EndpointKeyLaws K} `{DML : DashMapLaws}.
Context `{!JsonCodec Pins.Pin} `{!JsonCodec Surface.SurfaceRecord}.

(** The bindings follow the surfaces.  Where the system does not hand
    out a socket twice, in every state a daemon can reach and for every peer
    object: a port is bound only if the peer announced it and has a surface,
    at that surface's address, on a socket the process listens on (or with the
    TUN backend on, at an IPv4 surface, or by a task that ended); no socket
    serves two bindings; and every socket the process listens on serves one, so
    none leaks. *)
Theorem bindings_follow_surfaces (cfg : Config K) (parse_ip : string → option IpAddr)
    (m : PeerManager K) :
  exclusive cfg → Shell.reachable cfg parse_ip m →
  (∀ o port b, bindings_of o m !! port = Some b →
     port ∈ exposed_of o m ∧
     ∃ s, surface_of o m = Some s ∧
          match b with
          | Listener ip q => ip = Surface.ip s ∧ (port ≠ 0%Z → q = port) ∧ (ip, q) ∈ sockets m
          | Finished => True
          | TunPlaceholder => is_Some (netstack m) ∧
                              ∃ x y z w, Surface.ip s = Surface.V4 x y z w
          end) ∧
  (∀ ip q, (ip, q) ∈ sockets m →
     ∃ o port, bindings_of o m !! port = Some (Listener ip q) ∧
          ∀ o' port', bindings_of o' m !! port' = Some (Listener ip q) →
                      o' = o ∧ port' = port).
Proof.
  intros Hex Hm. destruct (inv_reachable cfg parse_ip m Hex Hm) as [[Hp Hu Hs] Ha].
  split.
  - intros o port b Hb. split; [apply Ha; by eexists|]. exact (Hp _ _ _ Hb).
  - intros ip q Hin. destruct (Hs _ Hin) as (o & port & Hb). exists o, port. split; [done|].
    intros o' port' Hb'. by destruct (Hu _ _ _ _ _ _ Hb Hb') as [-> ->].
Qed.

(** C9: An announcement is what gets bound.  In every reachable state, when
    a peer with a surface announces its ports, afterwards exactly those are
    listed, what it no longer announces is released, and nothing of another peer
    changes.  Of the announced ports, one that was bound keeps its binding, and
    with it a task that ended when an accept failed.  Any other is bound afresh at
    the surface, on a socket the process listens on or with the TUN backend; or
    it stays dark, and then every attempt to bind it was refused by the system,
    while the process had no socket that it does not have in the end. *)
Theorem announcement_binds_exactly (cfg : Config K) (parse_ip : string → option IpAddr)
    (m : PeerManager K) (o : ObjId) (s : Surface) (ports : list Z) :
  exclusive cfg → Shell.reachable cfg parse_ip m → surface_of o m = Some s →
  let m' := update_peer_ports cfg o ports m in
  exposed_of o m' = ports ∧
  (∀ o', o' ≠ o → bindings_of o' m' = bindings_of o' m) ∧
  ∀ port,
    if decide (port ∈ ports)
    then match bindings_of o m !! port with
         | Some b => bindings_of o m' !! port = Some b
         | None => bound_or_refused cfg m' o (Surface.ip s) port
         end
    else bindings_of o m' !! port = None.
Proof.
  intros Hex Hreach Hs m'.
  destruct (inv_reachable cfg parse_ip m Hex Hreach) as [Hm Ha].
  destruct (update_ports_inv cfg o ports m Hex Hm Ha) as [Hm' Ha']. fold m' in Hm', Ha'.
  destruct (update_ports_outcome cfg o s ports m Hs) as (Hexp & _ & Hoth & Hall).
  fold m' in Hexp, Hoth, Hall. split_and!; [done..|]. intros port. case_decide as Hin.
  - specialize (Hall port Hin). destruct (bindings_of o m !! port) as [b|]; auto.
  - apply eq_None_not_Some. intros Hb. apply Hin. rewrite <- Hexp. by apply Ha'.
Qed.

(** A failed accept is final.  When the listener of a bound port ends, its
    socket is closed and the port stays among the bound ones, so that no
    announcement that names it again binds it anew, however many there are: it is
    dark, and listed as bound, until the peer announces without it. *)
Theorem failed_accept_is_final (cfg : Config K) (m : PeerManager K) (o : ObjId) (port : Z)
    (ip : IpAddr) (q : Z) (announcements : list (list Z)) :
  bound m → bindings_of o m !! port = Some (Listener ip q) →
  Forall (λ ports, port ∈ ports) announcements →
  let m1 := accept_failed o port m in
  let m' := foldl (λ m ports, update_peer_ports cfg o ports m) m1 announcements in
  (ip, q) ∉ sockets m1 ∧ bindings_of o m' !! port = Some Finished ∧ port ∈ held_ports o m'.
Proof.
  intros Hm Hb Hann m1 m'.
  assert (H1 : bindings_of o m1 !! port = Some Finished ∧ (ip, q) ∉ sockets m1).
  { unfold m1. destruct (accept_failed_cases o port m) as [Heq|(ip' & q' & Hl & Hb' & _ & _ & Hk & _)].
    - exfalso. assert (Hk : sockets (accept_failed o port m) = sockets m ∖ {[(ip, q)]}).
      { unfold accept_failed. by rewrite Hb. }
      rewrite Heq in Hk. destruct (bound_place _ Hm _ _ _ Hb) as (s & _ & _ & _ & Hin). set_solver.
    - rewrite Hb in Hl. injection Hl as <- <-.
      rewrite Hb', decide_True, lookup_insert_eq, Hk by done. split; [done|set_solver]. }
  destruct H1 as [H1 Hsock].
  assert (Hend : bindings_of o m' !! port = Some Finished).
  { unfold m'. clear -H1 Hann EKL DML. clearbody m1. revert m1 H1.
    induction Hann as [|ports anns Hin _ IH]; intros m1 H1; [done|]. simpl.
    apply IH. by apply update_ports_keeps. }
  split_and!; [done..|]. rewrite elem_of_held_ports. by eexists.
Qed.

(** C11: Forgetting tears everything down.  In every reachable state, [forget] of
    a known peer (with record files that can be read and written) succeeds and
    afterwards the peer is unknown and not admitted, is served no port, and
    its records of pin and surface are gone; its object has no binding, no
    surface and no connection, is marked removed with its loop woken, and its
    connection is closed; exactly the sockets that served it are closed; and
    every other peer keeps its object and its bindings. *)
Theorem forgetting_tears_everything_down `{!JsonCodecLaws Pins.Pin}
    `{!JsonCodecLaws Surface.SurfaceRecord} (cfg : Config K) (parse_ip : string → option IpAddr)
    (m : PeerManager K) (ref : string) (k : K) (o : ObjId)
    (ps : list Pins.Pin) (rs : list Surface.SurfaceRecord) :
  exclusive cfg → Shell.reachable cfg parse_ip m →
  resolve_peer ref m = Some k → peers m !! k = Some o →
  Pins.load (pins m) = Ok ps → Store.working (pins m) →
  Surface.load (surfaces m) = Ok rs → Store.working (surfaces m) →
  let '(m', r) := remove_peer cfg ref m in
  r = Ok tt ∧ peers m' = delete k (peers m) ∧
  Session.admission_of k (session m') = None ∧
  (∀ port, Session.on_tunnel k port (session m') = Session.RejectTunnel Session.NotGranted) ∧
  Pins.load (pins m') = Ok (filter (λ r, Pins.key r ≠ to_string k) ps) ∧
  Surface.load (surfaces m') = Ok (filter (λ r, Surface.rec_key r ≠ to_string k) rs) ∧
  bindings_of o m' = ∅ ∧ surface_of o m' = None ∧
  (∃ p, objects m' !! o = Some p ∧ removed p = true ∧ notified p = true ∧
        Dial.connection (slot p) = None) ∧
  (∀ c, conn_of o m = Some c → closed m' !! cid c = Some (default "removed" (closed m !! cid c))) ∧
  (∀ ip q, (ip, q) ∈ sockets m' ↔
     (ip, q) ∈ sockets m ∧ ∀ port, bindings_of o m !! port ≠ Some (Listener ip q)) ∧
  (∀ o', o' ≠ o → bindings_of o' m' = bindings_of o' m).
Proof.
  intros Hex Hreach Href Ho Hps Hpw Hrs Hrw.
  pose proof (inv_reachable cfg parse_ip m Hex Hreach) as Hinv.
  pose proof (agree_reachable cfg parse_ip m Hreach) as Hagree.
  pose proof (inv_evict cfg k "removed" m Hinv) as Hinv'.
  destruct (Shell.agree_objects _ Hagree _ _ Ho) as (p & Hp & _).
  assert (Hadm : ∃ a, Session.peers (session m) !! k = Some a).
  { destruct (proj1 (Shell.agree_keys _ Hagree k)) as [a Ha]; [by eexists|by exists a]. }
  destruct Hadm as [a Ha].
  unfold remove_peer. rewrite Href, Ho. revert Hinv'. unfold evict. rewrite Ho.
  set (m0 := set_peers (delete k (peers m)) m).
  destruct (evict_object_facts cfg o "removed" m0) as (Hb & Hs & Hother & Hclosed); [by eexists|].
  destruct (evict_object_flags cfg o "removed" m0 p Hp) as (Hflags & Hpins & Hsurfs).
  destruct (evict_object_frame cfg o "removed" m0) as [Hfp Hfs _ _ _ _ _].
  set (m1 := evict_object cfg o "removed" m0) in *. clearbody m1.
  simpl in Hfp, Hfs. unfold Session.evict. rewrite Hfs, Ha. simpl. intros Hinv'.
  split_and!; try done.
  - unfold Session.admission_of. simpl. by rewrite lookup_delete_eq.
  - intros port. unfold Session.on_tunnel. simpl.
    assert (Grants.allows port k (Grants.revoke_grantee k (Session.grants (session m))) = false)
      as ->; [|done].
    apply not_true_iff_false. rewrite allows_revoke. naive_solver.
  - unfold Pins.load, Pins.remove in *. rewrite Hpins. by apply store_remove_load.
  - unfold Surface.load, Surface.remove in *. rewrite Hsurfs. by apply store_remove_load.
  - unfold flags in Hflags. destruct (objects m1 !! o) as [p'|]; [|done].
    simpl in Hflags. injection Hflags as H1 H2 H3 H4. by exists p'.
  - destruct Hinv as [Hbd _], Hinv' as [Hbd' _]. apply (sockets_without o m _ Hbd Hbd' Hb).
    intros o' Hne. by apply Hother.
  - intros o' Hne. by apply Hother.
Qed.

End binding_properties.

(** ** Concrete inputs *)
Section binding_witnesses.
Import Shell.

(** Peer 7, accepted at the start, calls and announces port 3000. *)
Definition announcing : list (Event (K:=N)) :=
  [EvConnection (mkConn 100%N 7%N); EvUni 0%N (Some (Protocol.ExposedPorts [3000%Z]))].

Definition announced_state : PeerManager N :=
  foldl (step Toy.config Toy.parse_ip) Toy.start announcing.

Definition first_surface : Surface :=
  Surface.mkSurface (Surface.V4 127 0 1 2) (Some "7").

Lemma bindings_follow_surfaces_witness :
  ∃ o port, bindings_of o announced_state !! port =
       Some (Listener (Surface.V4 127 0 1 2) 3000%Z).
Proof.
  destruct (bindings_follow_surfaces Toy.config Toy.parse_ip announced_state toy_exclusive
              (Toy.start_reachable announcing)) as [_ H].
  destruct (H (Surface.V4 127 0 1 2) 3000%Z) as (o & port & Ho & _); [|by exists o, port].
  apply (bool_decide_unpack _). by vm_compute.
Defined.

(** It announces 4000 and 5000 instead. *)
Lemma announcement_binds_exactly_witness :
  let m' := update_peer_ports Toy.config 0%N [4000%Z; 5000%Z] announced_state in
  bindings_of 0%N m' !! 3000%Z = None ∧ (Surface.V4 127 0 1 2, 4000%Z) ∈ sockets m'.
Proof.
  intros m'.
  destruct (announcement_binds_exactly Toy.config Toy.parse_ip announced_state 0%N first_surface
    [4000%Z; 5000%Z] toy_exclusive (Toy.start_reachable announcing)
    ltac:(by vm_compute)) as (_ & _ & Hb). fold m' in Hb.
  split; [exact (Hb 3000%Z)|].
  pose proof (Hb 4000%Z) as H. rewrite decide_True in H by (apply (bool_decide_unpack _); by vm_compute).
  assert (Hold : bindings_of 0%N announced_state !! 4000%Z = None) by (by vm_compute).
  assert (Hnew : bindings_of 0%N m' !! 4000%Z = Some (Listener (Surface.V4 127 0 1 2) 4000%Z))
    by (by vm_compute).
  rewrite Hold in H. unfold bound_or_refused in H. rewrite Hnew in H. apply H.
Defined.

(** Peer 7's listener on 3000 ends; the port is announced twice more. *)
Lemma failed_accept_is_final_witness :
  let m' := foldl (λ m ports, update_peer_ports Toy.config 0%N ports m)
              (accept_failed 0%N 3000%Z announced_state) [[3000%Z]; [3000%Z; 4000%Z]] in
  bindings_of 0%N m' !! 3000%Z = Some Finished ∧ 3000%Z ∈ held_ports 0%N m'.
Proof.
  intros m'.
  assert (Hb : bindings_of 0%N announced_state !! 3000%Z = Some (Listener (Surface.V4 127 0 1 2) 3000%Z))
    by (by vm_compute).
  destruct (inv_reachable Toy.config Toy.parse_ip announced_state toy_exclusive
    (Toy.start_reachable announcing)) as [Hm _].
  refine (proj2 (failed_accept_is_final Toy.config announced_state 0%N 3000%Z _ _
    [[3000%Z]; [3000%Z; 4000%Z]] Hm Hb _)).
  repeat constructor.
Defined.

Lemma forgetting_tears_everything_down_witness :
  let m' := (remove_peer Toy.config "7" announced_state).1 in
  peers m' = ∅ ∧ bindings_of 0%N m' = ∅ ∧ closed m' !! 100%N = Some "removed".
Proof.
  intros m'.
  assert (Hps : ∃ ps, Pins.load (pins announced_state) = Ok ps) by (eexists; by vm_compute).
  assert (Hrs : ∃ rs, Surface.load (surfaces announced_state) = Ok rs) by (eexists; by vm_compute).
  destruct Hps as [ps Hps], Hrs as [rs Hrs].
  assert (H1 : resolve_peer "7" announced_state = Some 7%N) by (by vm_compute).
  assert (H2 : peers announced_state !! 7%N = Some 0%N) by (by vm_compute).
  assert (H3 : Store.working (pins announced_state)) by (split_and!; vm_compute; reflexivity).
  assert (H4 : Store.working (surfaces announced_state)) by (split_and!; vm_compute; reflexivity).
  pose proof (forgetting_tears_everything_down Toy.config Toy.parse_ip announced_state "7" 7%N 0%N
    ps rs toy_exclusive (Toy.start_reachable announcing) H1 H2 Hps H3 Hrs H4) as H.
  subst m'. destruct (remove_peer Toy.config "7" announced_state) as [m' r]. simpl.
  destruct H as (_ & Hpeers & _ & _ & _ & _ & Hb & _ & _ & Hclosed & _).
  split_and!.
  - rewrite Hpeers. by vm_compute.
  - exact Hb.
  - assert (Hc : conn_of 0%N announced_state = Some (mkConn 100%N 7%N)) by (by vm_compute).
    etrans; [exact (Hclosed _ Hc)|]. by vm_compute.
Defined.

End binding_witnesses.

(** ** A hold that outlives its peer *)
Section late_announcement.
Import Shell.

(** An announcement that is being handled while its peer is forgotten
    revives it.  From a daemon that knows one peer, after that peer connects,
    announces a port and is forgotten, one more of its announcements (already
    read, and waiting for the lock [forget] held) leaves a state in which no
    peer is known or admitted and yet a surface of the forgotten peer stands:
    the process listens on its port, its record is on disk again, and neither
    [forget] nor [unproject] can name it any more. *)
Theorem late_announcement_revives_forgotten_peer :
  let es := announcing ++ [EvRequest (Protocol.ReqForget "7") [] 0%Z;
                           EvUni 0%N (Some (Protocol.ExposedPorts [3000%Z]))] in
  let m := foldl (step Toy.config Toy.parse_ip) Toy.start es in
  let answer req := (Daemon.handle_request Toy.config Toy.parse_ip req [] 0%Z m).2 in
  peers m = ∅ ∧ Session.peer_keys (session m) = [] ∧
  (Surface.V4 127 0 1 2, 3000%Z) ∈ sockets m ∧
  (Surface.rec_key <$> default [] (ok (Surface.load (surfaces m)))) = ["7"] ∧
  answer (Protocol.ReqForget "7") = Protocol.RespError "no such peer: 7" ∧
  answer (Protocol.ReqUnproject "7") = Protocol.RespError "no such peer: 7".
Proof.
  intros es m answer. split_and!; try (by vm_compute).
Qed.

End late_announcement.
