(* ===== verification/Types.v ===== *)
(** * Ports keep their type

    The model's ports are integers; the code's are [u16].  From requests and
    messages that carry [u16]s, every port a daemon ever grants, keeps, sends or
    answers with is one: no operation makes another number of them. *)

From S2P Require Import Prelude RustStr Keys Grants Backoff Dial Invite Store Enroll Protocol Session Surface Resolver Netstack Tunnel Peer PeerFacts PeerLoop Daemon Shell Bindings.
Import Peers.

Local Abbreviation typed_message := Protocol.typed_message.
Local Abbreviation typed_request := Protocol.typed_request.

Section types.
Context {K : Type} `{EKL : EndpointKeyLaws K} `{DML : DashMapLaws}.
Context `{!JsonCodec Pins.Pin} `{!JsonCodec Surface.SurfaceRecord}.
Implicit Types (m : PeerManager K) (o : ObjId) (k : K) (c : Conn K).
Implicit Types (s : Session.Session K).

(** ** What is typed *)

Definition typed_event (e : Shell.Event (K:=K)) : Prop :=
  match e with
  | Shell.EvRequest req _ _ => typed_request req
  | Shell.EvEnroll _ (Some msg) _ | Shell.EvUni _ (Some msg) => typed_message msg
  | _ => True
  end.

Definition typed_action (a : Session.Action K) : Prop :=
  match a with
  | Session.Announce _ ports | Session.ApplyPorts _ ports => u16s ports
  | _ => True
  end.

(** Grants, the ports of codes, and the ports announced while waiting. *)
Record typed_session s : Prop := {
  typed_wf : Grants.wf (Session.grants s);
  typed_grants : ∀ port k, Grants.allows port k (Session.grants s) = true → u16_range port;
  typed_tokens : ∀ t p, Tokens.pending (Session.tokens s) !! t = Some p → u16s (Tokens.ports p);
  typed_early : ∀ id p ports, Session.pending s !! id = Some p →
                  Session.early_ports p = Some ports → u16s ports;
}.

Record typed m : Prop := {
  typed_in_session : typed_session (session m);
  typed_exposed : ∀ o, u16s (exposed_of o m);
  typed_sent : Forall (λ x, typed_message x.2) (sent m);
}.

(** ** The session *)

Lemma typed_ports_for s k : typed_session s → u16s (Grants.ports_for k (Session.grants s)).
Proof.
  intros [_ Hg _ _]. apply Forall_forall. intros p Hp. apply elem_of_ports_for in Hp. by eapply Hg.
Qed.

Lemma typed_with_peers ps s : typed_session s → typed_session (Session.with_peers ps s).
Proof. by intros []. Qed.

Lemma typed_without_early id s :
  typed_session s → typed_session (Session.with_pending (delete id (Session.pending s)) s).
Proof.
  intros [Hw Hg Ht He]. split; [done..|]. simpl. intros id' p ports Hp.
  apply lookup_delete_Some in Hp as [_ Hp]. by eapply He.
Qed.

Lemma typed_on_expose port to s :
  u16_range port → typed_session s → typed_session (Session.expose port to s).1.
Proof.
  intros Hp [Hw Hg Ht He]. split; [by apply wf_add_keys| |done..]. simpl. intros q k.
  rewrite allows_add_keys. intros [[<- _]|Hq]; [done|by eapply Hg].
Qed.

Lemma typed_on_unexpose port to s :
  typed_session s → typed_session (Session.unexpose port to s).1.
Proof.
  intros [Hw Hg Ht He]. split; [by apply wf_remove| |done..]. simpl. intros q k.
  rewrite allows_remove. intros Hq. eapply Hg. naive_solver.
Qed.

Lemma typed_on_evict k s : typed_session s → typed_session (Session.evict k s).1.
Proof.
  intros [Hw Hg Ht He]. unfold Session.evict. case_match; [|done]. split; [apply wf_revoke| |done..]. simpl.
  intros q k'. rewrite allows_revoke. intros Hq. eapply Hg. naive_solver.
Qed.

Lemma typed_on_mint random now name ports s :
  u16s ports → typed_session s → typed_session (Session.mint_token random now name ports s).1.
Proof.
  intros Hp [Hw Hg Ht He]. split; [done..| |done]. simpl. intros t p.
  destruct (decide (t = hex_string random)) as [->|Hne].
  - rewrite lookup_insert_eq. by intros [= <-].
  - rewrite lookup_insert_ne by done. apply Ht.
Qed.

Lemma typed_on_admit k l a s : typed_session s → typed_session (Session.admit_known k l a s).1.
Proof. intros Hs. unfold Session.admit_known. case_match; [done|]. by apply typed_with_peers. Qed.

Lemma typed_on_inbound id k s :
  typed_session s →
  typed_session (Session.on_inbound id k s).1 ∧
  Forall typed_action (Session.on_inbound id k s).2.
Proof.
  intros Hs. unfold Session.on_inbound. case_match; simpl.
  - split; [done|]. repeat constructor. by apply typed_ports_for.
  - split; [|done]. destruct Hs as [Hw Hg Ht He]. split; [done..|]. simpl.
    intros id' p ports [[<- <-]|[_ Hp]]%lookup_insert_Some; [done|]. by eapply He.
Qed.

Lemma typed_on_timeout id s :
  typed_session s →
  typed_session (Session.on_enroll_timeout id s).1 ∧
  Forall typed_action (Session.on_enroll_timeout id s).2.
Proof.
  intros Hs. unfold Session.on_enroll_timeout. case_match; simpl; [|by split].
  split; [by apply typed_without_early|]. by repeat constructor.
Qed.

Lemma typed_claim now t tk :
  (∀ t p, Tokens.pending tk !! t = Some p → u16s (Tokens.ports p)) →
  (∀ t' p, Tokens.pending (Tokens.claim now t tk).1 !! t' = Some p → u16s (Tokens.ports p)) ∧
  (∀ cl, (Tokens.claim now t tk).2 = Some cl → u16s (Tokens.claimed_ports cl)).
Proof.
  intros Htk. unfold Tokens.claim.
  destruct (Tokens.retain_live now (Tokens.pending tk) !! t) as [p|] eqn:Hp; simpl.
  - split.
    + intros t' p' [_ Hp']%lookup_delete_Some. apply retain_live_lookup in Hp' as [? _].
      by eapply Htk.
    + intros cl [= <-]. simpl. apply retain_live_lookup in Hp as [? _]. by eapply Htk.
  - split; [|done]. intros t' p' [? _]%retain_live_lookup. by eapply Htk.
Qed.

Lemma typed_early_of id s : typed_session s → u16s (Session.early_of id s).
Proof.
  intros [_ _ _ He]. unfold Session.early_of.
  destruct (Session.pending s !! id) as [p|] eqn:Hp; [|constructor].
  destruct (Session.early_ports p) as [ports|] eqn:Hq; [|constructor]. by eapply He.
Qed.

Lemma typed_on_unadmitted id k msg now s :
  typed_message msg → typed_session s →
  typed_session (Session.on_unadmitted id k msg now s).1 ∧
  Forall typed_action (Session.on_unadmitted id k msg now s).2.
Proof.
  intros Hmsg Hs. destruct msg as [ports|port|token v|e]; simpl; try by split.
  - destruct (Session.pending s !! id) as [p|]; [|by split]. simpl. split; [|done].
    destruct Hs as [Hw Hg Ht He]. split; [done..|]. simpl.
    intros id' p' ports' [[<- <-]|[_ Hp]]%lookup_insert_Some.
    + simpl. by intros [= <-].
    + by eapply He.
  - pose proof (typed_claim now token (Session.tokens s) (typed_tokens _ Hs)) as [Htk Hcl].
    pose proof (typed_early_of id s Hs) as Hearly.
    destruct (Tokens.claim now token (Session.tokens s)) as [tk [cl|]]; simpl in Htk, Hcl.
    + specialize (Hcl cl eq_refl). set (s' := Session.with_grants _ _).
      assert (Hs' : typed_session s').
      { destruct Hs as [Hw Hg _ He]. split; simpl; [by apply wf_add_ports| |done|].
        - intros q k'. rewrite allows_add_ports. intros [[_ Hq]|Hq]; [|by eapply Hg].
          rewrite Forall_forall in Hcl. by apply Hcl.
        - intros id' p ports Hp. apply lookup_delete_Some in Hp as [_ Hp]. by eapply He. }
      simpl. split; [done|]. unfold Session.early_of in *. simpl.
      constructor; [done|]. constructor; [done|]. apply Forall_app. split.
      * set (l := match Session.pending s !! id with Some _ => _ | None => _ end) in *.
        destruct l; [constructor|]. by constructor.
      * constructor; [|constructor]. by apply typed_ports_for.
    + simpl. split; [|by repeat constructor].
      apply (typed_without_early id (Session.with_tokens tk s)). by destruct Hs.
Qed.

(** ** Operations that touch none of it *)

Record tframe m m' : Prop := {
  tframe_session : session m' = session m;
  tframe_sent : sent m' = sent m;
  tframe_exposed : ∀ o, exposed_of o m' = exposed_of o m;
}.

#[export] Instance tframe_preorder : PreOrder tframe.
Proof. split; [by split|]. intros m1 m2 m3 [] []. split; try congruence; intros; congruence. Qed.

Lemma tframe_typed m m' : tframe m m' → typed m → typed m'.
Proof.
  intros [Hs Hse He] [Hts Hte Htse]. split; [by rewrite Hs| |by rewrite Hse].
  intros o. by rewrite He.
Qed.

Lemma tframe_upd o f m : (∀ p, exposed_ports (f p) = exposed_ports p) → tframe m (upd o f m).
Proof.
  intros Hf. split; [done|done|]. intros o'. rewrite exposed_of_upd. case_decide; [|done]. subst.
  unfold exposed_of. destruct (objects m !! o); simpl; [|done]. by rewrite Hf.
Qed.

Lemma tframe_foldl {A} (f : PeerManager K → A → PeerManager K) (l : list A) m :
  (∀ m x, tframe m (f m x)) → tframe m (foldl f m l).
Proof.
  intros Hf. revert m. induction l as [|x l IH]; intros m; simpl; [done|].
  etrans; [apply Hf|apply IH].
Qed.

Lemma tframe_close c reason m : tframe m (close c reason m).
Proof. unfold close. by case_match; split. Qed.

Lemma tframe_claim cfg ip name m : tframe m (claim_addr cfg ip name m).1.
Proof. unfold claim_addr. destruct (netstack m); [|done]. by destruct ip. Qed.

Lemma tframe_unclaim cfg ip m : tframe m (unclaim_addr cfg ip m).1.
Proof. unfold unclaim_addr. destruct (netstack m); [|done]. by destruct ip. Qed.

Lemma tframe_release o port m : tframe m (release_binding o port m).
Proof.
  unfold release_binding. set (m1 := match bindings_of o m !! port with Some _ => _ | None => _ end).
  assert (H1 : tframe m m1).
  { unfold m1. destruct (bindings_of o m !! port) as [b|]; [|done].
    etrans; [apply (tframe_upd o (λ p, put_bindings (delete port (bindings p)) p)); done|].
    destruct b; by split. }
  etrans; [exact H1|]. clearbody m1. by repeat case_match.
Qed.

Lemma tframe_accept_failed o port m : tframe m (accept_failed o port m).
Proof.
  unfold accept_failed. do 2 (case_match; try done).
  etrans; [|by apply tframe_upd]. by split.
Qed.

Lemma tframe_release_all o ports m : tframe m (release_all o ports m).
Proof. apply tframe_foldl. intros. apply tframe_release. Qed.

Lemma tframe_bind_missing cfg o ip ports m : tframe m (bind_missing cfg o ip ports m).
Proof.
  apply tframe_foldl. intros m' port. case_match; [done|]. unfold bind_one.
  destruct (netstack m'), ip; try (case_match; [|done]);
    (etrans; [|by apply tframe_upd]); by split.
Qed.

Lemma tframe_clear_surface o m : tframe m (clear_surface o m).
Proof. etrans; [apply tframe_release_all|]. by apply tframe_upd. Qed.

Lemma tframe_set_surfaces f m : tframe m (set_surfaces f m).
Proof. by split. Qed.

Lemma tframe_surface_ip cfg o ports m : tframe m (surface_ip cfg o ports m).1.
Proof.
  unfold surface_ip. destruct (objects m !! o) as [p|]; [|done].
  destruct (surface p); [done|]. destruct ports; [done|].
  destruct (Surface.allocate _ _) as [ip|]; [|done].
  pose proof (tframe_claim cfg ip (Some (match label p with
    Some l => l | None => Session.default_name (endpoint_id p) end)) m) as Hc.
  destruct (claim_addr _ _ _ _) as [m1 [[]|]]; [|done]. simpl in Hc.
  destruct (Surface.add _ _ _ _) as [f r]. simpl.
  etrans; [exact Hc|]. etrans; [|apply tframe_set_surfaces]. by apply tframe_upd.
Qed.

Lemma tframe_install cfg o c by_us m : tframe m (install cfg o c by_us m).1.
Proof.
  unfold install. destruct (objects m !! o) as [p|]; [|done].
  destruct (Dial.offer _ _ _ _ _ _) as [sl cs]. simpl.
  etrans; [apply (tframe_foldl (λ m '(c, reason), close c reason m) cs)|].
  - intros m' []. apply tframe_close.
  - by apply tframe_upd.
Qed.

Lemma tframe_spawn p m : exposed_ports p = [] → tframe m (spawn_peer p m).1.
Proof.
  intros Hp. split; [done|done|]. intros o. unfold exposed_of. simpl.
  assert (Hf : objects m !! fresh (dom (objects m)) = None) by (apply not_elem_of_dom, is_fresh).
  destruct (decide (o = fresh (dom (objects m)))) as [->|Hne].
  - rewrite lookup_insert_eq, Hf. simpl. by rewrite Hp.
  - by rewrite lookup_insert_ne.
Qed.

(** ** Operations that send or announce *)

Lemma typed_set_session s m : typed_session s → typed m → typed (set_session s m).
Proof. intros Hs [_ He Ht]. by split. Qed.

Lemma typed_send c msg m : typed_message msg → typed m → typed (send_message c msg m).
Proof.
  intros Hmsg [Hs He Ht]. split; [done|done|]. simpl. apply Forall_app. split; [done|].
  by repeat constructor.
Qed.

Lemma typed_send_to o msg m : typed_message msg → typed m → typed (send_to o msg m).
Proof. intros Hmsg Hm. unfold send_to. case_match; [by apply typed_send|done]. Qed.

Lemma typed_announce_to o m : typed m → typed (announce_to o m).
Proof.
  intros Hm. unfold announce_to. destruct (objects m !! o) as [p|]; [|done]. simpl.
  apply typed_send_to; [|done]. by apply typed_ports_for, Hm.
Qed.

Lemma typed_foldl {A} (f : PeerManager K → A → PeerManager K) (l : list A) m :
  (∀ m x, x ∈ l → typed m → typed (f m x)) → typed m → typed (foldl f m l).
Proof.
  revert m. induction l as [|x l IH]; intros m Hf Hm; simpl; [done|]. apply IH.
  - intros m' y Hy. apply Hf. by right.
  - apply Hf; [by left|done].
Qed.

Lemma typed_broadcast m : typed m → typed (broadcast_grants m).
Proof. apply typed_foldl. intros. by apply typed_announce_to. Qed.

Lemma typed_put_exposed o ports m : u16s ports → typed m → typed (upd o (put_exposed ports) m).
Proof.
  intros Hp [Hs He Ht]. split; [done| |done]. intros o'. rewrite exposed_of_upd. case_decide; [|done].
  destruct (objects m !! o); simpl; [done|constructor].
Qed.

Lemma typed_update_ports cfg o ports m :
  u16s ports → typed m → typed (update_peer_ports cfg o ports m).
Proof.
  intros Hp Hm. unfold update_peer_ports. set (m1 := foldl _ m _).
  assert (H1 : tframe m m1).
  { apply tframe_foldl. intros. case_decide; [done|]. apply tframe_release. }
  pose proof (tframe_surface_ip cfg o ports m1) as H2.
  destruct (surface_ip cfg o ports m1) as [m2 [ip|]]; simpl in H2; apply typed_put_exposed; try done.
  - eapply tframe_typed; [apply tframe_bind_missing|]. eapply tframe_typed; [|exact Hm]. by etrans.
  - eapply tframe_typed; [|exact Hm]. by etrans.
Qed.

Lemma typed_apply cfg o actions m :
  Forall typed_action actions → typed m → typed (apply cfg o actions m).
Proof.
  intros Ha. apply typed_foldl. intros m' a Hin Hm'. rewrite Forall_forall in Ha.
  specialize (Ha a Hin). destruct a; simpl in *; try done.
  - by apply typed_send_to.
  - by apply typed_update_ports.
  - eapply tframe_typed; [|exact Hm']. by split.
  - eapply tframe_typed; [|exact Hm']. by split.
Qed.

Lemma typed_expose port to m : u16_range port → typed m → typed (Daemon.expose port to m).
Proof.
  intros Hp Hm. apply typed_broadcast, typed_set_session; [|done].
  apply typed_on_expose; [done|apply Hm].
Qed.

Lemma typed_unexpose port to m : typed m → typed (Daemon.unexpose port to m).
Proof.
  intros Hm. apply typed_broadcast, typed_set_session; [|done]. apply typed_on_unexpose, Hm.
Qed.

Lemma typed_admit_spawn p k l a m :
  exposed_ports p = [] → typed m → typed (spawn_peer p (admit_known k l a m)).1.
Proof.
  intros Hp Hm. eapply tframe_typed; [by apply tframe_spawn|].
  apply typed_set_session; [|done]. apply typed_on_admit, Hm.
Qed.

Lemma typed_add_peer k name code m : typed m → typed (add_peer k name code m).1.
Proof. intros Hm. unfold add_peer. case_match; [done|]. by apply typed_admit_spawn. Qed.

Lemma typed_add_pinned key name m : typed m → typed (add_pinned key name m).1.
Proof.
  intros Hm. unfold add_pinned. case_match; [|done]. case_match; [done|].
  by apply typed_admit_spawn.
Qed.

Lemma typed_invite cfg key name ports random now m :
  u16s ports → typed m → typed (Daemon.invite cfg key name ports random now m).1.
Proof.
  intros Hp Hm. unfold Daemon.invite. destruct key as [key|].
  - unfold pin_peer. pose proof (typed_add_pinned key name m Hm) as H1.
    destruct (add_pinned key name m) as [m1 [[]|]]; [|done]. simpl in H1.
    destruct (Pins.add _ _ _) as [f [u|]]; [|by eapply tframe_typed; [|exact H1]; split].
    destruct (parse_key key); simpl.
    + apply typed_foldl; [|by eapply tframe_typed; [|exact H1]; split].
      intros m' port Hin. apply typed_expose. rewrite Forall_forall in Hp. by apply Hp.
    + by eapply tframe_typed; [|exact H1]; split.
  - pose proof (typed_on_mint random now name ports (session m) Hp (typed_in_session _ Hm)) as Hs.
    destruct (Session.mint_token _ _ _ _ _) as [sn t]. by apply typed_set_session.
Qed.

Lemma tframe_project cfg ref ip name m : tframe m (project cfg ref ip name m).1.
Proof.
  unfold project. destruct (resolve_peer ref m) as [id|]; [|done].
  destruct (peers m !! id) as [o|]; [|done].
  set (m1 := match surface_of o m with Some _ => _ | None => m end).
  assert (H1 : tframe m m1).
  { unfold m1. destruct (surface_of o m); [|done].
    etrans; [apply tframe_clear_surface|apply tframe_unclaim]. }
  clearbody m1. destruct (match ip with Some _ => _ | None => _ end) as [a|]; [|done].
  set (n := match name with Some _ => _ | None => _ end).
  pose proof (tframe_claim cfg a n m1) as H2.
  destruct (claim_addr cfg a n m1) as [m2 [[]|]]; simpl in H2; [|by etrans].
  destruct (Surface.add _ _ _ _) as [f r]. cbn [fst].
  etrans; [exact H1|]. etrans; [exact H2|]. etrans; [|apply tframe_bind_missing].
  etrans; [|apply tframe_set_surfaces]. by apply tframe_upd.
Qed.

Lemma tframe_unproject cfg ref m : tframe m (unproject cfg ref m).1.
Proof.
  unfold unproject. destruct (resolve_peer ref m) as [id|]; [|done].
  destruct (peers m !! id) as [o|]; [|done]. destruct (surface_of o m) as [sf|]; [|done].
  pose proof (tframe_unclaim cfg (Surface.ip sf) (clear_surface o m)) as H2.
  assert (H1 : tframe m (clear_surface o m)) by apply tframe_clear_surface.
  destruct (unclaim_addr _ _ _) as [m2 [[]|]]; simpl in H2 |- *; [|by etrans].
  etrans; [exact H1|]. etrans; [exact H2|]. by split.
Qed.

Lemma tframe_evict_object cfg o reason m : tframe m (evict_object cfg o reason m).
Proof.
  unfold evict_object. set (m1 := upd o (put_notified true) _).
  assert (H1 : tframe m m1) by (unfold m1; etrans; by apply tframe_upd).
  set (m2 := match objects m1 !! o with Some _ => _ | None => _ end).
  assert (H2 : tframe m1 m2).
  { unfold m2. destruct (objects m1 !! o) as [p|]; [|done].
    destruct (Dial.connection _); [|done]. etrans; [|apply tframe_close]. by apply tframe_upd. }
  assert (H3 : tframe m (release_all o (held_ports o m2) m2)).
  { etrans; [exact H1|]. etrans; [exact H2|]. apply tframe_release_all. }
  etrans; [exact H3|]. case_match; [|done]. etrans; [|apply tframe_unclaim]. by apply tframe_upd.
Qed.

Lemma typed_evict cfg k reason m : typed m → typed (evict cfg k reason m).
Proof.
  intros Hm. unfold evict. set (m1 := match peers m !! k with Some _ => _ | None => m end).
  assert (H1 : tframe m m1).
  { unfold m1. destruct (peers m !! k); [|done]. etrans; [|apply tframe_evict_object]. by split. }
  pose proof (typed_on_evict k (session m1)) as Hs.
  destruct (Session.evict k (session m1)) as [sn acts]. simpl in Hs.
  assert (Hm1 : typed m1) by (by eapply tframe_typed).
  eapply (tframe_typed (foldl drop_pin (set_session sn m1) acts)); [by split|].
  eapply tframe_typed; [apply tframe_foldl|apply typed_set_session; [apply Hs, Hm1|done]].
  intros m' a. by destruct a.
Qed.

(** ** Events and the start *)

Lemma typed_request_step cfg parse_ip req random now m :
  typed_request req → typed m → typed (Daemon.handle_request cfg parse_ip req random now m).1.
Proof.
  intros Hr Hm. destruct req; simpl in *; try done.
  - by apply typed_invite.
  - unfold Daemon.accept. destruct (Invite.from_str _) as [h|]; [|done].
    pose proof (typed_add_peer (Invite.handle_key h) name (Invite.handle_code h) m Hm) as H1.
    by destruct (add_peer _ _ _ _) as [m1 [[]|]].
  - unfold remove_peer. destruct (resolve_peer _ _) as [k|]; [|done].
    destruct (peers m !! k); [|done]. by apply typed_evict.
  - destruct (Daemon.grantees _ _ _); [|done]. by apply typed_expose.
  - case_match; [|done]. by apply typed_unexpose.
  - destruct (match ip with Some _ => _ | None => _ end) as [a|]; [|done].
    pose proof (tframe_project cfg peer a name m) as H1.
    destruct (project _ _ _ _ _) as [m1 [[]|]]; by eapply tframe_typed.
  - pose proof (tframe_unproject cfg peer m) as H1.
    destruct (unproject _ _ _) as [m1 [[]|]]; by eapply tframe_typed.
Qed.

(** What is answered: the ports of a [list] are those of the state. *)
Lemma typed_granted_ports s : typed_session s → u16s (Session.granted_ports s).
Proof.
  intros [Hw Hg _ _]. apply Forall_forall. intros p [k Hp]%elem_of_ports; [|done]. by eapply Hg.
Qed.

Lemma typed_info cfg m o i : typed m → announced m → info_of cfg m o = Some i → Protocol.typed_peer i.
Proof.
  intros Hm Ha Hi. pose proof (typed_exposed _ Hm o) as He. pose proof (Ha o) as Hb.
  unfold info_of in Hi. unfold exposed_of in He, Hb.
  destruct (objects m !! o) as [p|]; [|done]. simpl in Hi, He, Hb.
  injection Hi as <-. split; simpl; [done|]. apply Forall_forall. intros port Hin.
  rewrite Forall_forall in He. apply He, Hb. rewrite elem_of_merge_sort in Hin.
  by apply elem_of_held_ports in Hin.
Qed.

Lemma typed_list_info cfg m : typed m → announced m → Protocol.typed_list (Daemon.list_info cfg m).
Proof.
  intros Hm Ha. split_and!; simpl.
  - apply Forall_forall. intros i Hi. apply list_elem_of_omap in Hi as ([k o] & _ & Hi).
    by eapply typed_info.
  - apply typed_granted_ports, Hm.
  - apply Forall_fmap, Forall_forall. intros [port k] Hin%elem_of_all. simpl.
    eapply typed_grants; [apply Hm|exact Hin].
Qed.

Lemma typed_respond (r : PeerManager K * result unit) :
  Protocol.typed_response (Daemon.respond r).2.
Proof. by destruct r as [? []]. Qed.

Lemma typed_answer cfg parse_ip req random now m :
  typed m → announced m →
  Protocol.typed_response (Daemon.handle_request cfg parse_ip req random now m).2.
Proof.
  intros Hm Ha. destruct req; simpl; try done; try apply typed_respond.
  - unfold Daemon.invite. by repeat case_match.
  - by case_match.
  - by case_match.
  - by apply typed_list_info.
  - case_match; [apply typed_respond|done].
Qed.

Lemma typed_verdict cfg id wt acts m :
  Forall typed_action acts → typed m → typed (enroll_verdict cfg id wt acts m).
Proof.
  intros Ha Hm. unfold enroll_verdict.
  set (m0 := set_waiting _ m). assert (H0 : typed m0) by (by eapply tframe_typed; [|exact Hm]; split).
  clearbody m0. destruct (refusal_of acts).
  - eapply tframe_typed; [apply tframe_close|done].
  - destruct (existsb is_admit acts); [|by eapply tframe_typed; [apply tframe_close|]].
    set (p := match early_version wt with Some _ => _ | None => _ end).
    assert (Hp : exposed_ports p = []) by (unfold p; by case_match).
    pose proof (tframe_spawn p m0 Hp) as Hsp. destruct (spawn_peer p m0) as [m1 o].
    apply typed_apply; [done|]. by eapply tframe_typed.
Qed.

Lemma typed_handle_connection cfg c m : typed m → typed (handle_connection cfg c m).
Proof.
  intros Hm. unfold handle_connection. cbv zeta.
  set (m0 := set_next_conn_id _ m).
  assert (H0 : typed m0) by (by eapply tframe_typed; [|exact Hm]; split).
  pose proof (typed_on_inbound (next_conn_id m) (remote_id c) (session m0)
                (typed_in_session _ H0)) as [Hs Ha].
  destruct (Session.on_inbound _ _ _) as [sn acts]. simpl in Hs, Ha.
  assert (H1 : typed (set_session sn m0)) by (by apply typed_set_session).
  destruct acts as [|a acts]; [by eapply tframe_typed; [|exact H1]; split|].
  destruct (peers _ !! _) as [o|]; [|done].
  pose proof (tframe_install cfg o c false (set_session sn m0)) as Hi.
  destruct (install _ _ _ _ _) as [m1 []]; simpl in Hi; [|by eapply tframe_typed].
  apply typed_apply; [done|]. eapply tframe_typed; [by apply tframe_upd|].
  eapply tframe_typed; [by apply tframe_upd|]. by eapply tframe_typed.
Qed.

Lemma typed_dialed cfg o p c m : typed m → typed (Loop.dialed cfg o p c m).
Proof.
  intros Hm. unfold Loop.dialed. pose proof (tframe_install cfg o c true m) as Hi.
  destruct (install cfg o c true m) as [m1 []]; simpl in Hi; [|by eapply tframe_typed].
  apply typed_announce_to. assert (H1 : typed m1) by (by eapply tframe_typed).
  destruct (enroll_token p); [by apply typed_send|done].
Qed.

Lemma typed_step cfg parse_ip m e :
  typed_event e → typed m → typed (Shell.step cfg parse_ip m e).
Proof.
  intros He Hm. destruct e as [req random now|c|id msg now|id|o msg|o|o|o c|c reason|o port]; simpl in *.
  - by apply typed_request_step.
  - by apply typed_handle_connection.
  - unfold enroll_message. destruct (waiting m !! id) as [wt0|]; [|done].
    destruct msg as [msg|]; [|done].
    pose proof (typed_on_unadmitted id (remote_id (wait_conn
      match msg with Protocol.Enroll _ (Some v) => mkWaiting (wait_conn wt0) (Some v) | _ => wt0 end))
      msg now (session m) He (typed_in_session _ Hm)) as [Hs Ha].
    destruct (Session.on_unadmitted _ _ _ _ _) as [sn acts]. simpl in Hs, Ha.
    assert (H1 : typed (set_session sn m)) by (by apply typed_set_session).
    destruct acts; [by eapply tframe_typed; [|exact H1]; split|]. by apply typed_verdict.
  - unfold enroll_end. destruct (waiting m !! id) as [wt|]; [|done].
    pose proof (typed_on_timeout id (session m) (typed_in_session _ Hm)) as [Hs Ha].
    destruct (Session.on_enroll_timeout _ _) as [sn acts]. simpl in Hs, Ha.
    apply typed_verdict; [done|]. by apply typed_set_session.
  - unfold handle_uni_stream. destruct msg as [[ports| |token [v|]|]|]; try done.
    + by apply typed_update_ports.
    + by eapply tframe_typed; [apply tframe_upd|].
  - unfold Shell.with_object, Loop.run_connection. repeat case_match; try done.
    by apply typed_send_to.
  - by eapply tframe_typed; [apply tframe_upd|].
  - unfold Shell.with_object. case_match; [|done]. by apply typed_dialed.
  - by eapply tframe_typed; [apply tframe_close|].
  - by eapply tframe_typed; [apply tframe_accept_failed|].
Qed.

Lemma typed_new f1 f2 ns : typed (new f1 f2 ns : PeerManager K).
Proof.
  split; [split|..]; simpl.
  - apply wf_default.
  - intros port k. by rewrite allows_default.
  - intros t p. by rewrite lookup_empty.
  - intros id p ports. by rewrite lookup_empty.
  - intros o. unfold exposed_of. simpl. rewrite lookup_empty. constructor.
  - constructor.
Qed.

Lemma tframe_restore cfg m : tframe m (restore_surfaces cfg m).
Proof.
  unfold restore_surfaces. case_match; [|done]. apply tframe_foldl. intros m' r.
  unfold restore_one. destruct (parse_key _) as [id|]; [|done].
  destruct (peers m' !! id); [|done].
  pose proof (tframe_claim cfg (Surface.rec_ip r) (Surface.rec_name r) m') as H2.
  destruct (claim_addr _ _ _ _) as [m2 [[]|]]; simpl in H2 |- *; [|done].
  etrans; [exact H2|]. by apply tframe_upd.
Qed.

Lemma typed_start cfg texts ports f1 f2 ns m :
  u16s ports → Daemon.run cfg texts ports f1 f2 ns = Ok m → typed m.
Proof.
  intros Hports. unfold Daemon.run, Daemon.with_endpoint.
  destruct (Pins.load f1) as [pinned|]; [|done]. intros [= <-]. unfold Daemon.start_accepts.
  set (m0 := restore_surfaces cfg _).
  assert (H0 : typed m0).
  { eapply tframe_typed; [apply tframe_restore|]. apply typed_foldl; [|apply typed_new].
    intros. by apply typed_add_pinned. }
  clearbody m0. set (m1 := foldl _ _ (Daemon.accept_handles texts)).
  assert (H1 : typed m1).
  { apply typed_foldl; [intros; by apply typed_add_peer|].
    apply typed_foldl; [|done]. intros m' port Hin. apply typed_expose.
    rewrite Forall_forall in Hports. by apply Hports. }
  clearbody m1. case_match; [done|]. by apply typed_broadcast.
Qed.

End types.
