(* ===== verification/PeerProps.v ===== *)
(** * The peer manager: properties

    What a connection without an admitted key can make the daemon do, what a
    tunnel request reaches, what announcing sends, and how a connection loop
    ends; and two ways a loop outlives the peer it was started for. *)

From S2P Require Import Prelude RustStr Keys Grants Backoff Dial Invite Store Enroll Protocol Session Surface Resolver Netstack Tunnel Peer PeerFacts PeerLoop Daemon Shell Bindings BindingProps.
Import Peers.

(** ** Lemmas *)
Section peer_lemmas.
Context {K : Type} `{EKL : EndpointKeyLaws K} `{DML : DashMapLaws}.
Context `{!JsonCodec Pins.Pin} `{!JsonCodec Surface.SurfaceRecord}.
Implicit Types (m : PeerManager K) (p : Peer K) (o : ObjId) (k : K) (c : Conn K).

(** Operations that send nothing, close nothing, pin nothing and leave the
    connections of all objects alone. *)
Record silent m m' : Prop := {
  silent_sent : sent m' = sent m;
  silent_closed : closed m' = closed m;
  silent_pins : pins m' = pins m;
  silent_flags : ∀ o, flags <$> objects m' !! o = flags <$> objects m !! o;
}.

#[export] Instance silent_preorder : PreOrder silent.
Proof. split; [by split|]. intros m1 m2 m3 [] []. split; congruence. Qed.

Lemma silent_foldl {A} (f : PeerManager K → A → PeerManager K) (l : list A) m :
  (∀ m x, silent m (f m x)) → silent m (foldl f m l).
Proof.
  intros Hf. revert m. induction l as [|x l IH]; intros m; simpl; [done|].
  etrans; [apply Hf|apply IH].
Qed.

Lemma silent_upd o f m : (∀ p, flags (f p) = flags p) → silent m (upd o f m).
Proof.
  intros Hf. split; try done. intros o'. rewrite objects_upd. case_decide; [subst|done].
  destruct (objects m !! o); simpl; [by rewrite Hf|done].
Qed.

Lemma silent_release o port m : silent m (release_binding o port m).
Proof.
  split; [..|apply release_flags]; unfold release_binding; repeat case_match; done.
Qed.

Lemma silent_claim cfg ip name m : silent m (claim_addr cfg ip name m).1.
Proof. unfold claim_addr. by repeat case_match. Qed.

Lemma silent_bind_one cfg o ip port m : silent m (bind_one cfg o ip port m).
Proof.
  unfold bind_one, put_binding. destruct (netstack m), ip;
    try (destruct (bind_attempts _ _ _ _ _ _); [|done]);
    (etrans; [|by apply silent_upd]); by split.
Qed.

Lemma silent_surface_ip cfg o ports m : silent m (surface_ip cfg o ports m).1.
Proof.
  unfold surface_ip. destruct (objects m !! o) as [p|]; [|done].
  destruct (surface p); [done|]. destruct ports; [done|].
  destruct (Surface.allocate _ _) as [ip|]; [|done].
  set (n := Some (match label p with Some l => l | None => _ end)).
  pose proof (silent_claim cfg ip n m) as Hc.
  destruct (claim_addr _ _ _ _) as [m1 [[]|]]; [|done]. simpl in Hc.
  destruct (Surface.add _ _ _ _) as [f r]. simpl. etrans; [exact Hc|].
  trans (upd o (put_surface (Some (Surface.mkSurface ip n))) m1); [by apply silent_upd|].
  by split.
Qed.

Lemma silent_update_ports cfg o ports m : silent m (update_peer_ports cfg o ports m).
Proof.
  unfold update_peer_ports. set (m1 := foldl _ m _).
  assert (H1 : silent m m1).
  { apply silent_foldl. intros. case_decide; [done|]. apply silent_release. }
  etrans; [exact H1|]. pose proof (silent_surface_ip cfg o ports m1) as H2.
  destruct (surface_ip cfg o ports m1) as [m2 [ip|]]; simpl in H2; (etrans; [exact H2|]).
  - trans (bind_missing cfg o ip ports m2).
    + apply silent_foldl. intros. case_match; [done|]. apply silent_bind_one.
    + by apply silent_upd.
  - by apply silent_upd.
Qed.

Lemma silent_conn m m' o : silent m m' → conn_of o m' = conn_of o m.
Proof.
  intros [_ _ _ Hf]. specialize (Hf o). unfold conn_of.
  destruct (objects m' !! o), (objects m !! o); simpl in *; try done.
  unfold flags in Hf. congruence.
Qed.

(** ** Announcing *)

Lemma announce_to_sent o m p :
  objects m !! o = Some p →
  announce_to o m =
  set_sent (sent m ++ option_list
    ((λ c, (c, Protocol.ExposedPorts
                 (Grants.ports_for (endpoint_id p) (Session.grants (session m))))) <$>
     Dial.connection (slot p))) m.
Proof.
  intros Hp. unfold announce_to. rewrite Hp. simpl. unfold send_ports, send_to, conn_of.
  rewrite Hp. simpl. destruct (Dial.connection (slot p)); simpl; [done|].
  rewrite app_nil_r. by destruct m.
Qed.

(** Every known peer with a connection is sent the ports granted to it. *)
Lemma broadcast_sent m :
  Shell.agree m →
  broadcast_grants m =
  set_sent (sent m ++ omap (λ e : K * ObjId,
    (λ c, (c, Protocol.ExposedPorts (Grants.ports_for e.1 (Session.grants (session m))))) <$>
    conn_of e.2 m) (dash_iter (peers m))) m.
Proof.
  intros Hm. unfold broadcast_grants.
  assert (Hall : ∀ k o, (k, o) ∈ dash_iter (peers m) →
            ∃ p, objects m !! o = Some p ∧ endpoint_id p = k).
  { intros k o. rewrite dash_iter_perm, elem_of_map_to_list. intros Ho.
    destruct (Shell.agree_objects _ Hm _ _ Ho) as (p & ? & ? & _). eauto. }
  revert Hall. generalize (dash_iter (peers m)) as l.
  assert (Hgen : ∀ l m', objects m' = objects m → session m' = session m →
    (∀ k o, (k, o) ∈ l → ∃ p, objects m !! o = Some p ∧ endpoint_id p = k) →
    foldl (λ m e, announce_to e.2 m) m' l =
    set_sent (sent m' ++ omap (λ e : K * ObjId,
      (λ c, (c, Protocol.ExposedPorts (Grants.ports_for e.1 (Session.grants (session m))))) <$>
      conn_of e.2 m) l) m').
  { intros l. induction l as [|[k o] l IH]; intros m' Ho Hs Hl; simpl.
    - rewrite app_nil_r. by destruct m'.
    - destruct (Hl k o) as (p & Hp & <-); [by left|].
      rewrite (announce_to_sent o m' p) by congruence. rewrite Hs.
      rewrite IH; [|done..|]; [|intros; apply Hl; by right].
      unfold conn_of. rewrite Hp. simpl. destruct (Dial.connection (slot p)); simpl;
        by rewrite <- ?app_assoc, ?app_nil_r. }
  intros l Hl. by apply Hgen.
Qed.

(** ** Enrollment *)

Lemma apply_cons cfg o a acts m : apply cfg o (a :: acts) m = apply cfg o acts (apply_one cfg o m a).
Proof. done. Qed.

(** Carrying out a successful claim: pin, apply the early ports, announce. *)
Lemma apply_claim cfg o m i k c l early ports :
  conn_of o m = Some c →
  let m' := apply cfg o ([Session.Admit i k false; Session.PersistPin k l] ++ early ++
                         [Session.Announce k ports]) m in
  (early = [] ∨ ∃ k' q, early = [Session.ApplyPorts k' q]) →
  sent m' = sent m ++ [(c, Protocol.ExposedPorts ports)] ∧
  pins m' = (Pins.add (to_string k) l (pins m)).1 ∧ closed m' = closed m ∧
  (∀ o', flags <$> objects m' !! o' = flags <$> objects m !! o').
Proof.
  intros Hc m' Hearly. subst m'. simpl.
  set (m1 := set_pins _ m).
  assert (H1 : ∃ m2, silent m1 m2 ∧ apply cfg o (early ++ [Session.Announce k ports]) m1 =
                     send_ports o ports m2).
  { destruct Hearly as [->|(k' & q & ->)]; simpl.
    - by exists m1.
    - exists (update_peer_ports cfg o q m1). split; [apply silent_update_ports|done]. }
  destruct H1 as (m2 & Hs & ->). unfold send_ports, send_to.
  assert (Hc2 : conn_of o m2 = Some c) by (rewrite (silent_conn _ _ _ Hs); exact Hc).
  rewrite Hc2. destruct Hs as [Hs1 Hs2 Hs3 Hs4].
  unfold send_message. split_and!; [simpl; by rewrite Hs1|exact Hs3|exact Hs2|exact Hs4].
Qed.

Lemma accept_verdict cfg id wt m i early ports :
  let c := wait_conn wt in
  let k := remote_id c in
  let l := Session.label_of k (session m) in
  let m' := enroll_verdict cfg id wt ([Session.Admit i k false; Session.PersistPin k l] ++
                                      early ++ [Session.Announce k ports]) m in
  (early = [] ∨ ∃ k' q, early = [Session.ApplyPorts k' q]) →
  ∃ o p, peers m' !! k = Some o ∧ objects m !! o = None ∧ objects m' !! o = Some p ∧
    Dial.connection (slot p) = Some c ∧ dial p = true ∧ removed p = false ∧ label p = l ∧
    pins m' = (Pins.add (to_string k) l (pins m)).1 ∧
    sent m' = sent m ++ [(c, Protocol.ExposedPorts ports)] ∧
    waiting m' !! id = None ∧ closed m' = closed m ∧ session m' = session m.
Proof.
  intros c k l m' Hearly. subst m'. unfold enroll_verdict.
  assert (Href : refusal_of ([Session.Admit i k false; Session.PersistPin k l] ++ early ++
                             [Session.Announce k ports]) = None).
  { by destruct Hearly as [->|(? & ? & ->)]. }
  rewrite Href. change (existsb is_admit _) with true. cbv iota.
  fold c. fold k. change (Session.label_of k (session (set_waiting _ m))) with l.
  set (p := match early_version wt with Some _ => _ | None => _ end).
  assert (Hp : flags p = (false, false, true, Some c) ∧ endpoint_id p = k ∧ label p = l ∧
               identity p = (k, l, None, false)).
  { unfold p. by destruct (early_version wt). }
  clearbody p. destruct Hp as (Hpf & Hpk & Hpl & Hpi).
  set (m0 := set_waiting (delete id (waiting m)) m).
  set (o := fresh (dom (objects m))).
  assert (Hfresh : objects m !! o = None) by (apply not_elem_of_dom, is_fresh).
  destruct (spawn_peer p m0) as [m1 o1] eqn:Hspawn. unfold spawn_peer in Hspawn. simpl in Hspawn.
  fold o in Hspawn. injection Hspawn as Hm1 <-.
  assert (Hobj1 : objects m1 !! o = Some p) by (rewrite <- Hm1; simpl; by rewrite lookup_insert_eq).
  assert (Hc1 : conn_of o m1 = Some c).
  { unfold conn_of. rewrite Hobj1. simpl. unfold flags in Hpf. by injection Hpf. }
  destruct (apply_claim cfg o m1 i k c l early ports Hc1 Hearly) as (Hs & Hpin & Hcl & Hfl).
  pose proof (frame_apply cfg o ([Session.Admit i k false; Session.PersistPin k l] ++ early ++
                                 [Session.Announce k ports]) m1) as [Hfp Hfs _ Hfw _ Hfi _].
  set (m2 := apply cfg o _ m1) in *. clearbody m2.
  specialize (Hfl o). specialize (Hfi o). rewrite Hobj1 in Hfl, Hfi.
  destruct (objects m2 !! o) as [p2|] eqn:Hp2; [|done]. simpl in Hfl, Hfi.
  rewrite Hpf in Hfl. rewrite Hpi in Hfi. unfold flags in Hfl. unfold identity in Hfi.
  exists o, p2. rewrite Hfp, Hs, Hpin, Hcl, Hfs, Hfw, <- Hm1. simpl. rewrite Hpk.
  rewrite lookup_insert_eq, lookup_delete_eq. simplify_eq. split_and!; congruence || done.
Qed.

(** ** Strangers *)

(** What a stranger without a code leaves alone. *)
Definition untouched m m' : Prop :=
  sent m' = sent m ∧ pins m' = pins m ∧ peers m' = peers m ∧ objects m' = objects m ∧
  surfaces m' = surfaces m ∧ sockets m' = sockets m ∧
  Session.peers (session m') = Session.peers (session m) ∧
  Session.grants (session m') = Session.grants (session m).

Lemma close_records c reason m :
  closed (close c reason m) !! cid c = Some (default reason (closed m !! cid c)).
Proof.
  unfold close. destruct (closed m !! cid c) eqn:Hc; [done|]. simpl. by rewrite lookup_insert_eq.
Qed.

Lemma untouched_close c reason m m' : untouched m m' → untouched m (close c reason m').
Proof. unfold close. by case_match. Qed.

Lemma verdict_turns_away cfg id wt actions m m0 :
  untouched m0 m → existsb is_admit actions = false →
  let reason := match refusal_of actions with Some r => r | None => Session.NotAuthorized end in
  let m' := enroll_verdict cfg id wt actions m in
  untouched m0 m' ∧ waiting m' !! id = None ∧
  closed m' !! cid (wait_conn wt) =
    Some (default (Session.refusal_str reason) (closed m !! cid (wait_conn wt))).
Proof.
  intros Hm Ha. simpl. unfold enroll_verdict. rewrite Ha. destruct (refusal_of actions) as [r|];
    (split_and!; [by apply untouched_close| |by rewrite close_records]);
    unfold close; simpl; case_match; simpl; by rewrite lookup_delete_eq.
Qed.

(** A good claim, as [on_unadmitted] puts it in the session [s1]. *)
Lemma verdict_welcomes cfg id wt early m (s1 : Session.Session K) claimed :
  let c := wait_conn wt in
  let k := remote_id c in
  (early = [] ∨ ∃ k' q, early = [Session.ApplyPorts k' q]) →
  Session.label_of k s1 = Tokens.claimed_name claimed →
  (∀ q, q ∈ Tokens.claimed_ports claimed → Grants.allows q k (Session.grants s1) = true) →
  let m1 := enroll_verdict cfg id wt
              ([Session.Admit id k false; Session.PersistPin k (Tokens.claimed_name claimed)]
                 ++ early ++ [Session.announce k s1]) (set_session s1 m) in
  ∃ o p, peers m1 !! k = Some o ∧ objects m !! o = None ∧ objects m1 !! o = Some p ∧
    Dial.connection (slot p) = Some c ∧ dial p = true ∧ removed p = false ∧
    label p = Tokens.claimed_name claimed ∧
    pins m1 = (Pins.add (to_string k) (Tokens.claimed_name claimed) (pins m)).1 ∧
    sent m1 = sent m ++
      [(c, Protocol.ExposedPorts (Grants.ports_for k (Session.grants (session m1))))] ∧
    (∀ q, q ∈ Tokens.claimed_ports claimed →
          Session.on_tunnel k q (session m1) = Session.ServeTunnel q) ∧
    waiting m1 !! id = None ∧ closed m1 = closed m.
Proof.
  intros c k Hearly Hl Hall m1.
  pose proof (accept_verdict cfg id wt (set_session s1 m) id early
                (Grants.ports_for k (Session.grants s1)) Hearly) as Hacc.
  fold c k in Hacc. simpl session in Hacc. rewrite Hl in Hacc.
  destruct Hacc as (o & p & H1 & H2 & H3 & H4 & H5 & H6 & H7 & H8 & H9 & H10 & H11 & H12).
  exists o, p. split_and!; try done.
  - etrans; [exact H9|]. do 4 f_equal.
    exact (eq_sym (f_equal (λ s, Grants.ports_for k (Session.grants s)) H12)).
  - intros q Hq. etrans; [exact (f_equal (Session.on_tunnel k q) H12)|].
    apply on_tunnel_serves. by apply Hall.
Qed.

(** ** Loops of removed objects *)

(** A removed object without a connection, and a loop that is not dialing. *)
Definition parked o m (pc : Loop.Pc (K:=K)) : Prop :=
  (∃ p, objects m !! o = Some p ∧ removed p = true ∧ Dial.connection (slot p) = None) ∧
  match pc with
  | Loop.Dialing | Loop.Panicked => False
  | Loop.Running c => live m c = false
  | _ => True
  end.

(** The steps a parked loop has left. *)
Definition steps_left (pc : Loop.Pc (K:=K)) : nat :=
  match pc with
  | Loop.Start | Loop.Sleeping => 3
  | Loop.Top => 2
  | Loop.Exited => 0
  | _ => 1
  end.

Lemma parked_step cfg o pc b i m pc' b' m' :
  parked o m pc → Loop.step cfg o (pc, b) i m = Some ((pc', b'), m') →
  parked o m' pc' ∧ steps_left pc' < steps_left pc.
Proof.
  intros [(p & Hp & Hr & Hc) Hpc]. unfold Loop.step, conn_of. rewrite Hp. simpl. rewrite Hr, Hc.
  assert (Hsame : ∀ pc0, match pc0 with Loop.Dialing | Loop.Panicked | Loop.Running _ => False
                         | _ => True end → parked o m pc0).
  { intros pc0 H0. split; [by exists p|]. by destruct pc0. }
  assert (Htake : ∀ pc0, match pc0 with Loop.Dialing | Loop.Panicked | Loop.Running _ => False
                         | _ => True end → parked o (Loop.take_permit o m) pc0).
  { intros pc0 H0. split; [|by destruct pc0]. unfold Loop.take_permit.
    exists (put_notified false p). by rewrite objects_upd, decide_True, Hp by done. }
  destruct pc, i; try done; simpl; repeat case_match; intros [= <- <- <-];
    (split; [by (apply Hsame || apply Htake)|simpl; lia]).
Qed.

Lemma parked_run cfg o inputs pc b m st m' :
  parked o m pc → Loop.run cfg o (pc, b) inputs m = Some (st, m') →
  length inputs ≤ steps_left pc ∧ st.1 ≠ Loop.Dialing ∧ conn_of o m' = None.
Proof.
  revert pc b m. induction inputs as [|i inputs IH]; intros pc b m Hpark; simpl.
  - intros [= <- <-]. destruct Hpark as [(p & Hp & _ & Hc) Hpc]. split_and!; [lia| |].
    + by destruct pc.
    + unfold conn_of. by rewrite Hp.
  - destruct (Loop.step cfg o (pc, b) i m) as [[[pc1 b1] m1]|] eqn:Hstep; [|done]. simpl.
    intros Hrun. destruct (parked_step _ _ _ _ _ _ _ _ _ Hpark Hstep) as [Hpark' Hlt].
    destruct (IH pc1 b1 m1 Hpark' Hrun) as (? & ? & ?). split_and!; [lia|done..].
Qed.

End peer_lemmas.

(** ** Properties *)
Section peer_properties.
Context {K : Type} `{EKL : EndpointKeyLaws K} `{DML : DashMapLaws}.
Context `{!JsonCodec Pins.Pin} `{!JsonCodec Surface.SurfaceRecord}.

(** C6: A stranger learns nothing without a code.  Whatever control message
    arrives on a connection that waits: if it is a good claim, the peer becomes
    known through a fresh object that holds this connection and will be dialed
    from now on, under the name the code carried; its key is pinned under that
    name; it is sent one message, the ports granted to it, which include those
    of the code; and nothing is closed.  If it is not, no message is sent, no
    peer, object, pin, record, socket or grant changes, and a bad claim closes
    the connection as not authorized, while anything else leaves it waiting.
    And when the window ends, the connection is closed with the same silence. *)
Theorem enrollment_outcome (cfg : Config K) (m : PeerManager K) (id : Session.ConnId)
    (wt : Waiting K) (msg : Protocol.PeerMessage) (now : Z) :
  waiting m !! id = Some wt →
  let c := wait_conn wt in
  let k := remote_id c in
  let m1 := enroll_message cfg id (Some msg) now m in
  let m2 := enroll_end cfg id m in
  match History.claims (session m) (History.EvUnadmitted id k msg now) with
  | Some (_, claimed) =>
      ∃ o p, peers m1 !! k = Some o ∧ objects m !! o = None ∧ objects m1 !! o = Some p ∧
        Dial.connection (slot p) = Some c ∧ dial p = true ∧ removed p = false ∧
        label p = Tokens.claimed_name claimed ∧
        pins m1 = (Pins.add (to_string k) (Tokens.claimed_name claimed) (pins m)).1 ∧
        sent m1 = sent m ++
          [(c, Protocol.ExposedPorts (Grants.ports_for k (Session.grants (session m1))))] ∧
        (∀ q, q ∈ Tokens.claimed_ports claimed →
              Session.on_tunnel k q (session m1) = Session.ServeTunnel q) ∧
        waiting m1 !! id = None ∧ closed m1 = closed m
  | None =>
      untouched m m1 ∧
      match msg with
      | Protocol.Enroll _ _ =>
          waiting m1 !! id = None ∧
          closed m1 !! cid c = Some (default "not authorized" (closed m !! cid c))
      | _ => is_Some (waiting m1 !! id) ∧ closed m1 = closed m
      end
  end ∧
  untouched m m2 ∧ waiting m2 !! id = None ∧
  closed m2 !! cid c = Some (default (if decide (is_Some (Session.pending (session m) !! id))
                                      then "enroll timeout" else "not authorized")
                                     (closed m !! cid c)).
Proof.
  intros Hwt c k m1 m2. split.
  - unfold m1, enroll_message. rewrite Hwt.
    destruct msg as [ports|port|token v|e]; simpl.
    + fold c k. destruct (Session.pending (session m) !! id); simpl;
        (split; [by repeat split|]; rewrite lookup_insert_eq; split; [by eexists|done]).
    + split; [by repeat split|]. rewrite lookup_insert_eq. split; [by eexists|done].
    + set (wt' := match v with Some _ => _ | None => wt end).
      assert (Hc' : wait_conn wt' = c) by (unfold wt'; by destruct v).
      clearbody wt'. fold c k. rewrite Hc'. fold k.
      destruct (Tokens.claim now token (Session.tokens (session m))) as [t [claimed|]]; simpl.
      * pose proof (verdict_welcomes cfg id wt') as Hw. rewrite Hc' in Hw. apply Hw.
        -- destruct (Session.early_of _ _); eauto.
        -- unfold Session.label_of. simpl. by rewrite lookup_insert_eq.
        -- intros q Hq. simpl. apply allows_add_ports. by left.
      * rewrite <- Hc'. refine (verdict_turns_away cfg id wt' [Session.Refuse id Session.NotAuthorized]
                                   (set_session _ m) m _ eq_refl). by repeat split.
    + split; [by repeat split|]. rewrite lookup_insert_eq. split; [by eexists|done].
  - unfold m2, enroll_end. rewrite Hwt. unfold Session.on_enroll_timeout.
    destruct (Session.pending (session m) !! id) as [q|].
    + refine (verdict_turns_away cfg id wt [Session.Refuse id Session.EnrollTimeout]
                (set_session _ m) m _ eq_refl). by repeat split.
    + refine (verdict_turns_away cfg id wt [] (set_session _ m) m _ eq_refl). by repeat split.
Qed.
(** C12: A tunnel reaches the granted service, and nothing else is reached.
    In every reachable state of the serving daemon, the bytes any peer's
    [open_tunnel] starts a stream with, followed by any data, arriving on the
    connection of a known peer, are forwarded to that same port of the serving
    daemon's host, with all the data after the request, exactly when the
    session serves that port to that peer; otherwise the stream is refused. A
    stream shorter than a request reaches nothing. *)
Theorem tunnel_reaches_granted_port (cfg : Config K) (parse_ip : string → option IpAddr)
    (client server : PeerManager K) (oc os : ObjId) (k : K) (c : Conn K) (port : Z)
    (start data : bytes) :
  Shell.reachable cfg parse_ip server → peers server !! k = Some os →
  open_tunnel oc port client = Ok (c, start) → u16_range port →
  (conn_of oc client = Some c ∧ live client c = true) ∧
  handle_bi_stream cfg os (start ++ data) server =
    (match Session.on_tunnel k port (session server) with
     | Session.ServeTunnel _ => Forward (host cfg) port data
     | _ => Refused
     end) ∧
  (handle_bi_stream cfg os (start ++ data) server = Forward (host cfg) port data ↔
   Session.on_tunnel k port (session server) = Session.ServeTunnel port) ∧
  handle_bi_stream cfg os (take 1 start) server = TunnelError.
Proof.
  intros Hreach Hos Hopen Hport. apply agree_reachable in Hreach as [_ Ho _].
  destruct (Ho _ _ Hos) as (p & Hp & Hk & _).
  unfold open_tunnel in Hopen. destruct (conn_of oc client) as [c'|]; [|done].
  destruct (live client c') eqn:Hlive; [|done]. injection Hopen as -> <-.
  split; [done|]. unfold handle_bi_stream.
  rewrite read_request_request, Hp, Hk by done.
  unfold Session.on_tunnel. destruct (Grants.allows _ _ _); done.
Qed.

(** C14: An [expose] request grants to everyone it names or to no one.  In
    every reachable state: if a name in the request stands for no peer, or
    [--all] finds no peer, the state is unchanged and the answer an error;
    otherwise the answer is OK, a tunnel is served afterwards exactly to those
    named and to those served before, and each known peer with a connection,
    and nobody else, is sent one message, the list of what it may now reach. *)
Theorem expose_request_all_or_nothing (cfg : Config K) (parse_ip : string → option IpAddr)
    (m : PeerManager K) (port : Z) (to : list string) (all : bool) (random : bytes) (now : Z) :
  Shell.reachable cfg parse_ip m →
  let '(m', r) :=
    Daemon.handle_request cfg parse_ip (Protocol.ReqExpose port to all) random now m in
  (r = Protocol.RespOk ∧
   ∃ ks, (if all then ks = Session.peer_keys (session m) ∧ ks ≠ []
          else Forall2 (λ ref k, Session.resolve_grantee ref (session m) = Ok k) to ks) ∧
     (∀ k q, Session.on_tunnel k q (session m') = Session.ServeTunnel q ↔
        (k ∈ ks ∧ q = port) ∨ Session.on_tunnel k q (session m) = Session.ServeTunnel q) ∧
     ∃ out, sent m' = sent m ++ out ∧
       ∀ x, x ∈ out ↔ ∃ k o c, peers m !! k = Some o ∧ conn_of o m = Some c ∧
              x = (c, Protocol.ExposedPorts (Grants.ports_for k (Session.grants (session m'))))) ∨
  (m' = m ∧ ∃ e, r = Protocol.RespError e ∧
     if all then Session.peer_keys (session m) = []
     else ∃ ref, ref ∈ to ∧ Session.resolve_grantee ref (session m) = Err e).
Proof.
  intros Hreach. apply agree_reachable in Hreach as Hm. simpl.
  assert (Hcol : ∀ to, match collect_results ((λ r, Session.resolve_grantee r (session m)) <$> to) with
    | Ok ks => Forall2 (λ ref k, Session.resolve_grantee ref (session m) = Ok k) to ks
    | Err e => ∃ ref, ref ∈ to ∧ Session.resolve_grantee ref (session m) = Err e
    end).
  { clear. intros to. induction to as [|ref to IH]; simpl; [constructor|].
    destruct (Session.resolve_grantee ref (session m)) as [k|e] eqn:Hr.
    - destruct (collect_results _) as [ks|e]; [by constructor|].
      destruct IH as (ref' & ? & ?). exists ref'. split; [by right|done].
    - exists ref. split; [by left|done]. }
  assert (Hok : ∀ ks, let m' := Daemon.expose port ks m in
     (∀ k q, Session.on_tunnel k q (session m') = Session.ServeTunnel q ↔
        (k ∈ ks ∧ q = port) ∨ Session.on_tunnel k q (session m) = Session.ServeTunnel q) ∧
     ∃ out, sent m' = sent m ++ out ∧
       ∀ x, x ∈ out ↔ ∃ k o c, peers m !! k = Some o ∧ conn_of o m = Some c ∧
         x = (c, Protocol.ExposedPorts (Grants.ports_for k (Session.grants (session m'))))).
  { intros ks. unfold Daemon.expose.
    rewrite broadcast_sent by (by apply agree_session). simpl. split.
    - intros k q. rewrite !on_tunnel_serves. simpl. rewrite allows_add_keys. naive_solver.
    - eexists. split; [done|]. intros [c' msg]. rewrite list_elem_of_omap. split.
      + intros ([k o] & Hin & Heq). rewrite dash_iter_perm in Hin.
        apply elem_of_map_to_list in Hin. simpl in Heq. unfold conn_of in *. simpl in Heq.
        exists k, o. destruct (_ ≫= _) as [c|] eqn:Hc; [|done]. exists c. naive_solver.
      + intros (k & o & c & Ho & Hc & ->). exists (k, o). split.
        * rewrite dash_iter_perm. by apply elem_of_map_to_list.
        * unfold conn_of in *. simpl. by rewrite Hc. }
  unfold Daemon.grantees. destruct all.
  - destruct (Session.peer_keys (session m)) as [|k0 ks] eqn:Hks.
    + right. split; [done|]. by eexists.
    + left. split; [done|]. exists (k0 :: ks). split; [done|]. apply Hok.
  - specialize (Hcol to). destruct (collect_results _) as [ks|e].
    + left. split; [done|]. exists ks. split; [done|]. apply Hok.
    + right. split; [done|]. by exists e.
Qed.

(** ** Connection loops *)

(** C21: The loop of a forgotten peer ends, and never dials.  Once an object is
    marked removed, has no connection and a permit to wake its loop (what
    [forget] leaves), a loop that is not in the middle of a dial, and whose
    connection, if it runs one, is closed, takes at most three more steps, in
    none of which it starts a dial or installs a connection; and some sequence
    of inputs, none of them a dial, lets it exit. *)
Theorem evicted_loop_exits (cfg : Config K) (m : PeerManager K) (o : ObjId) (p : Peer K)
    (pc : Loop.Pc (K:=K)) (b : Backoff.Backoff) :
  objects m !! o = Some p → flags p = (true, true, dial p, None) →
  match pc with
  | Loop.Dialing | Loop.Panicked => False
  | Loop.Running c => live m c = false
  | _ => True
  end →
  (∀ inputs st m', Loop.run cfg o (pc, b) inputs m = Some (st, m') →
     length inputs ≤ 3 ∧ st.1 ≠ Loop.Dialing ∧ conn_of o m' = None) ∧
  (∃ inputs b' m', Loop.run cfg o (pc, b) inputs m = Some ((Loop.Exited, b'), m') ∧
     Forall (λ i, i = Loop.Go ∨ i = Loop.ConnFailed ∨ i = Loop.Woken) inputs).
Proof.
  intros Hp Hf Hpc. unfold flags in Hf. injection Hf as Hr Hn Hc. split.
  - intros inputs st m' Hrun.
    assert (Hpark : parked o m pc) by (split; [by exists p|by destruct pc]).
    destruct (parked_run _ _ _ _ _ _ _ _ Hpark Hrun) as (? & ? & ?). split_and!; [|done..].
    assert (steps_left pc ≤ 3) by (destruct pc; simpl; lia). lia.
  - assert (Hp' : alter (put_notified false) o (objects m) !! o = Some (put_notified false p))
      by (by rewrite lookup_alter_eq, Hp).
    pose (inputs := match pc with
                    | Loop.Start => [Loop.Go; Loop.Go; Loop.Go]
                    | Loop.Top => [Loop.Go; Loop.Go]
                    | Loop.Running _ => [Loop.ConnFailed]
                    | Loop.AwaitNotify => [Loop.Woken]
                    | Loop.Sleeping => [Loop.Woken; Loop.Go; Loop.Go]
                    | Loop.Exited => []
                    | _ => [Loop.Go]
                    end : list (Loop.Input (K:=K))).
    exists inputs. destruct pc; try done; unfold inputs; simpl; unfold Loop.step, conn_of;
      repeat (rewrite ?Hp, ?Hp', ?Hr, ?Hn, ?Hc, ?Hpc; simpl);
      eexists _, _; (split; [reflexivity|]); rewrite ?Forall_cons, ?Forall_nil; naive_solver.
Qed.

(** C22: A connection loop never panics.  From its start, through any inputs
    the loop never reaches the overflow of its backoff, and whenever it waits
    to dial the delay is zero or between one and ten seconds. *)
Theorem loop_never_panics (cfg : Config K) (m m' : PeerManager K) (o : ObjId)
    (b : Backoff.Backoff) (inputs : list (Loop.Input (K:=K))) (st : Loop.State (K:=K)) :
  Loop.run cfg o (Loop.Start, b) inputs m = Some (st, m') →
  st.1 ≠ Loop.Panicked ∧
  (st.1 = Loop.Sleeping →
   Backoff.delay st.2 = 0%Z ∨ (Backoff.INITIAL <= Backoff.delay st.2 <= Backoff.MAX)%Z).
Proof.
  assert (Hgen : ∀ inputs pc b m st m',
    pc ≠ Loop.Panicked → (pc = Loop.Start ∨ Backoff.valid b) →
    Loop.run cfg o (pc, b) inputs m = Some (st, m') →
    st.1 ≠ Loop.Panicked ∧ (st.1 = Loop.Start ∨ Backoff.valid st.2)).
  { clear. intros inputs. induction inputs as [|i inputs IH]; intros pc b m st m' Hpc Hv; simpl.
    - by intros [= <- <-].
    - destruct (Loop.step cfg o (pc, b) i m) as [[[pc1 b1] m1]|] eqn:Hstep; [|done]. simpl.
      assert (Hnext : pc1 ≠ Loop.Panicked ∧ Backoff.valid b1).
      { unfold Loop.step in Hstep. destruct (objects m !! o) as [p|]; [|done]. simpl in Hstep.
        destruct valid_starts as [Hu Hc].
        assert (Hb : pc ≠ Loop.Start → Backoff.valid b) by (by destruct Hv).
        destruct pc, i; try done; try specialize (Hb ltac:(done));
          try (rewrite failed_valid in Hstep by done);
          repeat case_match; simplify_eq/=; (split; [done|]); auto with pai_sho.
        eapply failed_keeps_valid; [exact Hb|]. by apply failed_valid. }
      destruct Hnext. apply IH; auto. }
  intros Hrun. destruct (Hgen inputs Loop.Start b m st m') as [H1 H2]; [done|by left|done|].
  split; [done|]. intros Hst. destruct H2 as [H2|H2]; [congruence|exact H2].
Qed.

(** A dial in flight outlives its peer.  The loop does not look at
    [removed] when a dial returns: if the peer was forgotten meanwhile (its
    object removed, without a connection), the loop installs the new
    connection in the object, tells it the ports granted to it and goes on to
    run it, with the connection still open. *)
Theorem dial_in_flight_outlives_forget (cfg : Config K) (m : PeerManager K) (o : ObjId)
    (p : Peer K) (c : Conn K) (b : Backoff.Backoff) :
  objects m !! o = Some p → removed p = true → Dial.connection (slot p) = None →
  remote_id c = endpoint_id p → live m c = true →
  ∃ m', Loop.run cfg o (Loop.Dialing, b) [Loop.DialOk c; Loop.Go] m =
          Some ((Loop.Running c, Backoff.reset b), m') ∧
    conn_of o m' = Some c ∧ live m' c = true ∧
    (c, Protocol.ExposedPorts (Grants.ports_for (endpoint_id p) (Session.grants (session m))))
      ∈ sent m'.
Proof.
  intros Hp Hr Hc Hid Hlive. simpl. unfold Loop.step. rewrite Hp. simpl. rewrite decide_True by done.
  simpl. unfold Loop.dialed, install. rewrite Hp. unfold Dial.offer, Dial.held_is_live.
  rewrite Hc. simpl. set (m1 := upd o _ m).
  set (p1 := put_slot (Dial.mkSlot (Some c) true) p).
  assert (Hp1 : objects m1 !! o = Some p1)
    by (unfold m1; by rewrite objects_upd, decide_True, Hp by done).
  set (m2 := match enroll_token p with Some _ => _ | None => m1 end).
  assert (H2 : objects m2 = objects m1 ∧ session m2 = session m ∧ closed m2 = closed m)
    by (unfold m2; by destruct (enroll_token p)).
  clearbody m2. destruct H2 as (Ho2 & Hs2 & Hcl2).
  assert (Hp2 : objects m2 !! o = Some p1) by (by rewrite Ho2).
  rewrite (announce_to_sent o m2 p1) by done. simpl. rewrite Hp2. simpl.
  unfold conn_of at 1. simpl. rewrite Hp2. simpl.
  eexists. split; [reflexivity|]. unfold Loop.run_connection. simpl.
  assert (Hl2 : live m2 c = true) by (unfold live in *; by rewrite Hcl2).
  rewrite Hs2. destruct (enroll_token p); simpl.
  - unfold conn_of. simpl. rewrite Hp2. split_and!; [done|done|]. set_solver.
  - unfold send_version, send_to, conn_of. simpl. rewrite Hp2. simpl.
    split_and!; [by rewrite Hp2|done|]. set_solver.
Qed.

End peer_properties.

(** ** Concrete inputs *)
Section peer_witnesses.
Import Shell.

(** A code minted with port 22, then a stranger with key 9 calls and waits. *)
Definition inviting : list (Event (K:=N)) :=
  [EvRequest (Protocol.ReqInvite None (Some "desk") [22%Z]) [171%Z] 0%Z;
   EvConnection (mkConn 101%N 9%N)].

Definition invited : PeerManager N := foldl (step Toy.config Toy.parse_ip) Toy.start inviting.

Lemma enrollment_outcome_witness :
  let good := enroll_message Toy.config 1%Z (Some (Protocol.Enroll "ab" None)) 10%Z invited in
  let bad := enroll_message Toy.config 1%Z (Some (Protocol.Enroll "cd" None)) 10%Z invited in
  (∃ o p, peers good !! 9%N = Some o ∧ objects good !! o = Some p ∧ label p = Some "desk") ∧
  sent bad = sent invited ∧ closed bad !! 101%N = Some "not authorized".
Proof.
  intros good bad.
  assert (Hwt : waiting invited !! 1%Z = Some (mkWaiting (mkConn 101%N 9%N) None))
    by (by vm_compute).
  destruct (enrollment_outcome Toy.config invited 1%Z _ (Protocol.Enroll "ab" None) 10%Z Hwt)
    as [Hgood _].
  destruct (enrollment_outcome Toy.config invited 1%Z _ (Protocol.Enroll "cd" None) 10%Z Hwt)
    as [Hbad _].
  split.
  - assert (Hc : History.claims (session invited)
              (History.EvUnadmitted 1%Z 9%N (Protocol.Enroll "ab" None) 10%Z) =
            Some (9%N, Tokens.mkClaimed (Some "desk") [22%Z])) by (by vm_compute).
    cbv zeta in Hgood. simpl wait_conn in Hgood. simpl remote_id in Hgood. rewrite Hc in Hgood.
    destruct Hgood as (o & p & Ho & _ & Hp & _ & _ & _ & Hl & _).
    exists o, p. exact (conj Ho (conj Hp Hl)).
  - assert (Hc : History.claims (session invited)
              (History.EvUnadmitted 1%Z 9%N (Protocol.Enroll "cd" None) 10%Z) = None)
      by (by vm_compute).
    cbv zeta in Hbad. simpl wait_conn in Hbad. simpl remote_id in Hbad. rewrite Hc in Hbad.
    destruct Hbad as ((Hs & _) & _ & Hcl). split; [exact Hs|].
    etrans; [exact Hcl|]. by vm_compute.
Defined.

(** Peer 7 connected: it is both the client and, for the daemon, a known peer. *)
Definition connected_state : PeerManager N :=
  foldl (step Toy.config Toy.parse_ip) Toy.start [EvConnection (mkConn 100%N 7%N)].

Lemma tunnel_reaches_granted_port_witness :
  handle_bi_stream Toy.config 0%N ([31; 144] ++ [1; 2; 3])%Z connected_state =
  Forward Surface.LOCALHOST 8080%Z [1; 2; 3]%Z.
Proof.
  destruct (tunnel_reaches_granted_port Toy.config Toy.parse_ip connected_state connected_state
    0%N 0%N 7%N (mkConn 100%N 7%N) 8080%Z [31; 144]%Z [1; 2; 3]%Z
    (Toy.start_reachable _) ltac:(by vm_compute) ltac:(by vm_compute)
    ltac:(unfold u16_range; lia)) as (_ & _ & Hiff & _).
  apply Hiff. by vm_compute.
Defined.

Lemma expose_request_all_or_nothing_witness :
  let run to := Daemon.handle_request Toy.config Toy.parse_ip
                  (Protocol.ReqExpose 22%Z to false) [] 0%Z connected_state in
  (run ["7"; "nobody"]).1 = connected_state ∧
  Session.on_tunnel 7%N 22%Z (session (run ["7"]).1) = Session.ServeTunnel 22%Z.
Proof.
  intros run. split.
  - pose proof (expose_request_all_or_nothing Toy.config Toy.parse_ip connected_state 22%Z
      ["7"; "nobody"] false [] 0%Z (Toy.start_reachable _)) as H.
    fold (run ["7"; "nobody"]) in H.
    assert (Hr : match (run ["7"; "nobody"]).2 with
                 | Protocol.RespOk => false | _ => true end = true) by (vm_compute; reflexivity).
    destruct (run ["7"; "nobody"]) as [m' r]. cbn [fst snd] in *.
    destruct H as [[-> _]|[-> _]]; [discriminate|reflexivity].
  - pose proof (expose_request_all_or_nothing Toy.config Toy.parse_ip connected_state 22%Z
      ["7"] false [] 0%Z (Toy.start_reachable _)) as H.
    fold (run ["7"]) in H.
    assert (Hr : (run ["7"]).2 = Protocol.RespOk) by (vm_compute; reflexivity).
    destruct (run ["7"]) as [m' r]. cbn [fst snd] in *. subst r.
    destruct H as [(_ & ks & Hks & Hserve & _)|(_ & e & [=] & _)].
    apply Hserve. left. split; [|done].
    apply Forall2_cons_inv_l in Hks as (k & ks' & Hk & _ & ->).
    assert (Hk7 : Session.resolve_grantee "7" (session connected_state) = Ok 7%N)
      by (by vm_compute).
    rewrite Hk7 in Hk. injection Hk as <-. by left.
Defined.

Definition forgotten : PeerManager N := (remove_peer Toy.config "7" connected_state).1.

Lemma forgotten_object :
  ∃ p, objects forgotten !! 0%N = Some p ∧ flags p = (true, true, dial p, None) ∧
       endpoint_id p = 7%N.
Proof. eexists. split; [by vm_compute|]. by vm_compute. Qed.

Lemma evicted_loop_exits_witness :
  ∃ inputs b' m', Loop.run Toy.config 0%N (Loop.Sleeping, Backoff.connected) inputs forgotten =
                  Some ((Loop.Exited, b'), m').
Proof.
  destruct forgotten_object as (p & Hp & Hf & _).
  destruct (evicted_loop_exits Toy.config forgotten 0%N p Loop.Sleeping Backoff.connected Hp Hf I)
    as [_ (inputs & b' & m' & Hrun & _)]. by exists inputs, b', m'.
Defined.

Lemma loop_never_panics_witness :
  ∃ st m', Loop.run Toy.config 0%N (Loop.Start, Backoff.unreached)
             [Loop.Go; Loop.Go; Loop.Go; Loop.Go; Loop.TimerFired; Loop.DialFailed; Loop.Go]
             Toy.start = Some (st, m') ∧ st.1 ≠ Loop.Panicked.
Proof.
  destruct (Loop.run Toy.config 0%N (Loop.Start, Backoff.unreached)
             [Loop.Go; Loop.Go; Loop.Go; Loop.Go; Loop.TimerFired; Loop.DialFailed; Loop.Go]
             Toy.start) as [[st m']|] eqn:Hrun.
  - exists st, m'. split; [done|]. by destruct (loop_never_panics _ _ _ _ _ _ _ Hrun).
  - exfalso. apply (f_equal (λ x, match x with Some _ => true | None => false end)) in Hrun.
    vm_compute in Hrun. discriminate.
Defined.

Lemma dial_in_flight_outlives_forget_witness :
  ∃ m', Loop.run Toy.config 0%N (Loop.Dialing, Backoff.connected)
          [Loop.DialOk (mkConn 102%N 7%N); Loop.Go] forgotten =
          Some ((Loop.Running (mkConn 102%N 7%N), Backoff.reset Backoff.connected), m') ∧
        conn_of 0%N m' = Some (mkConn 102%N 7%N).
Proof.
  destruct forgotten_object as (p & Hp & Hf & Hid). unfold flags in Hf. injection Hf as Hr _ Hc.
  destruct (dial_in_flight_outlives_forget Toy.config forgotten 0%N p (mkConn 102%N 7%N)
    Backoff.connected Hp Hr Hc (eq_sym Hid) ltac:(by vm_compute)) as (m' & Hrun & Hconn & _).
  exists m'. exact (conj Hrun Hconn).
Defined.

End peer_witnesses.

(** Two codes strand an object.  A stranger that claims two codes on two
    connections it had open at once is admitted twice: the second claim
    replaces the object of the first in the map of peers.  Forgetting the key
    then reaches the second object alone: no peer is known, yet the first
    object is not removed, its loop still runs, and its connection is open. *)
Theorem second_code_strands_first_object :
  let es := [Shell.EvRequest (Protocol.ReqInvite None None []) [171%Z] 0%Z;
             Shell.EvRequest (Protocol.ReqInvite None None []) [205%Z] 0%Z;
             Shell.EvConnection (mkConn 101%N 9%N); Shell.EvConnection (mkConn 102%N 9%N);
             Shell.EvEnroll 1%Z (Some (Protocol.Enroll "ab" None)) 10%Z;
             Shell.EvEnroll 2%Z (Some (Protocol.Enroll "cd" None)) 10%Z;
             Shell.EvRequest (Protocol.ReqForget "9") [] 20%Z;
             Shell.EvRequest (Protocol.ReqForget "7") [] 20%Z] in
  let m := foldl (Shell.step Toy.config Toy.parse_ip) Toy.start es in
  peers m = ∅ ∧ 1%N ∈ loops m ∧
  (endpoint_id <$> objects m !! 1%N) = Some 9%N ∧ (removed <$> objects m !! 1%N) = Some false ∧
  conn_of 1%N m = Some (mkConn 101%N 9%N) ∧ live m (mkConn 101%N 9%N) = true ∧
  live m (mkConn 102%N 9%N) = false.
Proof.
  intros es m. split_and!; try (by vm_compute).
  apply (bool_decide_unpack _). by vm_compute.
Qed.
