(* ===== verification/DaemonProps.v ===== *)
(** * The daemon's start: properties

    The key file, and what a daemon remembers of its last run. *)

From S2P Require Import Prelude RustStr Keys Grants Dial Invite Store Enroll Protocol Session Surface Resolver Netstack Tunnel Peer PeerFacts PeerLoop Daemon Shell Bindings.
Import Peers.

(** ** Lemmas *)
Section start_lemmas.
Context {K : Type} `{EKL : EndpointKeyLaws K} `{DML : DashMapLaws}.
Context `{!JsonCodec Pins.Pin} `{!JsonCodec Surface.SurfaceRecord}.
Implicit Types (m : PeerManager K) (p : Peer K) (o : ObjId) (k : K).

(** The keys a list of pins names. *)
Definition names_key (ps : list Pins.Pin) k : Prop :=
  ∃ pin, pin ∈ ps ∧ parse_key (Pins.key pin) = Some k.

(** Every known peer was admitted by key. *)
Definition all_by_key m : Prop :=
  ∀ k a, Session.admission_of k (session m) = Some a → a = Session.Key.

Lemma add_pinned_keys key name m :
  Shell.agree m → all_by_key m →
  let m' := (add_pinned key name m).1 in
  (∀ k, is_Some (peers m' !! k) ↔ is_Some (peers m !! k) ∨ parse_key key = Some k) ∧
  all_by_key m' ∧ sent m' = sent m.
Proof.
  intros Hm Hall. unfold add_pinned. destruct (parse_key key) as [k0|] eqn:Hk;
    cbn [context ok_or]; [|split_and!; [naive_solver|done..]].
  destruct (peers m !! k0) as [o|] eqn:Ho; cbn [fst].
  - split_and!; [|done..]. intros k. split; [by left|]. intros [?|[= <-]]; [done|by eexists].
  - assert (Hs : Session.peers (session m) !! k0 = None).
    { apply eq_None_not_Some. rewrite <- (Shell.agree_keys _ Hm), Ho. by intros []. }
    unfold admit_known, Session.admit_known. rewrite Hs. split_and!; [..|done].
    + intros k. simpl. destruct (decide (k = k0)) as [->|Hne].
      * rewrite lookup_insert_eq. split; [by right|by eexists].
      * rewrite lookup_insert_ne by done. naive_solver.
    + intros k a. unfold Session.admission_of. simpl.
      destruct (decide (k = k0)) as [->|Hne].
      * rewrite lookup_insert_eq. by intros [= <-].
      * rewrite lookup_insert_ne by done. apply Hall.
Qed.

Lemma start_pins ps m :
  Shell.agree m → all_by_key m →
  let m' := foldl (λ m pin, (add_pinned (Pins.key pin) (Pins.label pin) m).1) m ps in
  (∀ k, is_Some (peers m' !! k) ↔ is_Some (peers m !! k) ∨ names_key ps k) ∧
  all_by_key m' ∧ Shell.agree m' ∧ sent m' = sent m.
Proof.
  revert m. induction ps as [|pin ps IH]; intros m Hm Hall; simpl.
  - split_and!; [|done..]. intros k. split; [by left|]. intros [?|(pin & Hin & _)]; [done|].
    by apply elem_of_nil in Hin.
  - destruct (add_pinned_keys (Pins.key pin) (Pins.label pin) m Hm Hall) as (Hk & Hall' & Hs).
    destruct (IH _ (agree_add_pinned (Pins.key pin) (Pins.label pin) m Hm) Hall')
      as (IHk & IHall & IHag & IHs).
    split_and!; [|done|done|by rewrite IHs, Hs].
    intros k. rewrite IHk, Hk. unfold names_key. setoid_rewrite elem_of_cons. naive_solver.
Qed.

(** Addresses can be claimed: on Linux, or with the TUN backend. *)
Definition claims_succeed (cfg : Config K) m : Prop :=
  os cfg = Surface.Linux ∨ is_Some (netstack m).

Lemma claim_succeeds cfg ip name m :
  claims_succeed cfg m → (claim_addr cfg ip name m).2 = Ok tt.
Proof.
  unfold claims_succeed, claim_addr. intros Hc. destruct (netstack m) as [ns|]; [done|].
  destruct Hc as [Hos|[? ?]]; [|done]. simpl. unfold Surface.ensure_addr, Surface.add_addr.
  rewrite Hos. by case_match.
Qed.

Definition record_of (rs : list Surface.SurfaceRecord) k (s : Surface) : Prop :=
  ∃ r, r ∈ rs ∧ parse_key (Surface.rec_key r) = Some k ∧
       s = Surface.mkSurface (Surface.rec_ip r) (Surface.rec_name r).

Lemma restore_one_surface cfg r m k o :
  Shell.agree m → claims_succeed cfg m → peers m !! k = Some o →
  surface_of o (restore_one cfg m r) =
  if decide (parse_key (Surface.rec_key r) = Some k)
  then Some (Surface.mkSurface (Surface.rec_ip r) (Surface.rec_name r)) else surface_of o m.
Proof.
  intros Hm Hc Ho. unfold restore_one.
  destruct (parse_key (Surface.rec_key r)) as [k'|] eqn:Hk'; [|done].
  destruct (peers m !! k') as [o'|] eqn:Ho'.
  - pose proof (claim_succeeds cfg (Surface.rec_ip r) (Surface.rec_name r) m Hc) as Hok.
    pose proof (bframe_claim cfg (Surface.rec_ip r) (Surface.rec_name r) m) as Hf.
    pose proof (is_Some_objects_frame _ _ o
                  (frame_claim cfg (Surface.rec_ip r) (Surface.rec_name r) m)) as Hobj.
    destruct (claim_addr _ _ _ _) as [m2 [[]|]]; [|done]. simpl in Hf, Hobj.
    rewrite surface_of_upd. destruct (decide (k' = k)) as [->|Hne].
    + rewrite Ho in Ho'. injection Ho' as <-. rewrite !decide_True by done.
      destruct (Shell.agree_objects _ Hm _ _ Ho) as (p & Hp & _).
      destruct (proj2 Hobj) as [p2 Hp2]; [by eexists|]. by rewrite Hp2.
    + rewrite (decide_False (P := Some k' = Some k)) by congruence.
      rewrite decide_False; [apply Hf|]. intros ->. apply Hne. by eapply agree_inj.
  - rewrite decide_False; [done|]. intros [= ->]. congruence.
Qed.

Lemma frame_restore_one cfg r m : frame m (restore_one cfg m r).
Proof.
  unfold restore_one. destruct (parse_key _) as [id|]; [|done]. destruct (peers m !! id); [|done].
  pose proof (frame_claim cfg (Surface.rec_ip r) (Surface.rec_name r) m) as H2.
  destruct (claim_addr _ _ _ _) as [m2 [[]|]]; simpl in H2; [|done].
  etrans; [exact H2|]. by apply frame_upd.
Qed.

(** Distinct records are for distinct peers, so each peer gets its own. *)
Lemma restore_surfaces_exact cfg rs m k o s :
  Shell.agree m → claims_succeed cfg m → peers m !! k = Some o → surface_of o m = None →
  NoDup ((λ r, parse_key (K:=K) (Surface.rec_key r)) <$> rs) →
  surface_of o (foldl (restore_one cfg) m rs) = Some s ↔ record_of rs k s.
Proof.
  intros Hm Hc Ho Hnone Hnd.
  assert (Hgen : ∀ m, Shell.agree m → claims_succeed cfg m → peers m !! k = Some o →
    (surface_of o (foldl (restore_one cfg) m rs) = Some s ↔
     record_of rs k s ∨ (surface_of o m = Some s ∧
       ∀ r, r ∈ rs → parse_key (Surface.rec_key r) ≠ Some k))).
  { clear m Hm Hc Ho Hnone. induction rs as [|r rs IH]; intros m Hm Hc Ho; simpl.
    - split; [intros Hs; right; split; [done|by intros ? ?%elem_of_nil]|].
      intros [(r & Hin & _)|[? _]]; [by apply elem_of_nil in Hin|done].
    - csimpl in Hnd. apply NoDup_cons in Hnd as [Hr Hnd].
      pose proof (frame_restore_one cfg r m) as Hf.
      rewrite (IH Hnd); [|by eapply frame_agree| |by rewrite (frame_peers _ _ Hf)].
      2: { destruct Hc as [?|?]; [by left|right]. by apply (frame_netstack _ _ Hf). }
      rewrite (restore_one_surface cfg r m k o Hm Hc Ho). unfold record_of.
      setoid_rewrite elem_of_cons. case_decide as Hk; [|naive_solver].
      assert (Hno : ∀ r', r' ∈ rs → parse_key (Surface.rec_key r') ≠ Some k).
      { intros r' Hin Hk'. apply Hr. rewrite Hk, <- Hk'.
        by apply (list_elem_of_fmap_2 (λ r, parse_key (Surface.rec_key r))). }
      naive_solver. }
  rewrite (Hgen m Hm Hc Ho), Hnone. naive_solver.
Qed.

(** Loading pins grants nothing and leaves the surface records. *)
Lemma load_pins_keeps (ps : list Pins.Pin) m :
  let m' := foldl (λ m pin, (add_pinned (Pins.key pin) (Pins.label pin) m).1) m ps in
  surfaces m' = surfaces m ∧ Session.grants (session m') = Session.grants (session m).
Proof.
  simpl. revert m. induction ps as [|pin ps IH]; intros m; simpl; [done|].
  destruct (IH (add_pinned (Pins.key pin) (Pins.label pin) m).1) as [-> ->].
  unfold add_pinned. repeat case_match; try done. simpl. unfold Session.admit_known.
  by repeat case_match.
Qed.

Lemma restore_sends_nothing cfg rs m : sent (foldl (restore_one cfg) m rs) = sent m.
Proof.
  revert m. induction rs as [|r rs IH]; intros m; simpl; [done|]. rewrite IH.
  unfold restore_one, claim_addr. by repeat (case_match; simplify_eq/=).
Qed.

End start_lemmas.

(** ** Properties *)
Section start_properties.
Context {K : Type} `{EKL : EndpointKeyLaws K} `{DML : DashMapLaws}.
Context `{!JsonCodec Pins.Pin} `{!JsonCodec Surface.SurfaceRecord}.

(** A daemon starts with what it was told to remember.  Where the pins can
    be read (and the surface records too, at most one per peer, on a system
    where addresses can be claimed), it knows exactly the peers whose pins
    carry a key, each admitted by key whatever admitted it in the last run; a
    peer is projected exactly as its surface record says, and not at all
    without one; and nothing is bound, sent or granted yet.  Pins that cannot
    be read stop the start. *)
Theorem restart_restores_pins_and_surfaces (cfg : Config K) (pins_file surfaces_file : Store.File)
    (ns : option NetStack.NetStack) (rs : list Surface.SurfaceRecord) :
  Surface.load surfaces_file = Ok rs →
  NoDup ((λ r, parse_key (K:=K) (Surface.rec_key r)) <$> rs) →
  os cfg = Surface.Linux ∨ is_Some ns →
  match Pins.load pins_file, Daemon.with_endpoint cfg pins_file surfaces_file ns with
  | Ok ps, Ok m =>
      (∀ k, is_Some (peers m !! k) ↔ names_key ps k) ∧
      (∀ k, Session.admission_of k (session m) =
            if decide (is_Some (peers m !! k)) then Some Session.Key else None) ∧
      (∀ k o s, peers m !! k = Some o → surface_of o m = Some s ↔ record_of rs k s) ∧
      sockets m = ∅ ∧ sent m = [] ∧
      ∀ k port, Session.on_tunnel k port (session m) = Session.RejectTunnel Session.NotGranted
  | Err e, Err e' => e' = e
  | _, _ => False
  end.
Proof.
  intros Hrs Hnd Hc. unfold Daemon.with_endpoint.
  destruct (Pins.load pins_file) as [ps|e]; [|done].
  set (m0 := new pins_file surfaces_file ns : PeerManager K).
  assert (Hall0 : all_by_key m0).
  { intros k a. unfold Session.admission_of. simpl. by rewrite lookup_empty. }
  destruct (start_pins ps m0 (agree_new _ _ _) Hall0) as (Hk & Hall & Hag & Hsent).
  set (m1 := foldl _ m0 ps) in *.
  destruct (load_pins_keeps ps m0) as [Hsurf1 Hgr1]. fold m1 in Hsurf1, Hgr1.
  assert (Hb1 : bframe m0 m1) by (apply bframe_foldl; intros; apply bframe_add_pinned).
  assert (Hq1 : quiet m1).
  { eapply bframe_quiet; [exact Hb1|]. split; [|done]. intros o. unfold bindings_of. simpl.
    by rewrite lookup_empty. }
  unfold restore_surfaces. rewrite Hsurf1. simpl surfaces. rewrite Hrs.
  set (m2 := foldl (restore_one cfg) m1 rs).
  assert (Hf : frame m1 m2) by (apply frame_foldl; intros; apply frame_restore_one).
  assert (Hq2 : quiet m2).
  { pose proof (quiet_restore cfg m1 Hq1) as Hq. unfold restore_surfaces in Hq.
    rewrite Hsurf1 in Hq. simpl surfaces in Hq. by rewrite Hrs in Hq. }
  destruct Hf as [Hfp Hfs _ _ _ _ _]. rewrite Hfp, Hfs.
  split_and!.
  - intros k. rewrite Hk. simpl. rewrite lookup_empty. split; [by intros [[]|]|by right].
  - intros k. pose proof (Shell.agree_keys _ Hag k) as Hkk.
    destruct (Session.admission_of k (session m1)) as [a|] eqn:Ha.
    + rewrite (Hall k a Ha), decide_True; [done|]. apply Hkk. unfold Session.admission_of in Ha.
      by destruct (Session.peers (session m1) !! k).
    + rewrite decide_False; [done|]. rewrite Hkk. intros [x Hx].
      unfold Session.admission_of in Ha. by rewrite Hx in Ha.
  - intros k o s Ho. apply restore_surfaces_exact; try done.
    + destruct Hc as [?|[n Hn]]; [by left|right]. apply (bframe_netstack _ _ Hb1).
      simpl. by eexists.
    + rewrite (bframe_surface _ _ Hb1). unfold surface_of. simpl. by rewrite lookup_empty.
  - apply Hq2.
  - unfold m2. by rewrite restore_sends_nothing, Hsent.
  - intros k port. unfold Session.on_tunnel. rewrite Hgr1. simpl.
    unfold Grants.allows. simpl. by rewrite lookup_empty.
Qed.

(** The daemon keeps its key.  An existing key file is never written: 32
    bytes are the key, any other length and an unreadable file are errors.  A
    missing one is created with the generated key, and every later start,
    whatever it would generate, loads that key; if it cannot be created the
    start fails and the file stays missing. *)
Theorem key_file_keeps_key (generated generated' : bytes) (f : Store.File) :
  length generated = 32 →
  let '(f', r) := Daemon.load_or_create_key generated f in
  match Store.contents f with
  | Some data =>
      f' = f ∧ (r = Ok data ↔ Store.can_read f = true ∧ length data = 32) ∧
      (Store.can_read f = false ∨ length data ≠ 32 → is_ok r = false)
  | None =>
      if is_ok r
      then r = Ok generated ∧ Store.contents f' = Some generated ∧
           (Store.can_read f = true → Daemon.load_or_create_key generated' f' = (f', Ok generated))
      else f' = f
  end.
Proof.
  intros Hlen. unfold Daemon.load_or_create_key.
  destruct (Store.contents f) as [data|] eqn:Hd.
  - destruct (Store.can_read f) eqn:Hr; [case_decide|]; simpl; naive_solver.
  - destruct (match Store.parent f with Some _ => _ | None => _ end) as [[]|e]; simpl; [|done].
    destruct (Store.can_write f); simpl; [|done]. split_and!; [done..|].
    intros ->. by rewrite decide_True.
Qed.

End start_properties.

(** ** Concrete inputs *)
Section start_witnesses.

(** The files a daemon leaves that pinned peer 9, which a code admitted. *)
Definition pinned_files : Store.File * Store.File :=
  ((Pins.add "9" (Some "desk") (Toy.file "peers")).1,
   (Surface.add "9" (Surface.V4 127 0 1 2) (Some "desk") (Toy.file "surfaces")).1).

Lemma restart_restores_pins_and_surfaces_witness :
  ∃ m, Daemon.with_endpoint Toy.config pinned_files.1 pinned_files.2 None = Ok m ∧
       is_Some (peers m !! 9%N) ∧
       Session.admission_of 9%N (session m) = Some Session.Key.
Proof.
  assert (Hrs : Surface.load pinned_files.2 =
    Ok [Surface.mkSurfaceRecord "9" (Surface.V4 127 0 1 2) (Some "desk")])
    by (vm_compute; reflexivity).
  assert (Hps : Pins.load pinned_files.1 = Ok [Pins.mkPin "9" (Some "desk")])
    by (vm_compute; reflexivity).
  pose proof (restart_restores_pins_and_surfaces (K:=N) Toy.config pinned_files.1 pinned_files.2
    None _ Hrs ltac:(apply NoDup_singleton) (or_introl eq_refl)) as H.
  rewrite Hps in H.
  destruct (Daemon.with_endpoint Toy.config pinned_files.1 pinned_files.2 None) as [m|e]; [|done].
  destruct H as (Hk & Ha & _). exists m.
  assert (H9 : is_Some (peers m !! 9%N)).
  { apply Hk. exists (Pins.mkPin "9" (Some "desk")). split; [by left|vm_compute; reflexivity]. }
  split; [reflexivity|]. split; [exact H9|]. rewrite Ha. by rewrite decide_True.
Defined.

Lemma key_file_keeps_key_witness :
  let f := Toy.file "key" in
  let f' := (Daemon.load_or_create_key (repeat 7%Z 32) f).1 in
  Daemon.load_or_create_key (repeat 8%Z 32) f' = (f', Ok (repeat 7%Z 32)).
Proof.
  intros f f'.
  pose proof (key_file_keeps_key (repeat 7%Z 32) (repeat 8%Z 32) f eq_refl) as H.
  destruct (Daemon.load_or_create_key (repeat 7%Z 32) f) as [f1 r] eqn:Hf.
  subst f'. vm_compute in Hf. injection Hf as <- <-. simpl in H. destruct H as (_ & _ & H).
  by apply H.
Defined.

End start_witnesses.
