(* ===== verification/Addresses.v ===== *)
(** * Addresses of surfaces

    The invariant [distinct]: no two known peers are projected at the same
    address.  [shrinks] is the preorder "projects nobody anew", which every
    operation satisfies but the three that allocate or restore an address. *)

From S2P Require Import Prelude RustStr Keys Grants Dial Invite Store Enroll Protocol Session Surface Resolver Netstack Tunnel Peer PeerFacts PeerLoop Daemon Shell Bindings.
Import Peers.

(** ** Lemmas *)
Section address_lemmas.
Context {K : Type} `{EKL : EndpointKeyLaws K} `{DML : DashMapLaws}.
Context `{!JsonCodec Pins.Pin} `{!JsonCodec Surface.SurfaceRecord}.
Implicit Types (m : PeerManager K) (p : Peer K) (o : ObjId) (k : K) (c : Conn K).

(** A known peer and its surface. *)
Definition projected m k o (s : Surface) : Prop :=
  peers m !! k = Some o ∧ surface_of o m = Some s.

Definition distinct m : Prop :=
  ∀ k k' o o' s s', projected m k o s → projected m k' o' s' →
    Surface.ip s = Surface.ip s' → o = o'.

Definition shrinks m m' : Prop := ∀ k o s, projected m' k o s → projected m k o s.

#[export] Instance shrinks_preorder : PreOrder shrinks.
Proof. split; [by intros m k o s|]. intros m1 m2 m3 H1 H2 k o s Hp. by apply H1, H2. Qed.

Lemma shrinks_distinct m m' : shrinks m m' → distinct m → distinct m'.
Proof. intros Hsh Hm k k' o o' s s' H1%Hsh H2%Hsh. by apply Hm with k k'. Qed.

Lemma shrinks_same m m' :
  peers m' = peers m → (∀ o, surface_of o m' = surface_of o m) → shrinks m m'.
Proof. intros Hp Hs k o s [H1 H2]. split; [by rewrite <- Hp|by rewrite <- Hs]. Qed.

Lemma shrinks_bframe m m' : peers m' = peers m → bframe m m' → shrinks m m'.
Proof. intros Hp Hf. apply shrinks_same; [done|apply Hf]. Qed.

Lemma shrinks_foldl {A} (f : PeerManager K → A → PeerManager K) (l : list A) m :
  (∀ m x, shrinks m (f m x)) → shrinks m (foldl f m l).
Proof.
  intros Hf. revert m. induction l as [|x l IH]; intros m; simpl; [done|].
  etrans; [apply Hf|apply IH].
Qed.

Lemma shrinks_clear o m : shrinks m (upd o (put_surface None) m).
Proof.
  intros k o' s [Hk Hs]. split; [done|]. rewrite surface_of_upd in Hs. case_decide; [|done].
  by destruct (objects m !! o).
Qed.

Lemma shrinks_spawn p m : surface p = None → shrinks m (spawn_peer p m).1.
Proof.
  intros Hsp k o s [Hk Hs]. unfold spawn_peer, surface_of in Hk, Hs. simpl in Hk, Hs.
  set (o0 := fresh (dom (objects m))) in *. apply lookup_insert_Some in Hk as [[_ <-]|[_ Hk]].
  - rewrite lookup_insert_eq in Hs. simpl in Hs. congruence.
  - split; [done|]. unfold surface_of.
    destruct (decide (o = o0)) as [->|Hne].
    + rewrite lookup_insert_eq in Hs. simpl in Hs. congruence.
    + by rewrite lookup_insert_ne in Hs.
Qed.

Lemma elem_of_projected_ips m k o s : projected m k o s → Surface.ip s ∈ projected_ips m.
Proof.
  intros [Hk Hs]. unfold projected_ips. apply list_elem_of_omap. exists (k, o).
  split; [|by simpl; rewrite Hs]. rewrite dash_iter_perm. by apply elem_of_map_to_list.
Qed.

(** Placing one peer where nobody else is. *)
Lemma place_distinct o s m :
  (∀ k' o' s', projected m k' o' s' → o' ≠ o → Surface.ip s' ≠ Surface.ip s) →
  distinct m → distinct (upd o (put_surface (Some s)) m).
Proof.
  intros Hfree Hm k k' o1 o2 s1 s2 [Hk1 Hs1] [Hk2 Hs2] Hip. simpl in Hk1, Hk2.
  rewrite surface_of_upd in Hs1, Hs2.
  destruct (objects m !! o) as [p|] eqn:Hp; simpl in Hs1, Hs2;
    destruct (decide (o1 = o)) as [->|H1], (decide (o2 = o)) as [->|H2]; simplify_eq; try done.
  - by destruct (Hfree k' o2 s2 (conj Hk2 Hs2) H2).
  - by destruct (Hfree k o1 s1 (conj Hk1 Hs1) H1).
  - by apply (Hm k k' o1 o2 s1 s2).
  - by apply (Hm k k' o1 o2 s1 s2).
Qed.

Lemma allocate_free m ip k o s :
  Surface.allocate (projected_ips m) (surface_base m) = Ok ip → projected m k o s →
  Surface.ip s ≠ ip.
Proof.
  intros Ha%allocate_not_taken Hp%elem_of_projected_ips <-. done.
Qed.

(** ** Each operation *)

Lemma distinct_surface_ip cfg o ports m :
  distinct m → distinct (surface_ip cfg o ports m).1.
Proof.
  intros Hm. unfold surface_ip. destruct (objects m !! o) as [p|]; [|done].
  destruct (surface p); [done|]. destruct ports; [done|].
  destruct (Surface.allocate _ _) as [ip|] eqn:Ha; [|done].
  set (name := Some _).
  pose proof (bframe_claim cfg ip name m) as Hb. pose proof (frame_claim cfg ip name m) as Hf.
  destruct (claim_addr cfg ip name m) as [m1 r]. cbn [fst] in Hb, Hf.
  assert (Hsh : shrinks m m1) by (apply shrinks_bframe; [apply Hf|done]).
  destruct r as [[]|]; [|by eapply shrinks_distinct].
  destruct (Surface.add _ _ _ _) as [f r]. cbn [fst].
  eapply shrinks_distinct; [by apply shrinks_same|]. apply place_distinct.
  - intros k' o' s' Hp%Hsh _. by eapply allocate_free.
  - by eapply shrinks_distinct.
Qed.

Lemma distinct_update_ports cfg o ports m :
  distinct m → distinct (update_peer_ports cfg o ports m).
Proof.
  intros Hm. unfold update_peer_ports. fold (release_stale o ports (exposed_of o m) m).
  destruct (release_stale_facts o ports (exposed_of o m) m) as (_ & Hs1 & _ & _).
  assert (Hf1 : frame m (release_stale o ports (exposed_of o m) m)).
  { apply frame_foldl. intros. case_decide; [done|]. apply frame_release. }
  set (m1 := release_stale _ _ _ m) in *.
  assert (H1 : distinct m1) by (eapply shrinks_distinct; [by apply shrinks_same; [apply Hf1|]|done]).
  pose proof (distinct_surface_ip cfg o ports m1 H1) as H2.
  assert (Hput : ∀ m', shrinks m' (upd o (put_exposed ports) m')).
  { intros m'. apply shrinks_same; [done|]. intros o'. rewrite surface_of_upd. unfold surface_of.
    case_decide; [subst|done]. by destruct (objects m' !! o). }
  destruct (surface_ip cfg o ports m1) as [m2 [ip|]]; cbn [fst] in H2;
    (eapply shrinks_distinct; [apply Hput|]); [|done].
  destruct (bind_missing_same cfg o ip ports m2) as (Hs & _ & _).
  eapply shrinks_distinct; [|exact H2]. apply shrinks_same; [|done].
  apply (frame_bind_missing cfg o ip ports m2).
Qed.

Lemma distinct_apply cfg o actions m : distinct m → distinct (apply cfg o actions m).
Proof.
  revert m. induction actions as [|a actions IH]; intros m Hm; [done|]. simpl. apply IH.
  destruct a; simpl; try done.
  - eapply shrinks_distinct; [|exact Hm].
    apply shrinks_bframe; [apply (frame_send_to o)|apply bframe_send_to].
  - by apply distinct_update_ports.
Qed.

Lemma shrinks_upd o f m : (∀ p, surface (f p) = surface p) → shrinks m (upd o f m).
Proof.
  intros Hf. apply shrinks_same; [done|]. intros o'. rewrite surface_of_upd. unfold surface_of.
  case_decide; [subst|done]. destruct (objects m !! o); simpl; [apply Hf|done].
Qed.

Lemma distinct_handle_connection cfg c m : distinct m → distinct (handle_connection cfg c m).
Proof.
  intros Hm. unfold handle_connection. destruct (Session.on_inbound _ _ _) as [s acts].
  set (m1 := set_session s _).
  assert (H1 : distinct m1) by (by eapply shrinks_distinct; [apply shrinks_same|]).
  clearbody m1. destruct acts as [|a acts]; [by eapply (shrinks_distinct m1); [apply shrinks_same|]|].
  destruct (peers m1 !! remote_id c) as [o|]; [|done].
  pose proof (bframe_install cfg o c false m1) as Hb.
  pose proof (frame_install cfg o c false m1) as Hf.
  destruct (install cfg o c false m1) as [m2 []]; cbn [fst] in Hf, Hb;
    assert (H2 : distinct m2) by (by eapply shrinks_distinct; [apply shrinks_bframe; [apply Hf|]|]);
    [|done].
  apply distinct_apply. eapply shrinks_distinct; [by apply shrinks_upd|].
  eapply shrinks_distinct; [by apply shrinks_upd|done].
Qed.

Lemma distinct_close c reason m : distinct m → distinct (close c reason m).
Proof.
  apply shrinks_distinct, shrinks_bframe; [apply (frame_close c reason)|apply bframe_close].
Qed.

Lemma distinct_verdict cfg id wt acts m : distinct m → distinct (enroll_verdict cfg id wt acts m).
Proof.
  intros Hm. unfold enroll_verdict. set (m1 := set_waiting _ m).
  assert (H1 : distinct m1) by (by eapply shrinks_distinct; [apply shrinks_same|]). clearbody m1.
  destruct (refusal_of acts); [by apply distinct_close|].
  destruct (existsb is_admit acts); [|by apply distinct_close].
  set (p := match early_version wt with Some _ => _ | None => _ end).
  pose proof (shrinks_spawn p m1) as Hsh. destruct (spawn_peer p m1) as [m2 o].
  apply distinct_apply. eapply shrinks_distinct; [apply Hsh|done]. unfold p.
  by destruct (early_version wt).
Qed.

Lemma shrinks_evict cfg k reason m : Shell.agree m → shrinks m (evict cfg k reason m).
Proof.
  intros Hagree. unfold evict.
  set (m1 := match peers m !! k with Some _ => _ | None => m end).
  assert (H1 : shrinks m m1).
  { unfold m1. destruct (peers m !! k) as [o|] eqn:Ho; [|done].
    destruct (Shell.agree_objects _ Hagree _ _ Ho) as (p & Hp & _).
    set (m0 := set_peers (delete k (peers m)) m).
    destruct (evict_object_facts cfg o reason m0) as (_ & Hs & Hother & _); [by eexists|].
    destruct (evict_object_frame cfg o reason m0) as [Hfp _ _ _ _ _ _].
    intros k' o' s [Hk' Hs']. rewrite Hfp in Hk'. simpl in Hk'.
    apply lookup_delete_Some in Hk' as [_ Hk']. split; [done|].
    destruct (decide (o' = o)) as [->|Hne]; [congruence|].
    destruct (Hother o' Hne) as [_ Heq]. by rewrite Heq in Hs'. }
  clearbody m1. etrans; [exact H1|]. destruct (Session.evict k (session m1)) as [s acts].
  set (m2 := set_session s m1).
  trans m2; [by apply shrinks_same|]. trans (foldl drop_pin m2 acts); [|by apply shrinks_same].
  apply shrinks_bframe; [apply (frame_drop_pins acts m2)|apply bframe_drop_pins].
Qed.

Lemma shrinks_clear_surface o m : shrinks m (clear_surface o m).
Proof.
  etrans; [|apply shrinks_clear]. destruct (release_all_same o (held_ports o m) m) as [Hs _].
  apply shrinks_same; [|done]. apply (frame_release_all o (held_ports o m) m).
Qed.

Lemma shrinks_unclaim cfg ip m : shrinks m (unclaim_addr cfg ip m).1.
Proof. apply shrinks_bframe; [apply (frame_unclaim cfg ip m)|apply bframe_unclaim]. Qed.

Lemma shrinks_unproject cfg ref m : shrinks m (unproject cfg ref m).1.
Proof.
  unfold unproject. destruct (resolve_peer ref m) as [id|]; [|done].
  destruct (peers m !! id) as [o|]; [|done]. destruct (surface_of o m) as [s|]; [|done].
  pose proof (shrinks_unclaim cfg (Surface.ip s) (clear_surface o m)) as H2.
  pose proof (shrinks_clear_surface o m) as H1.
  destruct (unclaim_addr _ _ _) as [m2 [[]|]]; cbn [fst] in *; [|by etrans].
  etrans; [exact H1|]. etrans; [exact H2|]. by apply shrinks_same.
Qed.

(** [project] without an address of the caller's choice. *)
Lemma distinct_project cfg ref name m :
  distinct m → distinct (project cfg ref None name m).1.
Proof.
  intros Hm. unfold project. destruct (resolve_peer ref m) as [id|]; [|done].
  destruct (peers m !! id) as [o|]; [|done].
  set (m1 := match surface_of o m with Some _ => _ | None => m end).
  assert (H1 : distinct m1).
  { unfold m1. destruct (surface_of o m) as [s|]; [|done]. eapply shrinks_distinct; [|exact Hm].
    etrans; [apply shrinks_clear_surface|apply shrinks_unclaim]. }
  clearbody m1. clear Hm. destruct (Surface.allocate _ _) as [ip|] eqn:Ha; [|done].
  set (n := match name with Some _ => _ | None => _ end).
  pose proof (bframe_claim cfg ip n m1) as Hb. pose proof (frame_claim cfg ip n m1) as Hf.
  destruct (claim_addr cfg ip n m1) as [m2 r]. cbn [fst] in Hb, Hf.
  assert (Hsh : shrinks m1 m2) by (apply shrinks_bframe; [apply Hf|done]).
  destruct r as [[]|]; [|by eapply shrinks_distinct].
  destruct (Surface.add _ _ _ _) as [f r]. cbn [fst].
  set (m3 := set_surfaces f _).
  destruct (bind_missing_same cfg o ip (exposed_of o m3) m3) as (Hs & _ & _).
  eapply shrinks_distinct; [by apply shrinks_same; [apply (frame_bind_missing cfg)|]|].
  eapply shrinks_distinct; [by apply shrinks_same|]. apply place_distinct.
  - intros k' o' s' Hp%Hsh _. by eapply allocate_free.
  - by eapply shrinks_distinct.
Qed.

Lemma shrinks_expose port to m : shrinks m (Daemon.expose port to m).
Proof.
  apply shrinks_bframe; [|apply bframe_expose].
  unfold Daemon.expose. by rewrite (frame_peers _ _ (frame_broadcast _)).
Qed.

Lemma shrinks_unexpose port to m : shrinks m (Daemon.unexpose port to m).
Proof.
  apply shrinks_bframe; [|apply bframe_unexpose].
  unfold Daemon.unexpose. by rewrite (frame_peers _ _ (frame_broadcast _)).
Qed.

Lemma shrinks_add_peer k name code m : shrinks m (add_peer k name code m).1.
Proof.
  unfold add_peer. destruct (peers m !! k); [done|]. cbn [fst].
  etrans; [|by apply shrinks_spawn]. by apply shrinks_same.
Qed.

Lemma shrinks_add_pinned key name m : shrinks m (add_pinned key name m).1.
Proof.
  unfold add_pinned. destruct (context _ _) as [k|]; [|done]. destruct (peers m !! k); [done|].
  etrans; [|by apply shrinks_spawn]. by apply shrinks_same.
Qed.

Lemma shrinks_invite cfg key name ports random now m :
  shrinks m (Daemon.invite cfg key name ports random now m).1.
Proof.
  unfold Daemon.invite. destruct key as [key|].
  - unfold pin_peer. pose proof (shrinks_add_pinned key name m) as H1.
    destruct (add_pinned key name m) as [m1 [[]|]]; cbn [fst] in *; [|done].
    assert (H2 : ∀ f, shrinks m1 (set_pins f m1)) by (intros; by apply shrinks_same).
    destruct (Pins.add _ _ _) as [f [[]|]]; cbn [fst snd]; [|by etrans].
    etrans; [exact H1|]. destruct (parse_key key); cbn [fst]; [|apply H2].
    etrans; [apply (H2 f)|]. apply shrinks_foldl. intros.
    apply shrinks_expose.
  - destruct (Session.mint_token _ _ _ _ _). by apply shrinks_same.
Qed.

(** ** Runs *)

(** Every event but a [project] to an address of the caller's choice. *)
Definition automatic (e : Shell.Event (K:=K)) : Prop :=
  match e with
  | Shell.EvRequest (Protocol.ReqProject _ (Some _) _) _ _ => False
  | _ => True
  end.

Lemma distinct_request cfg parse_ip req random now m :
  automatic (Shell.EvRequest req random now) → Shell.agree m → distinct m →
  distinct (Daemon.handle_request cfg parse_ip req random now m).1.
Proof.
  intros Hauto Hagree Hm. destruct req as [key name ps|handle name|peer|port to all|port to| | |
    peer [ip|] name|peer]; simpl; try done.
  - eapply shrinks_distinct; [apply shrinks_invite|done].
  - unfold Daemon.accept. destruct (Invite.from_str _) as [h|]; [|done].
    pose proof (shrinks_add_peer (Invite.handle_key h) name (Invite.handle_code h) m) as H1.
    by destruct (add_peer _ _ _ _) as [m1 [[]|]]; eapply shrinks_distinct.
  - unfold remove_peer. destruct (resolve_peer _ _) as [k|]; [|done].
    destruct (peers m !! k); [|done]. eapply shrinks_distinct; [by apply shrinks_evict|done].
  - destruct (Daemon.grantees _ _ _); [|done]. eapply shrinks_distinct; [apply shrinks_expose|done].
  - case_match; [|done]. eapply shrinks_distinct; [apply shrinks_unexpose|done].
  - pose proof (distinct_project cfg peer name m Hm) as H1.
    by destruct (project _ _ _ _ _) as [m1 [[]|]].
  - pose proof (shrinks_unproject cfg peer m) as H1.
    by destruct (unproject _ _ _) as [m1 [[]|]]; eapply shrinks_distinct.
Qed.

Lemma distinct_step cfg parse_ip m e :
  automatic e → Shell.agree m → distinct m → distinct (Shell.step cfg parse_ip m e).
Proof.
  intros Hauto Hagree Hm. destruct e; simpl.
  - by apply distinct_request.
  - by apply distinct_handle_connection.
  - unfold enroll_message. destruct (waiting m !! id) as [wt0|]; [|done].
    destruct msg as [msg|]; [|done]. destruct (Session.on_unadmitted _ _ _ _ _) as [s acts].
    destruct acts; [by eapply (shrinks_distinct m); [apply shrinks_same|]|].
    apply distinct_verdict. by eapply (shrinks_distinct m); [apply shrinks_same|].
  - unfold enroll_end. destruct (waiting m !! id) as [wt|]; [|done].
    destruct (Session.on_enroll_timeout _ _) as [s acts]. apply distinct_verdict.
    by eapply (shrinks_distinct m); [apply shrinks_same|].
  - unfold handle_uni_stream. destruct msg as [[ports| |token [v|]|]|]; try done.
    + by apply distinct_update_ports.
    + by eapply shrinks_distinct; [apply shrinks_upd|].
  - unfold Shell.with_object, Loop.run_connection. repeat case_match; try done.
    eapply shrinks_distinct; [apply shrinks_bframe|done];
      [apply (frame_send_to o)|apply bframe_send_to].
  - by eapply shrinks_distinct; [apply shrinks_upd|].
  - unfold Shell.with_object. case_match; [|done].
    eapply shrinks_distinct; [apply shrinks_bframe|done]; [apply frame_dialed|apply bframe_dialed].
  - by apply distinct_close.
  - eapply shrinks_distinct; [apply shrinks_same|done].
    + apply (frame_accept_failed o port m).
    + apply accept_failed_same.
Qed.

(** Restoring records of distinct addresses: [before] are those of the records
    restored already. *)
Lemma distinct_restore cfg (rs : list Surface.SurfaceRecord) (before : list IpAddr) m :
  NoDup (before ++ (Surface.rec_ip <$> rs)) →
  (∀ k o s, projected m k o s → Surface.ip s ∈ before) → distinct m →
  distinct (foldl (restore_one cfg) m rs).
Proof.
  revert before m. induction rs as [|r rs IH]; intros before m Hnd Hin Hm; simpl; [done|].
  apply (IH (before ++ [Surface.rec_ip r])); [by rewrite <- app_assoc| |]; clear IH;
    unfold restore_one; destruct (parse_key _) as [id|]; try (intros; set_solver); try done;
    destruct (peers m !! id) as [o|] eqn:Ho; try (intros; set_solver); try done;
    pose proof (bframe_claim cfg (Surface.rec_ip r) (Surface.rec_name r) m) as Hb;
    pose proof (frame_claim cfg (Surface.rec_ip r) (Surface.rec_name r) m) as Hf;
    destruct (claim_addr _ _ _ _) as [m1 res]; cbn [fst] in Hb, Hf;
    assert (Hsh : shrinks m m1) by (apply shrinks_bframe; [apply Hf|done]).
  - intros k' o' s' Hp. apply elem_of_app. destruct res as [[]|]; [|by left; eapply Hin, Hsh].
    destruct Hp as [Hk' Hs']. rewrite surface_of_upd in Hs'. case_decide; subst.
    + right. destruct (objects m1 !! o); simpl in Hs'; [|done]. injection Hs' as <-.
      by left.
    + left. by apply (Hin k' o'), Hsh.
  - assert (H1 : distinct m1) by (by eapply shrinks_distinct). destruct res as [[]|]; [|done].
    apply place_distinct; [|done]. intros k' o' s' Hp%Hsh _ Heq. simpl in Heq.
    apply NoDup_app in Hnd as (_ & Hnd & _). apply (Hnd (Surface.rec_ip r)); [|by left].
    rewrite <- Heq. by eapply Hin.
Qed.

Lemma distinct_start cfg texts ports f1 f2 ns m :
  Daemon.run cfg texts ports f1 f2 ns = Ok m →
  (∀ rs, Surface.load f2 = Ok rs → NoDup (Surface.rec_ip <$> rs)) → distinct m.
Proof.
  unfold Daemon.run, Daemon.with_endpoint. destruct (Pins.load f1) as [pinned|]; [|done].
  intros [= <-] Hnd. unfold Daemon.start_accepts.
  set (m0 := foldl _ (new _ _ _) pinned).
  assert (Hnone : ∀ k o s, ¬ projected m0 k o s).
  { intros k o s Hp. assert (Hsh : shrinks (new f1 f2 (Daemon.register_self cfg ns)) m0)
      by (apply shrinks_foldl; intros; apply shrinks_add_pinned).
    apply Hsh in Hp as [Hk _]. simpl in Hk. by rewrite lookup_empty in Hk. }
  assert (H0 : distinct m0) by (intros k k' o o' s s' Hp; by apply Hnone in Hp).
  assert (H1 : distinct (restore_surfaces cfg m0)).
  { unfold restore_surfaces. assert (surfaces m0 = f2) as ->; [|].
    - unfold m0. clear. generalize (new (K:=K) f1 f2 (Daemon.register_self cfg ns)) as m,
        (eq_refl : surfaces (new (K:=K) f1 f2 (Daemon.register_self cfg ns)) = f2).
      induction pinned as [|pin ps IH]; intros m Hm; [done|]. simpl. apply IH.
      unfold add_pinned. by repeat case_match.
    - destruct (Surface.load f2) as [rs|]; [|done].
      apply (distinct_restore cfg rs []); [by apply Hnd|by intros k o s Hp%Hnone|done]. }
  eapply shrinks_distinct; [|exact H1].
  etrans; [apply (shrinks_foldl (λ m port, Daemon.expose port (Invite.handle_key <$>
     Daemon.accept_handles texts) m) ports); intros; apply shrinks_expose|].
  set (m1 := foldl _ (restore_surfaces cfg m0) ports).
  etrans; [apply (shrinks_foldl (λ m h, (add_peer (Invite.handle_key h) None
     (Invite.handle_code h) m).1) (Daemon.accept_handles texts)); intros; apply shrinks_add_peer|].
  case_match; [done|]. apply shrinks_bframe; [apply (frame_broadcast _)|apply bframe_broadcast].
Qed.

End address_lemmas.
