(* ===== verification/SurfaceProps.v ===== *)
(** * Surfaces: properties

    What [project] and [unproject] do to a peer's surface, its bindings and its
    record, on every branch, and that addresses the daemon picks itself are
    never given out twice. *)

From S2P Require Import Prelude RustStr Keys Grants Backoff Dial Invite Store Enroll Protocol Session Surface Resolver Netstack Tunnel Peer PeerFacts PeerLoop Daemon Shell Bindings BindingProps PeerProps Addresses.
Import Peers.

(** ** Lemmas *)
Section surface_lemmas.
Context {K : Type} `{EKL : EndpointKeyLaws K} `{DML : DashMapLaws}.
Context `{!JsonCodec Pins.Pin} `{!JsonCodec Surface.SurfaceRecord}.
Implicit Types (m : PeerManager K) (p : Peer K) (o : ObjId) (k : K) (c : Conn K).

(** Everything about the other objects that [project] could disturb. *)
Definition others_kept o m m' : Prop :=
  ∀ o', o' ≠ o → bindings_of o' m' = bindings_of o' m ∧ surface_of o' m' = surface_of o' m.

Lemma others_kept_trans o m1 m2 m3 :
  others_kept o m1 m2 → others_kept o m2 m3 → others_kept o m1 m3.
Proof. intros H1 H2 o' Ho. destruct (H1 o' Ho) as [<- <-]. by apply H2. Qed.

Lemma others_kept_bframe o m m' : bframe m m' → others_kept o m m'.
Proof. intros Hf o' _. split; apply Hf. Qed.

Lemma others_kept_put o x m : others_kept o m (upd o (put_surface x) m).
Proof.
  intros o' Ho. rewrite bindings_of_upd, surface_of_upd. by rewrite !decide_False.
Qed.

Lemma others_kept_release o ports m : others_kept o m (release_all o ports m).
Proof.
  intros o' Ho. rewrite release_all_bindings, decide_False by done.
  split; [done|]. by destruct (release_all_same o ports m) as [-> _].
Qed.

Lemma others_kept_bind cfg o ip ports m :
  is_Some (objects m !! o) → others_kept o m (bind_missing cfg o ip ports m).
Proof.
  intros Hobj o' Ho. destruct (bind_missing_same cfg o ip ports m) as [-> _].
  split; [by apply bind_missing_others|done].
Qed.

Lemma bind_missing_files cfg o ip ports m :
  surfaces (bind_missing cfg o ip ports m) = surfaces m.
Proof.
  unfold bind_missing. revert m. induction ports as [|q ports IH]; intros m; simpl; [done|].
  rewrite IH. destruct (bindings_of o m !! q); [done|]. unfold bind_one, put_binding.
  by repeat case_match.
Qed.

Lemma silent_unclaim cfg ip m : silent m (unclaim_addr cfg ip m).1.
Proof. unfold unclaim_addr. by repeat case_match. Qed.

Lemma silent_release_all o ports m : silent m (release_all o ports m).
Proof. apply silent_foldl. intros. apply silent_release. Qed.

Lemma silent_clear_surface o m : silent m (clear_surface o m).
Proof. etrans; [apply silent_release_all|]. by apply silent_upd. Qed.

Lemma silent_bind_missing cfg o ip ports m : silent m (bind_missing cfg o ip ports m).
Proof. apply silent_foldl. intros. case_match; [done|]. apply silent_bind_one. Qed.

(** What a surface torn down leaves. *)
Lemma clear_unclaim_facts cfg o ip m :
  let m' := (unclaim_addr cfg ip (clear_surface o m)).1 in
  frame m m' ∧ silent m m' ∧ others_kept o m m' ∧
  bindings_of o m' = ∅ ∧ surface_of o m' = None ∧
  (∀ o', exposed_of o' m' = exposed_of o' m) ∧ surfaces m' = surfaces m.
Proof.
  simpl. pose proof (bframe_unclaim cfg ip (clear_surface o m)) as Hb.
  assert (H1 : others_kept o m (clear_surface o m)).
  { eapply others_kept_trans; [apply others_kept_release|apply others_kept_put]. }
  destruct (upd_surface_same o None (release_all o (held_ports o m) m) o) as [Hbo _].
  split_and!.
  - etrans; [apply frame_clear_surface|apply frame_unclaim].
  - etrans; [apply silent_clear_surface|apply silent_unclaim].
  - eapply others_kept_trans; [exact H1|by apply others_kept_bframe].
  - rewrite (bframe_bindings _ _ Hb). unfold clear_surface. rewrite Hbo. apply release_held.
  - rewrite (bframe_surface _ _ Hb). unfold clear_surface. rewrite surface_of_upd.
    rewrite decide_True by done. by destruct (objects (release_all _ _ _) !! o).
  - intros o'. rewrite (bframe_exposed _ _ Hb). unfold clear_surface.
    destruct (upd_surface_same o None (release_all o (held_ports o m) m) o') as [_ ->].
    by destruct (release_all_same o (held_ports o m) m) as [_ ->].
  - destruct (unclaim_objects cfg ip (clear_surface o m)) as (_ & _ & ->).
    unfold clear_surface. simpl. by destruct (release_all_files o (held_ports o m) m).
Qed.

(** The peer of [project] once its old surface is gone. *)
Definition torn_down o m m' : Prop :=
  frame m m' ∧ silent m m' ∧ others_kept o m m' ∧
  bindings_of o m' = ∅ ∧ surface_of o m' = None ∧
  (∀ o', exposed_of o' m' = exposed_of o' m) ∧ surfaces m' = surfaces m ∧ (inv m → inv m').

Lemma torn_down_old cfg o m :
  inv m → torn_down o m (match surface_of o m with
                         | Some old => (unclaim_addr cfg (Surface.ip old) (clear_surface o m)).1
                         | None => m
                         end).
Proof.
  intros Hm. destruct (surface_of o m) as [old|] eqn:Hs.
  - destruct (clear_unclaim_facts cfg o (Surface.ip old) m) as (? & ? & ? & ? & ? & ? & ?).
    split_and!; try done. intros _. eapply bframe_inv; [apply bframe_unclaim|].
    by apply inv_clear_surface.
  - split_and!; try done. apply unprojected_unbound; [apply Hm|done].
Qed.

Lemma torn_down_claim cfg o ip name m m' :
  torn_down o m m' → torn_down o m (claim_addr cfg ip name m').1.
Proof.
  intros (Hf & Hs & Ho & Hb & Hsu & He & Hfi & Hi).
  pose proof (bframe_claim cfg ip name m') as Hc. split_and!.
  - etrans; [exact Hf|apply frame_claim].
  - etrans; [exact Hs|apply silent_claim].
  - eapply others_kept_trans; [exact Ho|by apply others_kept_bframe].
  - by rewrite (bframe_bindings _ _ Hc).
  - by rewrite (bframe_surface _ _ Hc).
  - intros o'. by rewrite (bframe_exposed _ _ Hc).
  - rewrite <- Hfi. unfold claim_addr. by repeat case_match.
  - intros Hm. eapply bframe_inv; [exact Hc|by apply Hi].
Qed.

(** The end of [project]: the surface is placed, recorded and bound. *)
Lemma placed_facts cfg o s f m m2 :
  is_Some (objects m !! o) → torn_down o m m2 →
  let m3 := set_surfaces f (upd o (put_surface (Some s)) m2) in
  let m' := bind_missing cfg o (Surface.ip s) (exposed_of o m3) m3 in
  frame m m' ∧ silent m m' ∧ others_kept o m m' ∧ surface_of o m' = Some s ∧
  (∀ o', exposed_of o' m' = exposed_of o' m) ∧ surfaces m' = f ∧
  (bound m' → ∀ port, port ∈ exposed_of o m → bound_or_refused cfg m' o (Surface.ip s) port).
Proof.
  intros Hobj (Hf & Hs & Ho & Hb & _ & He & Hfi & Hi) m3 m'.
  assert (Hobj2 : is_Some (objects m2 !! o)) by (by apply (is_Some_objects_frame m)).
  assert (Hobj3 : is_Some (objects m3 !! o)).
  { unfold m3. simpl. rewrite lookup_alter_eq. by apply fmap_is_Some. }
  assert (Hs3 : surface_of o m3 = Some s).
  { change (surface_of o m3) with (surface_of o (upd o (put_surface (Some s)) m2)).
    rewrite surface_of_upd, decide_True by done. by destruct Hobj2 as [p ->]. }
  assert (He3 : ∀ o', exposed_of o' m3 = exposed_of o' m).
  { intros o'. rewrite <- He. by destruct (upd_surface_same o (Some s) m2 o') as [_ H2]. }
  destruct (bind_missing_same cfg o (Surface.ip s) (exposed_of o m3) m3) as (Hbs & Hbe & _).
  split_and!.
  - etrans; [exact Hf|]. trans m3; [|apply frame_bind_missing].
    trans (upd o (put_surface (Some s)) m2); [by apply frame_upd|by split].
  - etrans; [exact Hs|]. trans m3; [|apply silent_bind_missing].
    trans (upd o (put_surface (Some s)) m2); [by apply silent_upd|by split].
  - eapply others_kept_trans; [exact Ho|].
    eapply others_kept_trans; [|by apply others_kept_bind].
    eapply others_kept_trans; [apply others_kept_put|].
    by apply others_kept_bframe, bframe_set_surfaces.
  - unfold m'. by rewrite Hbs.
  - intros o'. unfold m'. by rewrite Hbe, He3.
  - unfold m'. by rewrite bind_missing_files.
  - intros Hm' port Hin. apply (bound_or_refused_intro cfg m3); [done|by rewrite Hbs| |].
    + apply (frame_netstack _ _ (frame_bind_missing cfg o (Surface.ip s) (exposed_of o m3) m3)).
    + apply bind_missing_outcome; [done|by rewrite He3|].
      destruct (upd_surface_same o (Some s) m2 o) as [Heq _].
      change (bindings_of o m3) with (bindings_of o (upd o (put_surface (Some s)) m2)).
      by rewrite Heq, Hb.
Qed.

(** Adding a record to a file that can be written. *)
Lemma store_add_load {R} `{JsonCodecLaws R} (rkey : R → string) (r : R) (f : Store.File) l :
  Store.load f = Ok l → Store.working f →
  Store.load (Store.add rkey r f).1 = Ok (filter (λ x, rkey x ≠ rkey r) l ++ [r]).
Proof.
  intros Hl Hw. unfold Store.add. rewrite Hl.
  destruct (load_save (filter (λ x, rkey x ≠ rkey r) l ++ [r]) f Hw) as (f' & Hsave & _ & Hload).
  unfold Store.retain_other. by rewrite Hsave.
Qed.

End surface_lemmas.

(** ** Properties *)
Section surface_properties.
Context {K : Type} `{EKL : EndpointKeyLaws K} `{DML : DashMapLaws}.
Context `{!JsonCodec Pins.Pin} `{!JsonCodec Surface.SurfaceRecord}.

(** C31: [project] moves a peer.  In every reachable state, projecting a
    known peer changes no other peer, sends nothing and touches no connection
    or grant.  When it succeeds, the peer has the address asked for, or one
    no other known peer has; the name asked for, or else its label; a record of
    both on disk in place of any earlier one; no port that it did not announce is
    bound; and every one it announced is bound there, on a socket the process
    listens on or with the TUN backend, or else the system refused every attempt
    to bind it.  When it fails, the peer is left without a surface and without
    bindings, while an earlier record stays. *)
Theorem project_moves_surface `{!JsonCodecLaws Surface.SurfaceRecord} (cfg : Config K)
    (parse_ip : string → option IpAddr) (m : PeerManager K) (ref : string) (k : K) (o : ObjId)
    (ip : option IpAddr) (name : option string) (rs : list Surface.SurfaceRecord) :
  exclusive cfg → Shell.reachable cfg parse_ip m →
  resolve_peer ref m = Some k → peers m !! k = Some o →
  Surface.load (surfaces m) = Ok rs → Store.working (surfaces m) →
  let '(m', r) := project cfg ref ip name m in
  peers m' = peers m ∧ session m' = session m ∧ sent m' = sent m ∧ closed m' = closed m ∧
  conn_of o m' = conn_of o m ∧ exposed_of o m' = exposed_of o m ∧ others_kept o m m' ∧
  match r with
  | Ok _ => ∃ s, surface_of o m' = Some s ∧
      match ip with
      | Some ip => Surface.ip s = ip
      | None => ∀ k' o' s', peers m !! k' = Some o' → o' ≠ o → surface_of o' m = Some s' →
                            Surface.ip s' ≠ Surface.ip s
      end ∧
      Surface.name s = match name with
                       | Some n => Some n
                       | None => Session.label_of k (session m)
                       end ∧
      Surface.load (surfaces m') =
        Ok (filter (λ r, Surface.rec_key r ≠ to_string k) rs ++
            [Surface.mkSurfaceRecord (to_string k) (Surface.ip s) (Surface.name s)]) ∧
      (∀ port, is_Some (bindings_of o m' !! port) → port ∈ exposed_of o m) ∧
      (∀ port, port ∈ exposed_of o m → bound_or_refused cfg m' o (Surface.ip s) port)
  | Err _ => surface_of o m' = None ∧ bindings_of o m' = ∅ ∧ surfaces m' = surfaces m
  end.
Proof.
  intros Hex Hreach Href Ho Hrs Hrw.
  pose proof (inv_reachable cfg parse_ip m Hex Hreach) as Hinv.
  pose proof (agree_reachable cfg parse_ip m Hreach) as Hagree.
  pose proof (inv_project cfg ref ip name m Hex Hagree Hinv) as Hinv'.
  destruct (Shell.agree_objects _ Hagree _ _ Ho) as (p & Hp & _ & Hlab & _).
  assert (Hobj : is_Some (objects m !! o)) by (by eexists).
  revert Hinv'. unfold project. rewrite Href, Ho.
  set (m1 := match surface_of o m with Some _ => _ | None => m end).
  assert (H1 : torn_down o m m1) by (by apply torn_down_old).
  assert (Hl1 : (p ← objects m1 !! o; label p) = Session.label_of k (session m)).
  { pose proof (frame_identity _ _ (proj1 H1) o) as Hi. rewrite Hp in Hi. rewrite <- Hlab.
    destruct (objects m1 !! o); [|done]. by injection Hi. }
  clearbody m1. rewrite Hl1. intros Hinv'.
  assert (Hfail : ∀ m2, torn_down o m m2 →
    (peers m2 = peers m ∧ session m2 = session m ∧ sent m2 = sent m ∧ closed m2 = closed m ∧
     conn_of o m2 = conn_of o m ∧ exposed_of o m2 = exposed_of o m ∧ others_kept o m m2 ∧
     surface_of o m2 = None ∧ bindings_of o m2 = ∅ ∧ surfaces m2 = surfaces m)).
  { intros m2 (Hf & Hs & ? & ? & ? & ? & ? & _).
    split_and!; try done; try apply Hf; try apply Hs. by apply silent_conn. }
  destruct (match ip with Some _ => _ | None => _ end) as [a|e] eqn:Ha; [|by apply Hfail].
  set (n := match name with Some _ => _ | None => _ end) in *.
  pose proof (torn_down_claim cfg o a n m m1 H1) as H2.
  destruct (claim_addr cfg a n m1) as [m2 [[]|e]]; cbn [fst] in H2; [|by apply Hfail].
  pose proof (store_add_load Surface.rec_key (Surface.mkSurfaceRecord (to_string k) a n)
                (surfaces m) rs Hrs Hrw) as Hadd.
  assert (Hfiles : surfaces m2 = surfaces m) by (apply H2). revert Hinv'.
  change (surfaces (upd o _ m2)) with (surfaces m2). rewrite Hfiles. unfold Surface.add.
  destruct (Store.add _ _ _) as [f res]. cbn [fst] in Hadd |- *.
  set (s := Surface.mkSurface a n). intros [Hbd Hann].
  destruct (placed_facts cfg o s f m m2 Hobj H2) as (Hf & Hs & Hot & Hsu & He & Hfi & Hall).
  split_and!; [apply Hf|apply Hf|apply Hs|apply Hs|by apply silent_conn|apply He|exact Hot|].
  exists s. split_and!; [exact Hsu| |done| | |by apply Hall].
  - destruct ip as [ip|]; [by injection Ha|]. intros k' o' s' Hk' Hne Hs'.
    apply (allocate_free m1 a k' o'); [done|]. destruct H1 as (Hf1 & _ & Ho1 & _).
    split; [by rewrite (frame_peers _ _ Hf1)|]. by destruct (Ho1 o' Hne) as [_ ->].
  - unfold Surface.load. etrans; [apply f_equal, Hfi|exact Hadd].
  - intros port Hb. rewrite <- He. by apply Hann.
Qed.

(** [unproject] takes a peer's reach away and nothing else.  In
    every reachable state, unprojecting a known peer leaves every other peer,
    every connection, every message sent and every grant as it was, and the
    peer's announced ports still listed.  A peer without a surface is refused and
    nothing changes.  Otherwise its surface and all its bindings are gone and
    exactly the sockets that served it are closed; its record is deleted, or,
    where the address could not be removed from the system, kept while the
    failure is reported. *)
Theorem unproject_only_unprojects `{!JsonCodecLaws Surface.SurfaceRecord} (cfg : Config K)
    (parse_ip : string → option IpAddr) (m : PeerManager K) (ref : string) (k : K) (o : ObjId)
    (rs : list Surface.SurfaceRecord) :
  exclusive cfg → Shell.reachable cfg parse_ip m →
  resolve_peer ref m = Some k → peers m !! k = Some o →
  Surface.load (surfaces m) = Ok rs → Store.working (surfaces m) →
  let '(m', r) := unproject cfg ref m in
  peers m' = peers m ∧ session m' = session m ∧ sent m' = sent m ∧ closed m' = closed m ∧
  conn_of o m' = conn_of o m ∧ exposed_of o m' = exposed_of o m ∧ others_kept o m m' ∧
  match surface_of o m with
  | None => m' = m ∧ r = Err ("peer " +:+ ref +:+ " is not projected")
  | Some s =>
      surface_of o m' = None ∧ bindings_of o m' = ∅ ∧
      (∀ ip q, (ip, q) ∈ sockets m' ↔
         (ip, q) ∈ sockets m ∧ ∀ port, bindings_of o m !! port ≠ Some (Listener ip q)) ∧
      Surface.load (surfaces m') =
        Ok (match r with
            | Ok _ => filter (λ r, Surface.rec_key r ≠ to_string k) rs
            | Err _ => rs
            end)
  end.
Proof.
  intros Hex Hreach Href Ho Hrs Hrw.
  pose proof (inv_reachable cfg parse_ip m Hex Hreach) as Hm.
  pose proof (proj1 Hm) as Hbd. pose proof (proj1 (inv_unproject cfg ref m Hm)) as Hbd'.
  revert Hbd'. unfold unproject. rewrite Href, Ho.
  destruct (surface_of o m) as [s|] eqn:Hs; [|done].
  destruct (clear_unclaim_facts cfg o (Surface.ip s) m) as (Hf & Hsi & Hot & Hb & Hsu & He & Hfi).
  destruct (unclaim_addr cfg (Surface.ip s) (clear_surface o m)) as [m1 r].
  cbn [fst] in *.
  pose proof (store_remove_load Surface.rec_key (to_string k) (surfaces m1) rs) as Hrm.
  rewrite Hfi in Hrm. specialize (Hrm Hrs Hrw).
  destruct r as [[]|e]; cbn [fst]; intros Hbd';
    (split_and!; [apply Hf|apply Hf|apply Hsi|apply Hsi|exact (silent_conn m m1 o Hsi)|apply He|
                  exact Hot|exact Hsu|exact Hb| |]);
    try (apply (sockets_without o m _ Hbd Hbd' Hb); intros o' Hne; exact (proj1 (Hot o' Hne))).
  - unfold Surface.load, Surface.remove. simpl. by rewrite Hfi.
  - by rewrite Hfi.
Qed.

(** Addresses the daemon picks are never shared.  From a start
    whose surface records name distinct addresses, through any events in which
    no [project] request chooses an address itself, no two known peers are ever
    projected at the same address, on either backend. *)
Theorem picked_addresses_distinct (cfg : Config K) (parse_ip : string → option IpAddr)
    (texts : list string) (ports : list Z) (f1 f2 : Store.File) (ns : option NetStack.NetStack)
    (m0 : PeerManager K) (es : list (Shell.Event (K:=K))) :
  Daemon.run cfg texts ports f1 f2 ns = Ok m0 →
  (∀ rs, Surface.load f2 = Ok rs → NoDup (Surface.rec_ip <$> rs)) →
  Forall automatic es →
  let m := foldl (Shell.step cfg parse_ip) m0 es in
  ∀ k k' o o' s s',
    peers m !! k = Some o → surface_of o m = Some s →
    peers m !! k' = Some o' → surface_of o' m = Some s' →
    Surface.ip s = Surface.ip s' → k = k'.
Proof.
  intros Hrun Hnd Hes m k k' o o' s s' Hk Hs Hk' Hs' Hip.
  pose proof (agree_start _ _ _ _ _ _ _ Hrun) as Ha0.
  pose proof (distinct_start _ _ _ _ _ _ _ Hrun Hnd) as Hd0.
  assert (Hall : Shell.agree m ∧ distinct m).
  { unfold m. clear -Ha0 Hd0 Hes EKL DML. revert m0 Ha0 Hd0.
    induction Hes as [|e es He Hes IH]; intros m0 Ha0 Hd0; [done|]. simpl.
    apply IH; [by apply agree_step|by apply distinct_step]. }
  destruct Hall as [Ha Hd].
  assert (o = o') as <- by (by eapply (Hd k k' o o' s s')). by eapply agree_inj.
Qed.
End surface_properties.

(** ** Concrete inputs *)
Section surface_witnesses.
Import Shell.

Definition chosen : IpAddr := Surface.V4 127 0 5 5.

Lemma project_moves_surface_witness :
  let m' := (project Toy.config "7" (Some chosen) (Some "web") announced_state).1 in
  surface_of 0%N m' = Some (Surface.mkSurface chosen (Some "web")) ∧
  ∀ port, is_Some (bindings_of 0%N m' !! port) → port ∈ [3000%Z].
Proof.
  intros m'.
  assert (Hrs : ∃ rs, Surface.load (surfaces announced_state) = Ok rs) by (eexists; by vm_compute).
  destruct Hrs as [rs Hrs].
  assert (H1 : resolve_peer "7" announced_state = Some 7%N) by (by vm_compute).
  assert (H2 : peers announced_state !! 7%N = Some 0%N) by (by vm_compute).
  assert (H3 : Store.working (surfaces announced_state)) by (split_and!; vm_compute; reflexivity).
  pose proof (project_moves_surface Toy.config Toy.parse_ip announced_state "7" 7%N 0%N
    (Some chosen) (Some "web") rs toy_exclusive (Toy.start_reachable announcing)
    H1 H2 Hrs H3) as H.
  assert (Hr : (project Toy.config "7" (Some chosen) (Some "web") announced_state).2 = Ok tt)
    by (by vm_compute).
  subst m'. destruct (project _ _ _ _ _) as [m' r]. simpl in Hr |- *. subst r.
  destruct H as (_ & _ & _ & _ & _ & _ & _ & [ip name] & Hs & Hip & Hn & _ & Hb & _).
  simpl in Hip, Hn. subst. split; [exact Hs|]. intros port Hport. apply Hb in Hport.
  assert (He : exposed_of 0%N announced_state = [3000%Z]) by (by vm_compute).
  by rewrite <- He.
Defined.

Lemma unproject_only_unprojects_witness :
  let m' := (unproject Toy.config "7" announced_state).1 in
  surface_of 0%N m' = None ∧ bindings_of 0%N m' = ∅ ∧ exposed_of 0%N m' = [3000%Z] ∧
  (Surface.V4 127 0 1 2, 3000%Z) ∉ sockets m'.
Proof.
  intros m'.
  assert (Hrs : ∃ rs, Surface.load (surfaces announced_state) = Ok rs) by (eexists; by vm_compute).
  destruct Hrs as [rs Hrs].
  assert (H1 : resolve_peer "7" announced_state = Some 7%N) by (by vm_compute).
  assert (H2 : peers announced_state !! 7%N = Some 0%N) by (by vm_compute).
  assert (H3 : Store.working (surfaces announced_state)) by (split_and!; vm_compute; reflexivity).
  pose proof (unproject_only_unprojects Toy.config Toy.parse_ip announced_state "7" 7%N 0%N rs
    toy_exclusive (Toy.start_reachable announcing) H1 H2 Hrs H3) as H.
  subst m'. destruct (unproject _ _ _) as [m' r]. simpl.
  assert (Hs : surface_of 0%N announced_state = Some first_surface) by (by vm_compute).
  rewrite Hs in H. destruct H as (_ & _ & _ & _ & _ & He & _ & Hsu & Hb & Hso & _).
  split_and!; [done|done| |].
  - etrans; [exact He|]. by vm_compute.
  - intros [_ Hn]%Hso. apply (Hn 3000%Z). by vm_compute.
Defined.

(** Two peers, accepted at the start, announce a port each. *)
Definition two_peers : PeerManager N :=
  match Daemon.run Toy.config ["7"; "8"] [] (Toy.file "peers") (Toy.file "surfaces") None with
  | Ok m => m
  | Err _ => new (Toy.file "peers") (Toy.file "surfaces") None
  end.

Definition both_announce : list (Event (K:=N)) :=
  [EvUni 0%N (Some (Protocol.ExposedPorts [3000%Z]));
   EvUni 1%N (Some (Protocol.ExposedPorts [3000%Z]))].

Lemma picked_addresses_distinct_witness :
  let m := foldl (step Toy.config Toy.parse_ip) two_peers both_announce in
  is_Some (surface_of 0%N m) ∧ is_Some (surface_of 1%N m) ∧
  (Surface.ip <$> surface_of 0%N m) ≠ (Surface.ip <$> surface_of 1%N m).
Proof.
  intros m.
  assert (H0 : peers m !! 7%N = Some 0%N) by (by vm_compute).
  assert (H1 : peers m !! 8%N = Some 1%N) by (by vm_compute).
  assert (Hs0 : is_Some (surface_of 0%N m)) by (eexists; by vm_compute).
  assert (Hs1 : is_Some (surface_of 1%N m)) by (eexists; by vm_compute).
  split_and!; [done|done|]. destruct Hs0 as [s0 Hs0], Hs1 as [s1 Hs1]. rewrite Hs0, Hs1.
  simpl. intros [= Hip].
  assert (Hrun : Daemon.run Toy.config ["7"; "8"] [] (Toy.file "peers") (Toy.file "surfaces") None
                 = Ok two_peers).
  { unfold two_peers. destruct (Daemon.run _ _ _ _ _ _) as [x|e] eqn:Hrun; [done|].
    exfalso. revert Hrun. unfold Daemon.run. by vm_compute. }
  assert (Hf : ∀ rs, Surface.load (Toy.file "surfaces") = Ok rs → NoDup (Surface.rec_ip <$> rs)).
  { intros rs [= <-]. constructor. }
  assert (Hau : Forall automatic both_announce) by (by repeat constructor).
  by pose proof (picked_addresses_distinct Toy.config Toy.parse_ip ["7"; "8"] [] (Toy.file "peers")
    (Toy.file "surfaces") None two_peers both_announce Hrun Hf Hau 7%N 8%N 0%N 1%N s0 s1
    H0 Hs0 H1 Hs1 Hip).
Defined.

End surface_witnesses.
