(* ===== verification/Calls.v ===== *)
(** * A running daemon is a history of session calls

    The properties of [SessionSafety.v] are about histories of calls from the
    empty session.  Here is the history a running daemon makes: [Calls.calls],
    the calls one event causes, in their order, computed from the state it
    meets.  Every state a daemon reaches holds the session that history leads
    to, so what the history says is what the daemon does: whom its tunnels
    serve, whom it knows, and whom a code lets in.  (The shell also asks the
    session for announcements; they change nothing and are left out.) *)

From S2P Require Import Prelude RustStr Keys Grants Dial Invite Store Enroll Protocol Session SessionSafety Surface Resolver Netstack Tunnel Peer PeerFacts PeerLoop Daemon Shell PeerProps.

Module Calls.
Import Peers Shell.

(** The calls of a loop over [l], each from the state it meets. *)
Fixpoint fold_calls {S A E} (f : S → A → S) (c : S → A → list E) (l : list A) (s : S) : list E :=
  match l with
  | [] => []
  | x :: l => c s x ++ fold_calls f c l (f s x)
  end.

Section calls.
Context {K : Type} `{!EndpointKey K} `{!DashMap}.
Context `{!JsonCodec Pins.Pin} `{!JsonCodec Surface.SurfaceRecord}.
Variable cfg : Config K.
Variable parse_ip : string → option IpAddr.
Local Abbreviation Call := (History.Event K).

Definition add_calls (k : K) (name : option string) (a : Session.Admission)
    (m : PeerManager K) : list Call :=
  match peers m !! k with
  | Some _ => []
  | None => [History.EvAdmitKnown k name a]
  end.

Definition pin_calls (key : string) (name : option string) (m : PeerManager K) : list Call :=
  match parse_key key with
  | Some k => add_calls k name Session.Key m
  | None => []
  end.

(** The grants an invitation addressed to a key makes, once it is pinned. *)
Definition grant_calls (key : string) (name : option string) (ports : list Z)
    (m : PeerManager K) : list Call :=
  match (pin_peer key name m).2, parse_key key with
  | Ok _, Some k => (λ port, History.EvExpose port [k]) <$> ports
  | _, _ => []
  end.

Definition request_calls (req : Protocol.Request) (random : bytes) (now : Z)
    (m : PeerManager K) : list Call :=
  match req with
  | Protocol.ReqInvite (Some key) name ports =>
      pin_calls key name m ++ grant_calls key name ports m
  | Protocol.ReqInvite None name ports => [History.EvMint random now name ports]
  | Protocol.ReqAccept handle name =>
      match Invite.from_str handle with
      | Ok h => add_calls (Invite.handle_key h) name Session.Added m
      | Err _ => []
      end
  | Protocol.ReqForget peer =>
      match resolve_peer peer m with
      | Some k => match peers m !! k with Some _ => [History.EvEvict k] | None => [] end
      | None => []
      end
  | Protocol.ReqExpose port to all =>
      match Daemon.grantees to all (session m) with
      | Ok ks => [History.EvExpose port ks]
      | Err _ => []
      end
  | Protocol.ReqUnexpose port (Some to) =>
      match Session.resolve_grantee to (session m) with
      | Ok k => [History.EvUnexpose port (Some k)]
      | Err _ => []
      end
  | Protocol.ReqUnexpose port None => [History.EvUnexpose port None]
  | Protocol.ReqList | Protocol.ReqKey => []
  | Protocol.ReqProject _ _ _ | Protocol.ReqUnproject _ => []
  end.

Definition calls (m : PeerManager K) (e : Event) : list Call :=
  match e with
  | EvRequest req random now => request_calls req random now m
  | EvConnection c => [History.EvInbound (next_conn_id m) (remote_id c)]
  | EvEnroll id (Some msg) now =>
      match waiting m !! id with
      | Some wt => [History.EvUnadmitted id (remote_id (wait_conn wt)) msg now]
      | None => []
      end
  | EvEnrollEnd id =>
      match waiting m !! id with
      | Some _ => [History.EvEnrollTimeout id]
      | None => []
      end
  | _ => []
  end.

(** The calls of the start: the pinned peers, then what the command line
    exposes and accepts. *)
Definition start_calls (texts : list string) (ports : list Z) (pinned : list Pins.Pin)
    (pins_file surfaces_file : Store.File) (ns : option NetStack.NetStack) : list Call :=
  let add m pin := (add_pinned (Pins.key pin) (Pins.label pin) m).1 in
  let m0 : PeerManager K := new pins_file surfaces_file (Daemon.register_self cfg ns) in
  let m1 := restore_surfaces cfg (foldl add m0 pinned) in
  let handles := Daemon.accept_handles texts in
  let ks := Invite.handle_key <$> handles in
  let m2 := foldl (λ m port, Daemon.expose port ks m) m1 ports in
  fold_calls add (λ m pin, pin_calls (Pins.key pin) (Pins.label pin) m) pinned m0 ++
  ((λ port, History.EvExpose port ks) <$> ports) ++
  fold_calls (λ m h, (add_peer (Invite.handle_key h) None (Invite.handle_code h) m).1)
    (λ m h, add_calls (Invite.handle_key h) None Session.Added m) handles m2.

(** A run of the daemon: its start, the events since, and where it is. *)
Record Run : Type := mkRun {
  run_accept : list string;
  run_expose : list Z;
  run_pins : Store.File;
  run_surfaces : Store.File;
  run_tun : option NetStack.NetStack;
  run_start : PeerManager K;
  run_events : list (Event (K:=K));
}.

Definition started (r : Run) : Prop :=
  Daemon.run cfg (run_accept r) (run_expose r) (run_pins r) (run_surfaces r) (run_tun r) =
  Ok (run_start r).

Definition now_at (r : Run) : PeerManager K :=
  foldl (step cfg parse_ip) (run_start r) (run_events r).

(** Every session call made so far. *)
Definition history (r : Run) : list Call :=
  start_calls (run_accept r) (run_expose r) (default [] (ok (Pins.load (run_pins r))))
    (run_pins r) (run_surfaces r) (run_tun r) ++
  fold_calls (step cfg parse_ip) calls (run_events r) (run_start r).

(** ** What an event means to one peer *)

(** The good claim an event is, if it is one: who makes it and what it carries. *)
Definition claims_on (m : PeerManager K) (e : Event (K:=K)) : option (K * Tokens.Claimed) :=
  match e with
  | EvEnroll id (Some (Protocol.Enroll token _)) now =>
      wt ← waiting m !! id;
      cl ← (Tokens.claim now token (Session.tokens (session m))).2;
      Some (remote_id (wait_conn wt), cl)
  | _ => None
  end.

(** The event grants [port] to [k]; it revokes it. *)
Definition grants_on (port : Z) (k : K) (m : PeerManager K) (e : Event (K:=K)) : Prop :=
  match e with
  | EvRequest (Protocol.ReqExpose p to all) _ _ =>
      p = port ∧ ∃ ks, Daemon.grantees to all (session m) = Ok ks ∧ k ∈ ks
  | EvRequest (Protocol.ReqInvite (Some key) name ports) _ _ =>
      parse_key key = Some k ∧ port ∈ ports ∧ is_ok (pin_peer key name m).2 = true
  | _ => ∃ cl, claims_on m e = Some (k, cl) ∧ port ∈ Tokens.claimed_ports cl
  end.

Definition revokes_on (port : Z) (k : K) (m : PeerManager K) (e : Event (K:=K)) : Prop :=
  match e with
  | EvRequest (Protocol.ReqUnexpose p None) _ _ => p = port
  | EvRequest (Protocol.ReqUnexpose p (Some to)) _ _ =>
      p = port ∧ Session.resolve_grantee to (session m) = Ok k
  | EvRequest (Protocol.ReqForget peer) _ _ => resolve_peer peer m = Some k
  | _ => False
  end.

(** The event makes [k] known; it makes it unknown. *)
Definition names_on (k : K) (m : PeerManager K) (e : Event (K:=K)) : Prop :=
  match e with
  | EvRequest (Protocol.ReqAccept handle _) _ _ =>
      ∃ h, Invite.from_str handle = Ok h ∧ Invite.handle_key h = k
  | EvRequest (Protocol.ReqInvite (Some key) _ _) _ _ => parse_key key = Some k
  | _ => ∃ cl, claims_on m e = Some (k, cl)
  end.

Definition forgets_on (k : K) (m : PeerManager K) (e : Event (K:=K)) : Prop :=
  match e with
  | EvRequest (Protocol.ReqForget peer) _ _ => resolve_peer peer m = Some k
  | _ => False
  end.

(** The event mints [token]; it uses it up, replaces it or finds it expired. *)
Definition mints_on (token : string) (p : Tokens.PendingToken) (_ : PeerManager K)
    (e : Event (K:=K)) : Prop :=
  match e with
  | EvRequest (Protocol.ReqInvite None name ports) random now =>
      hex_string random = token ∧ p = Tokens.mkPendingToken name ports (now + Tokens.TOKEN_TTL)
  | _ => False
  end.

Definition spends_on (token : string) (p : Tokens.PendingToken) (m : PeerManager K)
    (e : Event (K:=K)) : Prop :=
  match e with
  | EvRequest (Protocol.ReqInvite None _ _) random _ => hex_string random = token
  | EvEnroll id (Some (Protocol.Enroll token' _)) now =>
      is_Some (waiting m !! id) ∧ (token' = token ∨ (Tokens.expires p <= now)%Z)
  | _ => False
  end.

(** Whom the command line named, and whom it let know of its ports. *)
Definition accepted (r : Run) : list K :=
  Invite.handle_key <$> Daemon.accept_handles (run_accept r).

Definition pinned (r : Run) : list Pins.Pin := default [] (ok (Pins.load (run_pins r))).

End calls.
Arguments Run K {_}.
End Calls.

(** ** Lemmas *)
Section call_lemmas.
Context {K : Type} `{EKL : EndpointKeyLaws K} `{DML : DashMapLaws}.
Context `{!JsonCodec Pins.Pin} `{!JsonCodec Surface.SurfaceRecord}.
Import Peers Shell Calls.
Implicit Types (m : PeerManager K) (k : K).

(** What a step makes of the session is what these calls make of it. *)
Definition makes (cs : list (History.Event K)) m m' : Prop :=
  session m' = History.run (session m) cs.

Lemma makes_frame m m' : frame m m' → makes [] m m'.
Proof. by intros []. Qed.

Lemma makes_app cs1 cs2 m1 m2 m3 : makes cs1 m1 m2 → makes cs2 m2 m3 → makes (cs1 ++ cs2) m1 m3.
Proof. unfold makes, History.run. intros H1 ->. by rewrite foldl_app, H1. Qed.

Lemma makes_then cs m1 m2 m3 : makes cs m1 m2 → frame m2 m3 → makes cs m1 m3.
Proof. unfold makes. intros <- []. done. Qed.

Lemma makes_after cs m1 m2 m3 : frame m1 m2 → makes cs m2 m3 → makes cs m1 m3.
Proof. unfold makes. intros [_ <- _]. done. Qed.

Lemma makes_fold {A} (f : PeerManager K → A → PeerManager K) c (l : list A) m :
  (∀ m x, makes (c m x) m (f m x)) → makes (fold_calls f c l m) m (foldl f m l).
Proof.
  intros Hf. revert m. induction l as [|x l IH]; intros m; [done|]. simpl.
  by eapply makes_app.
Qed.

Lemma makes_each {A} (f : PeerManager K → A → PeerManager K) (g : A → History.Event K)
    (l : list A) m :
  (∀ m x, makes [g x] m (f m x)) → makes (g <$> l) m (foldl f m l).
Proof.
  intros Hf. revert m. induction l as [|x l IH]; intros m; [done|].
  rewrite fmap_cons. change (g x :: (g <$> l)) with ([g x] ++ (g <$> l)). simpl foldl.
  by eapply makes_app.
Qed.

Lemma makes_spawn p k name a m :
  makes [History.EvAdmitKnown k name a] m (spawn_peer p (admit_known k name a m)).1.
Proof. done. Qed.

Lemma makes_add_peer k name code m :
  makes (add_calls k name Session.Added m) m (add_peer k name code m).1.
Proof. unfold add_calls, add_peer. by destruct (peers m !! k). Qed.

Lemma makes_add_pinned key name m : makes (pin_calls key name m) m (add_pinned key name m).1.
Proof.
  unfold pin_calls, add_calls, add_pinned. destruct (parse_key key) as [k|]; [|done]. simpl.
  by destruct (peers m !! k).
Qed.

Lemma makes_pin_peer key name m : makes (pin_calls key name m) m (pin_peer key name m).1.
Proof.
  pose proof (makes_add_pinned key name m) as H1. unfold pin_peer.
  destruct (add_pinned key name m) as [m1 [[]|]]; [|done].
  by destruct (Pins.add _ _ _) as [f r].
Qed.

Lemma pin_peer_key key name m :
  is_ok (pin_peer key name m).2 = true → is_Some (parse_key (K:=K) key).
Proof. unfold pin_peer, add_pinned. by destruct (parse_key key). Qed.

Lemma makes_expose port to m : makes [History.EvExpose port to] m (Daemon.expose port to m).
Proof. eapply makes_then; [|apply frame_broadcast]. done. Qed.

Lemma makes_unexpose port to m : makes [History.EvUnexpose port to] m (Daemon.unexpose port to m).
Proof. eapply makes_then; [|apply frame_broadcast]. done. Qed.

Lemma makes_evict cfg k reason m : makes [History.EvEvict k] m (evict cfg k reason m).
Proof.
  unfold evict. set (m1 := match peers m !! k with Some _ => _ | None => m end).
  assert (Hs : session m1 = session m).
  { unfold m1. destruct (peers m !! k) as [o|]; [|done].
    by destruct (evict_object_frame cfg o reason (set_peers (delete k (peers m)) m)). }
  unfold makes. simpl History.run. rewrite <- Hs.
  destruct (Session.evict k (session m1)) as [s actions]. simpl.
  by destruct (frame_drop_pins actions (set_session s m1)) as [_ -> _].
Qed.

Lemma makes_request cfg parse_ip req random now m :
  makes (request_calls req random now m) m
    (Daemon.handle_request cfg parse_ip req random now m).1.
Proof.
  destruct req as [key name ports|handle name|peer|port to all|port to| | |peer ip name|peer];
    simpl; try done.
  - unfold Daemon.invite. destruct key as [key|].
    + pose proof (makes_pin_peer key name m) as H1. unfold grant_calls.
      destruct (pin_peer key name m) as [m1 [[]|]]; simpl in *; [|by rewrite app_nil_r].
      destruct (parse_key key) as [k|]; [|by rewrite app_nil_r].
      eapply makes_app; [exact H1|]. apply makes_each. intros. apply makes_expose.
    + unfold makes, History.run. simpl. by destruct (Session.mint_token random now name ports (session m)).
  - unfold Daemon.accept. destruct (Invite.from_str handle) as [h|]; [|done].
    pose proof (makes_add_peer (Invite.handle_key h) name (Invite.handle_code h) m) as H1.
    by destruct (add_peer _ _ _ _) as [m1 [[]|]].
  - unfold remove_peer. destruct (resolve_peer peer m) as [k|]; [|done].
    destruct (peers m !! k); [|done]. apply makes_evict.
  - destruct (Daemon.grantees _ _ _); [|done]. apply makes_expose.
  - destruct to as [to|]; [|apply makes_unexpose]. simpl.
    destruct (Session.resolve_grantee to (session m)); [|done]. apply makes_unexpose.
  - destruct (match ip with Some _ => _ | None => _ end) as [a|]; [|done].
    pose proof (frame_project cfg peer a name m) as H1.
    destruct (project _ _ _ _ _) as [m1 [[]|]]; by apply makes_frame.
  - pose proof (frame_unproject cfg peer m) as H1.
    destruct (unproject _ _ _) as [m1 [[]|]]; by apply makes_frame.
Qed.

Lemma session_enroll_verdict cfg id wt acts m : session (enroll_verdict cfg id wt acts m) = session m.
Proof.
  unfold enroll_verdict. destruct (refusal_of acts).
  { etrans; [apply (frame_session _ _ (frame_close _ _ _))|done]. }
  destruct (existsb is_admit acts).
  2: { etrans; [apply (frame_session _ _ (frame_close _ _ _))|done]. }
  set (p := match early_version wt with Some _ => _ | None => _ end). clearbody p.
  destruct (spawn_peer p _) as [m1 o] eqn:Hsp.
  rewrite (frame_session _ _ (frame_apply cfg o acts m1)).
  by injection Hsp as <- <-.
Qed.

Lemma makes_step cfg parse_ip m e : makes (calls m e) m (step cfg parse_ip m e).
Proof.
  destruct e as [req random now|c|id msg now|id|o msg|o|o|o c|c reason|o port]; simpl.
  - apply makes_request.
  - unfold handle_connection, makes. cbn [foldl History.run History.step].
    unfold History.run. simpl.
    destruct (Session.on_inbound _ _ _) as [s acts]. destruct acts; [done|].
    destruct (peers _ !! _) as [o|]; [|done]. set (m1 := set_session s _).
    pose proof (frame_install cfg o c false m1) as H1.
    destruct (install cfg o c false m1) as [m2 []]; simpl in H1.
    + rewrite (frame_session _ _ (frame_apply _ _ _ _)). simpl. by destruct H1.
    + by destruct H1.
  - unfold enroll_message. destruct msg as [msg|]; [|by destruct (waiting m !! id)].
    destruct (waiting m !! id) as [wt|]; [|done]. unfold makes, History.run.
    cbn [foldl History.step].
    assert (Hw : ∀ v, wait_conn (match v with Some x => mkWaiting (wait_conn wt) (Some x)
                                         | None => wt end) = wait_conn wt) by (by intros []).
    set (wt' := match msg with Protocol.Enroll _ (Some _) => _ | _ => wt end).
    assert (Hwt : wait_conn wt' = wait_conn wt) by (unfold wt'; by destruct msg as [| |? []|]).
    clearbody wt'. rewrite Hwt.
    destruct (Session.on_unadmitted _ _ _ _ _) as [s acts]. destruct acts; [done|].
    by rewrite session_enroll_verdict.
  - unfold enroll_end. destruct (waiting m !! id) as [wt|]; [|done].
    unfold makes, History.run. cbn [foldl History.step].
    destruct (Session.on_enroll_timeout _ _) as [s acts]. by rewrite session_enroll_verdict.
  - apply makes_frame, frame_uni.
  - unfold with_object, Loop.run_connection. repeat case_match; try done.
    apply makes_frame, frame_send_to.
  - by apply makes_frame, frame_upd.
  - unfold with_object. case_match; [|done]. apply makes_frame, frame_dialed.
  - apply makes_frame, frame_close.
  - apply makes_frame, frame_accept_failed.
Qed.

Lemma makes_start cfg texts ports f1 f2 ns m :
  Daemon.run cfg texts ports f1 f2 ns = Ok m →
  makes (start_calls cfg texts ports (default [] (ok (Pins.load f1))) f1 f2 ns)
    (new f1 f2 (Daemon.register_self cfg ns)) m.
Proof.
  unfold Daemon.run, Daemon.with_endpoint. destruct (Pins.load f1) as [pinned|]; [|done].
  intros [= <-]. simpl. unfold start_calls, Daemon.start_accepts.
  set (add := λ m pin, (add_pinned (Pins.key pin) (Pins.label pin) m).1).
  set (m0 := new f1 f2 _). set (m1 := restore_surfaces cfg _).
  set (handles := Daemon.accept_handles texts). set (ks := Invite.handle_key <$> handles).
  eapply makes_app; [|eapply makes_app].
  - eapply makes_then; [|apply frame_restore]. apply makes_fold. intros. apply makes_add_pinned.
  - apply makes_each. intros. apply makes_expose.
  - destruct handles as [|h hs] eqn:Hh; [done|].
    eapply makes_then; [|apply frame_broadcast].
    apply makes_fold. intros. apply makes_add_peer.
Qed.

(** The session of a running daemon is the one its history leads to. *)
Lemma session_of_run cfg parse_ip r :
  started cfg r → session (now_at cfg parse_ip r) = History.run Session.new (history cfg parse_ip r).
Proof.
  intros Hs. apply makes_start in Hs.
  assert (Hm : makes (history cfg parse_ip r)
            (new (run_pins r) (run_surfaces r) (Daemon.register_self cfg (run_tun r)))
            (now_at cfg parse_ip r)).
  { eapply makes_app; [exact Hs|]. apply makes_fold. intros. apply makes_step. }
  exact Hm.
Qed.

Lemma run_reachable cfg parse_ip r :
  started cfg r → reachable cfg parse_ip (now_at cfg parse_ip r).
Proof. intros Hs. by repeat eexists. Qed.

(** ** Grants along a run *)

Lemma run_app s (cs1 cs2 : list (History.Event K)) :
  History.run s (cs1 ++ cs2) = History.run (History.run s cs1) cs2.
Proof. apply foldl_app. Qed.

Lemma run_one s (c : History.Event K) : History.run s [c] = (History.step s c).1.
Proof. done. Qed.

Lemma allows_exposes port k to ports (s : Session.Session K) :
  Grants.allows port k (Session.grants (History.run s ((λ p, History.EvExpose p to) <$> ports)))
    = true ↔
  (k ∈ to ∧ port ∈ ports) ∨ Grants.allows port k (Session.grants s) = true.
Proof.
  revert s. induction ports as [|p ports IH]; intros s; [set_solver|].
  rewrite fmap_cons, run_cons, IH, allows_step. simpl. set_solver.
Qed.

Lemma exposes_keep to ports (s : Session.Session K) :
  let s' := History.run s ((λ p, History.EvExpose p to) <$> ports) in
  Session.peers s' = Session.peers s ∧ Session.tokens s' = Session.tokens s.
Proof.
  simpl. revert s. induction ports as [|p ports IH]; intros s; [done|].
  rewrite fmap_cons, run_cons. destruct (IH (History.step s (History.EvExpose p to)).1) as [-> ->].
  done.
Qed.

Lemma grants_admits s (cs : list (History.Event K)) :
  Forall (λ c, ∃ k n a, c = History.EvAdmitKnown k n a) cs →
  Session.grants (History.run s cs) = Session.grants s ∧
  Session.tokens (History.run s cs) = Session.tokens s.
Proof.
  intros Hcs. revert s. induction Hcs as [|c cs (k & n & a & ->) _ IH]; intros s; [done|].
  rewrite run_cons. destruct (IH (History.step s (History.EvAdmitKnown k n a)).1) as [-> ->].
  simpl. unfold Session.admit_known. by case_match.
Qed.

Lemma add_calls_admits k n a m :
  Forall (λ c : History.Event K, ∃ k n a, c = History.EvAdmitKnown k n a) (add_calls k n a m).
Proof. unfold add_calls. case_match; repeat constructor. eauto. Qed.

Lemma pin_calls_admits key n m :
  Forall (λ c : History.Event K, ∃ k n a, c = History.EvAdmitKnown k n a) (pin_calls key n m).
Proof. unfold pin_calls. case_match; [apply add_calls_admits|constructor]. Qed.

Lemma fold_calls_Forall {A S E} (P : E → Prop) (f : S → A → S) c (l : list A) s :
  (∀ s x, Forall P (c s x)) → Forall P (fold_calls f c l s).
Proof.
  intros Hc. revert s. induction l as [|x l IH]; intros s; simpl; [constructor|].
  apply Forall_app. auto.
Qed.

Lemma resolve_peer_known ref m k : resolve_peer ref m = Some k → is_Some (peers m !! k).
Proof.
  unfold resolve_peer. set (l := filter _ _).
  assert (Hl : fst <$> head l = Some k → is_Some (peers m !! k)).
  { destruct l as [|[k' o] l'] eqn:Hlist; [done|]. intros [= <-].
    assert (Hin : (k', o) ∈ l) by (rewrite Hlist; by left).
    apply list_elem_of_filter in Hin as [_ Hin]. rewrite dash_iter_perm in Hin.
    apply elem_of_map_to_list in Hin. by eexists. }
  destruct (parse_key ref) as [k'|]; [|exact Hl].
  destruct (peers m !! k') eqn:Hk; [|exact Hl]. intros [= <-]. by eexists.
Qed.

(** An event that grants nothing and revokes nothing. *)
Ltac no_call := simpl; split; [auto|by intros [(? & [=] & _)|[? _]]].

Lemma allows_request port k req random now m :
  agree m →
  Grants.allows port k (Session.grants (History.run (session m) (request_calls req random now m)))
    = true ↔
  grants_on port k m (EvRequest req random now) ∨
  (Grants.allows port k (Session.grants (session m)) = true ∧
   ¬ revokes_on port k m (EvRequest req random now)).
Proof.
  intros Hm.
  destruct req as [[key|] name ports|handle name|peer|p to all|p [to|]| | |peer ip name|peer];
    cbn [request_calls]; try no_call.
  - rewrite run_app.
    destruct (grants_admits (session m) _ (pin_calls_admits key name m)) as [Hg _].
    pose proof (pin_peer_key key name m) as Hkey. unfold grant_calls. simpl.
    destruct (pin_peer key name m).2 as [u|e]; simpl in *.
    + destruct (Hkey eq_refl) as [k0 ->]. rewrite allows_exposes, Hg, list_elem_of_singleton. naive_solver.
    + rewrite Hg. naive_solver.
  - destruct (Invite.from_str handle) as [h|]; [|no_call].
    destruct (grants_admits (session m) _ (add_calls_admits (Invite.handle_key h) name Session.Added m))
      as [-> _]. no_call.
  - unfold grants_on, revokes_on. destruct (resolve_peer peer m) as [k0|] eqn:Hr; [|naive_solver].
    pose proof (resolve_peer_known _ _ _ Hr) as [o Ho]. rewrite Ho. cbn match.
    rewrite run_one, allows_step. simpl.
    pose proof (proj1 (agree_keys _ Hm k0)) as Hk. rewrite Ho in Hk. clear Hm. naive_solver.
  - unfold grants_on, revokes_on. destruct (Daemon.grantees _ _ _) as [ks|]; [|naive_solver].
    rewrite run_one, allows_step. simpl. naive_solver.
  - unfold grants_on, revokes_on. destruct (Session.resolve_grantee _ _) as [k0|] eqn:Hr; [|naive_solver].
    rewrite run_one, allows_step. simpl. naive_solver.
  - rewrite run_one, allows_step. simpl. naive_solver.
Qed.

Lemma allows_on cfg parse_ip port k m e :
  agree m →
  Grants.allows port k (Session.grants (session (step cfg parse_ip m e))) = true ↔
  grants_on port k m e ∨
  (Grants.allows port k (Session.grants (session m)) = true ∧ ¬ revokes_on port k m e).
Proof.
  intros Hm. rewrite makes_step.
  destruct e as [req random now|c|id msg now|id|o msg|o|o|o c|c reason|o port0]; cbn [calls];
    try no_call; [by apply allows_request|..]; clear Hm.
  - rewrite run_one, allows_step. simpl. naive_solver.
  - destruct msg as [msg|]; [|no_call]. unfold grants_on. simpl.
    destruct (waiting m !! id) as [wt|]; [|destruct msg; naive_solver].
    rewrite run_one, allows_step.
    destruct msg as [ps| |token v|]; simpl; try naive_solver.
    destruct (Tokens.claim _ _ _) as [t' [cl|]]; simpl; naive_solver.
  - destruct (waiting m !! id); [|no_call]. rewrite run_one, allows_step. simpl. naive_solver.
Qed.

(** ** Known peers along a run *)

Lemma peers_add_calls k k0 n a m s :
  (∀ k, is_Some (peers m !! k) ↔ is_Some (Session.peers s !! k)) →
  is_Some (Session.peers (History.run s (add_calls k0 n a m)) !! k) ↔
  k0 = k ∨ is_Some (Session.peers s !! k).
Proof.
  intros Hk. unfold add_calls. destruct (peers m !! k0) as [o|] eqn:Ho.
  - pose proof (proj1 (Hk k0)) as H0. rewrite Ho in H0. simpl. naive_solver.
  - rewrite run_one, admitted_step. simpl. naive_solver.
Qed.

Lemma grant_calls_keep key name ports m (s : Session.Session K) :
  let s' := History.run s (grant_calls key name ports m) in
  Session.peers s' = Session.peers s ∧ Session.tokens s' = Session.tokens s.
Proof.
  unfold grant_calls. destruct (pin_peer key name m).2; [|done].
  destruct (parse_key key) as [k|]; [|done]. apply exposes_keep.
Qed.

(** An event that makes nobody known or unknown. *)
Ltac no_name := simpl; split; [auto|by intros [(? & [=])|[? _]]].

Lemma known_request k req random now m :
  agree m →
  is_Some (Session.peers (History.run (session m) (request_calls req random now m)) !! k) ↔
  names_on k m (EvRequest req random now) ∨
  (is_Some (Session.peers (session m) !! k) ∧ ¬ forgets_on k m (EvRequest req random now)).
Proof.
  intros Hm. pose proof (agree_keys _ Hm) as Hk. clear Hm.
  destruct req as [[key|] name ports|handle name|peer|p to all|p [to|]| | |peer ip name|peer];
    cbn [request_calls]; try no_name.
  - rewrite run_app. destruct (grant_calls_keep key name ports m
      (History.run (session m) (pin_calls key name m))) as [-> _]. unfold pin_calls. simpl.
    destruct (parse_key key) as [k0|]; [|simpl; naive_solver].
    rewrite peers_add_calls by done. naive_solver.
  - simpl. destruct (Invite.from_str handle) as [h|]; [|simpl; naive_solver].
    rewrite peers_add_calls by done. naive_solver.
  - unfold names_on, forgets_on. simpl.
    destruct (resolve_peer peer m) as [k0|] eqn:Hr; [|simpl; naive_solver].
    pose proof (resolve_peer_known _ _ _ Hr) as [o Ho]. rewrite Ho. cbn match.
    rewrite run_one, admitted_step. simpl. naive_solver.
  - destruct (Daemon.grantees _ _ _); no_name.
  - destruct (Session.resolve_grantee _ _); no_name.
Qed.

Lemma known_on cfg parse_ip k m e :
  agree m →
  is_Some (peers (step cfg parse_ip m e) !! k) ↔
  names_on k m e ∨ (is_Some (peers m !! k) ∧ ¬ forgets_on k m e).
Proof.
  intros Hm. rewrite (agree_keys _ (agree_step cfg parse_ip m e Hm)), (agree_keys _ Hm), makes_step.
  destruct e as [req random now|c|id msg now|id|o msg|o|o|o c|c reason|o port0]; cbn [calls];
    try no_name; [by apply known_request|..]; clear Hm.
  - rewrite run_one, admitted_step. simpl. naive_solver.
  - destruct msg as [msg|]; [|no_name]. unfold names_on. simpl.
    destruct (waiting m !! id) as [wt|]; [|destruct msg; simpl; naive_solver].
    rewrite run_one, admitted_step.
    destruct msg as [ps| |token v|]; simpl; try naive_solver.
    destruct (Tokens.claim _ _ _) as [t' [cl|]]; simpl; naive_solver.
  - destruct (waiting m !! id); [|no_name]. rewrite run_one, admitted_step. simpl. naive_solver.
Qed.

(** ** Codes along a run *)

Lemma token_request token p req random now m :
  Tokens.pending (Session.tokens (History.run (session m) (request_calls req random now m))) !! token
    = Some p ↔
  mints_on token p m (EvRequest req random now) ∨
  (Tokens.pending (Session.tokens (session m)) !! token = Some p ∧
   ¬ spends_on token p m (EvRequest req random now)).
Proof.
  destruct req as [[key|] name ports|handle name|peer|q to all|q [to|]| | |peer ip name|peer];
    cbn [request_calls]; try (simpl; tauto).
  - rewrite run_app. destruct (grant_calls_keep key name ports m
      (History.run (session m) (pin_calls key name m))) as [_ ->].
    destruct (grants_admits (session m) _ (pin_calls_admits key name m)) as [_ ->]. simpl. tauto.
  - rewrite run_one, token_step. simpl. naive_solver.
  - destruct (Invite.from_str handle) as [h|]; [|simpl; tauto].
    destruct (grants_admits (session m) _ (add_calls_admits (Invite.handle_key h) name Session.Added m))
      as [_ ->]. simpl. tauto.
  - destruct (resolve_peer peer m) as [k0|]; [|simpl; tauto].
    destruct (peers m !! k0); [|simpl; tauto]. rewrite run_one, token_step. simpl. tauto.
  - destruct (Daemon.grantees _ _ _); simpl; tauto.
  - destruct (Session.resolve_grantee _ _); simpl; tauto.
Qed.

Lemma token_on cfg parse_ip token p m e :
  Tokens.pending (Session.tokens (session (step cfg parse_ip m e))) !! token = Some p ↔
  mints_on token p m e ∨
  (Tokens.pending (Session.tokens (session m)) !! token = Some p ∧ ¬ spends_on token p m e).
Proof.
  rewrite makes_step.
  destruct e as [req random now|c|id msg now|id|o msg|o|o|o c|c reason|o port0]; cbn [calls];
    try (simpl; tauto); [apply token_request|..].
  - rewrite run_one, token_step. simpl. tauto.
  - destruct msg as [msg|]; [|simpl; tauto].
    destruct (waiting m !! id) as [wt|] eqn:Hwt.
    + rewrite run_one, token_step. destruct msg; simpl; rewrite ?Hwt; try tauto.
      split; [naive_solver|]. intros [[]|[? Hn]]. right. split; [done|]. intros ?. apply Hn. eauto.
    + destruct msg; simpl; rewrite ?Hwt; try tauto.
      split; [|tauto]. intros ?. right. split; [done|]. by intros [[? [=]] _].
  - destruct (waiting m !! id); [|simpl; tauto]. rewrite run_one, token_step. simpl. tauto.
Qed.

(** ** The start of a run *)

Lemma start_admits cfg r :
  let f := λ m pin, (add_pinned (Pins.key pin) (Pins.label pin) m).1 in
  let g := λ m (h : Invite.Handle K),
    (add_peer (Invite.handle_key h) None (Invite.handle_code h) m).1 in
  ∃ cs1 cs2,
    Forall (λ c : History.Event K, ∃ k n a, c = History.EvAdmitKnown k n a) cs1 ∧
    Forall (λ c : History.Event K, ∃ k n a, c = History.EvAdmitKnown k n a) cs2 ∧
    start_calls cfg (run_accept r) (run_expose r) (pinned r) (run_pins r) (run_surfaces r)
      (run_tun r) =
    cs1 ++ ((λ port, History.EvExpose port (accepted r)) <$> run_expose r) ++ cs2.
Proof.
  intros f g. unfold start_calls. do 2 eexists. split_and!; [| |reflexivity].
  - apply fold_calls_Forall. intros. apply pin_calls_admits.
  - apply fold_calls_Forall. intros. apply add_calls_admits.
Qed.

Lemma start_session cfg r :
  started cfg r →
  (∀ port k, Grants.allows port k (Session.grants (session (run_start r))) = true ↔
             port ∈ run_expose r ∧ k ∈ accepted r) ∧
  (∀ token, Tokens.pending (Session.tokens (session (run_start r))) !! token = None).
Proof.
  intros Hs. apply makes_start in Hs. fold (pinned r) in Hs. unfold makes in Hs.
  destruct (start_admits cfg r) as (cs1 & cs2 & H1 & H2 & Hcs). rewrite Hcs in Hs.
  rewrite Hs, !run_app. split.
  - intros port k. destruct (grants_admits (History.run (History.run Session.new cs1) 
      ((λ port, History.EvExpose port (accepted r)) <$> run_expose r)) cs2 H2) as [Hg _].
    simpl. rewrite Hg, allows_exposes. destruct (grants_admits Session.new cs1 H1) as [-> _].
    split; [intros [[? ?]|?]; [done|done]|]. intros [? ?]. by left.
  - intros token. simpl.
    destruct (grants_admits (History.run (History.run Session.new cs1) 
      ((λ port, History.EvExpose port (accepted r)) <$> run_expose r)) cs2 H2) as [_ ->].
    destruct (exposes_keep (accepted r) (run_expose r) (History.run Session.new cs1)) as [_ ->].
    destruct (grants_admits Session.new cs1 H1) as [_ ->]. apply lookup_empty.
Qed.

Lemma peers_add_pinned key n m k :
  is_Some (peers (add_pinned key n m).1 !! k) ↔ parse_key key = Some k ∨ is_Some (peers m !! k).
Proof.
  unfold add_pinned. destruct (parse_key key) as [k0|]; simpl; [|naive_solver].
  destruct (peers m !! k0) as [o|] eqn:Ho; simpl; [naive_solver|].
  rewrite lookup_insert_is_Some. destruct (decide (k0 = k)); naive_solver.
Qed.

Lemma peers_add_peer k0 n code m k :
  is_Some (peers (add_peer k0 n code m).1 !! k) ↔ k0 = k ∨ is_Some (peers m !! k).
Proof.
  unfold add_peer. destruct (peers m !! k0) as [o|] eqn:Ho; simpl; [naive_solver|].
  rewrite lookup_insert_is_Some. destruct (decide (k0 = k)); naive_solver.
Qed.

Lemma start_peers cfg r k :
  started cfg r →
  is_Some (peers (run_start r) !! k) ↔
  (∃ pin, pin ∈ pinned r ∧ parse_key (Pins.key pin) = Some k) ∨ k ∈ accepted r.
Proof.
  unfold started, Daemon.run, Daemon.with_endpoint, pinned, accepted.
  destruct (Pins.load (run_pins r)) as [pins|]; [|done]. simpl. intros [= <-].
  unfold Daemon.start_accepts. set (handles := Daemon.accept_handles _).
  set (m0 := foldl _ (new _ _ _) pins). set (ks := Invite.handle_key <$> handles).
  set (m1 := foldl _ (restore_surfaces cfg m0) _). set (m2 := foldl _ m1 handles).
  assert (H0 : is_Some (peers m0 !! k) ↔
               ∃ pin, pin ∈ pins ∧ parse_key (Pins.key pin) = Some k).
  { unfold m0. rewrite (foldl_collects (λ m, is_Some (peers m !! k))
      (λ pin, parse_key (Pins.key pin) = Some k)) by (intros; apply peers_add_pinned).
    simpl. rewrite lookup_empty. split; [intros [?|[? [=]]]; done|auto]. }
  assert (Hp1 : peers m1 = peers m0).
  { unfold m1. assert (Hr := frame_peers _ _ (frame_restore cfg m0)). rewrite <- Hr.
    generalize (restore_surfaces cfg m0). generalize (run_expose r). clear.
    induction l as [|p l IH]; intros m; [done|]. simpl. rewrite IH.
    unfold Daemon.expose. by rewrite (frame_peers _ _ (frame_broadcast _)). }
  assert (H2 : is_Some (peers m2 !! k) ↔ k ∈ ks ∨ is_Some (peers m0 !! k)).
  { unfold m2. rewrite (foldl_collects (λ m, is_Some (peers m !! k))
      (λ h, Invite.handle_key h = k)) by (intros; apply peers_add_peer).
    rewrite Hp1. unfold ks. rewrite list_elem_of_fmap. naive_solver. }
  assert (H3 : peers (match handles with [] => m2 | _ :: _ => broadcast_grants m2 end) = peers m2).
  { case_match; [done|]. apply frame_broadcast. }
  rewrite H3, H2, H0. tauto.
Qed.

End call_lemmas.

(** ** Properties *)
Section call_properties.
Context {K : Type} `{EKL : EndpointKeyLaws K} `{DML : DashMapLaws}.
Context `{!JsonCodec Pins.Pin} `{!JsonCodec Surface.SurfaceRecord}.
Import Peers Shell Calls.

(** C15: a running daemon is a history of session calls.  Whatever requests,
    connections, messages, dials and losses came since its start, the session
    it holds is the one the calls it made lead to from the empty session: the
    shell changes the session in no other way, so that what is proved of every
    history of calls holds of it. *)
Theorem daemon_is_a_history (cfg : Config K) (parse_ip : string → option IpAddr) (r : Run K) :
  started cfg r →
  session (now_at cfg parse_ip r) = History.run Session.new (history cfg parse_ip r) ∧
  (∀ e, session (step cfg parse_ip (now_at cfg parse_ip r) e) =
        History.run Session.new (history cfg parse_ip r ++ calls (now_at cfg parse_ip r) e)).
Proof.
  intros Hs. pose proof (session_of_run cfg parse_ip r Hs) as Hr. split; [done|].
  intros e. by rewrite makes_step, run_app, Hr.
Qed.

(** C1: the daemon serves exactly what its operator granted.  After any run, a
    stream that asks for a port on the connection of any peer object, a known
    peer's or a forgotten one's, is forwarded to that port of the host, with
    the rest of its bytes, exactly when the port was exposed on the command line
    and the key accepted there, or some request or good claim granted that port
    to that very key, and in either case no request revoked it since: an
    unexpose of the port for everyone or for this key, or forgetting the key.
    Otherwise it is refused. *)
Theorem daemon_serves_exactly_grants (cfg : Config K) (parse_ip : string → option IpAddr)
    (r : Run K) (o : ObjId) (p : Peer K) (stream : bytes) (port : Z) (rest : bytes) :
  started cfg r →
  let m := now_at cfg parse_ip r in
  let k := endpoint_id p in
  objects m !! o = Some p → Tunnel.read_request stream = Some (port, rest) →
  (handle_bi_stream cfg o stream m = Forward (host cfg) port rest ↔
   since (step cfg parse_ip) (grants_on port k) (revokes_on port k) (run_start r) (run_events r) ∨
   (port ∈ run_expose r ∧ k ∈ accepted r) ∧
   never (step cfg parse_ip) (revokes_on port k) (run_start r) (run_events r)) ∧
  (handle_bi_stream cfg o stream m = Forward (host cfg) port rest ∨
   handle_bi_stream cfg o stream m = Refused).
Proof.
  intros Hs m k Ho Hreq. destruct (start_session cfg r Hs) as [Hstart _].
  rewrite <- (Hstart port k).
  rewrite <- (since_spec (step cfg parse_ip) agree
    (λ m, Grants.allows port k (Session.grants (session m)) = true)
    (grants_on port k) (revokes_on port k)).
  - fold (now_at cfg parse_ip r). fold m. unfold handle_bi_stream. rewrite Hreq, Ho. fold k.
    unfold Session.on_tunnel. destruct (Grants.allows _ _ _); naive_solver.
  - intros. by apply agree_step.
  - intros. by apply allows_on.
  - by eapply agree_start.
Qed.

(** C2: the daemon knows exactly whom it was told of.  After any run, a key is
    known exactly when it was pinned or accepted at the start, or some accept
    or invite request named it or it made a good claim, and no forget request
    named it since.  A connection from a key that is not known changes nothing
    but that it waits: no message is sent, no object, grant, pin or record
    changes. *)
Theorem daemon_knows_exactly_named (cfg : Config K) (parse_ip : string → option IpAddr)
    (r : Run K) (k : K) :
  started cfg r →
  let m := now_at cfg parse_ip r in
  (is_Some (peers m !! k) ↔
   since (step cfg parse_ip) (names_on k) (forgets_on k) (run_start r) (run_events r) ∨
   ((∃ pin, pin ∈ pinned r ∧ parse_key (Pins.key pin) = Some k) ∨ k ∈ accepted r) ∧
   never (step cfg parse_ip) (forgets_on k) (run_start r) (run_events r)) ∧
  (peers m !! k = None → ∀ c, remote_id c = k →
   let m' := handle_connection cfg c m in
   untouched m m' ∧ closed m' = closed m ∧
   waiting m' = <[next_conn_id m := mkWaiting c None]> (waiting m)).
Proof.
  intros Hs m. pose proof (agree_start _ _ _ _ _ _ _ Hs) as Ha. split.
  - rewrite <- (start_peers cfg r k Hs).
    rewrite <- (since_spec (step cfg parse_ip) agree (λ m, is_Some (peers m !! k))
      (names_on k) (forgets_on k)); [done|..|done].
    + intros. by apply agree_step.
    + intros. by apply known_on.
  - intros Hk c <-. pose proof (agree_reachable _ _ _ (run_reachable cfg parse_ip r Hs)) as [Hkeys _ _].
    fold m in Hkeys. unfold handle_connection, Session.on_inbound. simpl.
    assert (Session.peers (session m) !! remote_id c = None) as ->.
    { apply eq_None_not_Some. rewrite <- Hkeys, Hk. by intros []. }
    by repeat split.
Qed.

(** C7: a code lets one stranger in, once.  After any run, a message on a
    waiting connection makes its key known, when it was not, exactly when it
    presents a token that an invite request of this daemon minted less than
    five minutes before, and that since then was neither presented by anyone,
    nor minted anew, nor found expired; and then it is served the ports that
    request attached to it. *)
Theorem stranger_enters_by_fresh_code (cfg : Config K) (parse_ip : string → option IpAddr)
    (r : Run K) (id : Session.ConnId) (wt : Waiting K) (msg : Protocol.PeerMessage) (now : Z) :
  started cfg r →
  let m := now_at cfg parse_ip r in
  let k := remote_id (wait_conn wt) in
  let m' := step cfg parse_ip m (EvEnroll id (Some msg) now) in
  waiting m !! id = Some wt → peers m !! k = None →
  (is_Some (peers m' !! k) ↔
   ∃ token v p, msg = Protocol.Enroll token v ∧ (now < Tokens.expires p)%Z ∧
     since (step cfg parse_ip) (mints_on token p) (spends_on token p) (run_start r) (run_events r)) ∧
  (∀ token v p, msg = Protocol.Enroll token v → (now < Tokens.expires p)%Z →
     since (step cfg parse_ip) (mints_on token p) (spends_on token p) (run_start r) (run_events r) →
     ∀ port, port ∈ Tokens.ports p → Session.on_tunnel k port (session m') = Session.ServeTunnel port).
Proof.
  intros Hs m k m' Hwt Hk. pose proof (agree_reachable _ _ _ (run_reachable cfg parse_ip r Hs)) as Ha.
  destruct (start_session cfg r Hs) as [_ Hnone].
  assert (Hl : ∀ token p,
    Tokens.pending (Session.tokens (session m)) !! token = Some p ↔
    since (step cfg parse_ip) (mints_on token p) (spends_on token p) (run_start r) (run_events r)).
  { intros token p. etrans; [apply (since_spec (step cfg parse_ip) (λ _, True)
      (λ m, Tokens.pending (Session.tokens (session m)) !! token = Some p)
      (mints_on token p) (spends_on token p)); [done|intros; apply token_on|done]|].
    simpl. rewrite Hnone. naive_solver. }
  setoid_rewrite <- Hl. unfold m'. split.
  - rewrite known_on, Hk by done. unfold names_on, claims_on.
    destruct msg as [ps|port|token v|e]; try naive_solver.
    rewrite Hwt. simpl. rewrite claim_lookup. fold k.
    destruct (Tokens.pending _ !! token) as [p|] eqn:Hp; simpl; [|naive_solver].
    case_decide; simpl; naive_solver.
  - intros token v p -> Hnow Hp port Hport. apply on_tunnel_serves. apply allows_on; [done|].
    left. unfold grants_on, claims_on. rewrite Hwt. simpl. rewrite claim_lookup, Hp.
    rewrite decide_True by done. eexists. split; [done|]. done.
Qed.

End call_properties.

Section call_witnesses.
Import Peers Shell Calls.

(** The toy daemon, which accepted 7 and exposed 8080, and what came since. *)
Definition toy_run (es : list (Event (K:=N))) : Run N :=
  mkRun ["7"] [8080%Z] (Toy.file "peers") (Toy.file "surfaces") None Toy.start es.

Lemma toy_started es : started Toy.config (toy_run es).
Proof. apply Toy.start_run. Qed.

(** Port 22 granted to 7, a code minted for port 25, and stranger 9 waiting. *)
Definition toy_trail : list (Event (K:=N)) :=
  [EvRequest (Protocol.ReqExpose 22%Z ["7"] false) [] 0%Z;
   EvRequest (Protocol.ReqInvite None (Some "desk") [25%Z]) [171%Z] 0%Z;
   EvConnection (mkConn 101%N 9%N)].

(** None of a few given events satisfies a predicate. *)
Ltac not_since := repeat (split; [intros Hx; exact Hx|]); exact I.

Lemma daemon_is_a_history_witness :
  Grants.allows 22 7%N (Session.grants
    (History.run Session.new (history Toy.config Toy.parse_ip (toy_run toy_trail)))) = true.
Proof.
  destruct (daemon_is_a_history Toy.config Toy.parse_ip (toy_run toy_trail) (toy_started _))
    as [<- _]. by vm_compute.
Defined.

Lemma daemon_serves_exactly_grants_witness :
  handle_bi_stream Toy.config 0%N [0; 22; 1; 2]%Z (now_at Toy.config Toy.parse_ip (toy_run toy_trail)) =
  Forward Surface.LOCALHOST 22%Z [1; 2]%Z.
Proof.
  set (m := now_at Toy.config Toy.parse_ip (toy_run toy_trail)).
  destruct (objects m !! 0%N) as [p|] eqn:Hp; [|by vm_compute in Hp].
  assert (Hk : endpoint_id p = 7%N).
  { apply (f_equal (fmap endpoint_id)) in Hp. vm_compute in Hp. by injection Hp. }
  destruct (daemon_serves_exactly_grants Toy.config Toy.parse_ip (toy_run toy_trail) 0%N p
    [0; 22; 1; 2]%Z 22%Z [1; 2]%Z (toy_started _) Hp eq_refl) as [Hiff _].
  apply Hiff. left. rewrite Hk. eexists [], _, _. split; [done|]. split.
  - split; [done|]. exists [7%N]. split; [by vm_compute|]. by left.
  - not_since.
Defined.

Lemma daemon_knows_exactly_named_witness :
  let m := now_at Toy.config Toy.parse_ip (toy_run toy_trail) in
  is_Some (peers m !! 7%N) ∧ closed (handle_connection Toy.config (mkConn 102%N 9%N) m) = closed m.
Proof.
  intros m. split.
  - destruct (daemon_knows_exactly_named Toy.config Toy.parse_ip (toy_run toy_trail) 7%N
      (toy_started _)) as [Hiff _].
    apply Hiff. right. split; [right; by left|]. not_since.
  - destruct (daemon_knows_exactly_named Toy.config Toy.parse_ip (toy_run toy_trail) 9%N
      (toy_started _)) as [_ Hw].
    by destruct (Hw ltac:(by vm_compute) (mkConn 102%N 9%N) eq_refl) as (_ & Hc & _).
Defined.

Lemma stranger_enters_by_fresh_code_witness :
  let m := step Toy.config Toy.parse_ip (now_at Toy.config Toy.parse_ip (toy_run toy_trail))
             (EvEnroll 1%Z (Some (Protocol.Enroll "ab" None)) 10%Z) in
  is_Some (peers m !! 9%N) ∧ Session.on_tunnel 9%N 25%Z (session m) = Session.ServeTunnel 25%Z.
Proof.
  intros m.
  destruct (stranger_enters_by_fresh_code Toy.config Toy.parse_ip (toy_run toy_trail) 1%Z
    (mkWaiting (mkConn 101%N 9%N) None) (Protocol.Enroll "ab" None) 10%Z (toy_started _)
    ltac:(by vm_compute) ltac:(by vm_compute)) as [Hiff Hserve].
  set (p := Tokens.mkPendingToken (Some "desk") [25%Z] (0 + Tokens.TOKEN_TTL)).
  assert (Hs : since (step Toy.config Toy.parse_ip) (mints_on "ab" p) (spends_on "ab" p)
                 (run_start (toy_run toy_trail)) (run_events (toy_run toy_trail))).
  { eexists [_], _, [_]. split; [done|]. split; [by split|]. not_since. }
  split.
  - apply Hiff. by exists "ab"%string, None, p.
  - apply (Hserve "ab"%string None p); [done..|]. by left.
Defined.

End call_witnesses.
