(* ===== verification/Tasks.v ===== *)
(** * Operations that interleave ([src/src/peer.rs])

    [Shell.step] runs each operation of the peer manager whole.  In the program
    the longer ones are tasks of a runtime with several threads, which take the
    session's lock, the map's and a peer's one after the other: here [add_peer],
    [remove_peer] with [evict], [handle_connection] and the end of
    [handle_enrollment] are cut where they let go of one, and any number of them
    advance in any order, among the other events.  [evict] holds the bind lock
    throughout, so that what also takes it waits.

    A task left alone does what [Shell.step] says.  However tasks interleave the
    session is a history of calls, so that what a tunnel is served for stays
    what was granted; but the shell and the session can be made to disagree. *)

From S2P Require Import Prelude RustStr Keys Grants Dial Invite Store Enroll Protocol Session SessionSafety Surface Resolver Netstack Tunnel Peer PeerFacts PeerLoop Daemon Shell PeerProps Calls.

Module Tasks.
Import Peers Shell Calls.

Section tasks.
Context {K : Type} `{!EndpointKey K} `{!DashMap}.
Context `{!JsonCodec Pins.Pin} `{!JsonCodec Surface.SurfaceRecord}.
Variable cfg : Config K.
Variable parse_ip : string → option IpAddr.
Local Abbreviation Call := (History.Event K).

(** Where a task is: [add_peer] past its look into the map; the object about to
    go into the map, with what to carry out for it then; [evict] before its
    removal from the map, and past it, past the object's teardown, past the
    session's, past the pin's; an inbound connection past the session's
    verdict, past the map, past the slot; actions still to carry out; the
    verdict of an enrollment. *)
Inductive Task : Type :=
| Admit (p : Peer K) (a : Session.Admission)
| Insert (p : Peer K) (actions : list (Session.Action K))
| Evict (k : K)
| Tear (k : K) (o : ObjId)
| Unknow (k : K)
| DropPins (k : K) (actions : list (Session.Action K))
| DropSurface (k : K)
| Find (c : Conn K) (admission : list (Session.Action K))
| Install (o : ObjId) (c : Conn K) (admission : list (Session.Action K))
| Mark (o : ObjId) (admission : list (Session.Action K))
| Apply (o : ObjId) (actions : list (Session.Action K))
| Verdict (wt : Waiting K) (actions : list (Session.Action K)).

(** What begins a task. *)
Inductive Op : Type :=
| Accept (handle : string) (name : option string)
| Forget (peer : string)
| Connect (c : Conn K)
| Message (id : Session.ConnId) (msg : option Protocol.PeerMessage) (now : Z)
| Elapsed (id : Session.ConnId).

Definition then_apply (o : ObjId) (actions : list (Session.Action K)) : option Task :=
  match actions with
  | [] => None
  | _ :: _ => Some (Apply o actions)
  end.

(** The first step of an operation, and the task it leaves. *)
Definition begin (op : Op) (m : PeerManager K) : PeerManager K * option Task :=
  match op with
  | Accept handle name =>
      match Invite.from_str handle with
      | Ok h =>
          match peers m !! Invite.handle_key h with
          | Some _ => (m, None)
          | None => (m, Some (Admit (new_peer (Invite.handle_key h) name true (Invite.handle_code h) None)
                                    Session.Added))
          end
      | Err _ => (m, None)
      end
  | Forget peer =>
      match resolve_peer peer m with
      | Some k => match peers m !! k with
                  | Some _ => (m, Some (Evict k))
                  | None => (m, None)
                  end
      | None => (m, None)
      end
  | Connect c =>
      let id := next_conn_id m in
      let m := set_next_conn_id ((id + 1) mod 2 ^ 64)%Z m in
      let '(s, admission) := Session.on_inbound id (remote_id c) (session m) in
      let m := set_session s m in
      match admission with
      | [] => (set_waiting (<[id := mkWaiting c None]> (waiting m)) m, None)
      | _ :: _ => (m, Some (Find c admission))
      end
  | Message id msg now =>
      match waiting m !! id, msg with
      | Some wt, Some msg =>
          let wt := match msg with
                    | Protocol.Enroll _ (Some v) => mkWaiting (wait_conn wt) (Some v)
                    | _ => wt
                    end in
          let '(s, actions) := Session.on_unadmitted id (remote_id (wait_conn wt)) msg now (session m) in
          let m := set_session s m in
          match actions with
          | [] => (set_waiting (<[id := wt]> (waiting m)) m, None)
          | _ :: _ => (set_waiting (delete id (waiting m)) m, Some (Verdict wt actions))
          end
      | _, _ => (m, None)
      end
  | Elapsed id =>
      match waiting m !! id with
      | Some wt =>
          let '(s, actions) := Session.on_enroll_timeout id (session m) in
          (set_waiting (delete id (waiting m)) (set_session s m), Some (Verdict wt actions))
      | None => (m, None)
      end
  end.

(** One more step of a task. *)
Definition resume (t : Task) (m : PeerManager K) : PeerManager K * option Task :=
  match t with
  | Admit p a => (admit_known (endpoint_id p) (label p) a m, Some (Insert p []))
  | Insert p actions =>
      let '(m, o) := spawn_peer p m in (m, then_apply o actions)
  | Evict k =>
      match peers m !! k with
      | Some o => (set_peers (delete k (peers m)) m, Some (Tear k o))
      | None => (m, Some (Unknow k))
      end
  | Tear k o => (evict_object cfg o "removed" m, Some (Unknow k))
  | Unknow k =>
      let '(s, actions) := Session.evict k (session m) in
      (set_session s m, Some (DropPins k actions))
  | DropPins k actions => (foldl drop_pin m actions, Some (DropSurface k))
  | DropSurface k => (set_surfaces (Surface.remove (to_string k) (surfaces m)).1 m, None)
  | Find c admission =>
      match peers m !! remote_id c with
      | Some o => (m, Some (Install o c admission))
      | None => (m, None)
      end
  | Install o c admission =>
      match install cfg o c false m with
      | (m, true) => (m, Some (Mark o admission))
      | (m, false) => (m, None)
      end
  | Mark o admission =>
      (upd o (put_notified true) (upd o (put_dial true) m), then_apply o admission)
  | Apply o actions =>
      match actions with
      | a :: actions => (apply_one cfg o m a, then_apply o actions)
      | [] => (m, None)
      end
  | Verdict wt actions =>
      let c := wait_conn wt in
      match refusal_of actions with
      | Some reason => (close c (Session.refusal_str reason) m, None)
      | None =>
          if existsb is_admit actions
          then
            let l := Session.label_of (remote_id c) (session m) in
            let p := new_peer (remote_id c) l true None (Some c) in
            let p := match early_version wt with
                     | Some v => put_version (Some v) p
                     | None => p
                     end in
            (m, Some (Insert p actions))
          else (close c (Session.refusal_str Session.NotAuthorized) m, None)
      end
  end.

(** Whether a task holds the bind lock between this step and the next, and
    whether its next step takes it. *)
Definition holds_lock (t : Task) : bool :=
  match t with
  | Tear _ _ | Unknow _ | DropPins _ _ | DropSurface _ => true
  | _ => false
  end.

Definition takes_lock (t : Task) : bool :=
  match t with
  | Evict _ | Apply _ (Session.ApplyPorts _ _ :: _) => true
  | _ => false
  end.

(** ** The machine *)

Record Machine : Type := mkMachine {
  manager : PeerManager K;
  tasks : gmap N Task;
  next_task : N;
}.

Definition locked (x : Machine) : bool :=
  existsb (λ e : N * Task, holds_lock e.2) (map_to_list (tasks x)).

(** An operation begins, a task advances, or something else happens whole. *)
Inductive Event : Type :=
| Begin (op : Op)
| Resume (t : N)
| Whole (e : Shell.Event (K:=K)).

(** The events that are operations here, and those that take the bind lock. *)
Definition is_op (e : Shell.Event (K:=K)) : bool :=
  match e with
  | EvRequest (Protocol.ReqAccept _ _) _ _ | EvRequest (Protocol.ReqForget _) _ _
  | EvConnection _ | EvEnroll _ _ _ | EvEnrollEnd _ => true
  | _ => false
  end.

Definition event_takes_lock (e : Shell.Event (K:=K)) : bool :=
  match e with
  | EvRequest (Protocol.ReqProject _ _ _) _ _ | EvRequest (Protocol.ReqUnproject _) _ _
  | EvUni _ (Some (Protocol.ExposedPorts _)) => true
  | _ => false
  end.

Definition put_task (id : N) (t : option Task) (x : gmap N Task) : gmap N Task :=
  match t with
  | Some t => <[id := t]> x
  | None => delete id x
  end.

(** What cannot happen now leaves the machine as it is. *)
Definition step (x : Machine) (e : Event) : Machine :=
  match e with
  | Begin op =>
      let '(m, t) := begin op (manager x) in
      mkMachine m (put_task (next_task x) t (tasks x)) (next_task x + 1)
  | Resume id =>
      match tasks x !! id with
      | Some t =>
          if (takes_lock t && locked x)%bool then x
          else let '(m, t) := resume t (manager x) in
               mkMachine m (put_task id t (tasks x)) (next_task x)
      | None => x
      end
  | Whole e =>
      if (is_op e || event_takes_lock e && locked x)%bool then x
      else mkMachine (Shell.step cfg parse_ip (manager x) e) (tasks x) (next_task x)
  end.

(** ** What it stands for *)

Definition event_of (op : Op) : Shell.Event (K:=K) :=
  match op with
  | Accept handle name => EvRequest (Protocol.ReqAccept handle name) [] 0%Z
  | Forget peer => EvRequest (Protocol.ReqForget peer) [] 0%Z
  | Connect c => EvConnection c
  | Message id msg now => EvEnroll id msg now
  | Elapsed id => EvEnrollEnd id
  end.

(** A task advancing alone. *)
Definition alone (x y : PeerManager K * option Task) : Prop :=
  match x with
  | (m, Some t) => y = resume t m
  | (_, None) => False
  end.

(** The session calls of a step. *)
Definition begin_calls (op : Op) (m : PeerManager K) : list Call :=
  match op with
  | Connect c => [History.EvInbound (next_conn_id m) (remote_id c)]
  | Message id (Some msg) now =>
      match waiting m !! id with
      | Some wt => [History.EvUnadmitted id (remote_id (wait_conn wt)) msg now]
      | None => []
      end
  | Elapsed id =>
      match waiting m !! id with
      | Some _ => [History.EvEnrollTimeout id]
      | None => []
      end
  | _ => []
  end.

Definition resume_calls (t : Task) : list Call :=
  match t with
  | Admit p a => [History.EvAdmitKnown (endpoint_id p) (label p) a]
  | Unknow k => [History.EvEvict k]
  | _ => []
  end.

Definition step_calls (x : Machine) (e : Event) : list Call :=
  match e with
  | Begin op => begin_calls op (manager x)
  | Resume id =>
      match tasks x !! id with
      | Some t => if (takes_lock t && locked x)%bool then [] else resume_calls t
      | None => []
      end
  | Whole e =>
      if (is_op e || event_takes_lock e && locked x)%bool then [] else calls (manager x) e
  end.

(** A daemon from its start on, and the calls it made. *)
Definition now_at (m0 : PeerManager K) (es : list Event) : Machine :=
  foldl step (mkMachine m0 ∅ 0) es.

Definition history (m0 : PeerManager K) (es : list Event) : list Call :=
  fold_calls step step_calls es (mkMachine m0 ∅ 0).

End tasks.
Arguments Task K : clear implicits.
Arguments Op K : clear implicits.
Arguments Event K : clear implicits.
Arguments Machine K {_}.
End Tasks.

(** ** Lemmas *)
Section task_lemmas.
Import Peers Shell Calls Tasks.
Context {K : Type} `{EKL : EndpointKeyLaws K} `{DML : DashMapLaws}.
Context `{!JsonCodec Pins.Pin} `{!JsonCodec Surface.SurfaceRecord}.
Variable cfg : Config K.
Variable parse_ip : string → option IpAddr.
Implicit Types (m : PeerManager K) (o : ObjId) (t : Task K).

Local Abbreviation leads := (rtc (alone cfg)).

Lemma leads_step m t x : leads (resume cfg t m) x → leads (m, Some t) x.
Proof. intros Hx. by eapply rtc_l. Qed.

Lemma leads_then_apply o actions m :
  leads (m, then_apply o actions) (apply cfg o actions m, None).
Proof.
  revert m. induction actions as [|a actions IH]; intros m; [apply rtc_refl|].
  apply leads_step. simpl. apply IH.
Qed.

Lemma leads_insert p actions m :
  leads (m, Some (Insert p actions)) (apply cfg (spawn_peer p m).2 actions (spawn_peer p m).1, None).
Proof. apply leads_step. apply leads_then_apply. Qed.

Lemma leads_evict k m :
  leads (m, Some (Evict k)) (evict cfg k "removed" m, None).
Proof.
  unfold evict. set (m1 := match peers m !! k with Some _ => _ | None => m end).
  assert (H1 : leads (m, Some (Evict k)) (m1, Some (Unknow k))).
  { unfold m1. destruct (peers m !! k) as [o|] eqn:Ho.
    - apply leads_step. simpl. rewrite Ho. apply leads_step. apply rtc_refl.
    - apply leads_step. simpl. rewrite Ho. apply rtc_refl. }
  etrans; [exact H1|]. apply leads_step. simpl.
  destruct (Session.evict k (session m1)) as [s actions].
  apply leads_step. apply leads_step. apply rtc_refl.
Qed.

Lemma leads_verdict id wt actions m :
  leads (set_waiting (delete id (waiting m)) m, Some (Verdict wt actions))
        (enroll_verdict cfg id wt actions m, None).
Proof.
  apply leads_step. unfold enroll_verdict. simpl.
  destruct (refusal_of actions); [apply rtc_refl|].
  destruct (existsb is_admit actions); [|apply rtc_refl].
  set (p := match early_version wt with Some _ => _ | None => _ end).
  apply leads_insert.
Qed.

(** What a step makes of the session. *)
Lemma makes_begin op m : makes (begin_calls op m) m (begin op m).1.
Proof.
  destruct op as [handle name|peer|c|id msg now|id]; simpl.
  - destruct (Invite.from_str handle); [|done]. by destruct (peers m !! _).
  - destruct (resolve_peer peer m); [|done]. by destruct (peers m !! _).
  - unfold makes, History.run. simpl. destruct (Session.on_inbound _ _ _) as [s acts]. by destruct acts.
  - destruct msg as [msg|]; [|by destruct (waiting m !! id)].
    destruct (waiting m !! id) as [wt|]; [|done]. unfold makes, History.run. simpl.
    assert (Hwt : wait_conn (match msg with
      | Protocol.Enroll _ (Some v) => mkWaiting (wait_conn wt) (Some v) | _ => wt end) = wait_conn wt).
    { by destruct msg as [| |? []|]. }
    rewrite Hwt. destruct (Session.on_unadmitted _ _ _ _ _) as [s acts]. by destruct acts.
  - destruct (waiting m !! id) as [wt|]; [|done]. unfold makes, History.run. simpl.
    by destruct (Session.on_enroll_timeout _ _).
Qed.

Lemma makes_resume t m : makes (resume_calls t) m (resume cfg t m).1.
Proof.
  destruct t as [p a|p actions|k|k o|k|k actions|k|c adm|o c adm|o adm|o actions|wt actions]; simpl;
    try done.
  - by destruct (peers m !! k).
  - unfold makes. by destruct (evict_object_frame cfg o "removed" m).
  - unfold makes, History.run. simpl. by destruct (Session.evict k (session m)).
  - apply makes_frame, frame_drop_pins.
  - by destruct (peers m !! remote_id c).
  - pose proof (frame_install cfg o c false m) as H1.
    destruct (install cfg o c false m) as [m1 []]; by apply makes_frame.
  - destruct actions as [|a actions]; [done|]. apply makes_frame.
    apply (frame_apply cfg o [a] m).
  - destruct (refusal_of actions); [apply makes_frame, frame_close|].
    destruct (existsb is_admit actions); [done|apply makes_frame, frame_close].
Qed.

Lemma makes_machine x (e : Tasks.Event K) :
  session (manager (Tasks.step cfg parse_ip x e)) =
  History.run (session (manager x)) (step_calls x e).
Proof.
  destruct e as [op|id|e]; simpl.
  - pose proof (makes_begin op (manager x)) as H1. by destruct (begin op (manager x)).
  - destruct (tasks x !! id) as [t|]; [|done]. destruct (takes_lock t && locked x); [done|].
    pose proof (makes_resume t (manager x)) as H1. by destruct (resume cfg t (manager x)).
  - destruct (is_op e || event_takes_lock e && locked x); [done|]. apply makes_step.
Qed.

Lemma session_of_machine es x :
  session (manager (foldl (Tasks.step cfg parse_ip) x es)) =
  History.run (session (manager x)) (fold_calls (Tasks.step cfg parse_ip) step_calls es x).
Proof.
  revert x. induction es as [|e es IH]; intros x; [done|]. simpl.
  by rewrite run_app, <- makes_machine, IH.
Qed.

End task_lemmas.

(** ** Properties *)
Section task_properties.
Import Peers Shell Calls Tasks.
Context {K : Type} `{EKL : EndpointKeyLaws K} `{DML : DashMapLaws}.
Context `{!JsonCodec Pins.Pin} `{!JsonCodec Surface.SurfaceRecord}.

(** A task that is left alone does what the whole operation does.  From
    any state, an operation that begins and is then resumed with nothing in
    between comes to its end, in exactly the state [Shell.step] gives: every
    theorem about whole operations is about tasks that do not overlap. *)
Theorem tasks_alone_are_events (cfg : Config K) (parse_ip : string → option IpAddr)
    (op : Op K) (m : PeerManager K) :
  rtc (alone cfg) (begin op m) (Shell.step cfg parse_ip m (event_of op), None).
Proof.
  destruct op as [handle name|peer|c|id msg now|id]; simpl.
  - unfold Daemon.accept. destruct (Invite.from_str handle) as [h|]; [|apply rtc_refl].
    unfold add_peer. destruct (peers m !! Invite.handle_key h); [apply rtc_refl|].
    apply leads_step. apply (leads_insert cfg _ []).
  - unfold remove_peer. destruct (resolve_peer peer m) as [k|]; [|apply rtc_refl].
    destruct (peers m !! k); [|apply rtc_refl]. apply leads_evict.
  - unfold handle_connection. destruct (Session.on_inbound _ _ _) as [s adm].
    destruct adm as [|a adm]; [apply rtc_refl|]. apply leads_step. cbn [resume].
    destruct (peers _ !! remote_id c) as [o|]; [|apply rtc_refl].
    apply leads_step. cbn [resume]. destruct (install _ _ _ _ _) as [m1 []]; [|apply rtc_refl].
    apply leads_step. apply (leads_then_apply cfg o (a :: adm)).
  - unfold enroll_message. destruct (waiting m !! id) as [wt|]; [|apply rtc_refl].
    destruct msg as [msg|]; [|apply rtc_refl].
    destruct (Session.on_unadmitted _ _ _ _ _) as [s actions].
    destruct actions as [|a actions]; [apply rtc_refl|]. apply (leads_verdict cfg id _ _ (set_session s m)).
  - unfold enroll_end. destruct (waiting m !! id) as [wt|]; [|apply rtc_refl].
    destruct (Session.on_enroll_timeout _ _) as [s actions]. apply (leads_verdict cfg id _ _ (set_session s m)).
Qed.

(** C5: however tasks interleave, tunnels are served for grants alone.  After
    any run of a started daemon whose operations overlap in any way, its session
    is the one the calls it made lead to from the empty session, each made
    under the session's lock; and a stream that asks for a port, on the
    connection of any object, is forwarded exactly when one of those calls
    granted the port to the object's key and none revoked it since, and is
    otherwise refused. *)
Theorem interleaved_daemon_serves_exactly_grants (cfg : Config K)
    (parse_ip : string → option IpAddr) (texts : list string) (ports : list Z)
    (f1 f2 : Store.File) (ns : option NetStack.NetStack) (m0 : PeerManager K)
    (es : list (Tasks.Event K)) (o : ObjId) (p : Peer K) (stream : bytes) (port : Z) (rest : bytes) :
  Daemon.run cfg texts ports f1 f2 ns = Ok m0 →
  let m := manager (Tasks.now_at cfg parse_ip m0 es) in
  let calls := start_calls cfg texts ports (default [] (ok (Pins.load f1))) f1 f2 ns ++
               Tasks.history cfg parse_ip m0 es in
  session m = History.run Session.new calls ∧
  (objects m !! o = Some p → Tunnel.read_request stream = Some (port, rest) →
   (handle_bi_stream cfg o stream m = Forward (host cfg) port rest ↔
    History.last_is (λ s e, History.grants_to s e port (endpoint_id p))
                    (λ s e, History.revokes_from s e port (endpoint_id p)) Session.new calls) ∧
   (handle_bi_stream cfg o stream m = Forward (host cfg) port rest ∨
    handle_bi_stream cfg o stream m = Refused)).
Proof.
  intros Hrun m cs.
  assert (Hs : session m = History.run Session.new cs).
  { assert (Hm0 : session m0 = History.run Session.new (start_calls cfg texts ports
      (default [] (ok (Pins.load f1))) f1 f2 ns)) by exact (makes_start _ _ _ _ _ _ _ Hrun).
    unfold cs, m, Tasks.now_at, Tasks.history.
    by rewrite run_app, <- Hm0, session_of_machine. }
  split; [done|]. intros Ho Hreq. unfold handle_bi_stream. rewrite Hreq, Ho, Hs.
  rewrite <- (last_is_new (λ s, Grants.allows port (endpoint_id p) (Session.grants s) = true)).
  - unfold Session.on_tunnel. destruct (Grants.allows _ _ _); naive_solver.
  - done.
  - intros s e. apply allows_step.
Qed.

End task_properties.

Section races.
Import Peers Shell Calls Tasks.
Context {K : Type} `{EKL : EndpointKeyLaws K} `{DML : DashMapLaws}.
Context `{!JsonCodec Pins.Pin} `{!JsonCodec Surface.SurfaceRecord}.

Lemma resume_free cfg parse_ip (m : PeerManager K) ts n id t :
  ts !! id = Some t → takes_lock t = false →
  Tasks.step cfg parse_ip (mkMachine m ts n) (Resume id) =
  mkMachine (resume cfg t m).1 (put_task id (resume cfg t m).2 ts) n.
Proof. intros Ht Hl. simpl. rewrite Ht, Hl. simpl. by destruct (resume cfg t m). Qed.

Lemma resume_locked cfg parse_ip (m : PeerManager K) ts n id t :
  ts !! id = Some t → locked (mkMachine m ts n) = false →
  Tasks.step cfg parse_ip (mkMachine m ts n) (Resume id) =
  mkMachine (resume cfg t m).1 (put_task id (resume cfg t m).2 ts) n.
Proof. intros Ht Hl. simpl. rewrite Ht, Hl, andb_false_r. by destruct (resume cfg t m). Qed.

Lemma begin_task cfg parse_ip (m : PeerManager K) ts n op :
  Tasks.step cfg parse_ip (mkMachine m ts n) (Begin op) =
  mkMachine (begin op m).1 (put_task n (begin op m).2 ts) (n + 1).
Proof. simpl. by destruct (begin op m). Qed.

Lemma spawned p (m m' : PeerManager K) o :
  spawn_peer p m = (m', o) →
  objects m !! o = None ∧ objects m' = <[o := p]> (objects m) ∧
  peers m' = <[endpoint_id p := o]> (peers m) ∧ loops m' = loops m ++ [o] ∧
  session m' = session m.
Proof.
  intros [= <- <-]. split_and!; [|done..]. apply not_elem_of_dom, is_fresh.
Qed.

(** Evicting a key leaves the objects of others as they are. *)
Lemma evict_others cfg k reason (m : PeerManager K) o :
  peers m !! k = Some o →
  let m' := evict cfg k reason m in
  peers m' = delete k (peers m) ∧ loops m' = loops m ∧
  Session.peers (session m') = delete k (Session.peers (session m)) ∧
  (∀ o', o' ≠ o → identity <$> objects m' !! o' = identity <$> objects m !! o').
Proof.
  intros Ho. unfold evict. rewrite Ho.
  pose proof (evict_object_frame cfg o reason (set_peers (delete k (peers m)) m)) as Hf.
  set (m1 := evict_object cfg o reason _) in *.
  pose proof (session_evict_agree k (session m1)) as [Hsp _].
  destruct (Session.evict k (session m1)) as [s acts]. simpl in Hsp.
  pose proof (frame_drop_pins acts (set_session s m1)) as Hd.
  cbn [fst]. split_and!.
  - cbn. rewrite (frame_peers _ _ Hd). cbn. by rewrite (frame_peers _ _ Hf).
  - cbn. rewrite (frame_loops _ _ Hd). cbn. by rewrite (frame_loops _ _ Hf).
  - cbn. rewrite (frame_session _ _ Hd). cbn. by rewrite Hsp, (frame_session _ _ Hf).
  - intros o' Hne. cbn. rewrite (frame_identity _ _ Hd o'). cbn.
    rewrite (frame_identity _ _ Hf o'). cbn. by rewrite lookup_alter_ne.
Qed.

(** Two accepts of one key at once leave a peer nobody can forget.  Begun
    while the key is not known, and then finished one after the other, they
    make two objects of which the map keeps the second: the first has its
    connection loop, and a later forget of the key evicts the second and leaves
    the first as it is, not removed, in a daemon that no longer knows the key. *)
Theorem concurrent_accepts_strand_a_loop (cfg : Config K) (parse_ip : string → option IpAddr)
    (m : PeerManager K) (handle1 handle2 : string) (name1 name2 : option string)
    (h1 h2 : Invite.Handle K) (k : K) :
  agree m → peers m !! k = None →
  Invite.from_str handle1 = Ok h1 → Invite.handle_key h1 = k →
  Invite.from_str handle2 = Ok h2 → Invite.handle_key h2 = k →
  let x := foldl (Tasks.step cfg parse_ip) (mkMachine m ∅ 0)
             [Begin (Accept handle1 name1); Begin (Accept handle2 name2);
              Resume 0; Resume 0; Resume 1; Resume 1] in
  let m1 := manager x in
  let m2 := evict cfg k "removed" m1 in
  tasks x = ∅ ∧
  ∃ o1 o2, o1 ≠ o2 ∧ peers m1 !! k = Some o2 ∧ (∀ k', peers m1 !! k' ≠ Some o1) ∧
    o1 ∈ loops m2 ∧ peers m2 !! k = None ∧ Session.peers (session m2) !! k = None ∧
    ∃ p, objects m2 !! o1 = Some p ∧ endpoint_id p = k ∧ removed p = false.
Proof.
  intros Hag Hk Hh1 Hk1 Hh2 Hk2 x.
  set (p1 := new_peer k name1 true (Invite.handle_code h1) None).
  set (p2 := new_peer k name2 true (Invite.handle_code h2) None).
  assert (Hx : manager x = (spawn_peer p2 (admit_known k name2 Session.Added
                (spawn_peer p1 (admit_known k name1 Session.Added m)).1)).1 ∧ tasks x = ∅).
  { unfold x. cbn [foldl]. rewrite !begin_task. cbn [begin]. rewrite Hh1, Hk1, Hk. cbn [fst snd].
    rewrite Hh2, Hk2, Hk. cbn [fst snd put_task]. fold p1 p2.
    rewrite (resume_free _ _ _ _ _ 0 (Admit p1 Session.Added)) by (done || by simplify_map_eq).
    cbn [resume fst snd put_task].
    rewrite (resume_free _ _ _ _ _ 0 (Insert p1 [])) by (done || by simplify_map_eq).
    cbn [resume fst snd put_task then_apply spawn_peer].
    rewrite (resume_free _ _ _ _ _ (0 + 1) (Admit p2 Session.Added)) by (done || by simplify_map_eq).
    cbn [resume fst snd put_task].
    rewrite (resume_free _ _ _ _ _ (0 + 1) (Insert p2 [])) by (done || by simplify_map_eq).
    cbn [resume fst snd put_task then_apply spawn_peer manager tasks].
    split; [done|]. by vm_compute. }
  destruct Hx as [Hx Hts]. intros m1 m2. split; [done|].
  unfold m2, m1. rewrite Hx. clear m1 m2 Hx Hts x.
  destruct (spawn_peer p1 (admit_known k name1 Session.Added m)) as [n1 o1] eqn:Hs1.
  apply spawned in Hs1 as (Hf1 & Ho1 & Hp1 & Hl1 & _). cbn [fst].
  destruct (spawn_peer p2 (admit_known k name2 Session.Added n1)) as [n2 o2] eqn:Hs2.
  apply spawned in Hs2 as (Hf2 & Ho2 & Hp2 & Hl2 & _). cbn [fst].
  cbn [admit_known objects peers loops set_session endpoint_id new_peer p1 p2] in *.
  assert (Hne : o1 ≠ o2) by (intros ->; rewrite Ho1, lookup_insert_eq in Hf2; done).
  assert (Hk2' : peers n2 !! k = Some o2) by (rewrite Hp2; apply lookup_insert_eq).
  destruct (evict_others cfg k "removed" n2 o2 Hk2') as (Hep & Hel & Hes & Heo).
  exists o1, o2. split_and!; [done|done|..].
  - intros k'. rewrite Hp2, Hp1. destruct (decide (k' = k)) as [->|Hkk].
    + rewrite lookup_insert_eq. congruence.
    + rewrite !lookup_insert_ne by done. intros Hin.
      destruct (agree_objects _ Hag k' o1 Hin) as (p & Hp & _). congruence.
  - rewrite Hel, Hl2, Hl1. set_solver.
  - rewrite Hep. apply lookup_delete_eq.
  - rewrite Hes. apply lookup_delete_eq.
  - specialize (Heo o1 Hne). rewrite Ho2, lookup_insert_ne, Ho1, lookup_insert_eq in Heo by done.
    destruct (objects (evict cfg k "removed" n2) !! o1) as [p|]; [|done]. exists p.
    injection Heo as He _ _ Hr. done.
Qed.

(** An accept that overlaps a forget leaves a peer of the shell alone.
    Begun after the forget took the key out of the map and finished before the
    forget reaches the session, it puts the key back into the map, and the
    forget then takes it out of the session: both are done, and the daemon
    lists a peer, and dials it, that its session does not know: with the
    admission [unknown], and whose own connections wait like a stranger's. *)
Theorem accept_during_forget_disagrees (cfg : Config K) (parse_ip : string → option IpAddr)
    (m : PeerManager K) (peer handle : string) (name : option string) (h : Invite.Handle K)
    (k : K) (o : ObjId) :
  agree m → resolve_peer peer m = Some k → peers m !! k = Some o →
  Invite.from_str handle = Ok h → Invite.handle_key h = k →
  let x := foldl (Tasks.step cfg parse_ip) (mkMachine m ∅ 0)
             [Begin (Forget peer); Resume 0; Begin (Accept handle name); Resume 1; Resume 1;
              Resume 0; Resume 0; Resume 0; Resume 0] in
  let m' := manager x in
  tasks x = ∅ ∧ is_Some (peers m' !! k) ∧ Session.peers (session m') !! k = None ∧ ¬ agree m' ∧
  (∃ row, row ∈ list_peers cfg m' ∧ Protocol.pi_key row = to_string k ∧
          Protocol.pi_admission row = "unknown") ∧
  ∀ c, remote_id c = k →
    waiting (handle_connection cfg c m') = <[next_conn_id m' := mkWaiting c None]> (waiting m').
Proof.
  intros Hag Href Hk Hh Hhk x.
  set (p := new_peer k name true (Invite.handle_code h) None).
  set (m1 := admit_known k name Session.Added (set_peers (delete k (peers m)) m)).
  set (m2 := evict_object cfg o "removed" (spawn_peer p m1).1).
  set (sa := Session.evict k (session m2)).
  set (m3 := foldl drop_pin (set_session sa.1 m2) sa.2).
  assert (Hx : manager x = set_surfaces (Surface.remove (to_string k) (surfaces m3)).1 m3 ∧
               tasks x = ∅).
  { unfold x. cbn [foldl]. rewrite begin_task. cbn [begin]. rewrite Href, Hk. cbn [fst snd put_task].
    rewrite (resume_locked _ _ _ _ _ 0 (Evict k)) by (done || by simplify_map_eq).
    cbn [resume]. rewrite Hk. cbn [fst snd put_task].
    rewrite begin_task. cbn [begin]. rewrite Hh, Hhk. cbn [peers set_peers]. rewrite lookup_delete_eq.
    cbn [fst snd put_task]. fold p. change (0 + 1)%N with 1%N.
    rewrite (resume_free _ _ _ _ _ 1 (Admit p Session.Added)) by (done || by simplify_map_eq).
    cbn [resume fst snd put_task]. change (admit_known (endpoint_id p) (label p) _ _) with m1.
    rewrite (resume_free _ _ _ _ _ 1 (Insert p [])) by (done || by simplify_map_eq).
    cbn [resume then_apply].
    destruct (spawn_peer p m1) as [n1 o1] eqn:Hsp. cbn [fst snd put_task] in *.
    rewrite (resume_free _ _ _ _ _ 0 (Tear k o)) by (done || by simplify_map_eq).
    cbn [resume fst snd put_task]. fold m2.
    rewrite (resume_free _ _ _ _ _ 0 (Unknow k)) by (done || by simplify_map_eq).
    cbn [resume]. fold sa. destruct sa as [s acts] eqn:Hsa. cbn [fst snd put_task] in *.
    rewrite (resume_free _ _ _ _ _ 0 (DropPins k acts)) by (done || by simplify_map_eq).
    cbn [resume fst snd put_task]. fold m3.
    rewrite (resume_free _ _ _ _ _ 0 (DropSurface k)) by (done || by simplify_map_eq).
    cbn [resume fst snd put_task manager tasks]. split; [done|]. by vm_compute. }
  destruct Hx as [Hx Hts]. intros m'. split; [done|]. unfold m'. rewrite Hx. clear m' Hx Hts x.
  set (m4 := set_surfaces _ m3).
  assert (H4 : ∃ o1 p1, peers m4 !! k = Some o1 ∧ objects m4 !! o1 = Some p1 ∧ endpoint_id p1 = k ∧
                        Session.peers (session m4) !! k = None).
  { destruct (spawn_peer p m1) as [n1 o1] eqn:Hs1. apply spawned in Hs1 as (Hf1 & Ho1 & Hp1 & _ & _).
    assert (Hf : frame (upd o (put_removed true) n1) m2) by apply evict_object_frame.
    assert (Hd : frame (set_session sa.1 m2) m3) by apply frame_drop_pins.
    assert (Hne : o1 ≠ o).
    { intros ->. destruct (agree_objects _ Hag k o Hk) as (p0 & Hp0 & _).
      change (objects m1) with (objects m) in Hf1. congruence. }
    pose proof (frame_identity _ _ Hd o1) as Hi. pose proof (frame_identity _ _ Hf o1) as Hi2.
    cbn [objects set_session] in Hi. rewrite Hi2, objects_upd, decide_False in Hi by done.
    rewrite Ho1, lookup_insert_eq in Hi. cbn in Hi. change (objects m4) with (objects m3).
    destruct (objects m3 !! o1) as [p1|] eqn:Ho3; [|done]. exists o1, p1.
    split_and!; [|done|by injection Hi|].
    - change (peers m4) with (peers m3). rewrite (frame_peers _ _ Hd). change (peers m2 !! k = Some o1).
      rewrite (frame_peers _ _ Hf). change (peers n1 !! k = Some o1). rewrite Hp1. apply lookup_insert_eq.
    - change (session m4) with (session m3). rewrite (frame_session _ _ Hd). cbn.
      destruct (session_evict_agree k (session m2)) as [Hsp _]. fold sa in Hsp. rewrite Hsp.
      apply lookup_delete_eq. }
  clearbody m4. destruct H4 as (o1 & p1 & Hp4 & Ho4 & Hid & Hs4).
  split_and!; [by eexists|done|..].
  - intros [Hkeys _ _]. destruct (Hkeys k) as [Hc _]. rewrite Hs4 in Hc.
    destruct Hc as [? Hc]; [by eexists|done].
  - destruct (info_of cfg m4 o1) as [row|] eqn:Hrow; [|by unfold info_of in Hrow; rewrite Ho4 in Hrow].
    exists row. split.
    + unfold list_peers. apply list_elem_of_omap. exists (k, o1). split; [|done].
      by rewrite dash_iter_perm, elem_of_map_to_list.
    + unfold info_of in Hrow. rewrite Ho4 in Hrow. simpl in Hrow. injection Hrow as <-. simpl.
      rewrite Hid. unfold Session.admission_of. by rewrite Hs4.
  - intros c <-. unfold handle_connection, Session.on_inbound. simpl. by rewrite Hs4.
Qed.
End races.

(** ** Witnesses *)
Section task_witnesses.
Import Peers Shell Calls Tasks.

(** Two accepts of key 9, and a call of peer 7 in between. *)
Definition overlapping : list (Tasks.Event N) :=
  [Begin (Accept "9" None); Begin (Connect (mkConn 100%N 7%N)); Resume 0; Begin (Accept "9" None);
   Resume 1; Resume 0; Resume 1; Whole (EvRequest (Protocol.ReqExpose 22 ["9"] false) [] 0%Z);
   Resume 2; Resume 1; Resume 1; Resume 2].

Lemma interleaved_daemon_serves_exactly_grants_witness :
  let m := manager (Tasks.now_at Toy.config Toy.parse_ip Toy.start overlapping) in
  handle_bi_stream Toy.config 0%N [31; 144]%Z m = Forward Surface.LOCALHOST 8080 [] ∧
  handle_bi_stream Toy.config 1%N [31; 144]%Z m = Refused.
Proof.
  intros m.
  assert (H0 : ∃ p, objects m !! 0%N = Some p) by (eexists; by vm_compute).
  assert (H1 : ∃ p, objects m !! 1%N = Some p) by (eexists; by vm_compute).
  destruct H0 as [p0 H0], H1 as [p1 H1].
  pose proof (λ o p, interleaved_daemon_serves_exactly_grants Toy.config Toy.parse_ip _ _ _ _ _ _
    overlapping o p [31; 144]%Z 8080 [] Toy.start_run) as Hs.
  destruct (Hs 0%N p0) as [_ Hp0]. destruct (Hs 1%N p1) as [_ Hp1].
  destruct (Hp0 H0 ltac:(by vm_compute)) as [_ Ho0]. destruct (Hp1 H1 ltac:(by vm_compute)) as [_ Ho1].
  fold m in Ho0, Ho1. split.
  - destruct Ho0 as [Ho0|Ho0]; [exact Ho0|]. exfalso. by vm_compute in Ho0.
  - destruct Ho1 as [Ho1|Ho1]; [|exact Ho1]. exfalso. by vm_compute in Ho1.
Defined.

Lemma concurrent_accepts_strand_a_loop_witness :
  let x := foldl (Tasks.step Toy.config Toy.parse_ip) (mkMachine Toy.start ∅ 0)
             [Begin (Accept "9" None); Begin (Accept "9" (Some "desk"));
              Resume 0; Resume 0; Resume 1; Resume 1] in
  peers (evict Toy.config 9%N "removed" (manager x)) !! 9%N = None ∧
  ∃ o, o ∈ loops (evict Toy.config 9%N "removed" (manager x)) ∧ peers (manager x) !! 9%N ≠ Some o.
Proof.
  intros x.
  destruct (concurrent_accepts_strand_a_loop Toy.config Toy.parse_ip Toy.start "9" "9" None (Some "desk")
    (Invite.HandleKey 9%N) (Invite.HandleKey 9%N) 9%N) as (_ & o1 & o2 & Hne & Ho2 & Hno & Hin & Hp & _);
    [apply (agree_reachable Toy.config Toy.parse_ip), (Toy.start_reachable [])|by vm_compute..|].
  split; [exact Hp|]. exists o1. split; [exact Hin|apply Hno].
Defined.

Lemma accept_during_forget_disagrees_witness :
  let x := foldl (Tasks.step Toy.config Toy.parse_ip) (mkMachine Toy.start ∅ 0)
             [Begin (Forget "7"); Resume 0; Begin (Accept "7" None); Resume 1; Resume 1;
              Resume 0; Resume 0; Resume 0; Resume 0] in
  ¬ agree (manager x) ∧ is_Some (peers (manager x) !! 7%N).
Proof.
  intros x.
  destruct (accept_during_forget_disagrees Toy.config Toy.parse_ip Toy.start "7" "7" None
    (Invite.HandleKey 7%N) 7%N 0%N) as (_ & Hp & _ & Hag & _);
    [apply (agree_reachable Toy.config Toy.parse_ip), (Toy.start_reachable [])|by vm_compute..|].
  by split.
Defined.

End task_witnesses.
