(* ===== verification/Locks.v ===== *)
(** * Under the bind lock ([src/src/peer.rs])

    [update_peer_ports], [project], [unproject] and [evict] hold the bind lock
    and give way many times while they do: at every binding they release, at
    every attempt to bind, at the writes of a surface.  [Shell.step] and
    [Tasks.v] run them whole.  Here each is the chain of its steps, [Stage],
    that starts with what it looked up before it waited for the lock; between
    two of them anything happens that does not take the lock, the end of a
    listener whose accept failed among it.

    The lemmas follow an operation that is left alone; [LockProps.v] is about
    those that are not.  A release is one step, its wait for the listener's task
    included, and so is what follows the last wait of [evict]. *)

From S2P Require Import Prelude RustStr Keys Grants Dial Invite Store Enroll Protocol Session Surface Resolver Netstack Tunnel Peer PeerFacts PeerLoop Daemon Shell Bindings.

Module Locks.
Import Peers Shell.

Section locks.
Context {K : Type} `{!EndpointKey K} `{!DashMap}.
Context `{!JsonCodec Pins.Pin} `{!JsonCodec Surface.SurfaceRecord}.
Variable cfg : Config K.
Variable parse_ip : string → option IpAddr.

(** An operation with what it found before it asks for the lock. *)
Inductive Op : Type :=
| Announce (o : ObjId) (ports : list Z)
| Project (k : K) (o : ObjId) (ip : option IpAddr) (name : option string)
| Unproject (k : K) (o : ObjId)
| Evict (k : K).

(** What follows when the bindings of an object are released. *)
Inductive After : Type :=
| Replace (k : K) (old : IpAddr) (ip : option IpAddr) (name : option string)
| Drop (k : K) (old : IpAddr)
| Forget (k : K).

(** Where an operation is.  [fin]: the ports [update_peer_ports] records at its
    end; [project] records none. *)
Inductive Stage : Type :=
| Enter (op : Op)
| Stale (o : ObjId) (ports old : list Z)
| Pick (o : ObjId) (ports : list Z)
| Clear (o : ObjId) (held : list Z) (after : After)
| Choose (k : K) (o : ObjId) (ip : option IpAddr) (name : option string)
| Place (k : K) (o : ObjId) (ip : IpAddr) (name : option string) (fin : option (list Z))
| Bind (o : ObjId) (ip : IpAddr) (todo : list Z) (attempt : nat) (fin : option (list Z))
| Expose (o : ObjId) (ports : list Z)
| Forgotten (k : K).

(** [evict] up to its first release. *)
Definition hang_up (o : ObjId) (reason : string) (m : PeerManager K) : PeerManager K :=
  let m := upd o (put_removed true) m in
  let m := upd o (put_notified true) m in
  match objects m !! o with
  | Some p =>
      match Dial.connection (slot p) with
      | Some c =>
          close c reason (upd o (put_slot (Dial.mkSlot None (Dial.conn_dialed_by_us (slot p)))) m)
      | None => m
      end
  | None => m
  end.

(** The lock is taken. *)
Definition enter (op : Op) (m : PeerManager K) : PeerManager K * option Stage :=
  match op with
  | Announce o ports => (m, Some (Stale o ports (exposed_of o m)))
  | Project k o ip name =>
      match surface_of o m with
      | Some old => (m, Some (Clear o (held_ports o m) (Replace k (Surface.ip old) ip name)))
      | None => (m, Some (Choose k o ip name))
      end
  | Unproject k o =>
      match surface_of o m with
      | Some s => (m, Some (Clear o (held_ports o m) (Drop k (Surface.ip s))))
      | None => (m, None)
      end
  | Evict k =>
      match peers m !! k with
      | Some o =>
          let m := hang_up o "removed" (set_peers (delete k (peers m)) m) in
          (m, Some (Clear o (held_ports o m) (Forget k)))
      | None => (m, Some (Forgotten k))
      end
  end.

(** Everything of the object is released. *)
Definition cleared (o : ObjId) (after : After) (m : PeerManager K) :
    PeerManager K * option Stage :=
  match after with
  | Replace k old ip name =>
      ((unclaim_addr cfg old (upd o (put_surface None) m)).1, Some (Choose k o ip name))
  | Drop k old =>
      match unclaim_addr cfg old (upd o (put_surface None) m) with
      | (m, Err _) => (m, None)
      | (m, Ok _) => (set_surfaces (Surface.remove (to_string k) (surfaces m)).1 m, None)
      end
  | Forget k =>
      (match surface_of o m with
       | Some s => (unclaim_addr cfg (Surface.ip s) (upd o (put_surface None) m)).1
       | None => m
       end, Some (Forgotten k))
  end.

(** [surface_ip] up to the claim of an address. *)
Definition pick (o : ObjId) (ports : list Z) (m : PeerManager K) : PeerManager K * Stage :=
  match objects m !! o with
  | None => (m, Expose o ports)
  | Some p =>
      match surface p, ports with
      | Some s, _ => (m, Bind o (Surface.ip s) ports 0 (Some ports))
      | None, [] => (m, Expose o ports)
      | None, _ :: _ =>
          match Surface.allocate (projected_ips m) (surface_base m) with
          | Err _ => (m, Expose o ports)
          | Ok ip =>
              let name := Some (match label p with
                                | Some l => l
                                | None => Session.default_name (endpoint_id p)
                                end) in
              match claim_addr cfg ip name m with
              | (m, Err _) => (m, Expose o ports)
              | (m, Ok _) => (m, Place (endpoint_id p) o ip name (Some ports))
              end
          end
      end
  end.

(** [project] from the choice of an address to its claim. *)
Definition choose (k : K) (o : ObjId) (ip : option IpAddr) (name : option string)
    (m : PeerManager K) : PeerManager K * option Stage :=
  let name := match name with
              | Some n => Some n
              | None => p ← objects m !! o; label p
              end in
  match (match ip with
         | Some ip => Ok ip
         | None => Surface.allocate (projected_ips m) (surface_base m)
         end) with
  | Err _ => (m, None)
  | Ok ip =>
      match claim_addr cfg ip name m with
      | (m, Err _) => (m, None)
      | (m, Ok _) => (m, Some (Place k o ip name None))
      end
  end.

(** One attempt to bind the first of the ports left. *)
Definition attempt_bind (o : ObjId) (ip : IpAddr) (port : Z) (todo : list Z) (attempt : nat)
    (fin : option (list Z)) (m : PeerManager K) : PeerManager K * Stage :=
  let next := Bind o ip todo 0 fin in
  match netstack m, ip with
  | Some ns, Surface.V4 a b c d =>
      (put_binding o port TunPlaceholder
         (set_netstack (Some (NetStack.listen (a, b, c, d) port ns)) m), next)
  | _, _ =>
      match Tunnel.bind_listener (tcp_bind cfg (sockets m) attempt) (show_addr cfg) ip port with
      | Ok q =>
          (put_binding o port (Listener ip q) (set_sockets ({[(ip, q)]} ∪ sockets m) m), next)
      | Err _ =>
          (m, if S attempt <? BIND_ATTEMPTS then Bind o ip (port :: todo) (S attempt) fin else next)
      end
  end.

(** One step, up to where the operation next gives way. *)
Definition advance (s : Stage) (m : PeerManager K) : PeerManager K * option Stage :=
  match s with
  | Enter op => enter op m
  | Stale o ports [] => (m, Some (Pick o ports))
  | Stale o ports (port :: old) =>
      (if decide (port ∈ ports) then m else release_binding o port m, Some (Stale o ports old))
  | Pick o ports => let '(m, s) := pick o ports m in (m, Some s)
  | Clear o [] after => cleared o after m
  | Clear o (port :: held) after => (release_binding o port m, Some (Clear o held after))
  | Choose k o ip name => choose k o ip name m
  | Place k o ip name fin =>
      let m := upd o (put_surface (Some (Surface.mkSurface ip name))) m in
      let m := set_surfaces (Surface.add (to_string k) ip name (surfaces m)).1 m in
      (m, Some (Bind o ip (match fin with Some ports => ports | None => exposed_of o m end) 0 fin))
  | Bind o ip [] _ fin => (m, Expose o <$> fin)
  | Bind o ip (port :: todo) attempt fin =>
      match attempt, bindings_of o m !! port with
      | O, Some _ => (m, Some (Bind o ip todo 0 fin))
      | _, _ => let '(m, s) := attempt_bind o ip port todo attempt fin m in (m, Some s)
      end
  | Expose o ports => (upd o (put_exposed ports) m, None)
  | Forgotten k =>
      let '(s, actions) := Session.evict k (session m) in
      let m := foldl drop_pin (set_session s m) actions in
      (set_surfaces (Surface.remove (to_string k) (surfaces m)).1 m, None)
  end.

Definition holds_lock (s : Stage) : bool :=
  match s with
  | Enter _ => false
  | _ => true
  end.

(** ** The machine *)

Record Machine : Type := mkMachine {
  manager : PeerManager K;
  tasks : gmap N Stage;
  next_task : N;
}.

Definition locked (x : Machine) : bool :=
  existsb (λ e : N * Stage, holds_lock e.2) (map_to_list (tasks x)).

(** What an event looks up before it asks for the lock; [None] is an event that
    ends there. *)
Definition begin (e : Shell.Event (K:=K)) (m : PeerManager K) : option Op :=
  match e with
  | EvUni o (Some (Protocol.ExposedPorts ports)) => Some (Announce o ports)
  | EvRequest (Protocol.ReqForget peer) _ _ =>
      k ← resolve_peer peer m; _ ← peers m !! k; Some (Evict k)
  | EvRequest (Protocol.ReqProject peer ip name) _ _ =>
      ip ← match ip with
           | Some s => Some <$> parse_ip s
           | None => Some None
           end;
      k ← resolve_peer peer m; o ← peers m !! k; Some (Project k o ip name)
  | EvRequest (Protocol.ReqUnproject peer) _ _ =>
      k ← resolve_peer peer m; o ← peers m !! k; Some (Unproject k o)
  | _ => None
  end.

Definition is_op (e : Shell.Event (K:=K)) : bool :=
  match e with
  | EvUni _ (Some (Protocol.ExposedPorts _)) | EvRequest (Protocol.ReqForget _) _ _
  | EvRequest (Protocol.ReqProject _ _ _) _ _ | EvRequest (Protocol.ReqUnproject _) _ _ => true
  | _ => false
  end.

Definition is_apply_ports (a : Session.Action K) : bool :=
  match a with Session.ApplyPorts _ _ => true | _ => false end.

(** The other events that take the lock: a good claim with ports announced
    before it. *)
Definition takes_lock (e : Shell.Event (K:=K)) (m : PeerManager K) : bool :=
  match e with
  | EvEnroll id (Some msg) now =>
      match waiting m !! id with
      | Some wt =>
          existsb is_apply_ports
            (Session.on_unadmitted id (remote_id (wait_conn wt)) msg now (session m)).2
      | None => false
      end
  | _ => false
  end.

(** An operation looks up what it works on; one advances; another event
    happens whole. *)
Inductive Event : Type :=
| Begin (e : Shell.Event (K:=K))
| Resume (id : N)
| Whole (e : Shell.Event (K:=K)).

Definition put_task (id : N) (s : option Stage) (x : gmap N Stage) : gmap N Stage :=
  match s with
  | Some s => <[id := s]> x
  | None => delete id x
  end.

(** What cannot happen now leaves the machine as it is. *)
Definition step (x : Machine) (e : Event) : Machine :=
  match e with
  | Begin e =>
      mkMachine (manager x) (put_task (next_task x) (Enter <$> begin e (manager x)) (tasks x))
        (next_task x + 1)
  | Resume id =>
      match tasks x !! id with
      | Some s =>
          if (negb (holds_lock s) && locked x)%bool then x
          else let '(m, s) := advance s (manager x) in
               mkMachine m (put_task id s (tasks x)) (next_task x)
      | None => x
      end
  | Whole e =>
      if (is_op e || takes_lock e (manager x) && locked x)%bool then x
      else mkMachine (Shell.step cfg parse_ip (manager x) e) (tasks x) (next_task x)
  end.

(** A daemon from its start on. *)
Definition now_at (m0 : PeerManager K) (es : list Event) : Machine :=
  foldl step (mkMachine m0 ∅ 0) es.

(** An operation advancing alone. *)
Definition alone (x y : PeerManager K * option Stage) : Prop :=
  match x with
  | (m, Some s) => y = advance s m
  | (_, None) => False
  end.

(** Where an operation is after [n] steps, if its [i]th step finds the daemon in
    state [ms i]; [None] is its end. *)
Fixpoint stage_after (ms : nat → PeerManager K) (n : nat) (s : Stage) : option Stage :=
  match n with
  | O => Some s
  | S n =>
      match (advance s (ms 0)).2 with
      | Some s => stage_after (λ i, ms (S i)) n s
      | None => None
      end
  end.

(** The ports of an announcement being carried out. *)
Definition announces (s : Stage) (o : ObjId) (port : Z) : Prop :=
  match s with
  | Place _ o' _ _ (Some ports) | Bind o' _ _ _ (Some ports) | Expose o' ports =>
      o = o' ∧ port ∈ ports
  | _ => False
  end.

End locks.
Arguments Op K : clear implicits.
Arguments After K : clear implicits.
Arguments Stage K : clear implicits.
Arguments Event K : clear implicits.
Arguments Machine K {_}.
End Locks.

(** ** Lemmas: an operation alone *)
Section alone_lemmas.
Import Peers Shell Locks.
Context {K : Type} `{EKL : EndpointKeyLaws K} `{DML : DashMapLaws}.
Context `{!JsonCodec Pins.Pin} `{!JsonCodec Surface.SurfaceRecord}.
Variable cfg : Config K.
Implicit Types (m : PeerManager K) (o : ObjId) (s : Stage K).

Local Abbreviation leads := (rtc (alone cfg)).

Local Ltac case_bind :=
  match goal with
  | |- context [Tunnel.bind_listener ?b ?s ?ip ?port] => destruct (Tunnel.bind_listener b s ip port)
  end.

Lemma leads_advance m s x : leads (advance cfg s m) x → leads (m, Some s) x.
Proof. intros Hx. by eapply rtc_l. Qed.

Lemma leads_stale o ports old m :
  leads (m, Some (Stale o ports old)) (release_stale o ports old m, Some (Pick o ports)).
Proof.
  revert m. induction old as [|port old IH]; intros m; apply leads_advance; [done|]. apply IH.
Qed.

Lemma leads_clear o held after m :
  leads (m, Some (Clear o held after)) (cleared cfg o after (release_all o held m)).
Proof.
  revert m. induction held as [|port held IH]; intros m; apply leads_advance; [done|]. apply IH.
Qed.

(** The attempts from [attempt] on. *)
Lemma leads_attempts o ip port todo n attempt fin m :
  bindings_of o m !! port = None → S n + attempt = BIND_ATTEMPTS →
  leads (m, Some (Bind o ip (port :: todo) attempt fin))
    (match netstack m, ip with
     | Some ns, Surface.V4 a b c d =>
         put_binding o port TunPlaceholder
           (set_netstack (Some (NetStack.listen (a, b, c, d) port ns)) m)
     | _, _ =>
         match bind_attempts cfg (S n) attempt ip port m with
         | Some q => put_binding o port (Listener ip q) (set_sockets ({[(ip, q)]} ∪ sockets m) m)
         | None => m
         end
     end, Some (Bind o ip todo 0 fin)).
Proof.
  intros Hb. revert attempt. induction n as [|n IH]; intros attempt Hn; apply leads_advance;
    cbn [advance]; rewrite Hb; unfold attempt_bind.
  - assert (S attempt <? BIND_ATTEMPTS = false) as Hlt by (apply Nat.ltb_ge; lia).
    cbn [bind_attempts]. rewrite Hlt.
    destruct attempt, (netstack m), ip; try done; case_bind; apply rtc_refl.
  - assert (S attempt <? BIND_ATTEMPTS = true) as Hlt by (apply Nat.ltb_lt; lia). rewrite Hlt.
    specialize (IH (S attempt) ltac:(lia)).
    change (bind_attempts cfg (S (S n)) attempt ip port m) with
      (match Tunnel.bind_listener (tcp_bind cfg (sockets m) attempt) (show_addr cfg) ip port with
       | Ok q => Some q
       | Err _ => bind_attempts cfg (S n) (S attempt) ip port m
       end).
    destruct attempt, (netstack m), ip; try done; (case_bind; [apply rtc_refl|exact IH]).
Qed.

Lemma leads_bind o ip ports fin m :
  leads (m, Some (Bind o ip ports 0 fin)) (bind_missing cfg o ip ports m, Expose o <$> fin).
Proof.
  revert m. induction ports as [|port ports IH]; intros m; [by apply leads_advance|].
  unfold bind_missing. cbn [foldl]. destruct (bindings_of o m !! port) eqn:Hb.
  - apply leads_advance. cbn [advance]. rewrite Hb. apply IH.
  - etrans; [apply (leads_attempts o ip port ports (pred BIND_ATTEMPTS)); [done|unfold BIND_ATTEMPTS; lia]|].
    apply IH.
Qed.

Lemma leads_expose o ports m :
  leads (m, Some (Expose o ports)) (upd o (put_exposed ports) m, None).
Proof. by apply leads_advance. Qed.

Lemma leads_announce o ports m :
  leads (m, Some (Enter (Announce o ports))) (update_peer_ports cfg o ports m, None).
Proof.
  apply leads_advance. cbn [advance enter]. etrans; [apply leads_stale|].
  unfold update_peer_ports. fold (release_stale o ports (exposed_of o m) m).
  set (m1 := release_stale _ _ _ m). clearbody m1. clear m. apply leads_advance. cbn [advance].
  unfold pick, surface_ip. destruct (objects m1 !! o) as [p|]; [|apply leads_expose].
  destruct (surface p) as [s|].
  { etrans; [apply leads_bind|]. apply leads_expose. }
  destruct ports as [|port ports]; [apply leads_expose|].
  destruct (Surface.allocate _ _) as [ip|]; [|apply leads_expose].
  destruct (claim_addr _ _ _ _) as [m2 [[]|]]; [|apply leads_expose].
  apply leads_advance. cbn [advance]. etrans; [apply leads_bind|].
  cbn [surfaces set_surfaces upd]. destruct (Surface.add _ _ _ _) as [f r]. apply leads_expose.
Qed.

Lemma leads_place k o ip name m :
  leads (m, Some (Place k o ip name None))
    (let m := upd o (put_surface (Some (Surface.mkSurface ip name))) m in
     let m := set_surfaces (Surface.add (to_string k) ip name (surfaces m)).1 m in
     bind_missing cfg o ip (exposed_of o m) m, None).
Proof. apply leads_advance. cbn [advance]. apply leads_bind. Qed.

Lemma leads_choose k o ip name m :
  leads (m, Some (Choose k o ip name))
    (let name := match name with
                 | Some n => Some n
                 | None => p ← objects m !! o; label p
                 end in
     match (match ip with
            | Some ip => Ok ip
            | None => Surface.allocate (projected_ips m) (surface_base m)
            end) with
     | Err e => m
     | Ok ip =>
         match claim_addr cfg ip name m with
         | (m, Err e) => m
         | (m, Ok _) =>
             let m := upd o (put_surface (Some (Surface.mkSurface ip name))) m in
             let m := set_surfaces (Surface.add (to_string k) ip name (surfaces m)).1 m in
             bind_missing cfg o ip (exposed_of o m) m
         end
     end, None).
Proof.
  apply leads_advance. cbn [advance]. unfold choose. destruct (match ip with Some _ => _ | None => _ end); [|done].
  destruct (claim_addr _ _ _ _) as [m2 [[]|]]; [|done]. apply leads_place.
Qed.

Lemma leads_forget k m : leads (m, Some (Enter (Evict k))) (evict cfg k "removed" m, None).
Proof.
  apply leads_advance. cbn [advance enter]. unfold evict. destruct (peers m !! k) as [o|].
  - etrans; [apply leads_clear|]. unfold cleared. apply leads_advance. cbn [advance].
    unfold evict_object. fold (hang_up o "removed" (set_peers (delete k (peers m)) m)).
    destruct (Session.evict _ _). done.
  - apply leads_advance. cbn [advance]. destruct (Session.evict _ _). done.
Qed.

Lemma leads_project ref k o ip name m :
  resolve_peer ref m = Some k → peers m !! k = Some o →
  leads (m, Some (Enter (Project k o ip name))) ((project cfg ref ip name m).1, None).
Proof.
  intros Hk Ho. unfold project. rewrite Hk, Ho. apply leads_advance. cbn [advance enter].
  assert (Hchoose : ∀ m1,
    leads (m1, Some (Choose k o ip name))
      ((let name := match name with Some n => Some n | None => p ← objects m1 !! o; label p end in
        match (match ip with
               | Some ip => Ok ip
               | None => Surface.allocate (projected_ips m1) (surface_base m1)
               end) with
        | Err e => (m1, Err e)
        | Ok ip =>
            match claim_addr cfg ip name m1 with
            | (m, Err e) => (m, Err e)
            | (m, Ok _) =>
                let m := upd o (put_surface (Some (Surface.mkSurface ip name))) m in
                let '(f, _) := Surface.add (to_string k) ip name (surfaces m) in
                let m := set_surfaces f m in
                (bind_missing cfg o ip (exposed_of o m) m, Ok tt)
            end
        end).1, None)).
  { intros m1. etrans; [apply leads_choose|]. cbv zeta.
    destruct (match ip with Some _ => _ | None => _ end) as [a|]; [|done].
    destruct (claim_addr cfg _ _ _) as [m2 [[]|]]; [|done].
    cbn [surfaces set_surfaces upd]. by destruct (Surface.add _ _ _ _). }
  destruct (surface_of o m) as [old|]; [|apply Hchoose].
  etrans; [apply leads_clear|]. apply Hchoose.
Qed.

Lemma leads_unproject ref k o m :
  resolve_peer ref m = Some k → peers m !! k = Some o →
  leads (m, Some (Enter (Unproject k o))) ((unproject cfg ref m).1, None).
Proof.
  intros Hk Ho. unfold unproject. rewrite Hk, Ho. apply leads_advance. cbn [advance enter].
  destruct (surface_of o m) as [old|]; [|done]. etrans; [apply leads_clear|].
  unfold cleared, clear_surface. by destruct (unclaim_addr cfg _ _) as [m1 [[]|]].
Qed.

End alone_lemmas.
