(* ===== verification/LockProps.v ===== *)
(** * Bindings under the bind lock

    What an operation of [Locks.v] relies on from one of its steps to the next
    ([stage_ok]), that its steps keep it and that nothing else disturbs it
    ([calm]); from that the invariants of [Bindings.v] at every step, the end of
    every operation, and the run in which what was looked up is out of date. *)

From S2P Require Import Prelude RustStr Keys Grants Dial Invite Store Enroll Protocol Session Surface Resolver Netstack Tunnel Peer PeerFacts PeerLoop Daemon Shell Bindings Locks.

(** ** Lemmas: what an operation relies on *)
Section stage_lemmas.
Import Peers Shell Locks.
Context {K : Type} `{EKL : EndpointKeyLaws K} `{DML : DashMapLaws}.
Context `{!JsonCodec Pins.Pin} `{!JsonCodec Surface.SurfaceRecord}.
Variable cfg : Config K.
Implicit Types (m : PeerManager K) (o : ObjId) (s : Stage K).

(** Every known peer has an object, and objects stay. *)
Definition live_peers m : Prop := ∀ k o, peers m !! k = Some o → is_Some (objects m !! o).

Definition alive m m' : Prop :=
  (∀ o, is_Some (objects m !! o) → is_Some (objects m' !! o)) ∧ (live_peers m → live_peers m').

#[export] Instance alive_preorder : PreOrder alive.
Proof. split; [by split; [|]|]. intros m1 m2 m3 [] []. split; auto. Qed.

Lemma alive_frame m m' : frame m m' → alive m m'.
Proof.
  intros Hf. pose proof (λ o, is_Some_objects_frame _ _ o Hf) as Ho. split; [naive_solver|].
  intros Hl k o. rewrite (frame_peers _ _ Hf). intros Hk%Hl. by apply Ho.
Qed.

Lemma alive_same m m' : objects m' = objects m → peers m' ⊆ peers m → alive m m'.
Proof.
  intros Ho Hp. unfold alive, live_peers. rewrite Ho. split; [done|].
  intros Hl k o Hk. eapply Hl, lookup_weaken; done.
Qed.

Lemma alive_spawn p m : alive m (spawn_peer p m).1.
Proof.
  set (o := fresh (dom (objects m))).
  assert (Hgrow : ∀ o', is_Some (objects m !! o') → is_Some (objects (spawn_peer p m).1 !! o')).
  { intros o' Ho. simpl. fold o. destruct (decide (o' = o)) as [->|];
      [by rewrite lookup_insert_eq|by rewrite lookup_insert_ne]. }
  split; [done|]. intros Hl k o'. simpl. fold o. destruct (decide (k = endpoint_id p)) as [->|].
  - rewrite lookup_insert_eq. intros [= <-]. by rewrite lookup_insert_eq.
  - rewrite lookup_insert_ne by done. intros Hk%Hl. by apply Hgrow.
Qed.

(** The bound ports of an object are among these. *)
Definition covers m o (ports : list Z) : Prop :=
  ∀ port, is_Some (bindings_of o m !! port) → port ∈ ports.

Definition stage_ok m s : Prop :=
  match s with
  | Enter (Project _ o _ _) => is_Some (objects m !! o)
  | Enter _ => True
  | Stale o ports old => covers m o (ports ++ old)
  | Pick o ports => covers m o ports
  | Clear o held after =>
      covers m o held ∧
      match after with Replace _ _ _ _ => is_Some (objects m !! o) | _ => True end
  | Choose _ o _ _ => is_Some (objects m !! o) ∧ surface_of o m = None
  | Place _ o _ _ _ => is_Some (objects m !! o) ∧ surface_of o m = None
  | Bind o ip todo attempt fin =>
      is_Some (objects m !! o) ∧ (∃ x, surface_of o m = Some x ∧ Surface.ip x = ip) ∧
      match fin with
      | Some ports => covers m o ports ∧ todo ⊆ ports
      | None => todo ⊆ exposed_of o m
      end ∧
      match todo, attempt with
      | port :: _, S _ => bindings_of o m !! port = None
      | _, _ => True
      end
  | Expose o ports => covers m o ports
  | Forgotten _ => True
  end.

(** Every bound port was announced, or is in the announcement under way. *)
Definition announced_with m (s : option (Stage K)) : Prop :=
  ∀ o port, is_Some (bindings_of o m !! port) →
    port ∈ exposed_of o m ∨ ∃ s', s = Some s' ∧ announces s' o port.

Definition upheld m (s : option (Stage K)) : Prop :=
  bound m ∧ announced_with m s ∧ (∀ s', s = Some s' → stage_ok m s').

(** The same ports are bound, by whatever tasks. *)
Definition steady m m' : Prop :=
  (∀ o port, is_Some (bindings_of o m' !! port) ↔ is_Some (bindings_of o m !! port)) ∧
  (∀ o, surface_of o m' = surface_of o m) ∧ (∀ o, exposed_of o m' = exposed_of o m).

Lemma steady_bframe m m' : bframe m m' → steady m m'.
Proof. intros [Hb Hs He _ _]. split_and!; [|done..]. intros o port. by rewrite Hb. Qed.

Lemma steady_accept_failed o port m : steady m (accept_failed o port m).
Proof.
  destruct (accept_failed_cases o port m) as [->|(ip & q & Hl & Hb & Hs & He & _)]; [by split_and!|].
  split_and!; [|done..]. intros o' port'. rewrite Hb. case_decide; [subst|done].
  rewrite lookup_insert_is_Some'. destruct (decide (port = port')) as [<-|Hne]; [|naive_solver].
  split; [by eexists|by left].
Qed.

(** What an operation relies on is not touched by others. *)
Lemma stage_ok_others m m' s : steady m m' → alive m m' → stage_ok m s → stage_ok m' s.
Proof.
  intros (Hb & Hs & He) [Ho _].
  assert (Hc : ∀ o l, covers m o l → covers m' o l) by (intros o l Hc p; rewrite Hb; apply Hc).
  unfold stage_ok. destruct s as [[]| | | | | | | |]; rewrite ?Hs, ?He; try done; auto.
  - intros [? ?]. split; [auto|]. case_match; auto.
  - intros [? ?]. auto.
  - intros [? ?]. auto.
  - intros (? & ? & Hfin & Hhead). split_and!; [auto..| |].
    + destruct fin; [|done]. destruct Hfin. auto.
    + destruct todo as [|q todo], attempt; try done.
      apply eq_None_not_Some. rewrite Hb, Hhead. by intros [].
Qed.

Lemma upheld_others m m' (x : option (Stage K)) :
  bframe m m' → alive m m' → upheld m x → upheld m' x.
Proof.
  intros Hf Hal (Hb & Ha & Hok). split; [by eapply bframe_bound|]. split.
  - intros o port. rewrite (bframe_bindings _ _ Hf), (bframe_exposed _ _ Hf). apply Ha.
  - intros s' Hs'. eapply stage_ok_others; eauto using steady_bframe.
Qed.

Lemma announced_with_none m (x : option (Stage K)) : announced m → announced_with m x.
Proof. intros Ha o port Hp. left. by apply Ha. Qed.

Lemma announced_quiet m s :
  announces s = (λ _ _, False) → announced_with m (Some s) → announced m.
Proof. intros Hq Ha o port Hp. destruct (Ha o port Hp) as [|(s' & [= <-] & Hs)]; [done|]. by rewrite Hq in Hs. Qed.

Lemma upheld_stage m s s' :
  (∀ o port, announces s o port → announces s' o port) → stage_ok m s' →
  upheld m (Some s) → upheld m (Some s').
Proof.
  intros Hs Hok (Hb & Ha & _). split_and!; [done| |by intros ? [= <-]].
  intros o port Hp. destruct (Ha o port Hp) as [|(s0 & [= <-] & Hs0)]; [by left|right; eauto].
Qed.

Lemma upheld_done m s : announces s = (λ _ _, False) → upheld m (Some s) → upheld m None.
Proof.
  intros Hq (Hb & Ha & _). split_and!; [done| |done].
  apply announced_with_none. by eapply announced_quiet.
Qed.

(** A binding is released. *)
Lemma upheld_release m s s' o port :
  announces s = (λ _ _, False) → stage_ok (release_binding o port m) s' →
  upheld m (Some s) → upheld (release_binding o port m) (Some s').
Proof.
  intros Hq Hok (Hb & Ha & _). apply (announced_quiet _ _ Hq) in Ha.
  split_and!; [by apply bound_release| |by intros ? [= <-]]. apply announced_with_none.
  intros o' q Hp. destruct (release_same o port m) as (_ & -> & _). apply Ha.
  rewrite release_bindings in Hp. case_decide; [subst|done].
  destruct Hp as [b [_ Hp]%lookup_delete_Some]. by eexists.
Qed.

Lemma covers_release m o port ports :
  covers m o (port :: ports) → covers (release_binding o port m) o ports.
Proof.
  intros Hc q. rewrite release_bindings, decide_True by done. intros [b [Hne Hq]%lookup_delete_Some].
  specialize (Hc q (ex_intro _ _ Hq)). set_solver.
Qed.

(** A surface is set or taken away where nothing is bound. *)
Lemma upheld_surface m s s' o x :
  bindings_of o m = ∅ → (∀ o' q, announces s o' q → announces s' o' q) →
  stage_ok (upd o (put_surface x) m) s' →
  upheld m (Some s) → upheld (upd o (put_surface x) m) (Some s').
Proof.
  intros Hnone Hs Hok (Hb & Ha & _). split_and!; [by apply bound_put_surface| |by intros ? [= <-]].
  intros o' q. destruct (upd_surface_same o x m o') as [-> ->]. intros Hp.
  destruct (Ha o' q Hp) as [|(s0 & [= <-] & Hs0)]; [by left|right; eauto].
Qed.

Lemma covers_nothing m o : covers m o [] → bindings_of o m = ∅.
Proof.
  intros Hc. apply map_empty. intros port. apply eq_None_not_Some. intros Hp%Hc. set_solver.
Qed.

(** What is tried at one attempt, tried at every one. *)
Definition at_attempt (n : nat) : Config K :=
  mkConfig (me cfg) (host cfg) (self_name cfg) (os cfg) (run_cmd cfg) (ip_to_string cfg)
    (show_addr cfg) (λ held _, tcp_bind cfg held n).

Lemma attempt_is_bind_one o ip port todo n fin m :
  (attempt_bind cfg o ip port todo n fin m).1 = bind_one (at_attempt n) o ip port m ∧
  ((attempt_bind cfg o ip port todo n fin m).2 = Bind o ip todo 0 fin ∨
   (attempt_bind cfg o ip port todo n fin m).2 = Bind o ip (port :: todo) (S n) fin ∧
   bind_one (at_attempt n) o ip port m = m).
Proof.
  unfold attempt_bind, bind_one, BIND_ATTEMPTS. cbn [bind_attempts at_attempt tcp_bind show_addr].
  destruct (netstack m) as [ns|], ip; try (split; [done|by left]);
    (match goal with
     | |- context [Tunnel.bind_listener ?b ?s ?ip ?port] =>
         destruct (Tunnel.bind_listener b s ip port)
     end; simpl; (split; [done|]); [by left|]; case_match; [by right|by left]).
Qed.

(** ** Lemmas: every step of an operation upholds the invariant *)

Lemma alive_upd o f m : alive m (upd o f m).
Proof.
  assert (Hg : ∀ o', is_Some (objects m !! o') → is_Some (objects (upd o f m) !! o')).
  { intros o'. rewrite objects_upd. case_decide; [subst|done]. by rewrite fmap_is_Some. }
  split; [done|]. intros Hl k o' Hk. apply Hg. by eapply Hl.
Qed.

Lemma hang_up_calm o reason m : bframe m (hang_up o reason m) ∧ alive m (hang_up o reason m).
Proof.
  unfold hang_up. set (m1 := upd o (put_notified true) _).
  assert (Hb : bframe m m1) by (etrans; by apply bframe_upd).
  assert (Ha : alive m m1) by (etrans; by apply alive_upd). clearbody m1.
  destruct (objects m1 !! o) as [p|]; [|done]. destruct (Dial.connection (slot p)) as [c|]; [|done].
  split.
  - etrans; [exact Hb|]. etrans; [|apply bframe_close]. by apply bframe_upd.
  - etrans; [exact Ha|]. etrans; [|apply alive_frame, frame_close]. apply alive_upd.
Qed.

Lemma enter_ok op m :
  upheld m (Some (Enter op)) →
  let r := enter op m in upheld r.1 r.2 ∧ alive m r.1.
Proof.
  intros Hu. pose proof Hu as (Hb & Ha & Hok). specialize (Hok _ eq_refl).
  assert (Hann : announced m) by (by apply (announced_quiet m (Enter op))).
  assert (Hstage : ∀ s', stage_ok m s' → upheld m (Some s')).
  { intros s' Hs'. by apply (upheld_stage m (Enter op)). }
  assert (Hheld : ∀ m o, covers m o (held_ports o m)).
  { intros m0 o port Hp. by apply elem_of_held_ports. }
  destruct op as [o ports|k o ip name|k o|k]; simpl in *.
  - split; [|done]. apply Hstage. intros port Hp%Hann. apply elem_of_app. by right.
  - destruct (surface_of o m) as [old|] eqn:Hs; simpl; (split; [|done]); by apply Hstage.
  - destruct (surface_of o m) as [old|] eqn:Hs; simpl; (split; [|done]).
    + by apply Hstage.
    + by apply (upheld_done m (Enter (Unproject k o))).
  - destruct (peers m !! k) as [o|] eqn:Hk; simpl; [|split; [by apply Hstage|done]].
    set (m1 := set_peers (delete k (peers m)) m).
    destruct (hang_up_calm o "removed" m1) as [Hb2 Ha2].
    assert (Hb1 : bframe m m1) by done.
    assert (Ha1 : alive m m1) by (apply alive_same; [done|apply delete_subseteq]).
    assert (Hal : alive m (hang_up o "removed" m1)) by (by etrans).
    split; [|done]. split_and!.
    + eapply bframe_bound; [|exact Hb]. by etrans.
    + apply announced_with_none. eapply bframe_announced; [|exact Hann]. by etrans.
    + intros ? [= <-]. split; [apply Hheld|done].
Qed.

Lemma pick_ok o ports m :
  upheld m (Some (Pick o ports)) →
  let r := pick cfg o ports m in upheld r.1 (Some r.2) ∧ alive m r.1.
Proof.
  intros Hu. pose proof Hu as (Hb & Ha & Hok). specialize (Hok _ eq_refl). simpl in Hok.
  assert (Hexp : upheld m (Some (Expose o ports))) by (by apply (upheld_stage m (Pick o ports))).
  unfold pick. destruct (objects m !! o) as [p|] eqn:Ho; [|done].
  assert (Hobj : is_Some (objects m !! o)) by (rewrite Ho; by eexists).
  destruct (surface p) as [x|] eqn:Hs.
  { split; [|done]. apply (upheld_stage m (Pick o ports)); [done| |done]. simpl. split_and!; [done| |done..|].
    - exists x. unfold surface_of. by rewrite Ho.
    - by destruct ports. }
  destruct ports as [|port ports]; [done|].
  destruct (Surface.allocate _ _) as [ip|]; [|done].
  set (n := Some (match label p with Some l => l | None => _ end)).
  pose proof (bframe_claim cfg ip n m) as Hf. pose proof (alive_frame _ _ (frame_claim cfg ip n m)) as Hal.
  destruct (claim_addr cfg ip n m) as [m2 [[]|]]; simpl in *; (split; [|done]).
  - eapply upheld_others in Hu; [|done|done].
    apply (upheld_stage m2 (Pick o (port :: ports))); [done| |done]. simpl. split; [by apply Hal|].
    rewrite (bframe_surface _ _ Hf). unfold surface_of. by rewrite Ho.
  - by eapply upheld_others.
Qed.

Lemma choose_ok k o ip name m :
  upheld m (Some (Choose k o ip name)) →
  let r := choose cfg k o ip name m in upheld r.1 r.2 ∧ alive m r.1.
Proof.
  intros Hu. pose proof Hu as (_ & _ & Hok). specialize (Hok _ eq_refl). simpl in Hok.
  assert (Hdone : upheld m None) by (by apply (upheld_done m (Choose k o ip name))).
  unfold choose. destruct (match ip with Some _ => _ | None => _ end) as [a|]; [|done].
  set (n := match name with Some _ => _ | None => _ end).
  pose proof (bframe_claim cfg a n m) as Hf. pose proof (alive_frame _ _ (frame_claim cfg a n m)) as Hal.
  destruct (claim_addr cfg a n m) as [m2 [[]|]]; simpl in *; (split; [|done]).
  - eapply upheld_others in Hu; [|done|done].
    apply (upheld_stage m2 (Choose k o ip name)); [done| |done]. simpl.
    rewrite (bframe_surface _ _ Hf). by destruct Hal as [Hg _], Hok as [?%Hg ?].
  - by eapply upheld_others.
Qed.

Lemma cleared_ok o after m :
  upheld m (Some (Clear o [] after)) →
  let r := cleared cfg o after m in upheld r.1 r.2 ∧ alive m r.1.
Proof.
  intros Hu. pose proof Hu as (Hb & Ha & Hok). destruct (Hok _ eq_refl) as [Hc%covers_nothing Ho].
  clear Hok. set (m1 := upd o (put_surface None) m).
  assert (Ha1 : alive m m1) by apply alive_upd.
  assert (Hun : ∀ s ip, stage_ok m1 s → upheld (unclaim_addr cfg ip m1).1 (Some s) ∧
                                 alive m (unclaim_addr cfg ip m1).1).
  { intros s ip Hs. pose proof (alive_frame _ _ (frame_unclaim cfg ip m1)) as Hal.
    split; [|by etrans]. eapply upheld_others; [apply bframe_unclaim|done|].
    by apply (upheld_surface m (Clear o [] after)). }
  destruct after as [k old ip name|k old|k]; simpl in *; fold m1.
  - apply Hun. simpl. split; [by apply Ha1|]. unfold m1. rewrite surface_of_upd, decide_True by done.
    by destruct (objects m !! o).
  - destruct (Hun (Forgotten k) old I) as [Hu' Ha'].
    destruct (unclaim_addr cfg old m1) as [m2 [[]|]]; simpl in *.
    + split; [|by etrans; [|by apply alive_same]].
      eapply upheld_others; [apply bframe_set_surfaces|by apply alive_same|].
      by apply (upheld_done m2 (Forgotten k)).
    + split; [|done]. by apply (upheld_done m2 (Forgotten k)).
  - destruct (surface_of o m) as [x|]; [by apply Hun|]. split; [|done].
    by apply (upheld_stage m (Clear o [] (Forget k))).
Qed.

Lemma bind_ok o ip port todo n fin m :
  exclusive cfg → bindings_of o m !! port = None →
  upheld m (Some (Bind o ip (port :: todo) n fin)) →
  let r := attempt_bind cfg o ip port todo n fin m in upheld r.1 (Some r.2) ∧ alive m r.1.
Proof.
  intros Hex Hnone (Hb & Ha & Hok) r.
  destruct (Hok _ eq_refl) as (Ho & (x & Hx & <-) & Hfin & _). clear Hok.
  assert (Hex' : exclusive (at_attempt n)) by (intros held a ip' q r' Hr; by apply (Hex held n ip')).
  destruct (attempt_is_bind_one o (Surface.ip x) port todo n fin m) as [Hm Hs].
  fold r in Hm, Hs. rewrite Hm.
  pose proof (bound_bind_one _ o x port m Hex' Ho Hx Hnone Hb) as Hb'.
  destruct (bind_one_same (at_attempt n) o (Surface.ip x) port m) as (Hsur & Hexp & Hobj).
  pose proof (alive_frame _ _ (frame_bind_one (at_attempt n) o (Surface.ip x) port m)) as Hal.
  destruct Hs as [->|[-> Heq]].
  2: { rewrite Heq. split; [|done].
       apply (upheld_stage m (Bind o (Surface.ip x) (port :: todo) n fin)); [by destruct fin| |].
       - split_and!; [done|by exists x|done..].
       - split_and!; [done..|]. intros ? [= <-]. split_and!; [done|by exists x|done|by destruct n]. }
  split; [|done]. set (m' := bind_one _ _ _ _ _) in *.
  assert (Hnew : ∀ o' q, is_Some (bindings_of o' m' !! q) →
            is_Some (bindings_of o' m !! q) ∨ (o' = o ∧ q = port)).
  { intros o' q. unfold m'.
    destruct (bind_one_cases (at_attempt n) o (Surface.ip x) port m Ho) as [[-> _]|(b & _ & -> & _)]; [by left|].
    case_decide; [subst|by left]. destruct (decide (q = port)) as [->|]; [by right|].
    rewrite lookup_insert_ne by done. by left. }
  split_and!; [done| |].
  - intros o' q [Hq|[-> ->]]%Hnew; rewrite Hexp.
    + destruct (Ha o' q Hq) as [|(s' & [= <-] & Hs')]; [by left|right]. by destruct fin; eauto.
    + destruct fin as [ports|]; [right|left].
      * eexists. split; [done|]. simpl. split; [done|]. destruct Hfin as [_ Hsub]. apply Hsub. by left.
      * apply Hfin. by left.
  - intros ? [= <-]. simpl. rewrite Hsur, Hexp. split_and!.
    + by apply Hobj.
    + by exists x.
    + destruct fin as [ports|]; [|set_solver]. destruct Hfin as [Hc Hsub]. split; [|set_solver].
      intros q [Hq|[_ ->]]%Hnew; [by apply Hc|]. apply Hsub. by left.
    + by destruct todo.
Qed.

Lemma place_ok k o ip name fin m :
  upheld m (Some (Place k o ip name fin)) →
  let r := advance cfg (Place k o ip name fin) m in upheld r.1 r.2 ∧ alive m r.1.
Proof.
  intros Hu. pose proof Hu as (Hb & Ha & Hok). destruct (Hok _ eq_refl) as [Ho Hs]. clear Hok.
  pose proof (unprojected_unbound _ _ Hb Hs) as Hnone. cbn [advance fst snd].
  set (m1 := upd o _ m). set (m2 := set_surfaces _ m1).
  assert (Hf : bframe m1 m2) by apply bframe_set_surfaces.
  assert (Ha2 : alive m1 m2) by (by apply alive_same).
  assert (Ha1 : alive m m1) by apply alive_upd.
  split; [|by etrans]. eapply upheld_others; [exact Hf|exact Ha2|].
  apply (upheld_surface m (Place k o ip name fin)); [done| | |done].
  - by destruct fin.
  - fold m1. cbn [stage_ok]. split_and!.
    + by apply Ha1.
    + eexists. split; [unfold m1; rewrite surface_of_upd, decide_True by done|].
      * destruct Ho as [p Hp]. by rewrite Hp.
      * done.
    + assert (Hc : ∀ l, covers m1 o l).
      { intros l q. unfold m1. rewrite (proj1 (upd_surface_same o _ m o)), Hnone, lookup_empty. by intros []. }
      destruct fin; [by split; [apply Hc|]|done].
    + by case_match.
Qed.

(** Every step of an operation that has what it relies on. *)
Lemma advance_ok s m :
  exclusive cfg → upheld m (Some s) →
  let r := advance cfg s m in upheld r.1 r.2 ∧ alive m r.1.
Proof.
  intros Hex Hu. pose proof Hu as (Hb & Ha & Hok). specialize (Hok _ eq_refl).
  destruct s as [op|o ports [|port old]|o ports|o [|port held] after|k o ip name|k o ip name fin
                |o ip [|port todo] n fin|o ports|k].
  - by apply enter_ok.
  - split; [|done]. apply (upheld_stage m (Stale o ports [])); [done| |done]. simpl in *.
    by rewrite app_nil_r in Hok.
  - cbn [advance fst snd]. case_decide as Hin.
    + split; [|done]. apply (upheld_stage m (Stale o ports (port :: old))); [done| |done].
      intros q Hq%Hok. set_solver.
    + split; [|by apply alive_frame, frame_release].
      apply (upheld_release m (Stale o ports (port :: old))); [done| |done].
      apply covers_release. intros q Hq%Hok. set_solver.
  - pose proof (pick_ok o ports m Hu) as Hok'. cbn [advance]. by destruct (pick _ _ _ _).
  - by apply cleared_ok.
  - split; [|by apply alive_frame, frame_release]. cbn [advance fst snd].
    destruct Hok as [Hc Ho].
    apply (upheld_release m (Clear o (port :: held) after)); [done| |done].
    split; [by apply covers_release|]. destruct after; try done.
    by apply (alive_frame _ _ (frame_release o port m)).
  - by apply choose_ok.
  - by apply place_ok.
  - split; [|done]. cbn [advance fst snd]. destruct fin as [ports|]; simpl.
    + apply (upheld_stage m (Bind o ip [] n (Some ports))); [done| |done]. by destruct Hok as (_ & _ & [Hc _] & _).
    + by apply (upheld_done m (Bind o ip [] n None)).
  - cbn [advance]. destruct n as [|n], (bindings_of o m !! port) as [b|] eqn:Hport.
    + split; [|done]. cbn [fst snd]. apply (upheld_stage m (Bind o ip (port :: todo) 0 fin)); [by destruct fin| |done].
      destruct Hok as (Ho & Hx & Hfin & _). split_and!; [done..| |by destruct todo].
      destruct fin; [destruct Hfin; split; [done|]|]; set_solver.
    + pose proof (bind_ok o ip port todo 0 fin m Hex Hport Hu) as Hok'. by destruct (attempt_bind _ _ _ _ _ _ _ _).
    + destruct Hok as (_ & _ & _ & Hok). congruence.
    + pose proof (bind_ok o ip port todo (S n) fin m Hex Hport Hu) as Hok'. by destruct (attempt_bind _ _ _ _ _ _ _ _).
  - split; [|apply alive_upd]. cbn [advance fst snd]. split_and!; [by apply bound_put_exposed| |done].
    intros o' q. rewrite bindings_of_put_exposed, exposed_of_put. intros Hq. left. case_decide as Ho.
    + apply Hok. by destruct Ho as [-> _].
    + destruct (Ha o' q Hq) as [|(s' & [= <-] & [-> _])]; [done|]. destruct Ho. split; [done|].
      apply not_eq_None_Some. intros Hnone. rewrite unknown_unbound in Hq by done. by destruct Hq.
  - cbn [advance]. destruct (Session.evict k (session m)) as [x actions]. cbn [fst snd].
    assert (Hd : objects (foldl drop_pin (set_session x m) actions) = objects m ∧
                 peers (foldl drop_pin (set_session x m) actions) = peers m).
    { change (objects m) with (objects (set_session x m)). change (peers m) with (peers (set_session x m)).
      generalize (set_session x m). induction actions as [|a actions IH]; intros m0; [done|]. simpl.
      destruct (IH (drop_pin m0 a)) as [-> ->]. by destruct a. }
    destruct Hd as [Hd1 Hd2].
    assert (Hal : alive m (set_surfaces (Surface.remove (to_string k) (surfaces
              (foldl drop_pin (set_session x m) actions))).1 (foldl drop_pin (set_session x m) actions))).
    { apply alive_same; [done|]. simpl. by rewrite Hd2. }
    split; [|done]. apply (upheld_others m); [|done|by apply (upheld_done m (Forgotten k))].
    etrans; [apply bframe_set_session|]. etrans; [apply bframe_drop_pins|]. apply bframe_set_surfaces.
Qed.

(** No step of an operation ends a listener. *)
Lemma advance_ends s m : ends_none m (advance cfg s m).1.
Proof.
  assert (Hun : ∀ o ip, ends_none m (unclaim_addr cfg ip (upd o (put_surface None) m)).1).
  { intros o ip. etrans; [apply (ends_none_surface o None)|apply ends_none_bframe, bframe_unclaim]. }
  destruct s as [op|o ports [|port old]|o ports|o [|port held] after|k o ip name|k o ip name fin
                |o ip [|port todo] n fin|o ports|k]; cbn [advance]; try done.
  - destruct op as [o ports|k o ip name|k o|k]; simpl; repeat case_match; try done; simpl.
    apply ends_none_bframe. etrans; [|apply hang_up_calm]. done.
  - simpl. case_decide; [done|apply ends_none_release].
  - unfold pick. destruct (objects m !! o) as [p|]; [|done]. destruct (surface p); [done|].
    destruct ports; [done|]. destruct (Surface.allocate _ _) as [ip|]; [|done].
    set (name := Some _). pose proof (bframe_claim cfg ip name m) as Hf.
    destruct (claim_addr cfg ip name m) as [m1 [[]|]]; by apply ends_none_bframe.
  - destruct after as [k old ip name|k old|k]; simpl; [apply Hun| |by case_match; [apply Hun|]].
    pose proof (Hun o old) as Hd. destruct (unclaim_addr _ _ _) as [m1 [[]|]]; simpl in *; [|done].
    by etrans; [exact Hd|apply ends_none_bframe, bframe_set_surfaces].
  - apply ends_none_release.
  - unfold choose. destruct (match ip with Some _ => _ | None => _ end) as [a|]; [|done].
    set (n := match name with Some _ => _ | None => _ end).
    pose proof (bframe_claim cfg a n m) as Hf.
    destruct (claim_addr cfg a n m) as [m1 [[]|]]; by apply ends_none_bframe.
  - simpl. etrans; [apply (ends_none_surface o)|apply ends_none_bframe, bframe_set_surfaces].
  - pose proof (proj1 (attempt_is_bind_one o ip port todo n fin m)) as Hm.
    pose proof (ends_none_bind_one (at_attempt n) o ip port m) as He. rewrite <- Hm in He.
    destruct (attempt_bind _ _ _ _ _ _ _ _). by destruct n, (bindings_of o m !! port).
  - apply ends_none_exposed.
  - destruct (Session.evict k (session m)) as [x actions]. simpl. apply ends_none_bframe.
    etrans; [apply bframe_set_session|]. etrans; [apply bframe_drop_pins|]. apply bframe_set_surfaces.
Qed.

End stage_lemmas.

(** ** Lemmas: what does not take the lock leaves bindings alone *)
Section free_lemmas.
Import Peers Shell Locks.
Context {K : Type} `{EKL : EndpointKeyLaws K} `{DML : DashMapLaws}.
Context `{!JsonCodec Pins.Pin} `{!JsonCodec Surface.SurfaceRecord}.
Variable cfg : Config K.
Variable parse_ip : string → option IpAddr.
Implicit Types (m : PeerManager K) (o : ObjId).

Definition calm m m' : Prop := bframe m m' ∧ alive m m'.

#[export] Instance calm_preorder : PreOrder calm.
Proof. split; [by split|]. intros m1 m2 m3 [] []. split; by etrans. Qed.

Lemma calm_frame m m' : bframe m m' → frame m m' → calm m m'.
Proof. intros Hb Hf. split; [done|by apply alive_frame]. Qed.

(** Changes of the other fields. *)
Lemma calm_same m m' : bframe m m' → objects m' = objects m → peers m' = peers m → calm m m'.
Proof. intros Hb Ho Hp. split; [done|]. apply alive_same; [done|by rewrite Hp]. Qed.

Lemma calm_foldl {A} (f : PeerManager K → A → PeerManager K) (l : list A) m :
  (∀ m x, calm m (f m x)) → calm m (foldl f m l).
Proof. intros Hf. revert m. induction l as [|x l IH]; intros m; simpl; [done|]. etrans; [apply Hf|apply IH]. Qed.

Lemma calm_spawn p m :
  bindings p = ∅ → surface p = None → exposed_ports p = [] → calm m (spawn_peer p m).1.
Proof. intros. split; [by apply bframe_spawn|apply alive_spawn]. Qed.

Lemma calm_upd o f m :
  (∀ p, bindings (f p) = bindings p ∧ surface (f p) = surface p ∧
        exposed_ports (f p) = exposed_ports p) → calm m (upd o f m).
Proof. intros. split; [by apply bframe_upd|apply alive_upd]. Qed.

Lemma calm_set_session x m : calm m (set_session x m).
Proof. by apply calm_same. Qed.

Lemma calm_close c reason m : calm m (close c reason m).
Proof. apply calm_frame; [apply bframe_close|apply frame_close]. Qed.

Lemma calm_add_peer k name code m : calm m (add_peer k name code m).1.
Proof. unfold add_peer. case_match; [done|]. etrans; [apply calm_set_session|by apply calm_spawn]. Qed.

Lemma calm_add_pinned key name m : calm m (add_pinned key name m).1.
Proof.
  unfold add_pinned. case_match; [|done]. case_match; [done|].
  etrans; [apply calm_set_session|by apply calm_spawn].
Qed.

Lemma calm_broadcast m : calm m (broadcast_grants m).
Proof. apply calm_frame; [apply bframe_broadcast|apply frame_broadcast]. Qed.

Lemma calm_expose port to m : calm m (Daemon.expose port to m).
Proof. etrans; [apply calm_set_session|apply calm_broadcast]. Qed.

Lemma calm_unexpose port to m : calm m (Daemon.unexpose port to m).
Proof. etrans; [apply calm_set_session|apply calm_broadcast]. Qed.

Lemma calm_invite key name ports random now m :
  calm m (Daemon.invite cfg key name ports random now m).1.
Proof.
  unfold Daemon.invite, pin_peer. destruct key as [key|].
  - pose proof (calm_add_pinned key name m) as H1.
    destruct (add_pinned key name m) as [m1 [[]|]]; simpl in H1; [|done].
    destruct (Pins.add _ _ _) as [f [[]|]]; cbn [fst snd]; [|by etrans; [exact H1|by apply calm_same]].
    assert (H2 : calm m (set_pins f m1)) by (by etrans; [exact H1|by apply calm_same]).
    case_match; cbn [fst]; [|done]. etrans; [exact H2|].
    apply calm_foldl. intros. apply calm_expose.
  - destruct (Session.mint_token _ _ _ _ _). by apply calm_same.
Qed.

Lemma calm_install o c by_us m : calm m (install cfg o c by_us m).1.
Proof. apply calm_frame; [apply bframe_install|apply frame_install]. Qed.

(** The actions that do not hand ports to the bindings. *)
Lemma calm_apply o actions m :
  existsb is_apply_ports actions = false → calm m (apply cfg o actions m).
Proof.
  unfold apply. revert m. induction actions as [|a actions IH]; intros m; [done|].
  simpl. intros [Ha Hacts]%orb_false_iff. etrans; [|by apply IH].
  destruct a; simpl in *; try done; [|by apply calm_same..].
  apply calm_frame; [apply bframe_send_to|apply frame_send_to].
Qed.

Lemma calm_handle_connection c m : calm m (handle_connection cfg c m).
Proof.
  unfold handle_connection. set (m1 := set_next_conn_id _ m).
  assert (H1 : calm m m1) by (by apply calm_same). clearbody m1.
  assert (Hacts : existsb is_apply_ports
            (Session.on_inbound (next_conn_id m) (remote_id c) (session m1)).2 = false).
  { unfold Session.on_inbound. by case_match. }
  destruct (Session.on_inbound _ _ _) as [s acts].
  assert (H2 : calm m (set_session s m1)) by (etrans; [exact H1|apply calm_set_session]).
  destruct acts as [|a acts]; [by etrans; [exact H2|by apply calm_same]|].
  destruct (peers (set_session s m1) !! remote_id c) as [o|]; [|done].
  pose proof (calm_install o c false (set_session s m1)) as H3.
  destruct (install cfg o c false (set_session s m1)) as [m3 []]; simpl in H3; [|by etrans].
  etrans; [exact H2|]. etrans; [exact H3|]. etrans; [|by apply calm_apply].
  etrans; [|by apply calm_upd]. by apply calm_upd.
Qed.

(** The verdict, up to the ports it may apply. *)
Lemma verdict_split id wt acts m :
  ∃ m1 o, calm m m1 ∧
    (enroll_verdict cfg id wt acts m = m1 ∨ enroll_verdict cfg id wt acts m = apply cfg o acts m1).
Proof.
  unfold enroll_verdict. set (m0 := set_waiting _ m).
  assert (H0 : calm m m0) by (by apply calm_same). clearbody m0.
  assert (Hclose : ∀ c r, calm m (close c r m0)) by (intros; etrans; [exact H0|apply calm_close]).
  destruct (refusal_of acts); [eexists _, 0%N; by split; [|by left]|].
  destruct (existsb is_admit acts); [|eexists _, 0%N; by split; [|by left]].
  set (p := match early_version wt with Some _ => _ | None => _ end).
  assert (Hp : calm m0 (spawn_peer p m0).1).
  { unfold p. by destruct (early_version wt); apply calm_spawn. }
  destruct (spawn_peer p m0) as [m1 o]. exists m1, o. split; [by etrans|by right].
Qed.

Lemma alive_verdict id wt acts m : alive m (enroll_verdict cfg id wt acts m).
Proof.
  destruct (verdict_split id wt acts m) as (m1 & o & [_ H1] & [->| ->]); [done|].
  etrans; [exact H1|]. apply alive_frame, frame_apply.
Qed.

Lemma calm_verdict id wt acts m :
  existsb is_apply_ports acts = false → calm m (enroll_verdict cfg id wt acts m).
Proof.
  intros Ha. destruct (verdict_split id wt acts m) as (m1 & o & H1 & [->| ->]); [done|].
  etrans; [exact H1|by apply calm_apply].
Qed.

Lemma calm_enroll id msg now m :
  takes_lock (EvEnroll id msg now) m = false → calm m (enroll_message cfg id msg now m).
Proof.
  simpl. unfold enroll_message. destruct (waiting m !! id) as [wt0|]; [|by destruct msg].
  destruct msg as [msg|]; [|done]. intros Ha.
  set (wt := match msg with Protocol.Enroll _ (Some v) => _ | _ => wt0 end).
  assert (Hc : wait_conn wt = wait_conn wt0) by (unfold wt; by repeat case_match). rewrite Hc.
  destruct (Session.on_unadmitted _ _ _ _ _) as [s acts].
  assert (H1 : calm m (set_session s m)) by apply calm_set_session.
  destruct acts; (etrans; [exact H1|]); [by apply calm_same|by apply calm_verdict].
Qed.

Lemma alive_enroll id msg now m : alive m (enroll_message cfg id msg now m).
Proof.
  unfold enroll_message. destruct (waiting m !! id) as [wt0|]; [|by destruct msg].
  destruct msg as [msg|]; [|done].
  destruct (Session.on_unadmitted _ _ _ _ _) as [s acts].
  destruct acts; [by apply alive_same|]. etrans; [|apply alive_verdict]. by apply alive_same.
Qed.

Lemma calm_enroll_end id m : calm m (enroll_end cfg id m).
Proof.
  unfold enroll_end. destruct (waiting m !! id) as [wt|]; [|done].
  assert (Ha : existsb is_apply_ports (Session.on_enroll_timeout id (session m)).2 = false).
  { unfold Session.on_enroll_timeout. by repeat case_match. }
  destruct (Session.on_enroll_timeout id (session m)) as [s acts].
  etrans; [apply calm_set_session|by apply calm_verdict].
Qed.

Lemma calm_dialed o p c m : calm m (Loop.dialed cfg o p c m).
Proof.
  apply calm_frame; [apply bframe_dialed|apply frame_dialed].
Qed.

Definition is_failure (e : Shell.Event (K:=K)) : bool :=
  match e with EvAcceptFailed _ _ => true | _ => false end.

Lemma free_calm e m :
  is_op e = false → takes_lock e m = false → is_failure e = false →
  calm m (Shell.step cfg parse_ip m e).
Proof.
  intros Hop Hl Hne.
  destruct e as [req random now|c|id msg now|id|o msg|o|o|o c|c reason|o port]; cbn [Shell.step];
    [..|done].
  - destruct req; simpl in Hop |- *; try done.
    + apply calm_invite.
    + unfold Daemon.accept. destruct (Invite.from_str _) as [h|]; [|done].
      pose proof (calm_add_peer (Invite.handle_key h) name (Invite.handle_code h) m) as H1.
      by destruct (add_peer _ _ _ _) as [m1 [[]|]].
    + destruct (Daemon.grantees _ _ _); [|done]. apply calm_expose.
    + case_match; [|done]. apply calm_unexpose.
  - apply calm_handle_connection.
  - by apply calm_enroll.
  - apply calm_enroll_end.
  - unfold handle_uni_stream. destruct msg as [[ports| |token [v|]|]|]; try done. by apply calm_upd.
  - unfold Shell.with_object, Loop.run_connection. repeat case_match; try done.
    apply calm_frame; [apply bframe_send_to|apply frame_send_to].
  - by apply calm_upd.
  - unfold Shell.with_object. case_match; [|done]. apply calm_dialed.
  - apply calm_close.
Qed.

(** Nor does an accept that fails disturb what an operation relies on. *)
Definition settled m m' : Prop := steady m m' ∧ alive m m' ∧ (bound m → bound m').

Lemma free_settled e m :
  is_op e = false → takes_lock e m = false → settled m (Shell.step cfg parse_ip m e).
Proof.
  intros Hop Hl. destruct (is_failure e) eqn:Hf.
  - destruct e as [| | | | | | | | |o port]; try done. simpl. split_and!.
    + apply steady_accept_failed.
    + apply alive_frame, frame_accept_failed.
    + apply bound_accept_failed.
  - destruct (free_calm e m Hop Hl Hf) as [Hb Ha]. split_and!; [by apply steady_bframe|done|].
    by apply bframe_bound.
Qed.

Lemma settled_announced m m' : settled m m' → announced m → announced m'.
Proof. intros ((Hb & _ & He) & _) Ha o port. rewrite Hb, He. apply Ha. Qed.

(** The claim that brings ports with it. *)
Lemma locked_inv e m :
  exclusive cfg → is_op e = false → inv m →
  inv (Shell.step cfg parse_ip m e) ∧ alive m (Shell.step cfg parse_ip m e).
Proof.
  intros Hex Hop Hm. destruct (takes_lock e m) eqn:Hl.
  - destruct e; try done. cbn [Shell.step]. split; [|apply alive_enroll].
    unfold enroll_message. destruct (waiting m !! id) as [wt0|]; [|by destruct msg].
    destruct msg as [msg|]; [|done]. destruct (Session.on_unadmitted _ _ _ _ _) as [s acts].
    assert (H1 : inv (set_session s m)) by (eapply bframe_inv; [apply bframe_set_session|done]).
    destruct acts; [by apply (bframe_inv (set_session s m))|by apply inv_verdict].
  - pose proof (free_settled e m Hop Hl) as Hs. destruct Hm. split; [|apply Hs].
    split; [by apply Hs|by eapply settled_announced].
Qed.

(** What ends the task of a listener. *)
Lemma ends_none_apply o acts m : ends_none m (apply cfg o acts m).
Proof.
  unfold apply. revert m. induction acts as [|a acts IH]; intros m; [done|]. simpl.
  etrans; [|apply IH]. destruct a; simpl; try done.
  - apply ends_none_bframe, bframe_send_to.
  - apply ends_none_update_ports.
  - by intros o' q.
  - by intros o' q.
Qed.

Lemma free_ends e m o port :
  is_op e = false → bindings_of o (Shell.step cfg parse_ip m e) !! port = Some Finished →
  bindings_of o m !! port = Some Finished ∨ e = EvAcceptFailed o port.
Proof.
  intros Hop. destruct (is_failure e) eqn:Hf.
  { destruct e as [| | | | | | | | |o' port']; try done. simpl.
    destruct (accept_failed_cases o' port' m) as [->|(ip & q & _ & -> & _)]; [by left|].
    case_decide; [subst|by left]. rewrite lookup_insert_Some. naive_solver. }
  destruct (takes_lock e m) eqn:Hl.
  2: { destruct (free_calm e m Hop Hl Hf) as [Hb _]. rewrite (bframe_bindings _ _ Hb). by left. }
  destruct e as [| |id msg now| | | | | | |]; try done. cbn [Shell.step]. intros Hb0. left. revert Hb0.
  unfold enroll_message.
  destruct (waiting m !! id) as [wt0|]; [|by destruct msg]. destruct msg as [msg|]; [|done].
  destruct (Session.on_unadmitted _ _ _ _ _) as [s acts]. destruct acts as [|a acts]; [done|].
  set (wt := match msg with Protocol.Enroll _ (Some v) => _ | _ => wt0 end).
  destruct (verdict_split id wt (a :: acts) (set_session s m)) as (m1 & o1 & [Hb _] & [->| ->]).
  - by rewrite (bframe_bindings _ _ Hb).
  - intros Hp%ends_none_apply. by rewrite (bframe_bindings _ _ Hb) in Hp.
Qed.

End free_lemmas.

(** ** Lemmas: the machine *)
Section machine_lemmas.
Import Peers Shell Locks.
Context {K : Type} `{EKL : EndpointKeyLaws K} `{DML : DashMapLaws}.
Context `{!JsonCodec Pins.Pin} `{!JsonCodec Surface.SurfaceRecord}.
Variable cfg : Config K.
Variable parse_ip : string → option IpAddr.
Hypothesis Hex : exclusive cfg.
Implicit Types (m : PeerManager K) (o : ObjId) (x : Machine K) (s : Stage K).

Record machine_ok x : Prop := {
  machine_bound : bound (manager x);
  machine_announced : ∀ o port, is_Some (bindings_of o (manager x) !! port) →
    port ∈ exposed_of o (manager x) ∨
    ∃ i s, tasks x !! i = Some s ∧ announces s o port;
  machine_stages : ∀ i s, tasks x !! i = Some s → stage_ok (manager x) s;
  machine_one : ∀ i j s s', tasks x !! i = Some s → tasks x !! j = Some s' →
    holds_lock s = true → holds_lock s' = true → i = j;
  machine_live : live_peers (manager x);
  machine_next : ∀ i, is_Some (tasks x !! i) → (i < next_task x)%N;
}.

Lemma locked_false x :
  locked x = false ↔ ∀ i s, tasks x !! i = Some s → holds_lock s = false.
Proof.
  unfold locked. rewrite <- not_true_iff_false, existsb_exists. split.
  - intros Hn i s Hi. apply not_true_iff_false. intros Hs. apply Hn. exists (i, s).
    split; [|done]. by apply list_elem_of_In, elem_of_map_to_list.
  - intros Hn ([i s] & Hin%list_elem_of_In%elem_of_map_to_list & Hs).
    simpl in Hs. by rewrite (Hn _ _ Hin) in Hs.
Qed.

Lemma announces_holds s o port : announces s o port → holds_lock s = true.
Proof. by destruct s. Qed.

Lemma locked_announced x : machine_ok x → locked x = false → announced (manager x).
Proof.
  intros [_ Ha _ _ _ _] Hl o port Hp. destruct (Ha o port Hp) as [|(i & s & Hi & Hs%announces_holds)]; [done|].
  rewrite locked_false in Hl. by rewrite (Hl _ _ Hi) in Hs.
Qed.

(** The operation that may go on has what it relies on. *)
Lemma machine_upheld x i s :
  machine_ok x → tasks x !! i = Some s → holds_lock s = true ∨ locked x = false →
  upheld (manager x) (Some s) ∧ (∀ j s', j ≠ i → tasks x !! j = Some s' → holds_lock s' = false).
Proof.
  intros Hx Hi Hs.
  assert (Hothers : ∀ j s', j ≠ i → tasks x !! j = Some s' → holds_lock s' = false).
  { intros j s' Hne Hj. destruct Hs as [Hs|Hl]; [|by eapply locked_false].
    apply not_true_iff_false. intros Hs'. apply Hne. by eapply machine_one. }
  split; [|done]. split; [by apply machine_bound|]. split.
  - intros o port Hp. destruct (machine_announced _ Hx o port Hp) as [|(j & s' & Hj & Hs')]; [by left|].
    right. exists s. split; [done|]. destruct (decide (j = i)) as [->|Hne]; [congruence|].
    apply announces_holds in Hs'. by rewrite (Hothers _ _ Hne Hj) in Hs'.
  - intros ? [= <-]. by eapply machine_stages.
Qed.

Lemma stage_ok_waiting m m' s : holds_lock s = false → alive m m' → stage_ok m s → stage_ok m' s.
Proof. intros Hs [Hg _]. destruct s as [[]| | | | | | | |]; try done. simpl. apply Hg. Qed.

Lemma machine_resume x i s :
  machine_ok x → tasks x !! i = Some s → holds_lock s = true ∨ locked x = false →
  let r := advance cfg s (manager x) in
  machine_ok (mkMachine r.1 (put_task i r.2 (tasks x)) (next_task x)).
Proof.
  intros Hx Hi Hs r. destruct (machine_upheld x i s Hx Hi Hs) as [Hu Hothers].
  destruct (advance_ok cfg s (manager x) Hex Hu) as [(Hb & Ha & Hok) Hal]. fold r in Hb, Ha, Hok, Hal.
  assert (Hput : ∀ j s', put_task i r.2 (tasks x) !! j = Some s' ↔
            (j = i ∧ r.2 = Some s') ∨ (j ≠ i ∧ tasks x !! j = Some s')).
  { intros j s'. destruct r.2 as [s2|]; simpl;
      [rewrite lookup_insert_Some|rewrite lookup_delete_Some]; naive_solver. }
  split; simpl.
  - done.
  - intros o port Hp. destruct (Ha o port Hp) as [|(s' & Hs' & Han)]; [by left|right].
    exists i, s'. split; [|done]. apply Hput. by left.
  - intros j s' [[-> Hj]|[Hne Hj]]%Hput; [by apply Hok|].
    apply (stage_ok_waiting (manager x)); [by eapply Hothers|done|by eapply machine_stages].
  - intros j j' s1 s2 [[-> H1]|[Hne H1]]%Hput [[-> H2]|[Hne' H2]]%Hput Hh1 Hh2; try done.
    + by rewrite (Hothers _ _ Hne' H2) in Hh2.
    + by rewrite (Hothers _ _ Hne H1) in Hh1.
    + by rewrite (Hothers _ _ Hne H1) in Hh1.
  - by apply Hal, machine_live.
  - intros j [s' [[-> _]|[_ Hj]]%Hput]; apply machine_next; by eauto.
Qed.

Lemma begin_ok e m op : live_peers m → begin parse_ip e m = Some op → stage_ok m (Enter op).
Proof.
  intros Hl Hop. destruct op as [o ports|k o ip name|k o|k]; try done. simpl.
  destruct e as [req ? ?| | | |o' [[]|]| | | | |]; try done. destruct req; try done; simpl in Hop.
  - destruct (resolve_peer _ _) as [k'|]; [|done]. simpl in Hop. by destruct (peers m !! k').
  - destruct (match ip0 with Some _ => _ | None => _ end); [|done]. simpl in Hop.
    destruct (resolve_peer _ _) as [k'|]; [|done]. simpl in Hop.
    destruct (peers m !! k') as [o'|] eqn:Hk; [|done]. simpl in Hop. injection Hop as <- <- <- <-. by eapply Hl.
  - destruct (resolve_peer _ _) as [k'|]; [|done]. simpl in Hop.
    by destruct (peers m !! k') as [o'|].
Qed.

Lemma machine_begin x e : machine_ok x → machine_ok (step cfg parse_ip x (Begin e)).
Proof.
  intros Hx. pose proof Hx as [Hb Ha Hok H1 Hl Hn]. cbn [step].
  assert (Hfresh : tasks x !! next_task x = None).
  { apply eq_None_not_Some. intros Hi%Hn. lia. }
  destruct (begin parse_ip e (manager x)) as [op|] eqn:Hop; simpl.
  - assert (Hput : ∀ j s', <[next_task x := Enter op]> (tasks x) !! j = Some s' ↔
              (j = next_task x ∧ s' = Enter op) ∨ (tasks x !! j = Some s')).
    { intros j s'. destruct (decide (j = next_task x)) as [->|];
        [rewrite lookup_insert_eq|rewrite lookup_insert_ne]; naive_solver. }
    split; simpl; try done.
    + intros o port Hp. destruct (Ha o port Hp) as [|(i & s & Hi & Hs)]; [by left|right].
      exists i, s. split; [|done]. apply Hput. by right.
    + intros i s [[-> ->]|Hi]%Hput; [by eapply begin_ok|by eapply Hok].
    + intros i j s s' [[-> ->]|Hi]%Hput [[-> ->]|Hj]%Hput Hs Hs'; try done. by eapply H1.
    + intros i [s [[-> _]|Hi]%Hput]; [lia|]. assert (i < next_task x)%N by (apply Hn; by eexists). lia.
  - rewrite delete_id by done. split; simpl; try done. intros i Hi%Hn. lia.
Qed.

Lemma machine_whole x e : machine_ok x → machine_ok (step cfg parse_ip x (Whole e)).
Proof.
  intros Hx. pose proof Hx as [Hb Ha Hok H1 Hl Hn]. cbn [step].
  destruct (is_op e) eqn:Hop; [done|]. cbn [orb].
  destruct (takes_lock e (manager x)) eqn:Ht.
  - destruct (locked x) eqn:Hlk; [done|]. cbn [andb].
    destruct (locked_inv cfg parse_ip e (manager x) Hex Hop) as [[Hb' Ha'] Hal];
      [split; [done|by apply locked_announced]|].
    split; simpl; try done.
    + intros o port Hp. left. by apply Ha'.
    + intros i s Hi. apply (stage_ok_waiting (manager x)); [by eapply locked_false|done|by eapply Hok].
    + by apply Hal.
  - destruct (free_settled cfg parse_ip e (manager x) Hop Ht) as (Hf & Hal & Hbd). cbn [andb].
    split; simpl; try done.
    + by apply Hbd.
    + destruct Hf as (Hfb & _ & Hfe). intros o port. rewrite Hfb, Hfe. apply Ha.
    + intros i s Hi. eapply stage_ok_others; eauto.
    + by apply Hal.
Qed.

Lemma machine_step x e : machine_ok x → machine_ok (step cfg parse_ip x e).
Proof.
  intros Hx. destruct e as [e|i|e]; [by apply machine_begin| |by apply machine_whole].
  cbn [step]. destruct (tasks x !! i) as [s|] eqn:Hi; [|done].
  destruct (negb (holds_lock s) && locked x)%bool eqn:Hg; [done|].
  pose proof (machine_resume x i s Hx Hi) as Hr. simpl in Hr.
  destruct (advance cfg s (manager x)) as [m' s']. apply Hr.
  apply andb_false_iff in Hg as [Hg|]; [left; by destruct (holds_lock s)|by right].
Qed.

Lemma machine_run m0 es : inv m0 → live_peers m0 → machine_ok (now_at cfg parse_ip m0 es).
Proof.
  intros [Hb Ha] Hl. unfold now_at.
  assert (H0 : machine_ok (mkMachine m0 ∅ 0)).
  { split; simpl; try done.
    - intros o port Hp. left. by apply Ha.
    - intros i [s Hi]. by rewrite lookup_empty in Hi. }
  revert H0. generalize (mkMachine m0 ∅ 0). induction es as [|e es IH]; intros x Hx; [done|].
  by apply IH, machine_step.
Qed.

(** A task that ended did so because an accept failed. *)
Lemma machine_ends m0 es o port :
  (∀ o, bindings_of o m0 = ∅) →
  bindings_of o (manager (now_at cfg parse_ip m0 es)) !! port = Some Finished →
  Whole (EvAcceptFailed o port) ∈ es.
Proof.
  intros H0. induction es as [|e es IH] using rev_ind.
  { unfold now_at. simpl. by rewrite H0. }
  unfold now_at. rewrite foldl_snoc. fold (now_at cfg parse_ip m0 es).
  set (x := now_at _ _ _ _) in *. rewrite elem_of_app, list_elem_of_singleton. intros Hf.
  destruct e as [e|i|e]; cbn [step] in Hf.
  - left. by apply IH.
  - left. apply IH. revert Hf. destruct (tasks x !! i) as [s|]; [|done].
    destruct (_ && _)%bool; [done|]. pose proof (advance_ends cfg s (manager x)) as He.
    destruct (advance cfg s (manager x)) as [m1 s1]. apply He.
  - destruct (is_op e || takes_lock e (manager x) && locked x)%bool eqn:Hg; [left; by apply IH|].
    apply orb_false_iff in Hg as [Hop _].
    destruct (free_ends cfg parse_ip e (manager x) o port Hop Hf) as [Hold| ->]; [left; by apply IH|].
    by right.
Qed.

End machine_lemmas.

(** ** Lemmas: an operation comes to its end *)
Section end_lemmas.
Import Peers Shell Locks.
Context {K : Type} `{!EndpointKey K} `{!DashMap}.
Context `{!JsonCodec Pins.Pin} `{!JsonCodec Surface.SurfaceRecord}.
Variable cfg : Config K.
Implicit Types (m : PeerManager K) (s : Stage K).

(** The stages in the order they are gone through, and what is left of one. *)
Definition rank s : nat :=
  match s with
  | Enter _ => 6
  | Stale _ _ _ | Clear _ _ _ => 5
  | Pick _ _ | Choose _ _ _ _ => 4
  | Place _ _ _ _ _ => 3
  | Bind _ _ _ _ _ => 2
  | Expose _ _ | Forgotten _ => 1
  end.

Definition size s : nat :=
  match s with
  | Stale _ _ old => length old
  | Clear _ held _ => length held
  | Bind _ _ todo attempt _ => 6 * length todo + (5 - attempt)
  | _ => 0
  end.

Definition smaller s' s : Prop := rank s' < rank s ∨ rank s' = rank s ∧ size s' < size s.

Lemma smaller_wf : well_founded smaller.
Proof.
  assert (Hacc : ∀ r n s, rank s = r → size s = n → Acc smaller s).
  { induction r as [r IHr] using lt_wf_ind. induction n as [n IHn] using lt_wf_ind.
    intros s Hr Hn. constructor. intros s' [Hlt|[Heq Hlt]].
    - eapply IHr; [|done..]. lia.
    - eapply IHn; [|congruence|done]. lia. }
  intros s. by eapply Hacc.
Qed.

Lemma advance_smaller s m s' : (advance cfg s m).2 = Some s' → smaller s' s.
Proof.
  unfold smaller.
  destruct s as [op|o ports [|port old]|o ports|o [|port held] after|k o ip name|k o ip name fin
                |o ip [|port todo] n fin|o ports|k]; cbn [advance].
  - destruct op; simpl; repeat case_match; intros [= <-]; simpl; lia.
  - intros [= <-]. simpl. lia.
  - intros [= <-]. simpl. lia.
  - unfold pick. repeat case_match; simplify_eq; simpl; intros [= <-]; simpl; lia.
  - destruct after; simpl; repeat case_match; intros [= <-]; simpl; lia.
  - intros [= <-]. simpl. lia.
  - unfold choose. repeat case_match; simpl; intros [= <-]; simpl; lia.
  - intros [= <-]. simpl. lia.
  - destruct fin; intros [= <-]. simpl. lia.
  - assert (Hbind : smaller (attempt_bind cfg o ip port todo n fin m).2 (Bind o ip (port :: todo) n fin)).
    { assert (Hnext : smaller (Bind o ip todo 0 fin) (Bind o ip (port :: todo) n fin)).
      { right. split; [done|]. cbn [size length]. lia. }
      assert (Hretry : smaller (if S n <? BIND_ATTEMPTS then Bind o ip (port :: todo) (S n) fin
                                else Bind o ip todo 0 fin) (Bind o ip (port :: todo) n fin)).
      { destruct (Nat.ltb_spec (S n) BIND_ATTEMPTS) as [Hlt|]; [|done].
        unfold BIND_ATTEMPTS in Hlt. right. split; [done|]. cbn [size length]. lia. }
      unfold attempt_bind. destruct (netstack m) as [ns|], ip; try done; by destruct (Tunnel.bind_listener _ _ _ _). }
    unfold smaller in Hbind. destruct (attempt_bind _ _ _ _ _ _ _ _) as [m1 s1]. simpl in Hbind.
    destruct n, (bindings_of o m !! port); intros [= <-]; try done; simpl; lia.
  - done.
  - by destruct (Session.evict k (session m)).
Qed.

End end_lemmas.

(** ** Properties *)
Section lock_properties.
Import Peers Shell Locks.
Context {K : Type} `{EKL : EndpointKeyLaws K} `{DML : DashMapLaws}.
Context `{!JsonCodec Pins.Pin} `{!JsonCodec Surface.SurfaceRecord}.

(** C8: Bindings follow surfaces at every step.  Cut the operations that hold
    the bind lock at every place they give way, let any number of them wait for
    it with what they looked up before, and let anything else happen in between.
    Where the system does not hand out a socket twice, at every moment from the
    start of a daemon on: one operation at most holds the lock; a port of a peer
    is bound only while the peer has a surface, and only if the peer announced it
    or announces it just now; what is bound is served at that address, on a socket
    the process listens on, or with the TUN backend on at an IPv4 surface, or else
    an accept on it failed before and ended its task; no socket serves two
    bindings; and every socket the process listens on serves one. *)
Theorem bindings_follow_surfaces_throughout (cfg : Config K) (parse_ip : string → option IpAddr)
    texts ports pins_file surfaces_file ns (m0 : PeerManager K) (es : list (Event K)) :
  exclusive cfg → Daemon.run cfg texts ports pins_file surfaces_file ns = Ok m0 →
  let x := now_at cfg parse_ip m0 es in
  let m := manager x in
  (∀ i j s s', tasks x !! i = Some s → tasks x !! j = Some s' →
     holds_lock s = true → holds_lock s' = true → i = j) ∧
  (∀ o port b, bindings_of o m !! port = Some b →
     (port ∈ exposed_of o m ∨ ∃ i s, tasks x !! i = Some s ∧ announces s o port) ∧
     ∃ s, surface_of o m = Some s ∧
          match b with
          | Listener ip q => ip = Surface.ip s ∧ (port ≠ 0%Z → q = port) ∧ (ip, q) ∈ sockets m
          | Finished => Whole (EvAcceptFailed o port) ∈ es
          | TunPlaceholder => is_Some (netstack m) ∧
                              ∃ x y z w, Surface.ip s = Surface.V4 x y z w
          end) ∧
  (∀ ip q, (ip, q) ∈ sockets m →
     ∃ o port, bindings_of o m !! port = Some (Listener ip q) ∧
          ∀ o' port', bindings_of o' m !! port' = Some (Listener ip q) → o' = o ∧ port' = port).
Proof.
  intros Hex Hrun x m.
  assert (Hlive : live_peers m0).
  { intros k o Hk. apply agree_start in Hrun. apply (agree_objects _ Hrun) in Hk as (p & Hp & _). by eexists. }
  destruct (machine_run cfg parse_ip Hex m0 es (inv_start _ _ _ _ _ _ _ Hrun) Hlive)
    as [[Hp Hu Hs] Ha _ Hone _ _]. fold x m in Hp, Hu, Hs, Ha, Hone.
  split; [exact Hone|]. split.
  - intros o port b Hb. split; [apply Ha; by eexists|].
    destruct (Hp _ _ _ Hb) as (s & Hsur & Hpl). exists s. split; [done|].
    destruct b; [done| |done].
    apply (machine_ends cfg parse_ip m0 es o port (λ o, proj1 (quiet_start _ _ _ _ _ _ _ Hrun) o) Hb).
  - intros ip q Hin. destruct (Hs _ Hin) as (o & port & Hb). exists o, port. split; [done|].
    intros o' port' Hb'. by destruct (Hu _ _ _ _ _ _ Hb Hb') as [-> ->].
Qed.

(** The lock is given back.  An operation that has begun comes to its end after
    finitely many steps, whatever state each of them finds the daemon in. *)
Theorem lock_is_given_back (cfg : Config K) (ms : nat → PeerManager K) (s : Stage K) :
  ∃ n, stage_after cfg ms n s = None.
Proof.
  revert ms. induction (smaller_wf s) as [s _ IH]. intros ms.
  destruct (advance cfg s (ms 0)).2 as [s'|] eqn:Hs; [|by exists 1; simpl; rewrite Hs].
  destruct (IH s' (advance_smaller cfg s (ms 0) s' Hs) (λ i, ms (S i))) as [n Hn].
  exists (S n). simpl. by rewrite Hs.
Qed.

(** An operation that nothing interrupts does what [Shell.step] says: it begins
    and goes on to the very state the event leads to, or finds nothing to work
    on, and then the event changes nothing. *)
Theorem locked_operations_alone_are_events (cfg : Config K) (parse_ip : string → option IpAddr)
    (e : Shell.Event) (m : PeerManager K) :
  is_op e = true →
  match begin parse_ip e m with
  | Some op => rtc (alone cfg) (m, Some (Enter op)) (Shell.step cfg parse_ip m e, None)
  | None => Shell.step cfg parse_ip m e = m
  end.
Proof.
  intros He. destruct e as [req random now| | | |o [[ports| | |]|]| | | | |]; try done.
  2: { apply leads_announce. }
  assert (Hrespond : ∀ r : PeerManager K * result unit, (Daemon.respond r).1 = r.1) by (by intros [? []]).
  destruct req as [| |peer| | | | |peer ip name|peer]; try done; simpl.
  - rewrite Hrespond. unfold remove_peer. destruct (resolve_peer peer m) as [k|]; [|done]. simpl.
    destruct (peers m !! k); [|done]. apply leads_forget.
  - destruct (resolve_peer peer m) as [k|] eqn:Hk; [destruct (peers m !! k) as [o|] eqn:Ho|];
      (destruct ip as [text|]; [destruct (parse_ip text) as [a|]|]); simpl; try done; rewrite ?Ho;
      simpl; rewrite Hrespond; try (by apply leads_project); unfold project; rewrite Hk; by rewrite ?Ho.
  - rewrite Hrespond. destruct (resolve_peer peer m) as [k|] eqn:Hk; simpl;
      [|unfold unproject; by rewrite Hk].
    destruct (peers m !! k) as [o|] eqn:Ho; simpl; [by apply leads_unproject|].
    unfold unproject. by rewrite Hk, Ho.
Qed.

End lock_properties.

(** ** Concrete runs *)
Section lock_witnesses.
Import Peers Shell Locks.

(** Peer 7, accepted at the start, calls and announces port 3000; then it is
    projected anew, and forgotten while that waits for the lock. *)
Definition toy_waiting : list (Event N) :=
  [Whole (EvConnection (mkConn 100%N 7%N)); Begin (EvUni 0%N (Some (Protocol.ExposedPorts [3000%Z])))] ++
  repeat (Resume 0) 8 ++
  [Begin (EvRequest (Protocol.ReqProject "7" None (Some "box")) [] 0%Z);
   Begin (EvRequest (Protocol.ReqForget "7") [] 0%Z)].

Definition toy_machine (es : list (Event N)) : Machine N :=
  now_at Toy.config Toy.parse_ip Toy.start es.

(** A projection that waits while its peer is forgotten revives it.  It
    looked the peer up before it asked for the lock that the other request then
    took: in the end the peer is neither known nor admitted, and yet a surface
    stands for it under the name asked for, the process listens on its port, its
    record is on disk again, and no request can name it. *)
Theorem waiting_projection_revives_forgotten_peer :
  let x := toy_machine (toy_waiting ++ repeat (Resume 2) 5 ++ repeat (Resume 1) 6) in
  let m := manager x in
  let answer req := (Daemon.handle_request Toy.config Toy.parse_ip req [] 0%Z m).2 in
  tasks x = ∅ ∧ peers m = ∅ ∧ Session.peer_keys (session m) = [] ∧
  surface_of 0%N m = Some (Surface.mkSurface (Surface.V4 127 0 1 2) (Some "box")) ∧
  (Surface.V4 127 0 1 2, 3000%Z) ∈ sockets m ∧
  (Surface.rec_key <$> default [] (ok (Surface.load (surfaces m)))) = ["7"] ∧
  answer (Protocol.ReqForget "7") = Protocol.RespError "no such peer: 7" ∧
  answer (Protocol.ReqUnproject "7") = Protocol.RespError "no such peer: 7".
Proof.
  intros x m answer. split_and!; by vm_compute.
Qed.

(** In the middle of an announcement: its port is bound, and not yet recorded as
    announced. *)
Lemma bindings_follow_surfaces_throughout_witness :
  let x := toy_machine (take 7 toy_waiting) in
  exposed_of 0%N (manager x) = [] ∧
  ∃ o port, bindings_of o (manager x) !! port = Some (Listener (Surface.V4 127 0 1 2) 3000%Z) ∧
       ((port ∈ exposed_of o (manager x)) ∨ ∃ i s, tasks x !! i = Some s ∧ announces s o port).
Proof.
  intros x. split; [by vm_compute|].
  destruct (bindings_follow_surfaces_throughout Toy.config Toy.parse_ip _ _ _ _ _ _ (take 7 toy_waiting)
    toy_exclusive Toy.start_run)
    as (_ & Hb & Hs).
  destruct (Hs (Surface.V4 127 0 1 2) 3000%Z) as (o & port & Ho & _); [by vm_compute|].
  exists o, port. split; [exact Ho|]. apply (Hb _ _ _ Ho).
Defined.

End lock_witnesses.
