(* ===== verification/Link.v ===== *)
(** * Daemons that talk to each other

    A [World] is several daemons and the connections between them: what one
    sends on a connection ([sent]) is there to be delivered at the other end,
    each message a stream of its own, so in any order and at any time.  The
    operator of each gives it requests; its loops dial; what arrives is the event
    of [Shell] that the other end's task makes of it.  Over it an invitation is
    followed from the daemon that mints it to the tunnels of the one that takes
    it up. *)

From S2P Require Import Prelude RustStr Keys Grants Dial Invite Store Enroll Protocol Session SessionSafety Surface Resolver Netstack Tunnel Peer PeerFacts PeerLoop Daemon Shell Bindings PeerProps Calls.

Module Link.
Import Peers.

#[export] Instance conn_eq_dec {K} `{EqDecision K} : EqDecision (Conn K).
Proof. solve_decision. Defined.

Section link.
Context {K : Type} `{!EndpointKey K} `{!DashMap}.
Context `{!JsonCodec Pins.Pin} `{!JsonCodec Surface.SurfaceRecord}.
(** The configuration of the daemon of each key. *)
Variable cfg : K → Config K.
Variable parse_ip : string → option IpAddr.

(** [arriving]: the connections dialed, by whom and to whom, that the other end
    has not seen; [delivered]: the messages taken, by sender and place. *)
Record World : Type := mkWorld {
  nodes : gmap K (PeerManager K);
  arriving : gmap N (K * K);
  next_conn : N;
  delivered : gset (K * nat);
}.

Inductive Event : Type :=
| Request (x : K) (req : Protocol.Request) (random : bytes) (now : Z)
| Dialed (x : K) (o : ObjId)
| Arrive (n : N)
| ToWaiting (x : K) (i : nat) (id : Session.ConnId) (now : Z)
| ToAdmitted (x : K) (i : nat) (o : ObjId)
| Run (x : K) (o : ObjId)
| Lost (x : K) (c : Conn K) (reason : string).

Definition put (x : K) (m : PeerManager K) (w : World) : World :=
  mkWorld (<[x := m]> (nodes w)) (arriving w) (next_conn w) (delivered w).

(** A daemon takes a step. *)
Definition does_at (x : K) (e : Shell.Event (K:=K)) (w : World) : World :=
  match nodes w !! x with
  | Some m => put x (Shell.step (cfg x) parse_ip m e) w
  | None => w
  end.

(** The loop of an object whose connection is gone, or that has none, reaches
    its peer. *)
Definition dialed (x : K) (o : ObjId) (w : World) : World :=
  match nodes w !! x with
  | None => w
  | Some m =>
      match objects m !! o with
      | None => w
      | Some p =>
          if Dial.held_is_live (live m) (slot p) then w
          else
            let n := next_conn w in
            let w := does_at x (Shell.EvDialed o (mkConn n (endpoint_id p))) w in
            mkWorld (nodes w) (<[n := (x, endpoint_id p)]> (arriving w)) (n + 1) (delivered w)
      end
  end.

Definition arrive (n : N) (w : World) : World :=
  match arriving w !! n with
  | Some (x, y) =>
      let w := does_at y (Shell.EvConnection (mkConn n x)) w in
      mkWorld (nodes w) (delete n (arriving w)) (next_conn w) (delivered w)
  | None => w
  end.

(** The [i]th message of [x], unless it was taken: who it is for, its
    connection as the receiver has it, and what it says. *)
Definition in_flight (x : K) (i : nat) (w : World) : option (K * Conn K * Protocol.PeerMessage) :=
  m ← nodes w !! x;
  '(c, msg) ← sent m !! i;
  if decide ((x, i) ∈ delivered w) then None
  else Some (remote_id c, mkConn (cid c) x, msg).

Definition take (x : K) (i : nat) (w : World) : World :=
  mkWorld (nodes w) (arriving w) (next_conn w) ({[(x, i)]} ∪ delivered w).

(** A task that waits takes a message of its own connection; so does the task
    of an admitted object. *)
Definition to_waiting (x : K) (i : nat) (id : Session.ConnId) (now : Z) (w : World) : World :=
  match in_flight x i w with
  | Some (y, c, msg) =>
      if decide ((m ← nodes w !! y; wait_conn <$> waiting m !! id) = Some c)
      then take x i (does_at y (Shell.EvEnroll id (Some msg) now) w)
      else w
  | None => w
  end.

Definition to_admitted (x : K) (i : nat) (o : ObjId) (w : World) : World :=
  match in_flight x i w with
  | Some (y, c, msg) =>
      if decide ((m ← nodes w !! y; conn_of o m) = Some c)
      then take x i (does_at y (Shell.EvUni o (Some msg)) w)
      else w
  | None => w
  end.

Definition step (w : World) (e : Event) : World :=
  match e with
  | Request x req random now => does_at x (Shell.EvRequest req random now) w
  | Dialed x o => dialed x o w
  | Arrive n => arrive n w
  | ToWaiting x i id now => to_waiting x i id now w
  | ToAdmitted x i o => to_admitted x i o w
  | Run x o => does_at x (Shell.EvRunning o) w
  | Lost x c reason => does_at x (Shell.EvLost c reason) w
  end.

Definition run (w : World) (es : list Event) : World := foldl step w es.

(** What a request is answered. *)
Definition answer (x : K) (req : Protocol.Request) (random : bytes) (now : Z) (w : World) :
    option Protocol.Response :=
  m ← nodes w !! x; Some (Daemon.handle_request (cfg x) parse_ip req random now m).2.

(** What becomes of bytes sent into a tunnel that [x] opens to the peer of its
    object [o]: they arrive on the object that holds the connection there. *)
Definition tunnel (x : K) (o : ObjId) (port : Z) (data : bytes) (w : World) :
    option TunnelOutcome :=
  m ← nodes w !! x;
  '(c, start) ← ok (open_tunnel o port m);
  m' ← nodes w !! remote_id c;
  o' ← peers m' !! x;
  if decide (conn_of o' m' = Some (mkConn (cid c) x))
  then Some (handle_bi_stream (cfg (remote_id c)) o' (start ++ data) m')
  else None.

End link.
Arguments World K {_}.
Arguments Event K : clear implicits.
End Link.

(** ** Lemmas *)
Section link_lemmas.
Import Peers Link.
Context {K : Type} `{EKL : EndpointKeyLaws K} `{DML : DashMapLaws}.
Context `{!JsonCodec Pins.Pin} `{!JsonCodec Surface.SurfaceRecord}.
Variable cfg : K → Config K.
Variable parse_ip : string → option IpAddr.
Implicit Types (m : PeerManager K) (w : World K).

Lemma does_at_node x e w m :
  nodes w !! x = Some m →
  does_at cfg parse_ip x e w = put x (Shell.step (cfg x) parse_ip m e) w.
Proof. unfold does_at. by intros ->. Qed.

(** A slot that is empty takes what is dialed. *)
Lemma dialed_empty x o p c m :
  objects m !! o = Some p → Dial.connection (slot p) = None →
  let m' := Loop.dialed (cfg x) o p c m in
  conn_of o m' = Some c ∧ closed m' = closed m ∧ peers m' = peers m ∧ session m' = session m ∧
  sent m' = sent m ++
    match enroll_token p with Some token => [(c, Protocol.enroll token)] | None => [] end ++
    [(c, Protocol.ExposedPorts (Grants.ports_for (endpoint_id p) (Session.grants (session m))))].
Proof.
  intros Hp Hc m'. subst m'. unfold Loop.dialed, install. rewrite Hp.
  unfold Dial.offer, Dial.resolve, Dial.held_is_live. rewrite Hc. simpl.
  set (m1 := upd o (put_slot (Dial.mkSlot (Some c) true)) m).
  assert (Ho1 : objects m1 !! o = Some (put_slot (Dial.mkSlot (Some c) true) p)).
  { unfold m1. by rewrite objects_upd, decide_True, Hp. }
  set (m2 := match enroll_token p with Some token => _ | None => m1 end).
  assert (H2 : objects m2 = objects m1 ∧ closed m2 = closed m ∧ peers m2 = peers m ∧
               session m2 = session m ∧
               sent m2 = sent m ++ match enroll_token p with
                                   | Some token => [(c, Protocol.enroll token)] | None => [] end).
  { unfold m2. destruct (enroll_token p); simpl; rewrite ?app_nil_r; done. }
  clearbody m2. destruct H2 as (Hobj & Hcl & Hpe & Hse & Hsent).
  assert (Hconn : conn_of o m2 = Some c) by (unfold conn_of; by rewrite Hobj, Ho1).
  unfold announce_to. rewrite Hobj, Ho1. simpl. unfold send_ports, send_to. simpl.
  rewrite Hconn. split_and!; [exact Hconn|done..|]. simpl. by rewrite Hsent, Hse, <- app_assoc.
Qed.

End link_lemmas.

Section link_sides.
Import Peers Link.
Context {K : Type} `{EKL : EndpointKeyLaws K} `{DML : DashMapLaws}.
Context `{!JsonCodec Pins.Pin} `{!JsonCodec Surface.SurfaceRecord}.
Implicit Types (m : PeerManager K) (k : K).

(** A good claim on a connection that waits, in terms of the code that was
    minted. *)
Lemma claim_on_waiting cfg m id wt code v now tok :
  waiting m !! id = Some wt →
  Tokens.pending (Session.tokens (session m)) !! code = Some tok → (now < Tokens.expires tok)%Z →
  let k := remote_id (wait_conn wt) in
  let m' := enroll_message cfg id (Some (Protocol.Enroll code v)) now m in
  ∃ o p, peers m' !! k = Some o ∧ objects m' !! o = Some p ∧
    Dial.connection (slot p) = Some (wait_conn wt) ∧ closed m' = closed m ∧
    sent m' = sent m ++ [(wait_conn wt,
      Protocol.ExposedPorts (Grants.ports_for k (Session.grants (session m'))))] ∧
    Session.peers (session m') = <[k := Session.mkAdmitted (Tokens.name tok) Session.Code]>
                                   (Session.peers (session m)) ∧
    Session.grants (session m') = foldl (λ g port, Grants.add port k g)
                                    (Session.grants (session m)) (Tokens.ports tok) ∧
    waiting m' !! id = None.
Proof.
  intros Hwt Htok Hnow k m'. unfold m', enroll_message. rewrite Hwt.
  set (wt' := match v with Some _ => _ | None => wt end).
  assert (Hc' : wait_conn wt' = wait_conn wt) by (unfold wt'; by destruct v).
  clearbody wt'. rewrite Hc'. fold k.
  pose proof (claim_accepted (session m) id k code v now tok Htok Hnow) as Hc.
  destruct (Session.on_unadmitted id k (Protocol.Enroll code v) now (session m)) as [s acts].
  destruct Hc as (Hacts & Hpeers & Hgrants & _). subst acts.
  set (early := match Session.early_of id (session m) with [] => _ | _ => _ end).
  assert (Hearly : early = [] ∨ ∃ k' q, early = [Session.ApplyPorts k' q]).
  { unfold early. destruct (Session.early_of id (session m)); eauto. }
  pose proof (accept_verdict cfg id wt' (set_session s m) id early
                (Grants.ports_for k (Session.grants s)) Hearly) as Hacc.
  rewrite Hc' in Hacc. fold k in Hacc. cbv zeta in Hacc.
  assert (Hl : Session.label_of k (session (set_session s m)) = Tokens.name tok).
  { unfold Session.label_of. simpl. by rewrite Hpeers, lookup_insert_eq. }
  rewrite Hl in Hacc. clearbody early.
  destruct Hacc as (o & p & H1 & _ & H3 & H4 & _ & _ & _ & _ & H9 & H10 & H11 & H12).
  exists o, p. cbn [app] in *. set (m1 := enroll_verdict _ _ _ _ _) in *. clearbody m1.
  rewrite H12. split_and!; try done; exact H9.
Qed.

Lemma hex_code_good (random : bytes) :
  Forall u8_range random → random ≠ [] →
  Forall_str graphic (hex_string random) ∧ hex_string random ≠ EmptyString.
Proof.
  intros Hr Hne. split.
  - eapply Forall_str_impl; [apply alnum_graphic|]. by apply hex_string_alnum.
  - intros He. pose proof (hex_string_length random) as Hl. rewrite He in Hl.
    by destruct random.
Qed.

Lemma exposed_after_update cfg o ports m :
  is_Some (objects m !! o) → exposed_of o (update_peer_ports cfg o ports m) = ports.
Proof.
  intros Ho. unfold update_peer_ports. set (m1 := foldl _ m _).
  assert (H1 : frame m m1).
  { apply frame_foldl. intros. case_decide; [done|]. apply frame_release. }
  pose proof (frame_surface_ip cfg o ports m1) as H2.
  destruct (surface_ip cfg o ports m1) as [m2 [ip|]]; simpl in H2;
    rewrite exposed_of_put, decide_True; try done; split; try done.
  - apply (is_Some_objects_frame m); [|done]. etrans; [exact H1|]. etrans; [exact H2|].
    apply frame_bind_missing.
  - apply (is_Some_objects_frame m); [|done]. by etrans.
Qed.

End link_sides.

(** ** One side at a time *)
Section link_steps.
Import Peers Link.
Context {K : Type} `{EKL : EndpointKeyLaws K} `{DML : DashMapLaws}.
Context `{!JsonCodec Pins.Pin} `{!JsonCodec Surface.SurfaceRecord}.
Variable cfg : Config K.
Variable parse_ip : string → option IpAddr.
Implicit Types (m : PeerManager K) (k : K).

(** What a claim on a connection that waits needs to be good. *)
Definition awaits m (c : Conn K) (id : Session.ConnId) (code : string)
    (tok : Tokens.PendingToken) : Prop :=
  (∃ wt, waiting m !! id = Some wt ∧ wait_conn wt = c) ∧
  Tokens.pending (Session.tokens (session m)) !! code = Some tok.

(** The two halves of a daemon that matter to what it sent before. *)
Definition same_talk m m' : Prop := sent m' = sent m ∧ closed m' = closed m.

Lemma mint_then_connect m c name ports random now :
  peers m !! remote_id c = None → Shell.agree m →
  let m1 := Shell.step cfg parse_ip m
              (Shell.EvRequest (Protocol.ReqInvite None name ports) random now) in
  let m2 := Shell.step cfg parse_ip m1 (Shell.EvConnection c) in
  awaits m2 c (next_conn_id m) (hex_string random)
    (Tokens.mkPendingToken name ports (now + Tokens.TOKEN_TTL)) ∧ same_talk m m2.
Proof.
  intros Hk Ha. simpl. unfold handle_connection, Session.on_inbound. simpl.
  assert (Hs : Session.peers (session m) !! remote_id c = None).
  { apply eq_None_not_Some. rewrite <- (Shell.agree_keys _ Ha), Hk. by intros []. }
  rewrite Hs. simpl. split; [|done]. split.
  - eexists. simpl. by rewrite lookup_insert_eq.
  - simpl. by rewrite lookup_insert_eq.
Qed.

Lemma early_ports_wait m c id code tok ports now :
  awaits m c id code tok →
  let m' := Shell.step cfg parse_ip m (Shell.EvEnroll id (Some (Protocol.ExposedPorts ports)) now) in
  awaits m' c id code tok ∧ same_talk m m'.
Proof.
  intros [(wt & Hwt & Hc) Ht]. simpl. unfold enroll_message. rewrite Hwt. simpl.
  destruct (Session.pending (session m) !! id); simpl; (split; [|done]); split; try done;
    exists wt; simpl; by rewrite lookup_insert_eq.
Qed.

(** Taking the text up, and the dial. *)
Lemma accept_then_dial m (a : K) (code : string) (label : option string) random now n :
  peers m !! a = None → Forall_str graphic code → code ≠ EmptyString →
  let text := Invite.fmt (Invite.mkInvite a code) in
  let o := fresh (dom (objects m)) in
  let m1 := Shell.step cfg parse_ip m
              (Shell.EvRequest (Protocol.ReqAccept text label) random now) in
  let m2 := Shell.step cfg parse_ip m1 (Shell.EvDialed o (mkConn n a)) in
  (∃ p, objects m1 !! o = Some p ∧ Dial.connection (slot p) = None ∧ endpoint_id p = a) ∧
  conn_of o m2 = Some (mkConn n a) ∧ closed m2 = closed m ∧ peers m2 !! a = Some o ∧
  is_Some (Session.peers (session m2) !! a) ∧
  ∃ ports, sent m2 = sent m ++ [(mkConn n a, Protocol.enroll code);
                                (mkConn n a, Protocol.ExposedPorts ports)].
Proof.
  intros Hk Hg Hne text o m1.
  assert (Hm1 : m1 = (spawn_peer (new_peer a label true (Some code) None)
                        (admit_known a label Session.Added m)).1).
  { unfold m1. simpl. unfold Daemon.accept, text. rewrite from_str_fmt by done. simpl.
    unfold add_peer. by rewrite Hk. }
  assert (Ho : objects m1 !! o = Some (new_peer a label true (Some code) None)).
  { rewrite Hm1. simpl. by rewrite lookup_insert_eq. }
  intros m2. split; [by eexists|].
  assert (Hm2 : m2 = Loop.dialed cfg o (new_peer a label true (Some code) None) (mkConn n a) m1).
  { unfold m2. simpl. unfold Shell.with_object. by rewrite Ho. }
  rewrite Hm2.
  destruct (dialed_empty (λ _, cfg) a o _ (mkConn n a) m1 Ho eq_refl)
    as (Hc & Hcl & Hp & Hs & Hsent).
  rewrite Hp, Hs, Hcl, Hsent, Hm1. split_and!; try done.
  - rewrite <- Hm1. exact Hc.
  - simpl. by rewrite lookup_insert_eq.
  - simpl. unfold Session.admit_known. destruct (Session.peers (session m) !! a) eqn:E; simpl; [by rewrite E|].
    rewrite lookup_insert_eq. by eexists.
  - eexists. reflexivity.
Qed.

Lemma ports_arrive m o c k ports :
  conn_of o m = Some c → closed m !! cid c = None → peers m !! k = Some o →
  is_Some (Session.peers (session m) !! k) →
  let m' := Shell.step cfg parse_ip m (Shell.EvUni o (Some (Protocol.ExposedPorts ports))) in
  exposed_of o m' = ports ∧ peers m' !! k = Some o ∧ is_Some (Session.peers (session m') !! k) ∧
  ∀ port, open_tunnel o port m' = Ok (c, Tunnel.request port).
Proof.
  intros Hc Hlive Hp Hs. simpl.
  pose proof (silent_update_ports cfg o ports m) as Hsil.
  pose proof (frame_update_ports cfg o ports m) as [Hfp Hfs _ _ _ _ _].
  rewrite Hfp, Hfs. split_and!; try done.
  - apply exposed_after_update. unfold conn_of in Hc. by destruct (objects m !! o).
  - intros port. unfold open_tunnel. rewrite (silent_conn _ _ _ Hsil), Hc.
    unfold live. by rewrite (silent_closed _ _ Hsil), Hlive.
Qed.

End link_steps.

(** ** What passes between two daemons *)
Section link_passing.
Import Peers Link.
Context {K : Type} `{EKL : EndpointKeyLaws K} `{DML : DashMapLaws}.
Context `{!JsonCodec Pins.Pin} `{!JsonCodec Surface.SurfaceRecord}.
Variable cfg : K → Config K.
Variable parse_ip : string → option IpAddr.
Implicit Types (m : PeerManager K) (w : World K).

(** The states of two daemons, and which messages of theirs are taken. *)
Definition pair w (a b : K) (ma mb : PeerManager K) (taken : gset (K * nat)) : Prop :=
  nodes w !! a = Some ma ∧ nodes w !! b = Some mb ∧ delivered w = taken.

Lemma pair_swap w a b ma mb d : pair w a b ma mb d → pair w b a mb ma d.
Proof. unfold pair. naive_solver. Qed.

Lemma does_at_pair w a b ma mb d e :
  a ≠ b → pair w a b ma mb d →
  pair (does_at cfg parse_ip a e w) a b (Shell.step (cfg a) parse_ip ma e) mb d.
Proof.
  intros Hab (Ha & Hb & Hd). rewrite (does_at_node _ _ _ _ _ ma) by done.
  unfold pair, put. simpl. by rewrite lookup_insert_eq, lookup_insert_ne.
Qed.

Lemma world_run_app w es1 es2 :
  run cfg parse_ip w (es1 ++ es2) = run cfg parse_ip (run cfg parse_ip w es1) es2.
Proof. apply foldl_app. Qed.

Lemma next_conn_does_at x e w : next_conn (does_at cfg parse_ip x e w) = next_conn w.
Proof. unfold does_at. by case_match. Qed.

(** A dial of [b], whose object for [a] holds nothing, gets through. *)
Lemma dial_pair w a b ma mb d o p :
  a ≠ b → pair w a b ma mb d →
  objects mb !! o = Some p → Dial.connection (slot p) = None → endpoint_id p = a →
  let n := next_conn w in
  pair (arrive cfg parse_ip n (dialed cfg parse_ip b o w)) a b
    (Shell.step (cfg a) parse_ip ma (Shell.EvConnection (mkConn n b)))
    (Shell.step (cfg b) parse_ip mb (Shell.EvDialed o (mkConn n a))) d.
Proof.
  intros Hab Hw Hp Hc Hk n. pose proof Hw as (Ha & Hb & Hd).
  unfold dialed, Dial.held_is_live. rewrite Hb, Hp, Hc, Hk. fold n.
  unfold arrive. simpl. rewrite lookup_insert_eq.
  pose proof (does_at_pair w b a mb ma d (Shell.EvDialed o (mkConn n a))
                (not_eq_sym Hab) (pair_swap _ _ _ _ _ _ Hw)) as H1%pair_swap.
  set (w1 := does_at cfg parse_ip b _ w) in *. clearbody w1.
  set (w2 := mkWorld (nodes w1) _ _ _).
  assert (H2 : pair w2 a b ma (Shell.step (cfg b) parse_ip mb (Shell.EvDialed o (mkConn n a))) d)
    by exact H1.
  exact (does_at_pair w2 a b _ _ d (Shell.EvConnection (mkConn n b)) Hab H2).
Qed.

Lemma to_waiting_pair w a b ma mb d i id now n msg wt :
  a ≠ b → pair w a b ma mb d →
  sent mb !! i = Some (mkConn n a, msg) → (b, i) ∉ d →
  waiting ma !! id = Some wt → wait_conn wt = mkConn n b →
  pair (to_waiting cfg parse_ip b i id now w) a b
    (Shell.step (cfg a) parse_ip ma (Shell.EvEnroll id (Some msg) now)) mb ({[(b, i)]} ∪ d).
Proof.
  intros Hab Hw Hs Hi Hwt Hc. pose proof Hw as (Ha & Hb & Hd).
  unfold to_waiting, in_flight. rewrite Hb. simpl. rewrite Hs. simpl.
  rewrite decide_False by (by rewrite Hd). simpl. rewrite Ha. simpl. rewrite Hwt. simpl.
  rewrite decide_True by (by rewrite Hc).
  pose proof (does_at_pair w a b ma mb d (Shell.EvEnroll id (Some msg) now) Hab Hw)
    as (H1 & H2 & H3).
  split_and!; [exact H1|exact H2|]. cbn [delivered take]. by rewrite H3.
Qed.

Lemma to_admitted_pair w a b ma mb d i o n msg :
  a ≠ b → pair w a b ma mb d →
  sent ma !! i = Some (mkConn n b, msg) → (a, i) ∉ d → conn_of o mb = Some (mkConn n a) →
  pair (to_admitted cfg parse_ip a i o w) a b
    ma (Shell.step (cfg b) parse_ip mb (Shell.EvUni o (Some msg))) ({[(a, i)]} ∪ d).
Proof.
  intros Hab Hw Hs Hi Hc. pose proof Hw as (Ha & Hb & Hd).
  unfold to_admitted, in_flight. rewrite Ha. simpl. rewrite Hs. simpl.
  rewrite decide_False by (by rewrite Hd). simpl. rewrite Hb. simpl.
  rewrite decide_True by done.
  pose proof (does_at_pair w b a mb ma d (Shell.EvUni o (Some msg))
                (not_eq_sym Hab) (pair_swap _ _ _ _ _ _ Hw)) as (H1 & H2 & H3).
  split_and!; [exact H2|exact H1|]. cbn [delivered take]. by rewrite H3.
Qed.

(** The mint, the acceptance, the dial and the early list: [a] waits for the
    code on the connection that [b] holds. *)
Record met w (a b : K) (ma mb : PeerManager K) (c : string) (tok : Tokens.PendingToken)
    (n : N) (o : ObjId) (taken : gset (K * nat)) : Prop := {
  met_pair : ∃ ma' mb', pair w a b ma' mb' taken ∧ Shell.agree ma' ∧
    awaits ma' (mkConn n b) (next_conn_id ma) c tok ∧ same_talk ma ma' ∧
    conn_of o mb' = Some (mkConn n a) ∧ closed mb' = closed mb ∧ peers mb' !! a = Some o ∧
    is_Some (Session.peers (session mb') !! a) ∧
    ∃ ports, sent mb' = sent mb ++ [(mkConn n a, Protocol.enroll c);
                                    (mkConn n a, Protocol.ExposedPorts ports)];
}.

Lemma they_meet w a b ma mb random random' minted name label ports :
  a ≠ b → pair w a b ma mb (delivered w) → Shell.agree ma →
  peers ma !! b = None → peers mb !! a = None →
  Forall u8_range random → random ≠ [] →
  let code := hex_string random in
  let o := fresh (dom (objects mb)) in
  met (run cfg parse_ip w
         [Request a (Protocol.ReqInvite None name ports) random minted;
          Request b (Protocol.ReqAccept (Invite.fmt (Invite.mkInvite a code)) label) random' minted;
          Dialed b o; Arrive (next_conn w)])
    a b ma mb code (Tokens.mkPendingToken name ports (minted + Tokens.TOKEN_TTL))
    (next_conn w) o (delivered w).
Proof.
  intros Hab Hw Hga Hpa Hpb Hrand Hnil code o.
  destruct (hex_code_good random Hrand Hnil) as [Hgraphic Hne]. fold code in Hgraphic, Hne.
  set (n := next_conn w).
  destruct (mint_then_connect (cfg a) parse_ip ma (mkConn n b) name ports random minted Hpa Hga)
    as [Hwait Htalk].
  destruct (accept_then_dial (cfg b) parse_ip mb a code label random' minted n Hpb Hgraphic Hne)
    as ((p & Hp & Hfree & Hpk) & Hrest).
  fold code in Hwait. fold o in Hp, Hrest.
  set (e1 := Shell.EvRequest (Protocol.ReqInvite None name ports) random minted) in *.
  set (e2 := Shell.EvRequest (Protocol.ReqAccept _ label) random' minted) in *.
  pose proof (pair_swap _ _ _ _ _ _ (does_at_pair w a b ma mb _ e1 Hab Hw)) as H1.
  pose proof (pair_swap _ _ _ _ _ _ (does_at_pair _ b a _ _ _ e2 (not_eq_sym Hab) H1)) as H2.
  pose proof (dial_pair _ a b _ _ _ o p Hab H2 Hp Hfree Hpk) as H3. cbv zeta in H3.
  rewrite !next_conn_does_at in H3. split. eexists _, _. split; [exact H3|].
  split_and!; try apply Hrest; try exact Hwait; try apply Htalk.
  by repeat apply Shell.agree_step.
Qed.

Lemma early_list w a b ma mb code tok n o d (early : bool) t :
  a ≠ b → met w a b ma mb code tok n o d → (∀ i, (b, i) ∉ d) →
  ∃ d', met (run cfg parse_ip w
               (if early then [ToWaiting b (S (length (sent mb))) (next_conn_id ma) t] else []))
          a b ma mb code tok n o d' ∧ (b, length (sent mb)) ∉ d' ∧ (∀ i, (a, i) ∈ d' → (a, i) ∈ d).
Proof.
  intros Hab Hm Hd. destruct early; [|by exists d]. pose proof Hm as [Hm'].
  destruct Hm' as (ma' & mb' & Hw & Hga & Hwait & [Hs Hc] & Hrest).
  pose proof Hrest as (_ & _ & _ & _ & ports & Hsent). pose proof Hwait as [(wt & Hwt & Hwc) _].
  exists ({[(b, S (length (sent mb)))]} ∪ d). split; [|split; [set_solver by lia|set_solver]].
  split. eexists _, mb'. split.
  - eapply to_waiting_pair; [exact Hab|exact Hw| |apply Hd|exact Hwt|exact Hwc].
    rewrite Hsent, lookup_app_r by lia. by replace (S _ - _) with 1 by lia.
  - destruct (early_ports_wait (cfg a) parse_ip ma' _ _ _ _ ports t Hwait) as [Hwait' [Hs' Hc']].
    split; [by apply Shell.agree_step|]. split; [exact Hwait'|].
    split; [split; congruence|exact Hrest].
Qed.

(** The code and the answer. *)
Lemma code_and_answer w a b ma mb code tok n o d t :
  a ≠ b → met w a b ma mb code tok n o d → (t < Tokens.expires tok)%Z →
  (b, length (sent mb)) ∉ d → (a, length (sent ma)) ∉ d → closed mb !! n = None →
  ∃ ma' mb' o' d',
    pair (run cfg parse_ip w [ToWaiting b (length (sent mb)) (next_conn_id ma) t;
                              ToAdmitted a (length (sent ma)) o]) a b ma' mb' d' ∧
    Session.peers (session ma') !! b = Some (Session.mkAdmitted (Tokens.name tok) Session.Code) ∧
    (∀ port, port ∈ Tokens.ports tok → Grants.allows port b (Session.grants (session ma')) = true) ∧
    peers ma' !! b = Some o' ∧ conn_of o' ma' = Some (mkConn n b) ∧
    (endpoint_id <$> objects ma' !! o' = Some b) ∧
    exposed_of o mb' = Grants.ports_for b (Session.grants (session ma')) ∧
    peers mb' !! a = Some o ∧ is_Some (Session.peers (session mb') !! a) ∧
    ∀ port, open_tunnel o port mb' = Ok (mkConn n a, Tunnel.request port).
Proof.
  intros Hab [Hm] Ht Hd1 Hd2 Hlive.
  destruct Hm as (ma' & mb' & Hw & Hga & Hwait & [Hs Hc] & Hconn & Hcl & Hk & Hadm & ports & Hsent).
  destruct Hwait as [(wt & Hwt & Hwc) Htok].
  pose proof (claim_on_waiting (cfg a) ma' _ wt code (Some Protocol.VERSION) t tok Hwt Htok Ht) as Hcm.
  cbv zeta in Hcm. rewrite Hwc in Hcm. cbn [remote_id] in Hcm.
  set (m1 := enroll_message _ _ _ _ ma') in Hcm.
  destruct Hcm as (o' & p & Ho' & Hp & Hslot & _ & Hsent1 & Hpeers & Hgrants & _).
  assert (Hg1 : Shell.agree m1).
  { by apply (Shell.agree_step (cfg a) parse_ip ma' (Shell.EvEnroll _ _ t)). }
  destruct (Shell.agree_objects _ Hg1 _ _ Ho') as (p' & Hp' & Hid & _).
  rewrite Hp in Hp'. injection Hp' as <-.
  pose proof (to_waiting_pair w a b ma' mb' d (length (sent mb)) (next_conn_id ma) t n
                (Protocol.enroll code) wt Hab Hw) as Hw1.
  rewrite Hsent, lookup_app_r, Nat.sub_diag in Hw1 by lia.
  specialize (Hw1 eq_refl Hd1 Hwt Hwc).
  pose proof (to_admitted_pair _ a b _ mb' _ (length (sent ma)) o n
    (Protocol.ExposedPorts (Grants.ports_for b (Session.grants (session m1)))) Hab Hw1) as Hw2.
  change (Shell.step (cfg a) parse_ip ma' _) with m1 in Hw2.
  rewrite Hsent1, lookup_app_r in Hw2 by (rewrite Hs; lia).
  rewrite Hs, Nat.sub_diag in Hw2. specialize (Hw2 eq_refl). 
  eexists m1, _, o', _. split; [apply Hw2; [set_solver|exact Hconn]|].
  destruct (ports_arrive (cfg b) parse_ip mb' o (mkConn n a) a
              (Grants.ports_for b (Session.grants (session m1))) Hconn) as (He & Hk' & Hadm' & Hopen);
    [by rewrite Hcl|done..|].
  split_and!; try done.
  - by rewrite Hpeers, lookup_insert_eq.
  - intros port Hport. rewrite Hgrants. apply allows_add_ports. auto.
  - unfold conn_of. by rewrite Hp.
  - rewrite Hp. simpl. by rewrite Hid.
Qed.

End link_passing.

(** ** Properties *)
Section link_properties.
Import Peers Link.
Context {K : Type} `{EKL : EndpointKeyLaws K} `{DML : DashMapLaws}.
Context `{!JsonCodec Pins.Pin} `{!JsonCodec Surface.SurfaceRecord}.

(** C3: an invitation links two daemons.  The daemon of [a] mints one with a
    name and ports; the daemon of [b], in whatever state, takes its text up; its
    loop dials, and what it sends arrives within five minutes of the mint, its
    announcement before its code or not at all; then what [a] sends back arrives.
    Neither knew the other before.  Now each knows the other, [a] admits [b] by
    the code, under the name it was minted with; [b] holds, for [a], exactly the
    ports that [a] grants it, those of the invitation among them; and bytes that
    [b] sends into a tunnel to any of those come out at that port of [a]'s host. *)
Theorem invitation_links_daemons (cfg : K → Config K) (parse_ip : string → option IpAddr)
    (w : World K) (a b : K) (ma mb : PeerManager K) (random random' : bytes)
    (minted t1 t2 : Z) (name label : option string) (ports : list Z) (early : bool) :
  (a ≠ b ∧ nodes w !! a = Some ma ∧ nodes w !! b = Some mb ∧ me (cfg a) = a) →
  Shell.reachable (cfg a) parse_ip ma →
  peers ma !! b = None → peers mb !! a = None →
  (closed mb !! next_conn w = None ∧ ∀ x i, (x, i) ∉ delivered w) →
  (Forall u8_range random ∧ length random = 32 ∧ u16s ports) →
  (t2 < minted + Tokens.TOKEN_TTL)%Z →
  let text := Invite.fmt (Invite.mkInvite a (hex_string random)) in
  let o := fresh (dom (objects mb)) in
  let id := next_conn_id ma in
  let i := length (sent mb) in
  let w' := run cfg parse_ip w
    ([Request a (Protocol.ReqInvite None name ports) random minted;
      Request b (Protocol.ReqAccept text label) random' minted;
      Dialed b o; Arrive (next_conn w)] ++
     (if early then [ToWaiting b (S i) id t1] else []) ++
     [ToWaiting b i id t2; ToAdmitted a (length (sent ma)) o]) in
  answer cfg parse_ip a (Protocol.ReqInvite None name ports) random minted w =
    Some (Protocol.RespInvite text) ∧
  ∃ ma' mb', nodes w' !! a = Some ma' ∧ nodes w' !! b = Some mb' ∧
    Session.peers (session ma') !! b = Some (Session.mkAdmitted name Session.Code) ∧
    peers mb' !! a = Some o ∧ is_Some (Session.peers (session mb') !! a) ∧
    exposed_of o mb' = Grants.ports_for b (Session.grants (session ma')) ∧
    (∀ port, port ∈ ports → port ∈ exposed_of o mb') ∧
    (∀ port data, port ∈ ports →
       tunnel cfg b o port data w' = Some (Forward (host (cfg a)) port data)).
Proof.
  intros (Hab & Ha & Hb & Hme) Hra Hpa Hpb [Hclosed Hdel] (Hrand & Hlen & Hports) Htime.
  intros text o id i w'. split.
  { unfold answer. rewrite Ha. simpl. by rewrite Hme. }
  apply Shell.agree_reachable in Hra as Hga.
  pose proof (they_meet cfg parse_ip w a b ma mb random random' minted name label ports Hab
                (conj Ha (conj Hb eq_refl)) Hga Hpa Hpb Hrand ltac:(by destruct random)) as H1.
  eapply (early_list cfg parse_ip _ a b ma mb _ _ _ _ _ early t1 Hab) in H1 as (d & H2 & Hd1 & Hd2);
    [|done].
  eapply (code_and_answer cfg parse_ip _ a b ma mb _ _ _ _ d t2 Hab) in H2;
    [|exact Htime|exact Hd1|naive_solver|exact Hclosed].
  rewrite <- !world_run_app in H2.
  destruct H2 as (ma' & mb' & o' & d' & (Ha' & Hb' & _) & Hadm & Hg & Ho' & Hc' & Hid & He & Ho &
                  Hknow & Hopen).
  exists ma', mb'. cbn [Tokens.name Tokens.ports] in *.
  assert (Hin : ∀ port, port ∈ ports → port ∈ Grants.ports_for b (Session.grants (session ma'))).
  { intros port Hport. by apply elem_of_ports_for, Hg. }
  split_and!; try done.
  - intros port. fold o in He. rewrite He. apply Hin.
  - intros port data Hport.
    assert (Hbi : handle_bi_stream (cfg a) o' (Tunnel.request port ++ data) ma' =
                  Forward (host (cfg a)) port data).
    { unfold handle_bi_stream. destruct (objects ma' !! o') as [p|]; [|done].
      injection Hid as Hid.
      rewrite read_request_request by (by eapply Forall_forall in Hports; [|exact Hport]).
      unfold Session.on_tunnel. by rewrite Hid, Hg. }
    unfold tunnel. change (nodes w' !! b = Some mb') in Hb'. rewrite Hb'. fold o in Hopen.
    cbn [mbind option_bind]. rewrite Hopen. cbn [mbind option_bind ok remote_id cid].
    change (nodes w' !! a = Some ma') in Ha'. rewrite Ha'. cbn [mbind option_bind].
    rewrite Ho'. cbn [mbind option_bind]. rewrite decide_True by done. by rewrite Hbi.
Qed.

End link_properties.

(** ** Two daemons *)
Module Pair.
Import Peers Link.

(** The daemon of a key, of those of [Toy]. *)
Definition daemon_of (k : N) : Config N :=
  mkConfig k Surface.LOCALHOST (Some "me") Surface.Linux (λ _ _, Ok tt) (λ _, EmptyString)
    (λ _ _, EmptyString) Toy.tcp_bind.

Definition blank : PeerManager N := new (Toy.file "peers") (Toy.file "surfaces") None.

(** The daemon of 1 has accepted 7; that of 2 has just been started. *)
Definition two : World N := mkWorld (<[1%N := Toy.start]> (<[2%N := blank]> ∅)) ∅ 0 ∅.

Definition secret : bytes := repeat 171%Z 32.

End Pair.

Section link_witnesses.
Import Peers Link Pair.

Lemma invitation_links_daemons_witness :
  let events :=
    [Request 1%N (Protocol.ReqInvite None (Some "bob") [8081%Z]) secret 0;
     Request 2%N (Protocol.ReqAccept (Invite.fmt (Invite.mkInvite 1%N (hex_string secret))) None) [] 0;
     Dialed 2%N (fresh (dom (objects blank))); Arrive 0; ToWaiting 2%N 1 1%Z 5;
     ToWaiting 2%N 0 1%Z 9; ToAdmitted 1%N 0 (fresh (dom (objects blank)))] in
  let w := run daemon_of Toy.parse_ip two events in
  tunnel daemon_of 2%N (fresh (dom (objects blank))) 8081%Z [104; 105]%Z w =
    Some (Forward Surface.LOCALHOST 8081%Z [104; 105]%Z).
Proof.
  intros events w.
  destruct (invitation_links_daemons daemon_of Toy.parse_ip two 1%N 2%N Toy.start blank secret []
              0 5 9 (Some "bob") None [8081%Z] true) as [_ H].
  - split_and!; [lia|done..].
  - exact (Toy.start_reachable []).
  - by vm_compute.
  - done.
  - split; [done|]. intros x i Hin. by apply elem_of_empty in Hin.
  - split_and!; [by repeat constructor|done|by repeat constructor].
  - done.
  - destruct H as (ma' & mb' & _ & _ & _ & _ & _ & _ & _ & Htunnel).
    apply (Htunnel 8081%Z [104; 105]%Z). by left.
Defined.

End link_witnesses.
