(* ===== verification/Text.v ===== *)
(** * Reading text

    The methods of [str] the service commands and the daemon's options parse
    text with: [lines], [split_whitespace], [contains] of a string, and
    [u32::from_str_radix].  [u32_digits] checks every step for overflow, as
    the standard library does. *)

From S2P Require Import Prelude RustStr.

Definition nl : ascii := "010"%char.
Definition cr : ascii := "013"%char.
Definition tab : ascii := "009"%char.
Definition dquote : ascii := "034"%char.

Definition chr (c : ascii) : string := String c EmptyString.

(** ** [lines] *)

(** [split_inclusive('\n')]. *)
Fixpoint split_inclusive (s : string) : list string :=
  match s with
  | EmptyString => []
  | String c s =>
      if decide (c = nl) then chr nl :: split_inclusive s
      else match split_inclusive s with
           | [] => [chr c]
           | l :: ls => String c l :: ls
           end
  end.

(** A line without its ending: a line feed, and a carriage return before it. *)
Definition strip_eol (l : string) : string :=
  match strip_suffix (chr nl) l with
  | None => l
  | Some l => default l (strip_suffix (chr cr) l)
  end.

Definition lines (s : string) : list string := strip_eol <$> split_inclusive s.

(** Lines, each ended by a line feed. *)
Definition unlines (ls : list string) : string :=
  foldr (λ l s, l +:+ String nl s) EmptyString ls.

(** ** [split_whitespace().next()] *)

Fixpoint until_ws (s : string) : string :=
  match strip_first ws_seqs s with
  | Some _ => EmptyString
  | None => match s with
            | EmptyString => EmptyString
            | String c s => String c (until_ws s)
            end
  end.

Definition first_word (s : string) : option string :=
  let t := trim_start s in
  if str_is_empty t then None else Some (until_ws t).

(** ** [contains] of a string *)

Fixpoint contains_str (p s : string) : bool :=
  match strip_prefix p s with
  | Some _ => true
  | None => match s with
            | EmptyString => false
            | String _ s => contains_str p s
            end
  end.

(** ** [u32::from_str_radix], for a radix up to ten *)

Definition to_digit (radix : Z) (c : ascii) : option Z :=
  let d := (byte_of c - 48)%Z in
  if decide (0 <= d < radix)%Z then Some d else None.

Fixpoint u32_digits (radix acc : Z) (s : string) : option Z :=
  match s with
  | EmptyString => Some acc
  | String c s =>
      d ← to_digit radix c;
      if decide (acc * radix + d < 2 ^ 32)%Z then u32_digits radix (acc * radix + d) s else None
  end.

(** A leading plus sign is allowed, a sign alone is not. *)
Definition u32_from_str_radix (radix : Z) (s : string) : option Z :=
  match s with
  | EmptyString => None
  | String c r =>
      if decide (c = "+"%char)
      then match r with EmptyString => None | String _ _ => u32_digits radix 0 r end
      else u32_digits radix 0 s
  end.

(** ** Lemmas *)

(** A closed decidable statement, by evaluation. *)
Ltac decide_now := apply (bool_decide_unpack _); by vm_compute.

#[export] Instance Forall_str_dec P s `{∀ c, Decision (P c)} : Decision (Forall_str P s).
Proof. induction s; simpl; apply _. Defined.

(** Free of line endings. *)
Definition one_line (s : string) : Prop := Forall_str (λ c, c ≠ nl ∧ c ≠ cr) s.

#[export] Instance one_line_dec s : Decision (one_line s).
Proof. apply Forall_str_dec. apply _. Defined.

Lemma split_inclusive_line l s :
  Forall_str (λ c, c ≠ nl) l →
  split_inclusive (l +:+ String nl s) = (l +:+ chr nl) :: split_inclusive s.
Proof.
  induction l as [|c l IH]; simpl; intros Hl; [by rewrite ?decide_True|].
  destruct Hl as [Hc Hl]. rewrite decide_False by done. by rewrite IH.
Qed.

Lemma strip_cr_none l : one_line l → strip_suffix (chr cr) l = None.
Proof.
  intros Hl. destruct (strip_suffix (chr cr) l) as [r|] eqn:Hr; [|done].
  apply strip_suffix_Some in Hr as ->. unfold one_line in Hl.
  rewrite Forall_str_app in Hl. simpl in Hl. naive_solver.
Qed.

Lemma lines_unlines ls : Forall one_line ls → lines (unlines ls) = ls.
Proof.
  unfold lines. induction 1 as [|l ls Hl _ IH]; simpl; [done|].
  rewrite split_inclusive_line; [|by eapply Forall_str_impl; [|exact Hl]; naive_solver].
  rewrite fmap_cons. f_equal; [|exact IH]. unfold strip_eol. rewrite strip_suffix_app.
  by rewrite strip_cr_none.
Qed.

Lemma contains_str_spec p s : contains_str p s = true ↔ ∃ a b, s = a +:+ p +:+ b.
Proof.
  induction s as [|c s IH]; simpl.
  - destruct (strip_prefix p EmptyString) as [r|] eqn:Hr.
    + apply strip_prefix_Some in Hr. split; [|done]. intros _. by exists EmptyString, r.
    + split; [done|]. intros (a & b & Heq). destruct a; [|done]. simpl in Heq.
      apply strip_prefix_Some in Heq. congruence.
  - destruct (strip_prefix p (String c s)) as [r|] eqn:Hr.
    + apply strip_prefix_Some in Hr. split; [|done]. intros _. by exists EmptyString, r.
    + rewrite IH. split.
      * intros (a & b & ->). by exists (String c a), b.
      * intros ([|c' a] & b & Heq).
        -- simpl in Heq. apply strip_prefix_Some in Heq. congruence.
        -- injection Heq as -> ->. by exists a, b.
Qed.

Lemma until_ws_cons c s :
  graphic c → until_ws (String c s) = String c (until_ws s).
Proof.
  intros Hc. trans (match strip_first ws_seqs (String c s) with
                    | Some _ => EmptyString
                    | None => String c (until_ws s)
                    end); [done|]. by rewrite strip_first_graphic.
Qed.

Lemma until_ws_graphic s : Forall_str graphic s → until_ws s = s.
Proof.
  induction s as [|c s IH]; [done|]. intros [Hc Hs]. by rewrite until_ws_cons, IH.
Qed.

Lemma first_word_graphic s :
  Forall_str graphic s → s ≠ EmptyString → first_word (String " "%char s) = Some s.
Proof.
  intros Hs Hne. unfold first_word.
  assert (Ht : trim_start (String " "%char s) = s).
  { change (String " "%char s) with (chr " "%char +:+ s). rewrite trim_start_ws.
    - destruct s as [|c s]; [done|]. apply trim_start_graphic, Hs.
    - exists [chr " "%char]. split; [|done]. by repeat constructor. }
  rewrite Ht. destruct s as [|c s]; [done|]. cbn [str_is_empty]. f_equal.
  by apply until_ws_graphic.
Qed.

(** A numeral: its value, and the digits it is made of. *)
Fixpoint digits_value (radix acc : Z) (ds : list Z) : Z :=
  match ds with
  | [] => acc
  | d :: ds => digits_value radix (acc * radix + d) ds
  end.

Definition digit_char (d : Z) : ascii := char_of (48 + d).

Definition numeral (ds : list Z) : string := foldr (λ d s, String (digit_char d) s) EmptyString ds.

Lemma to_digit_char radix d :
  (0 < radix <= 10)%Z → (0 <= d < radix)%Z → to_digit radix (digit_char d) = Some d.
Proof.
  intros Hr Hd. unfold to_digit, digit_char. rewrite byte_of_char_of by (unfold u8_range; lia).
  replace (48 + d - 48)%Z with d by lia. by rewrite decide_True.
Qed.

Lemma digits_value_ge radix acc ds :
  (1 <= radix)%Z → (0 <= acc)%Z → Forall (λ d, 0 <= d)%Z ds → (acc <= digits_value radix acc ds)%Z.
Proof.
  intros Hr Ha Hds. revert acc Ha. induction Hds as [|d ds Hd _ IH]; intros acc Ha; simpl; [lia|].
  specialize (IH (acc * radix + d)%Z). nia.
Qed.

Lemma u32_digits_numeral radix acc ds :
  (0 < radix <= 10)%Z → (0 <= acc)%Z → Forall (λ d, 0 <= d < radix)%Z ds →
  u32_digits radix acc (numeral ds) =
  if decide (ds = [] ∨ digits_value radix acc ds < 2 ^ 32)%Z
  then Some (digits_value radix acc ds) else None.
Proof.
  intros Hr Ha Hds. revert acc Ha. induction Hds as [|d ds Hd Hds IH]; intros acc Ha.
  - by rewrite decide_True by (by left).
  - cbn [numeral foldr u32_digits digits_value]. fold (numeral ds).
    rewrite to_digit_char by done. cbn [option_bind mbind].
    assert (Hge : (acc * radix + d <= digits_value radix (acc * radix + d) ds)%Z).
    { apply digits_value_ge; [lia|nia|]. eapply Forall_impl; [exact Hds|]. simpl. lia. }
    destruct (decide (acc * radix + d < 2 ^ 32)%Z) as [Hlt|Hge'].
    + rewrite IH by nia. destruct ds as [|d' ds'].
      * rewrite !decide_True; [done|by right|by left].
      * apply decide_ext. naive_solver.
    + rewrite decide_False; [done|]. intros [?|?]; [done|]. lia.
Qed.

(** What parses is a numeral of the radix that fits, after at most one sign. *)
Lemma u32_digits_Some radix acc s n :
  (0 < radix <= 10)%Z → u32_digits radix acc s = Some n →
  ∃ ds, s = numeral ds ∧ Forall (λ d, 0 <= d < radix)%Z ds ∧ n = digits_value radix acc ds.
Proof.
  intros Hr. revert acc. induction s as [|c s IH]; intros acc; simpl.
  - intros [= <-]. by exists [].
  - unfold to_digit. case_decide as Hc; [|done]. simpl. case_decide; [|done].
    intros (ds & -> & Hds & ->)%IH. exists (byte_of c - 48 :: ds)%Z. simpl. split_and!.
    + f_equal. unfold digit_char. replace (48 + (byte_of c - 48))%Z with (byte_of c) by lia.
      by rewrite char_of_byte_of.
    + by constructor.
    + done.
Qed.

Lemma u32_from_str_radix_numeral radix sign ds :
  (0 < radix <= 10)%Z → (sign = EmptyString ∨ sign = chr "+") → ds ≠ [] →
  Forall (λ d, 0 <= d < radix)%Z ds → (digits_value radix 0 ds < 2 ^ 32)%Z →
  u32_from_str_radix radix (sign +:+ numeral ds) = Some (digits_value radix 0 ds).
Proof.
  intros Hr Hsign Hne Hds Hlt. destruct ds as [|d ds]; [done|].
  assert (Hdig : u32_digits radix 0 (numeral (d :: ds)) = Some (digits_value radix 0 (d :: ds))).
  { rewrite u32_digits_numeral by done. by rewrite decide_True by (by right). }
  assert (Hd : digit_char d ≠ "+"%char).
  { apply Forall_inv in Hds. intros Heq%(f_equal byte_of). unfold digit_char in Heq.
    rewrite byte_of_char_of in Heq by (unfold u8_range; lia).
    change (byte_of "+") with 43%Z in Heq. lia. }
  destruct Hsign as [-> | ->]; simpl in Hdig |- *; [|exact Hdig].
  rewrite decide_False by done. exact Hdig.
Qed.

Lemma u32_from_str_radix_Some radix s n :
  (0 < radix <= 10)%Z → u32_from_str_radix radix s = Some n →
  ∃ sign ds, (sign = EmptyString ∨ sign = chr "+") ∧ ds ≠ [] ∧
    Forall (λ d, 0 <= d < radix)%Z ds ∧ s = sign +:+ numeral ds ∧
    n = digits_value radix 0 ds ∧ (n < 2 ^ 32)%Z.
Proof.
  intros Hr Hn.
  assert (Hpos : ∀ t, t ≠ EmptyString → u32_digits radix 0 t = Some n →
    ∃ ds, ds ≠ [] ∧ Forall (λ d, 0 <= d < radix)%Z ds ∧ t = numeral ds ∧
          n = digits_value radix 0 ds ∧ (n < 2 ^ 32)%Z).
  { intros t Ht Hd. pose proof Hd as Hd'.
    apply u32_digits_Some in Hd' as (ds & -> & Hds & ->); [|done].
    rewrite u32_digits_numeral in Hd by done. case_decide as Hc; [|done].
    assert (ds ≠ []) by (by intros ->). exists ds. naive_solver. }
  destruct s as [|c r]; [done|]. cbn [u32_from_str_radix] in Hn. case_decide as Hc.
  - subst c. destruct r as [|c r]; [done|].
    destruct (Hpos (String c r)) as (ds & ? & ? & Heq & ? & ?); [done|done|].
    exists (chr "+"), ds. rewrite Heq. split_and!; auto.
  - destruct (Hpos (String c r)) as (ds & ? & ? & Heq & ? & ?); [done|done|].
    exists EmptyString, ds. rewrite Heq. split_and!; auto.
Qed.

(** ** Trimming a line

    A tidy string starts and ends with a visible character, whatever is between. *)

Definition starts_graphic (s : string) : Prop :=
  match s with String c _ => graphic c | EmptyString => False end.

Fixpoint ends_graphic (s : string) : Prop :=
  match s with
  | EmptyString => False
  | String c EmptyString => graphic c
  | String _ s => ends_graphic s
  end.

Definition tidy (s : string) : Prop := starts_graphic s ∧ ends_graphic s.

#[export] Instance tidy_dec s : Decision (tidy s).
Proof.
  unfold tidy. apply and_dec; [destruct s; simpl; apply _|].
  induction s as [|c s IH]; simpl; [apply _|]. destruct s; [apply _|exact IH].
Defined.

Fixpoint has_graphic (s : string) : Prop :=
  match s with
  | EmptyString => False
  | String c s => graphic c ∨ has_graphic s
  end.

#[export] Instance has_graphic_dec s : Decision (has_graphic s).
Proof. induction s; simpl; apply _. Defined.

Lemma has_graphic_app s t : has_graphic (s +:+ t) ↔ has_graphic s ∨ has_graphic t.
Proof. induction s as [|c s IH]; simpl; [tauto|]. rewrite IH. tauto. Qed.

Lemma ends_has_graphic s : ends_graphic s → has_graphic s.
Proof.
  induction s as [|c s IH]; simpl; [done|]. destruct s; [by left|]. right. by apply IH.
Qed.

Lemma ends_graphic_app s t : ends_graphic t → ends_graphic (s +:+ t).
Proof.
  intros Ht. induction s as [|c s IH]; simpl; [done|].
  destruct (s +:+ t) eqn:Heq; [|done]. by destruct s, t.
Qed.

Lemma ws_seq_invisible e : e ∈ ws_seqs → ¬ has_graphic e.
Proof.
  intros He. assert (Hall : Forall (λ e, ¬ has_graphic e) ws_seqs).
  { apply (bool_decide_unpack _). by vm_compute. }
  rewrite Forall_forall in Hall. auto.
Qed.

Lemma strip_first_Some ps s r : strip_first ps s = Some r → ∃ e, e ∈ ps ∧ s = e +:+ r.
Proof.
  induction ps as [|p ps IH]; simpl; [done|]. destruct (strip_prefix p s) as [r'|] eqn:Hp.
  - intros [= <-]. apply strip_prefix_Some in Hp. exists p. split; [by left|done].
  - intros (e & He & ->)%IH. exists e. split; [by right|done].
Qed.

Lemma has_graphic_not_ws s : has_graphic s → all_ws s = false.
Proof.
  remember (String.length s) as n eqn:Hn. revert s Hn.
  induction (lt_wf n) as [n _ IH]. intros s -> Hg. unfold all_ws. rewrite trim_start_step.
  destruct (strip_first ws_seqs s) as [r|] eqn:Hr; [|by destruct s].
  pose proof (strip_first_shorter ws_seqs s r ws_seq_length Hr) as Hlt.
  apply strip_first_Some in Hr as (e & He & ->). apply has_graphic_app in Hg as [Hg|Hg].
  - by apply ws_seq_invisible in Hg.
  - by apply (IH _ Hlt r eq_refl Hg).
Qed.

Lemma trim_end_tidy s w : ws_string w → ends_graphic s → trim_end (s +:+ w) = s.
Proof.
  intros Hw. induction s as [|c s IH]; [done|]. intros Hs.
  assert (Hg : has_graphic ((String c s) +:+ w)).
  { apply has_graphic_app. left. by apply ends_has_graphic. }
  simpl String.append in *. cbn [trim_end]. rewrite (has_graphic_not_ws _ Hg).
  f_equal. destruct s as [|d s]; [|by apply IH]. simpl.
  destruct w as [|x w]; [done|]. cbn [trim_end]. by rewrite all_ws_ws.
Qed.

(** White space around a tidy string is what [trim] removes. *)
Lemma trim_tidy w1 s w2 : ws_string w1 → ws_string w2 → tidy s → trim (w1 +:+ s +:+ w2) = s.
Proof.
  intros H1 H2 [Hs He]. unfold trim. rewrite trim_start_ws by done.
  destruct s as [|c s]; [done|]. simpl String.append. rewrite trim_start_graphic by done.
  by apply (trim_end_tidy (String c s) w2).
Qed.

Lemma ws_string_one c : chr c ∈ ws_seqs → ws_string (chr c).
Proof. intros Hc. exists [chr c]. split; [by constructor|done]. Qed.

Lemma ws_tab : ws_string (chr tab).
Proof. apply ws_string_one. apply (bool_decide_unpack _). by vm_compute. Qed.

#[export] Hint Resolve ws_tab : pai_sho.
