(* ===== verification/Host.v ===== *)
(** * The host system

    What the command-line side of the program asks of the operating system, as
    a class over an abstract state of the machine: files, commands, users,
    the clock, the terminal, the daemon's socket.  [cmd] is the state, error
    and exit monad the commands are written in ([?] is its bind), and [wp]
    is the weakest precondition that ends of a command are reasoned with: one
    postcondition for a normal end and one for errors and exits.  [HostLaws]
    states the documented behaviour of the operations on files. *)

From S2P Require Import Prelude RustStr.

(** [std::process::Output]; the exit status is also what it prints as. *)
Record Output : Type := mkOutput {
  success : bool;
  stdout : bytes;
  stderr : bytes;
  status_text : string;
}.

(** [fs::remove_file], whose [NotFound] the code tells apart. *)
Inductive Removal : Type :=
| Removed
| NotFound
| NotRemoved (e : string).

(** The text of an [Err] is what the system says of it. *)
Class Host (H : Type) : Type := {
  is_root : H → bool;
  elevating : H → bool;
  current_exe : H → result string;
  args : H → list string;
  path_exists : string → H → bool;
  metadata_uid : string → H → option Z;
  getpwuid : Z → H → option string;
  getpwnam : string → H → option (Z * Z);
  clock : H → Z;
  create_dir_all : string → H → H * result unit;
  write_file : string → string → H → H * result unit;
  copy_file : string → string → H → H * result unit;
  set_permissions : string → Z → H → H * result unit;
  chown : string → Z → Z → H → H * result unit;
  rename : string → string → H → H * result unit;
  remove : string → H → H * Removal;
  command : string → list string → H → H * result Output;
  sudo : list string → H → H * result (option Z);
  env_var : string → H → option string;
  unix_listen : string → H → H * result N;
  connect : string → H → H * result N;
  set_read_timeout : N → Z → H → H * result unit;
  stream_write : N → string → H → H * result unit;
  stream_read_line : N → H → H * result string;
  sleep : Z → H → H;
  println : string → H → H;
  eprintln : string → H → H;
}.

(** ** The monad *)

Inductive outcome (A : Type) : Type :=
| Done (a : A)
| Failed (e : string)
| Exited (code : Z).
Arguments Done {A} a.
Arguments Failed {A} e.
Arguments Exited {A} code.

Definition cmd (H A : Type) : Type := H → H * outcome A.

#[export] Instance cmd_ret {H} : MRet (cmd H) := λ A a h, (h, Done a).

#[export] Instance cmd_bind {H} : MBind (cmd H) := λ A B k c h,
  match c h with
  | (h, Done a) => k a h
  | (h, Failed e) => (h, Failed e)
  | (h, Exited code) => (h, Exited code)
  end.

Definition bail {H A} (e : string) : cmd H A := λ h, (h, Failed e).

Definition exit {H A} (code : Z) : cmd H A := λ h, (h, Exited code).

(** Read the state. *)
Definition gets {H A} (f : H → A) : cmd H A := λ h, (h, Done (f h)).

Definition does {H} (f : H → H) : cmd H unit := λ h, (f h, Done tt).

(** [?] on a result, and on an operation with [.context(msg)]. *)
Definition try_result {H A} (r : result A) : cmd H A := λ h,
  match r with Ok a => (h, Done a) | Err e => (h, Failed e) end.

Definition with_context {H A} (msg : string) (f : H → H * result A) : cmd H A := λ h,
  match f h with
  | (h, Ok a) => (h, Done a)
  | (h, Err _) => (h, Failed msg)
  end.

(** [?] on an operation as it is. *)
Definition try_io {H A} (f : H → H * result A) : cmd H A := λ h,
  match f h with
  | (h, Ok a) => (h, Done a)
  | (h, Err e) => (h, Failed e)
  end.

(** [if let Err(e) = c { handler }]. *)
Definition on_error {H} (c : cmd H unit) (handler : string → cmd H unit) : cmd H unit := λ h,
  match c h with
  | (h, Failed e) => handler e h
  | r => r
  end.

(** [let _ = c]. *)
Definition ignore {H} (c : cmd H unit) : cmd H unit := on_error c (λ _, mret tt).

(** ** Weakest preconditions *)

Definition wp {H A} (c : cmd H A) (Q : A → H → Prop) (E : H → Prop) (h : H) : Prop :=
  match c h with
  | (h', Done a) => Q a h'
  | (h', Failed _) | (h', Exited _) => E h'
  end.

Section wp.
Context {H A B : Type}.
Implicit Types (c : cmd H A) (E : H → Prop) (h : H).

Lemma wp_ret (a : A) Q E h : wp (mret a) Q E h ↔ Q a h.
Proof. done. Qed.

Lemma wp_bind c (k : A → cmd H B) Q E h :
  wp (c ≫= k) Q E h ↔ wp c (λ a, wp (k a) Q E) E h.
Proof.
  unfold wp. change ((c ≫= k) h) with (cmd_bind A B k c h). unfold cmd_bind.
  by destruct (c h) as [h' []].
Qed.

Lemma wp_mono c (Q Q' : A → H → Prop) E E' h :
  wp c Q E h → (∀ a h', Q a h' → Q' a h') → (∀ h', E h' → E' h') → wp c Q' E' h.
Proof. unfold wp. destruct (c h) as [h' []]; auto. Qed.

Lemma wp_and c (Q Q' : A → H → Prop) E E' h :
  wp c Q E h → wp c Q' E' h → wp c (λ a h', Q a h' ∧ Q' a h') (λ h', E h' ∧ E' h') h.
Proof. unfold wp. destruct (c h) as [h' []]; auto. Qed.

Lemma wp_any c h : wp c (λ _ _, True) (λ _, True) h.
Proof. unfold wp. by destruct (c h) as [h' []]. Qed.

Lemma wp_bail e (Q : A → H → Prop) E h : wp (bail e) Q E h ↔ E h.
Proof. done. Qed.

Lemma wp_exit code (Q : A → H → Prop) E h : wp (exit code) Q E h ↔ E h.
Proof. done. Qed.

Lemma wp_gets (f : H → A) Q E h : wp (gets f) Q E h ↔ Q (f h) h.
Proof. done. Qed.

Lemma wp_does (f : H → H) Q E h : wp (does f) Q E h ↔ Q tt (f h).
Proof. done. Qed.

Lemma wp_try (r : result A) Q E h :
  wp (try_result r) Q E h ↔ match r with Ok a => Q a h | Err _ => E h end.
Proof. by destruct r. Qed.

Lemma wp_context msg (f : H → H * result A) Q E h :
  wp (with_context msg f) Q E h ↔ match f h with (h', Ok a) => Q a h' | (h', Err _) => E h' end.
Proof. unfold wp, with_context. by destruct (f h) as [h' []]. Qed.

Lemma wp_io (f : H → H * result A) Q E h :
  wp (try_io f) Q E h ↔ match f h with (h', Ok a) => Q a h' | (h', Err _) => E h' end.
Proof. unfold wp, try_io. by destruct (f h) as [h' []]. Qed.

End wp.

Lemma wp_on_error {H} (c : cmd H unit) k (Q : unit → H → Prop) (E : H → Prop) h :
  wp c Q (λ h', E h' ∧ ∀ e, wp (k e) Q E h') h → wp (on_error c k) Q E h.
Proof. unfold wp, on_error. destruct (c h) as [h' []]; naive_solver. Qed.

Lemma wp_ignore {H} (c : cmd H unit) (Q : unit → H → Prop) (E : H → Prop) h :
  wp c Q (λ h', E h' ∧ Q tt h') h → wp (ignore c) Q E h.
Proof. intros Hc. apply wp_on_error. refine (wp_mono _ _ _ _ _ _ Hc _ _); naive_solver. Qed.

#[export] Hint Rewrite @wp_ret @wp_bind @wp_bail @wp_exit @wp_gets @wp_does @wp_try
  @wp_context @wp_io : wp.

(** One pass of the rules over the goal. *)
Ltac wp_simpl := repeat first
  [ rewrite wp_bind | rewrite wp_ret | rewrite wp_bail | rewrite wp_exit | rewrite wp_gets
  | rewrite wp_does | rewrite wp_try | rewrite wp_context | rewrite wp_io ].

(** ** Documented behaviour of files

    [files] is a view of the state: what a path holds, with its mode and
    owner, as far as this process and the commands it runs change it: what the
    service itself writes once launchd has started it is another process's
    doing and is not in view.  What [sudo] runs may change anything, and no law
    here says otherwise.  An operation on a path changes nothing else; one
    that fails may have written part of the file it writes, and otherwise
    changes nothing.  Of a mode the system keeps the twelve bits it has.  The process's own path does not change. *)

Record Entry : Type := mkEntry { contents : string; mode : Z; owner : Z * Z }.

Class HostLaws (H : Type) `{!Host H} : Type := {
  files : H → gmap string Entry;
  exe_law : ∀ h h', current_exe h = current_exe h';
  create_dir_law : ∀ p h, files (create_dir_all p h).1 = files h;
  write_law : ∀ p s h, match write_file p s h with
    | (h', r) => (∀ q, q ≠ p → files h' !! q = files h !! q) ∧
                 (r = Ok tt → contents <$> files h' !! p = Some s)
    end;
  copy_law : ∀ p q h, match copy_file p q h with
    | (h', r) => (∀ x, x ≠ q → files h' !! x = files h !! x) ∧
                 (r = Ok tt → p ≠ q → ∃ e, files h !! p = Some e ∧
                                           contents <$> files h' !! q = Some (contents e))
    end;
  permissions_law : ∀ p m h, files (set_permissions p m h).1 =
    match (set_permissions p m h).2 with
    | Ok _ => alter (λ e, mkEntry (contents e) (Z.land m 4095) (owner e)) p (files h)
    | Err _ => files h
    end;
  chown_law : ∀ p u g h, files (chown p u g h).1 =
    match (chown p u g h).2 with
    | Ok _ => alter (λ e, mkEntry (contents e) (mode e) (u, g)) p (files h)
    | Err _ => files h
    end;
  rename_law : ∀ p q h, match rename p q h with
    | (h', Ok _) => ∃ e, files h !! p = Some e ∧ files h' = <[q := e]> (delete p (files h))
    | (h', Err _) => files h' = files h
    end;
  remove_law : ∀ p h, match remove p h with
    | (h', Removed) => files h' = delete p (files h)
    | (h', NotFound) => files h !! p = None ∧ files h' = files h
    | (h', NotRemoved _) => files h' = files h
    end;
  command_law : ∀ c l h, files (command c l h).1 = files h;
  unix_listen_law : ∀ p h, match unix_listen p h with
    | (h', Ok _) => files h !! p = None ∧ ∃ e, files h' = <[p := e]> (files h)
    | (h', Err _) => files h' = files h
    end;
  connect_law : ∀ p h, files (connect p h).1 = files h;
  timeout_law : ∀ c d h, files (set_read_timeout c d h).1 = files h;
  stream_write_law : ∀ c s h, files (stream_write c s h).1 = files h;
  stream_read_law : ∀ c h, files (stream_read_line c h).1 = files h;
  sleep_law : ∀ d h, files (sleep d h) = files h;
  println_law : ∀ s h, files (println s h) = files h;
  eprintln_law : ∀ s h, files (eprintln s h) = files h;
}.

#[export] Hint Rewrite @create_dir_law @command_law @connect_law @timeout_law
  @stream_write_law @stream_read_law @sleep_law
  @println_law @eprintln_law : host.
