(* ===== verification/Tun.v ===== *)
(** * Opening the TUN device ([open_tun], [run] and [set_nonblocking] in
    [src/src/netstack.rs])

    On Linux the daemon attaches to a device that is there, by name; on macOS it
    makes a [utun], and gives it its address and route with [ifconfig] and
    [route].  The system calls are a class over the state of the machine, next
    to [Host], whose [command] runs the two programs.  [SyscallLaws] is what the
    code relies on: which calls open a file descriptor, and that none of those
    it makes closes one. *)

From S2P Require Import Prelude RustStr Text Surface Host Netstack.

(** System calls: the result, negative on an error, and what they fill in. *)
Class Syscalls (H : Type) : Type := {
  sys_open_tun : H → H * Z;
  sys_tunsetiff : Z → bytes → H → H * Z;
  sys_socket_control : H → H * Z;
  (** [CTLIOCGINFO] for a name, and the id it finds. *)
  sys_ctliocginfo : Z → string → H → H * (Z * Z);
  (** [connect] to a control by id and unit. *)
  sys_connect_ctl : Z → Z → Z → H → H * Z;
  (** [UTUN_OPT_IFNAME]: the buffer and the length it says. *)
  sys_utun_ifname : Z → H → H * (Z * bytes * Z);
  sys_getfl : Z → H → H * Z;
  sys_setfl : Z → Z → H → H * Z;
  errno : H → string;
}.

Module Tun.

Section tun.
Context {H : Type} `{!Host H} `{!Syscalls H}.

(** [ensure!] of what a system call returned; the message is built after it. *)
Definition ensure (ok : bool) (msg : H → string) : cmd H unit :=
  h ← gets id; if ok then mret tt else bail (msg h).

Definition call {A} (f : H → H * A) : cmd H A := λ h, let '(h, a) := f h in (h, Done a).

Definition O_NONBLOCK (os : Surface.Os) : Z :=
  match os with Surface.Macos => 4 | _ => 2048 end.

Definition set_nonblocking (os : Surface.Os) (fd : Z) : cmd H unit :=
  fl ← call (sys_getfl fd);
  _ ← call (sys_setfl fd (Z.lor fl (O_NONBLOCK os)));
  mret tt.

Definition run (c : string) (l : list string) : cmd H unit :=
  out ← with_context ("failed to run " +:+ c) (command c l);
  if success out then mret tt
  else bail (c +:+ " " +:+ String.concat " " l +:+ ": " +:+ trim (from_utf8_lossy (stderr out))).

Definition open_tun_linux (name : string) : cmd H Z :=
  fd ← call sys_open_tun;
  _ ← ensure (bool_decide (0 <= fd)%Z) (λ h, "open /dev/net/tun failed (errno " +:+ errno h +:+ ")");
  let nb := str_bytes name in
  _ ← ensure (bool_decide (length nb < 16)) (λ _, "tun name too long");
  r ← call (sys_tunsetiff fd (NetStack.ifreq nb));
  _ ← ensure (bool_decide (0 <= r)%Z)
        (λ h, "TUNSETIFF " +:+ name +:+ " failed (errno " +:+ errno h +:+
              "); is the tun pre-created and owned by this user?");
  _ ← set_nonblocking Surface.Linux fd;
  mret fd.

(** [str::from_utf8(..).unwrap_or("utun")]: well-formed text is what the lossy
    reading leaves as it is. *)
Definition utf8_or (d : bytes) (other : string) : string :=
  let s := from_utf8_lossy d in
  if decide (str_bytes s = d) then s else other.

Definition UTUN_CONTROL : string := "com.apple.net.utun_control".

(** The name buffer has 32 bytes: a length beyond it makes the slice panic,
    [None].  The length counts the terminating zero. *)
Definition ifname (buf : bytes) (len : Z) : option string :=
  let n := Z.to_nat (len - 1) in
  if decide (n <= 32) then Some (utf8_or (take n buf) "utun") else None.

Definition PANIC : Z := 101.

Definition open_tun_macos : cmd H Z :=
  fd ← call sys_socket_control;
  _ ← ensure (bool_decide (0 <= fd)%Z)
        (λ h, "utun socket failed (errno " +:+ errno h +:+ "); need root");
  '(r, id) ← call (sys_ctliocginfo fd UTUN_CONTROL);
  _ ← ensure (bool_decide (0 <= r)%Z) (λ h, "CTLIOCGINFO failed (errno " +:+ errno h +:+ ")");
  r ← call (sys_connect_ctl fd id 0);
  _ ← ensure (bool_decide (0 <= r)%Z)
        (λ h, "utun connect failed (errno " +:+ errno h +:+ "); need root");
  '(r, buf, len) ← call (sys_utun_ifname fd);
  _ ← ensure (bool_decide (0 <= r)%Z) (λ h, "UTUN_OPT_IFNAME failed (errno " +:+ errno h +:+ ")");
  match ifname buf len with
  | None => exit PANIC
  | Some name =>
      _ ← run "ifconfig" [name; "10.99.0.1"; "10.99.0.2"; "up"];
      _ ← run "route" ["-q"; "-n"; "add"; "-net"; "10.99.0.0/16"; "-interface"; name];
      _ ← set_nonblocking Surface.Macos fd;
      mret fd
  end.

Definition open_tun (os : Surface.Os) (name : string) : cmd H Z :=
  match os with
  | Surface.Macos => open_tun_macos
  | _ => open_tun_linux name
  end.

End tun.
End Tun.

(** ** What the calls do to the process *)

(** [fds]: the descriptors that are open; [flags]: their status flags.  The code
    does not look at what its two [fcntl]s return: on a descriptor that is open
    [F_GETFL] reads the flags and [F_SETFL] sets them, as the errors POSIX gives
    for them are those of a descriptor that is not. *)
Class SyscallLaws (H : Type) `{!Host H} `{!Syscalls H} : Type := {
  fds : H → gset Z;
  flags : Z → H → Z;
  open_tun_law : ∀ h, let '(h', fd) := sys_open_tun h in
    (0 <= fd)%Z → fds h' = {[fd]} ∪ fds h;
  open_tun_fail : ∀ h, ((sys_open_tun h).2 < 0)%Z → fds (sys_open_tun h).1 = fds h;
  socket_law : ∀ h, let '(h', fd) := sys_socket_control h in
    (0 <= fd)%Z → fds h' = {[fd]} ∪ fds h;
  socket_fail : ∀ h, ((sys_socket_control h).2 < 0)%Z → fds (sys_socket_control h).1 = fds h;
  tunsetiff_law : ∀ fd d h, fds (sys_tunsetiff fd d h).1 = fds h;
  ctliocginfo_law : ∀ fd n h, fds (sys_ctliocginfo fd n h).1 = fds h;
  connect_ctl_law : ∀ fd i u h, fds (sys_connect_ctl fd i u h).1 = fds h;
  ifname_law : ∀ fd h, fds (sys_utun_ifname fd h).1 = fds h;
  getfl_law : ∀ fd h, fds (sys_getfl fd h).1 = fds h ∧ flags fd (sys_getfl fd h).1 = flags fd h ∧
                      (fd ∈ fds h → (sys_getfl fd h).2 = flags fd h);
  setfl_law : ∀ fd v h, fds (sys_setfl fd v h).1 = fds h ∧
                        (fd ∈ fds h → flags fd (sys_setfl fd v h).1 = v);
  run_law : ∀ c l h, fds (command c l h).1 = fds h;
}.

(** ** Lemmas *)
Section tun_lemmas.
Import Tun.
Context {H : Type} `{!Host H} `{!Syscalls H} `{!SyscallLaws H}.
Implicit Types (h : H) (X : gset Z).

Lemma wp_call {A} (f : H → H * A) (Q : A → H → Prop) E h :
  wp (call f) Q E h ↔ Q (f h).2 (f h).1.
Proof. unfold wp, call. by destruct (f h). Qed.

Lemma wp_ensure ok msg (Q : unit → H → Prop) (E : H → Prop) h :
  E h → (ok = true → Q tt h) → wp (ensure ok msg) Q E h.
Proof. intros HE HQ. unfold ensure. wp_simpl. destruct ok; [by apply HQ|done]. Qed.

Lemma wp_run c l X (Q : unit → H → Prop) h :
  fds h = X → (∀ h', fds h' = X → Q tt h') → wp (run c l) Q (λ h', fds h' = X) h.
Proof.
  intros Hh HQ. unfold run. wp_simpl. pose proof (run_law c l h) as Hl.
  destruct (command c l h) as [h' [out|]]; simpl in Hl; [|by rewrite Hl].
  destruct (success out); [by apply HQ; rewrite Hl|]. wp_simpl. by rewrite Hl.
Qed.

Lemma wp_set_nonblocking os fd X (Q : unit → H → Prop) E h :
  fds h = X → fd ∈ X →
  (∀ h', fds h' = X → flags fd h' = Z.lor (flags fd h) (O_NONBLOCK os) → Q tt h') →
  wp (set_nonblocking os fd) Q E h.
Proof.
  intros Hh Hin HQ. unfold set_nonblocking. wp_simpl. rewrite wp_call. wp_simpl. rewrite wp_call.
  wp_simpl. pose proof (getfl_law fd h) as (H1 & H2 & H3).
  destruct (sys_getfl fd h) as [h1 fl]. simpl in *.
  pose proof (setfl_law fd (Z.lor fl (O_NONBLOCK os)) h1) as [H4 H5].
  apply HQ; [by rewrite H4, H1|]. rewrite H5 by (rewrite H1, Hh; done). f_equal. apply H3. by rewrite Hh.
Qed.

Lemma lor_land_absorb a b : Z.land (Z.lor a b) b = b.
Proof.
  apply Z.bits_inj'. intros n _. rewrite Z.land_spec, Z.lor_spec.
  destruct (Z.testbit a n), (Z.testbit b n); done.
Qed.

(** Once the device is open, it stays open whatever comes next. *)
Definition opened (os : Surface.Os) (fd : Z) X (r : Z) (h' : H) : Prop :=
  r = fd ∧ fds h' = X ∧ Z.land (flags fd h') (O_NONBLOCK os) = O_NONBLOCK os.

Lemma wp_opened os fd X h :
  fds h = X → fd ∈ X →
  wp (_ ← set_nonblocking os fd; mret fd) (opened os fd X) (λ h', fds h' = X) h.
Proof.
  intros Hh Hin. wp_simpl. apply (wp_set_nonblocking os fd X); [done|done|].
  intros h' Hh' Hf. wp_simpl. split_and!; [done|done|]. rewrite Hf. apply lor_land_absorb.
Qed.

Lemma wp_open_linux name h fd X :
  (sys_open_tun h).2 = fd → (0 <= fd)%Z → X = {[fd]} ∪ fds h →
  wp (open_tun_linux name) (opened Surface.Linux fd X) (λ h', fds h' = X) h.
Proof.
  intros Hfd Hpos ->. unfold open_tun_linux. wp_simpl. rewrite wp_call.
  pose proof (open_tun_law h) as Hl. destruct (sys_open_tun h) as [h1 fd1]. simpl in *. subst fd1.
  specialize (Hl Hpos). wp_simpl.
  apply wp_ensure; [done|intros _]. wp_simpl. apply wp_ensure; [done|intros _]. wp_simpl.
  rewrite wp_call. pose proof (tunsetiff_law fd (NetStack.ifreq (str_bytes name)) h1) as Ht.
  destruct (sys_tunsetiff _ _ h1) as [h2 r]. simpl in *. wp_simpl.
  apply wp_ensure; [congruence|intros _]. apply wp_opened; [congruence|set_solver].
Qed.

Lemma wp_open_macos h fd X :
  (sys_socket_control h).2 = fd → (0 <= fd)%Z → X = {[fd]} ∪ fds h →
  wp open_tun_macos (opened Surface.Macos fd X) (λ h', fds h' = X) h.
Proof.
  intros Hfd Hpos ->. unfold open_tun_macos. wp_simpl. rewrite wp_call.
  pose proof (socket_law h) as Hl. destruct (sys_socket_control h) as [h1 fd1]. simpl in *. subst fd1.
  specialize (Hl Hpos). wp_simpl. apply wp_ensure; [done|intros _]. wp_simpl. rewrite wp_call.
  pose proof (ctliocginfo_law fd UTUN_CONTROL h1) as H2.
  destruct (sys_ctliocginfo _ _ h1) as [h2 [r2 id]]. simpl in *. wp_simpl.
  apply wp_ensure; [congruence|intros _]. wp_simpl. rewrite wp_call.
  pose proof (connect_ctl_law fd id 0 h2) as H3. destruct (sys_connect_ctl _ _ _ h2) as [h3 r3].
  simpl in *. wp_simpl. apply wp_ensure; [congruence|intros _]. wp_simpl. rewrite wp_call.
  pose proof (ifname_law fd h3) as H4. destruct (sys_utun_ifname fd h3) as [h4 [[r4 buf] len]].
  simpl in *. wp_simpl. apply wp_ensure; [congruence|intros _].
  destruct (ifname buf len) as [name|]; [|wp_simpl; congruence]. wp_simpl.
  apply wp_run; [congruence|]. intros h5 H5. wp_simpl.
  apply wp_run; [congruence|]. intros h6 H6. apply wp_opened; [congruence|set_solver].
Qed.

End tun_lemmas.

(** ** Properties *)
Section tun_properties.
Import Tun.
Context {H : Type} `{!Host H} `{!Syscalls H} `{!SyscallLaws H}.

(** The first call of [open_tun]. *)
Definition first_call (os : Surface.Os) (h : H) : H * Z :=
  match os with
  | Surface.Macos => sys_socket_control h
  | _ => sys_open_tun h
  end.

(** C35: what opening the device leaves.  If the device cannot be opened, no
    descriptor is.  If it can, its descriptor is the one that is returned and
    does not block; but when any later step fails (a name of 16 bytes, the
    attachment, [ifconfig], [route]), the error is returned and the descriptor
    is still open: nothing closes it, so a daemon that goes on without the
    device keeps it. *)
Theorem open_tun_leaves (os : Surface.Os) (name : string) (h : H) :
  let fd := (first_call os h).2 in
  let '(h', r) := open_tun os name h in
  if decide (0 <= fd)%Z
  then fds h' = {[fd]} ∪ fds h ∧
       match r with
       | Done fd' => fd' = fd ∧ Z.land (flags fd h') (O_NONBLOCK os) = O_NONBLOCK os
       | _ => True
       end
  else fds h' = fds h ∧ ∃ e, r = Failed e.
Proof.
  intros fd. case_decide as Hfd.
  - assert (Hwp : wp (open_tun os name) (opened os fd ({[fd]} ∪ fds h))
                     (λ h', fds h' = {[fd]} ∪ fds h) h).
    { destruct os; [by apply wp_open_linux|by apply wp_open_macos|by apply wp_open_linux]. }
    unfold wp in Hwp. destruct (open_tun os name h) as [h' [fd'| |]]; [|by split..].
    by destruct Hwp as (-> & ? & ?).
  - assert (Hno : bool_decide (0 <= fd)%Z = false) by by apply bool_decide_eq_false.
    destruct os; unfold fd, first_call in *; unfold open_tun, open_tun_linux, open_tun_macos;
      unfold mbind, cmd_bind, call, ensure, gets, bail.
    + pose proof (open_tun_fail h) as Hl. destruct (sys_open_tun h) as [h1 fd1]. simpl in *.
      rewrite Hno. split; [apply Hl; lia|by eexists].
    + pose proof (socket_fail h) as Hl. destruct (sys_socket_control h) as [h1 fd1]. simpl in *.
      rewrite Hno. split; [apply Hl; lia|by eexists].
    + pose proof (open_tun_fail h) as Hl. destruct (sys_open_tun h) as [h1 fd1]. simpl in *.
      rewrite Hno. split; [apply Hl; lia|by eexists].
Qed.

End tun_properties.

(** ** Witness *)
Module Device.

(** A process with descriptors 0 to 2, on a machine where [route] fails. *)
Record Machine : Type := mkMachine { m_fds : gset Z; m_flags : gmap Z Z }.

#[export] Instance machine_host : Host Machine := {|
  is_root _ := true;
  elevating _ := false;
  current_exe _ := Err "unsupported";
  args _ := [];
  path_exists _ _ := false;
  metadata_uid _ _ := None;
  getpwuid _ _ := None;
  getpwnam _ _ := None;
  clock _ := 0%Z;
  create_dir_all _ w := (w, Err "unsupported");
  write_file _ _ w := (w, Err "unsupported");
  copy_file _ _ w := (w, Err "unsupported");
  set_permissions _ _ w := (w, Err "unsupported");
  chown _ _ _ w := (w, Err "unsupported");
  rename _ _ w := (w, Err "unsupported");
  remove _ w := (w, NotFound);
  Host.command c _ w := (w, Ok (mkOutput (bool_decide (c = "ifconfig"%string)) []
                                         (str_bytes "route: bad address") "exit status: 1"));
  sudo _ w := (w, Err "unsupported");
  env_var _ _ := None;
  unix_listen _ w := (w, Err "unsupported");
  connect _ w := (w, Err "unsupported");
  set_read_timeout _ _ w := (w, Err "unsupported");
  stream_write _ _ w := (w, Err "unsupported");
  stream_read_line _ w := (w, Err "unsupported");
  sleep _ w := w;
  println _ w := w;
  eprintln _ w := w;
|}.

Definition fresh_fd (X : gset Z) : Z := Z.of_nat (size X).

Definition open_next (w : Machine) : Machine * Z :=
  let fd := fresh_fd (m_fds w) in
  (mkMachine ({[fd]} ∪ m_fds w) (<[fd := 2%Z]> (m_flags w)), fd).

#[export] Instance machine_calls : Syscalls Machine := {|
  sys_open_tun := open_next;
  sys_tunsetiff _ _ w := (w, 0%Z);
  sys_socket_control := open_next;
  sys_ctliocginfo _ _ w := (w, (0, 3)%Z);
  sys_connect_ctl _ _ _ w := (w, 0%Z);
  sys_utun_ifname _ w := (w, (0%Z, str_bytes "utun4" ++ replicate 27 0%Z, 6%Z));
  sys_getfl fd w := (w, default 0%Z (m_flags w !! fd));
  sys_setfl fd v w := (mkMachine (m_fds w) (<[fd := v]> (m_flags w)), 0%Z);
  errno _ := "0";
|}.

#[export] Instance machine_laws : SyscallLaws Machine.
Proof.
  refine {| fds := m_fds; flags fd w := default 0%Z (m_flags w !! fd) |}; try done.
  - intros h. simpl. unfold fresh_fd. lia.
  - intros h. simpl. unfold fresh_fd. lia.
  - intros fd v h. simpl. split; [done|]. intros _. by rewrite lookup_insert_eq.
Defined.

End Device.

Section tun_witnesses.
Import Tun Device.

Lemma open_tun_leaves_witness :
  let w := mkMachine {[0; 1; 2]}%Z ∅ in
  fds (open_tun Surface.Macos "tun0" w).1 = ({[3]} ∪ {[0; 1; 2]} : gset Z)%Z ∧
  (open_tun Surface.Macos "tun0" w).2 =
    Failed "route -q -n add -net 10.99.0.0/16 -interface utun4: route: bad address".
Proof.
  intros w. pose proof (open_tun_leaves Surface.Macos "tun0" w) as Hl. cbv zeta in Hl.
  destruct (open_tun Surface.Macos "tun0" w) as [h' r] eqn:Ho.
  rewrite decide_True in Hl by (by vm_compute). destruct Hl as [Hl _]. split; [exact Hl|].
  apply (f_equal snd) in Ho. vm_compute in Ho. by symmetry.
Defined.

End tun_witnesses.
