(* ===== verification/Stack.v ===== *)
(** * The tasks of the userspace stack ([src/src/netstack.rs])

    [Netstack.v] is what the daemon sees of the stack: its names and listeners.
    Behind it each listener is a task that binds, accepts, and hands what it
    accepts to a channel the daemon reads, and the in-stack resolver is another.
    [Stack] is that, one step of a task at a time; what [tokio-smoltcp] answers
    is the input of a step.  Forgetting the tasks gives the daemon's view, which
    is where the two differ: a task that ended stays in the map. *)

From S2P Require Import Prelude RustStr Surface Host Resolver Netstack Tun.

Module Stack.
Import Resolver.

(** A key of [listeners]. *)
Abbreviation Key := (Ipv4Addr * Z)%type.

(** A task before its [tcp_bind] returned, in its loop, or past it. *)
Inductive Task : Type := Binding | Accepting | Ended.

#[export] Instance task_eq_dec : EqDecision Task.
Proof. solve_decision. Defined.

Section stack.
Context {Stream From : Type}.

Record Accept : Type := mkAccept { acc_ip : Ipv4Addr; acc_port : Z; acc_stream : Stream }.

(** The receiver of the channel may be gone. *)
Record Stack : Type := mkStack {
  names : gmap string Ipv4Addr;
  listeners : gmap Key Task;
  queue : list Accept;
  receiving : bool;
}.

(** [spawn]'s handle. *)
Definition fresh_stack : Stack := mkStack ∅ ∅ [] true.

Definition with_names (x : gmap string Ipv4Addr) (s : Stack) : Stack :=
  mkStack x (listeners s) (queue s) (receiving s).
Definition with_listeners (x : gmap Key Task) (s : Stack) : Stack :=
  mkStack (names s) x (queue s) (receiving s).
Definition with_queue (x : list Accept) (s : Stack) : Stack :=
  mkStack (names s) (listeners s) x (receiving s).

(** ** The handle's operations *)

Definition add_surface (ip : Ipv4Addr) (name : option string) (s : Stack) : Stack :=
  match name with
  | Some name => with_names (<[name := ip]> (names s)) s
  | None => s
  end.

Definition remove_surface (ip : Ipv4Addr) (s : Stack) : Stack :=
  with_names (filter (λ p : string * Ipv4Addr, p.2 ≠ ip) (names s)) s.

Definition listen (ip : Ipv4Addr) (port : Z) (s : Stack) : Stack :=
  match listeners s !! (ip, port) with
  | Some _ => s
  | None => with_listeners (<[(ip, port) := Binding]> (listeners s)) s
  end.

(** The handle is taken out and its task aborted, wherever it is. *)
Definition unlisten (ip : Ipv4Addr) (port : Z) (s : Stack) : Stack :=
  with_listeners (delete (ip, port) (listeners s)) s.

(** ** The listener tasks *)

(** [tcp_bind] returns to the task of a key. *)
Definition bound (key : Key) (r : result unit) (s : Stack) : option Stack :=
  match listeners s !! key with
  | Some Binding =>
      let task := match r with Ok _ => Accepting | Err _ => Ended end in
      Some (with_listeners (<[key := task]> (listeners s)) s)
  | _ => None
  end.

(** [accept] returns: the stream is sent, unless nobody receives. *)
Definition accepted (key : Key) (r : result Stream) (s : Stack) : option Stack :=
  match listeners s !! key with
  | Some Accepting =>
      match r with
      | Ok stream =>
          if receiving s
          then Some (with_queue (queue s ++ [mkAccept key.1 key.2 stream]) s)
          else Some (with_listeners (<[key := Ended]> (listeners s)) s)
      | Err _ => Some (with_listeners (<[key := Ended]> (listeners s)) s)
      end
  | _ => None
  end.

(** [accept_rx.recv] in [run_netstack_accepts]. *)
Definition recv (s : Stack) : option (Accept * Stack) :=
  match queue s with
  | a :: rest => Some (a, with_queue rest s)
  | [] => None
  end.

(** Everything that can happen; [HangUp] drops the receiver. *)
Inductive Event : Type :=
| AddSurface (ip : Ipv4Addr) (name : option string)
| RemoveSurface (ip : Ipv4Addr)
| Listen (ip : Ipv4Addr) (port : Z)
| Unlisten (ip : Ipv4Addr) (port : Z)
| Bound (key : Key) (r : result unit)
| Accepted (key : Key) (r : result Stream)
| Recv
| HangUp.

(** A step that cannot happen leaves the stack as it is. *)
Definition step (s : Stack) (e : Event) : Stack :=
  match e with
  | AddSurface ip name => add_surface ip name s
  | RemoveSurface ip => remove_surface ip s
  | Listen ip port => listen ip port s
  | Unlisten ip port => unlisten ip port s
  | Bound key r => default s (bound key r s)
  | Accepted key r => default s (accepted key r s)
  | Recv => default s (snd <$> recv s)
  | HangUp => mkStack (names s) (listeners s) [] false
  end.

(** What the daemon sees. *)
Definition view (s : Stack) : NetStack.NetStack :=
  NetStack.mkNetStack (names s) (dom (listeners s)).

(** An operation of the handle, as the daemon makes it. *)
Definition view_step (n : NetStack.NetStack) (e : Event) : NetStack.NetStack :=
  match e with
  | AddSurface ip name => NetStack.add_surface ip name n
  | RemoveSurface ip => NetStack.remove_surface ip n
  | Listen ip port => NetStack.listen ip port n
  | Unlisten ip port => NetStack.unlisten ip port n
  | _ => n
  end.

(** ** What a run does to a key

    The events that begin a task for it, end its bind, and stop it. *)

Definition begins (key : Key) (s : Stack) (e : Event) : Prop :=
  e = Listen key.1 key.2 ∧ listeners s !! key = None.

Definition unlistens (key : Key) (s : Stack) (e : Event) : Prop := e = Unlisten key.1 key.2.

Definition binds (key : Key) (s : Stack) (e : Event) : Prop :=
  e = Bound key (Ok tt) ∧ listeners s !! key = Some Binding.

Definition ends_bind (key : Key) (s : Stack) (e : Event) : Prop :=
  unlistens key s e ∨ ∃ r, e = Bound key r.

Definition stops (key : Key) (s : Stack) (e : Event) : Prop :=
  unlistens key s e ∨ (∃ err, e = Accepted key (Err err)) ∨
  (receiving s = false ∧ ∃ x, e = Accepted key (Ok x)).

(** The connections a run accepts, and those it hands to the daemon. *)
Fixpoint arrivals (s : Stack) (es : list Event) : list Accept :=
  match es with
  | [] => []
  | e :: es =>
      match e with
      | Accepted key (Ok x) =>
          if decide (listeners s !! key = Some Accepting ∧ receiving s = true)
          then [mkAccept key.1 key.2 x] else []
      | _ => []
      end ++ arrivals (step s e) es
  end.

Fixpoint receipts (s : Stack) (es : list Event) : list Accept :=
  match es with
  | [] => []
  | e :: es =>
      match e with
      | Recv => option_list (head (queue s))
      | _ => []
      end ++ receipts (step s e) es
  end.

(** ** The resolver task

    After its bind, each datagram with the names there are when it arrives; it
    ends with the first receive that fails.  What is sent back: a reply is
    [None] when assembling it panicked. *)
Fixpoint resolver_loop (arrivals : list (result (bytes * From) * gmap string Ipv4Addr)) :
    list (option bytes * From) :=
  match arrivals with
  | [] => []
  | (Err _, _) :: _ => []
  | (Ok (datagram, from), names) :: rest =>
      match reply (take 1500 datagram) (λ label, names !! label) with
      | Some answer => (answer, from) :: resolver_loop rest
      | None => resolver_loop rest
      end
  end.

Definition resolver_task (bind : result unit)
    (arrivals : list (result (bytes * From) * gmap string Ipv4Addr)) :
    list (option bytes * From) :=
  match bind with
  | Ok _ => resolver_loop arrivals
  | Err _ => []
  end.

End stack.
Arguments Accept : clear implicits.
Arguments Stack : clear implicits.
Arguments Event : clear implicits.

(** ** Bringing it up *)
Section spawn.
Context {H : Type} `{!Host H} `{!Syscalls H} {Stream : Type}.

(** [AsyncCapture::new] on the descriptor. *)
Variable async_capture : Z → H → H * result unit.

Definition spawn (os : Surface.Os) (tun_name : string) : cmd H (Stack Stream) :=
  fd ← Tun.open_tun os tun_name;
  _ ← with_context "failed to create tun async device" (async_capture fd);
  mret fresh_stack.

End spawn.
End Stack.

(** ** Lemmas *)
Section stack_lemmas.
Import Stack.
Context {Stream : Type}.
Implicit Types (s : Stack Stream) (e : Event Stream) (key : Key).

Lemma dom_known key t s :
  is_Some (listeners s !! key) → dom (<[key := t]> (listeners s)) = dom (listeners s).
Proof. intros Hk. by apply dom_insert_lookup_L. Qed.

Lemma listen_view ip port s : view (listen ip port s) = NetStack.listen ip port (view s).
Proof.
  unfold listen, NetStack.listen. simpl. destruct (listeners s !! (ip, port)) as [t|] eqn:Ht.
  - rewrite decide_True; [done|]. apply elem_of_dom. by exists t.
  - rewrite decide_False by (by apply not_elem_of_dom). unfold view. simpl. by rewrite dom_insert_L.
Qed.

Lemma unlisten_view ip port s : view (unlisten ip port s) = NetStack.unlisten ip port (view s).
Proof. unfold view, NetStack.unlisten. simpl. by rewrite dom_delete_L. Qed.

Lemma step_view s e : view (step s e) = view_step (view s) e.
Proof.
  destruct e as [ip name|ip|ip port|ip port|key r|key r| |]; simpl.
  - by destruct name.
  - done.
  - apply listen_view.
  - apply unlisten_view.
  - unfold bound. destruct (listeners s !! key) as [[]|] eqn:Hk; try done.
    unfold view. simpl. by rewrite dom_known.
  - unfold accepted. destruct (listeners s !! key) as [[]|] eqn:Hk; try done.
    destruct r; [destruct (receiving s)|]; try done; unfold view; simpl; by rewrite dom_known.
  - unfold recv. by destruct (queue s).
  - done.
Qed.

(** The task of a key after a step. *)
Definition task_after key s e (t : option Task) : option Task :=
  match e with
  | Listen ip port =>
      if decide (key = (ip, port)) then match t with Some t => Some t | None => Some Binding end else t
  | Unlisten ip port => if decide (key = (ip, port)) then None else t
  | Bound k r =>
      if decide (key = k)
      then match t, r with
           | Some Binding, Ok _ => Some Accepting
           | Some Binding, Err _ => Some Ended
           | t, _ => t
           end
      else t
  | Accepted k r =>
      if decide (key = k)
      then match t, r with
           | Some Accepting, Ok _ => if receiving s then Some Accepting else Some Ended
           | Some Accepting, Err _ => Some Ended
           | t, _ => t
           end
      else t
  | _ => t
  end.

Lemma step_task key s e : listeners (step s e) !! key = task_after key s e (listeners s !! key).
Proof.
  destruct e as [ip name|ip|ip port|ip port|k r|k r| |]; cbn [step task_after].
  - by destruct name.
  - done.
  - unfold listen. destruct (listeners s !! (ip, port)) eqn:Hl; case_decide; subst; simpl; rewrite ?Hl;
      rewrite ?lookup_insert_eq, ?lookup_insert_ne by done; done.
  - case_decide; subst; simpl; by rewrite ?lookup_delete_eq, ?lookup_delete_ne.
  - unfold bound. destruct (decide (key = k)) as [->|Hne].
    + destruct (listeners s !! k) as [[]|] eqn:Hl; simpl; rewrite ?Hl, ?lookup_insert_eq; try done.
      by destruct r.
    + destruct (listeners s !! k) as [[]|]; simpl; by rewrite ?lookup_insert_ne.
  - unfold accepted. destruct (decide (key = k)) as [->|Hne].
    + destruct (listeners s !! k) as [[]|] eqn:Hl; simpl; rewrite ?Hl; try done.
      destruct r; [destruct (receiving s)|]; simpl; by rewrite ?Hl, ?lookup_insert_eq.
    + destruct (listeners s !! k) as [[]|]; simpl; try done.
      destruct r; [destruct (receiving s)|]; simpl; by rewrite ?lookup_insert_ne.
  - unfold recv. by destruct (queue s).
  - done.
Qed.

Lemma queue_run s es :
  ¬ HangUp ∈ es → queue s ++ arrivals s es = receipts s es ++ queue (foldl step s es).
Proof.
  revert s. induction es as [|e es IH]; intros s Hno; [by rewrite app_nil_r|].
  apply not_elem_of_cons in Hno as [He Hno]. cbn [arrivals receipts foldl].
  rewrite <- app_assoc, <- IH by done. rewrite !app_assoc. f_equal.
  destruct e as [ip name|ip|ip port|ip port|k r|k r| |]; simpl; rewrite ?app_nil_r; try done.
  - by destruct name.
  - unfold listen. by destruct (listeners s !! (ip, port)).
  - unfold bound. by destruct (listeners s !! k) as [[]|].
  - unfold accepted. destruct r as [x|].
    + destruct (listeners s !! k) as [[]|] eqn:Hl; try (rewrite decide_False by naive_solver; simpl;
        by rewrite app_nil_r).
      destruct (receiving s); [by rewrite decide_True|].
      rewrite decide_False by naive_solver. by rewrite app_nil_r.
    + destruct (listeners s !! k) as [[]|]; simpl; by rewrite app_nil_r.
  - unfold recv. destruct (queue s) as [|a q] eqn:Hq; simpl; by rewrite ?Hq.
Qed.

(** What a step does to the task of a key. *)
Lemma ended_step key s e :
  (∀ ip port, e = Unlisten ip port → (ip, port) ≠ key) →
  listeners s !! key = Some Ended → listeners (step s e) !! key = Some Ended.
Proof.
  intros Hun Hk. rewrite step_task, Hk. destruct e as [ip name|ip|ip port|ip port|k r|k r| |]; simpl;
    try done; repeat case_decide; try done. subst. by destruct (Hun ip port).
Qed.

Definition for_key key (q : list (Accept Stream)) : list (Accept Stream) :=
  filter (λ a, (acc_ip a, acc_port a) = key) q.

Lemma ended_queue key s e :
  listeners s !! key = Some Ended →
  ∃ n, for_key key (queue (step s e)) = drop n (for_key key (queue s)).
Proof.
  intros Hk. destruct e as [ip name|ip|ip port|ip port|k r|k r| |]; simpl;
    try (exists 0; by rewrite drop_0).
  - exists 0. rewrite drop_0. by destruct name.
  - exists 0. rewrite drop_0. unfold listen. by destruct (listeners s !! (ip, port)).
  - exists 0. rewrite drop_0. unfold bound. by destruct (listeners s !! k) as [[]|].
  - exists 0. rewrite drop_0. unfold accepted. destruct (listeners s !! k) as [[]|] eqn:Hl; try done.
    destruct r; [destruct (receiving s)|]; try done. simpl. unfold for_key.
    rewrite filter_app, filter_cons_False, filter_nil, app_nil_r; [done|].
    simpl. rewrite <- surjective_pairing. congruence.
  - unfold recv. destruct (queue s) as [|a q] eqn:Hq; simpl; [by exists 0; rewrite Hq|].
    unfold for_key. rewrite filter_cons. case_decide; [by exists 1|by exists 0].
  - exists (length (for_key key (queue s))). by rewrite drop_all.
Qed.

End stack_lemmas.

(** ** Properties *)
Section stack_properties.
Import Resolver Stack.
Context {Stream : Type}.
Implicit Types (s : Stack Stream) (es : list (Event Stream)).

(** By the event, the key it is about and the task there was. *)
Local Ltac by_task s0 ip port e :=
  generalize (listeners s0 !! (ip, port)); intros t;
  destruct e as [? name|?|ip' port'|ip' port'|k [[]|]|k [|]| |]; simpl; try case_decide;
  simplify_eq/=; destruct t as [[]|]; repeat case_match; naive_solver.

(** C24: the stack is what the daemon takes it for, and its tasks are what was
    asked for.  Whatever the listener tasks do in between, the daemon's view of
    the stack is that of the handle's operations alone ([Netstack.v]), and a key
    is among its listeners exactly when it was listened on and not unlistened
    since.  Its task is binding exactly when one was begun, by a [listen] on a key
    that had none, whose bind has not returned since; and it accepts exactly when
    such a bind succeeded and the task was not stopped since, by [unlisten], a
    failed accept or a receiver that is gone: another [listen] disturbs neither.
    While the receiver is there, the connections the daemon has received, then
    those in the queue, are those that listening tasks accepted, in order. *)
Theorem stack_refines_netstack es key :
  let s := foldl step fresh_stack es in
  view s = foldl view_step NetStack.empty es ∧
  (key ∈ NetStack.listeners (view s) ↔
   since step (λ _ e, e = Listen key.1 key.2) (unlistens key) fresh_stack es) ∧
  (listeners s !! key = Some Binding ↔ since step (begins key) (ends_bind key) fresh_stack es) ∧
  (listeners s !! key = Some Accepting ↔ since step (binds key) (stops key) fresh_stack es) ∧
  (HangUp ∉ es → receipts fresh_stack es ++ queue s = arrivals fresh_stack es).
Proof.
  intros s.
  assert (Hfacts : ∀ (I : Stack Stream → Prop) (P Q : Stack Stream → Event Stream → Prop),
    (∀ s e, I (step s e) ↔ P s e ∨ (I s ∧ ¬ Q s e)) → ¬ I fresh_stack →
    I s ↔ since step P Q fresh_stack es).
  { intros I P Q Hstep H0. unfold s. rewrite (since_spec step (λ _, True) I P Q) by naive_solver.
    naive_solver. }
  destruct key as [ip port]. split_and!.
  - unfold s. clear. induction es as [|e es IH] using rev_ind; [done|].
    by rewrite !foldl_snoc, step_view, IH.
  - apply (Hfacts (λ s, (ip, port) ∈ NetStack.listeners (view s))); [|by simpl; set_solver].
    intros s0 e. simpl. rewrite !elem_of_dom, step_task. unfold unlistens.
    assert (Hsome : ∀ t : Task, is_Some (Some t)) by by eexists.
    assert (Hnone : ¬ is_Some (None : option Task)) by by intros [].
    by_task s0 ip port e.
  - apply (Hfacts (λ s, listeners s !! (ip, port) = Some Binding)); [|done].
    intros s0 e. rewrite step_task. unfold begins, ends_bind, unlistens. by_task s0 ip port e.
  - apply (Hfacts (λ s, listeners s !! (ip, port) = Some Accepting)); [|done].
    intros s0 e. rewrite step_task. unfold binds, stops, unlistens. by_task s0 ip port e.
  - intros Hno. symmetry. apply (queue_run fresh_stack es Hno).
Qed.

(** A listener that ended is not started again.  When the bind of a
    listener's task fails, or an accept does, the port stays among the
    listeners, so that [listen] on it does nothing: until it is unlistened, the
    daemon counts it as listening and no further connection to it arrives. *)
Theorem ended_listener_stays (s s' : Stack Stream) key e es :
  (bound key (Err e) s = Some s' ∨ accepted key (Err e) s = Some s') →
  Forall (λ x, ∀ ip port, x = Unlisten ip port → (ip, port) ≠ key) es →
  let s'' := foldl step s' es in
  listeners s'' !! key = Some Ended ∧ key ∈ NetStack.listeners (view s'') ∧
  listen key.1 key.2 s'' = s'' ∧
  ∃ n, for_key key (queue s'') = drop n (for_key key (queue s)).
Proof.
  intros Hs Hes s''.
  assert (Hk : listeners s' !! key = Some Ended ∧ queue s' = queue s).
  { unfold bound, accepted in Hs. destruct (listeners s !! key) as [[]|]; destruct Hs as [Hs|Hs];
      try done; injection Hs as <-; (split; [apply lookup_insert_eq|done]). }
  destruct Hk as [Hk Hq].
  assert (H : listeners s'' !! key = Some Ended ∧
              ∃ n, for_key key (queue s'') = drop n (for_key key (queue s))).
  { unfold s''. clear s''. rewrite <- Hq. clear Hq Hs.
    revert s' Hk. induction Hes as [|x es Hx _ IH]; intros s' Hk; [by split; [|exists 0]|].
    simpl. pose proof (ended_step key s' x Hx Hk) as Hk'.
    destruct (ended_queue key s' x Hk) as [n Hn]. destruct (IH _ Hk') as (Hl & n' & Hn').
    split; [done|]. exists (n + n'). by rewrite Hn', Hn, drop_drop. }
  destruct H as [Hl Hn]. split_and!; [done|..|done].
  - simpl. apply elem_of_dom. by eexists.
  - unfold listen. by rewrite <- surjective_pairing, Hl.
Qed.

(** C40: the two resolvers answer alike, while nothing fails.  Over datagrams of
    up to 512 bytes the in-stack resolver sends what the loopback one would,
    for the same names; but it ends with the first receive that fails, which the
    other passes over, and answers nothing after it. *)
Theorem tun_resolver_is_resolver {From : Type}
    (arrivals : list (bytes * From * gmap string Ipv4Addr)) (e : string)
    (names : gmap string Ipv4Addr) (later : list (result (bytes * From) * gmap string Ipv4Addr)) :
  Forall (λ a, length a.1.1 <= 512) arrivals →
  let ok a := (Ok a.1, a.2) in
  let v4 ip := let '(a, b, c, d) := ip in Surface.V4 a b c d in
  let as_run a := (Ok a.1, λ label : string, v4 <$> (a.2 : gmap string Ipv4Addr) !! label) in
  resolver_task (Ok tt) (ok <$> arrivals) = Resolver.run (as_run <$> arrivals) ∧
  resolver_task (Ok tt) ((ok <$> arrivals) ++ (Err e, names) :: later) =
    resolver_task (Ok tt) (ok <$> arrivals) ∧
  Resolver.run ((as_run <$> arrivals) ++ (Err e, λ _, None) :: []) = Resolver.run (as_run <$> arrivals).
Proof.
  intros Hl ok v4 as_run.
  assert (Hreply : ∀ q (ns : gmap string Ipv4Addr),
    handle_query q (λ label, v4 <$> ns !! label) = reply q (λ label, ns !! label)).
  { intros q ns. unfold handle_query, reply. destruct (parse_question q) as [x|]; [|done].
    destruct (qtype x =? TYPE_A)%Z; [|done]. destruct (host_label (name x)) as [l|]; [|done].
    by destruct (ns !! l) as [[[[a b] c] d]|]. }
  split_and!.
  - unfold resolver_task. induction Hl as [|[[d from] ns] arrivals Hd _ IH]; [done|].
    csimpl in *. rewrite IH. unfold Resolver.run. simpl.
    rewrite (take_ge d 1500), (take_ge d 512), Hreply by lia.
    by destruct (reply d _).
  - unfold resolver_task. clear. induction arrivals as [|[[d from] ns] arrivals IH]; [done|].
    csimpl. by rewrite IH.
  - unfold Resolver.run. by rewrite omap_app, app_nil_r.
Qed.

End stack_properties.

Section stack_witnesses.
Import Resolver Stack.

Definition desk : Key := ((10, 99, 1, 2)%Z, 80%Z).

(** A key listened on, bound, listened on again, with a connection accepted
    then. *)
Lemma stack_refines_netstack_witness :
  let es := [Listen desk.1 desk.2; Bound desk (Ok tt); Listen desk.1 desk.2; Accepted desk (Ok 7%N)] in
  listeners (foldl step fresh_stack es) !! desk = Some Accepting ∧
  queue (foldl step fresh_stack es) = [mkAccept desk.1 desk.2 7%N].
Proof.
  intros es. destruct (stack_refines_netstack es desk) as (_ & _ & _ & Ha & Hq). split.
  - apply Ha. exists [Listen desk.1 desk.2], (Bound desk (Ok tt)),
      [Listen desk.1 desk.2; Accepted desk (Ok 7%N)].
    split; [done|]. split; [split; [done|by vm_compute]|].
    repeat split; by intros [?|[[? ?]|[Hr ?]]].
  - etrans; [|etrans; [apply Hq|]]; [by vm_compute| |by vm_compute].
    intros Hin. by repeat (apply elem_of_cons in Hin as [?|Hin]; [done|]); apply elem_of_nil in Hin.
Defined.

Lemma ended_listener_stays_witness :
  let s := listen desk.1 desk.2 (fresh_stack : Stack N) in
  let s' := foldl step (default s (bound desk (Err "address in use") s))
                  [Listen desk.1 desk.2; Bound desk (Ok tt); Accepted desk (Ok 7%N)] in
  desk ∈ NetStack.listeners (view s') ∧ for_key desk (queue s') = [].
Proof.
  intros s s'.
  destruct (ended_listener_stays s (default s (bound desk (Err "address in use") s)) desk
    "address in use" [Listen desk.1 desk.2; Bound desk (Ok tt); Accepted desk (Ok 7%N)])
    as (_ & Hin & _ & n & Hn).
  - left. by vm_compute.
  - by repeat constructor.
  - split; [exact Hin|]. etrans; [exact Hn|]. apply drop_nil.
Defined.

Lemma tun_resolver_is_resolver_witness :
  let q := encode_query 7 (1, 0)%Z ["desk"; "pai-sho"] TYPE_A 1 in
  length (resolver_task (Ok tt) [(Ok (q, 9%N), {["desk" := (10, 99, 1, 2)%Z]}); (Err "reset", ∅);
                                 (Ok (q, 9%N), ∅)]) = 1.
Proof.
  intros q.
  destruct (tun_resolver_is_resolver [((q, 9%N), {["desk" := (10, 99, 1, 2)%Z]})] "reset" ∅
              [(Ok (q, 9%N), ∅)]) as (_ & Hl & _).
  - apply Forall_singleton. apply (bool_decide_unpack _). by vm_compute.
  - etrans; [exact (f_equal length Hl)|]. by vm_compute.
Defined.

End stack_witnesses.
