(* ===== verification/Json.v ===== *)
(** * JSON values and their text

    [serde_json] turns values into text and back.  Its two functions are a
    class here ([JsonLib]), with the laws the code relies on: the compact text
    of a value has no line feed in it and reads back, alone or as a line.  [Rfc]
    is a concrete instance, the compact JSON text of RFC 8259, on which the
    witnesses evaluate: it writes what [serde_json::to_string] writes, and reads
    that with any white space between tokens.  (Its pretty text is the compact
    one, and it refuses what the writer never writes, escapes of characters
    beyond ASCII.)

    A number is an integer or, kept as its text, any other; no type of the
    program has a field that accepts the second kind. *)

From stdpp Require Import pretty.
From S2P Require Import Prelude RustStr Text.

Inductive Json : Type :=
| JNull
| JBool (b : bool)
| JInt (n : Z)
| JOther (number : string)
| JStr (s : string)
| JArr (l : list Json)
| JObj (o : list (string * Json)).

(** Values without other numbers. *)
Fixpoint plain (v : Json) : bool :=
  match v with
  | JOther _ => false
  | JArr l => forallb plain l
  | JObj o => forallb (λ e, plain e.2) o
  | _ => true
  end.

(** [to_string], [to_string_pretty], [from_str], and the text of the error for a
    text that is not what was asked for. *)
Class JsonLib : Type := {
  to_text : Json → string;
  to_text_pretty : Json → string;
  of_text : string → option Json;
  json_error : string → string;
}.

Class JsonLibLaws `{!JsonLib} : Prop := {
  pretty_reads_back : ∀ v, plain v = true → of_text (to_text_pretty v) = Some v;
  text_one_line : ∀ v, plain v = true → Forall_str (λ c, c ≠ nl) (to_text v);
  text_reads_back : ∀ v, plain v = true → of_text (to_text v) = Some v;
  text_line_reads_back : ∀ v, plain v = true → of_text (to_text v +:+ chr nl) = Some v;
}.

Section json_ind.
Variable P : Json → Prop.
Hypothesis Hnull : P JNull.
Hypothesis Hbool : ∀ b, P (JBool b).
Hypothesis Hint : ∀ n, P (JInt n).
Hypothesis Hother : ∀ s, P (JOther s).
Hypothesis Hstr : ∀ s, P (JStr s).
Hypothesis Harr : ∀ l, Forall P l → P (JArr l).
Hypothesis Hobj : ∀ o, Forall (λ e, P e.2) o → P (JObj o).

(** Induction that reaches the members of arrays and objects. *)
Fixpoint json_nested_ind (v : Json) : P v :=
  match v with
  | JNull => Hnull
  | JBool b => Hbool b
  | JInt n => Hint n
  | JOther s => Hother s
  | JStr s => Hstr s
  | JArr l =>
      Harr l ((fix go (l : list Json) : Forall P l :=
                 match l with
                 | [] => Forall_nil_2 _
                 | v :: l => Forall_cons_2 _ _ _ (json_nested_ind v) (go l)
                 end) l)
  | JObj o =>
      Hobj o ((fix go (o : list (string * Json)) : Forall (λ e, P e.2) o :=
                 match o with
                 | [] => Forall_nil_2 _
                 | e :: o => Forall_cons_2 (λ e, P e.2) e o (json_nested_ind e.2) (go o)
                 end) o)
  end.

End json_ind.

(** ** RFC 8259, compact *)
Module Rfc.

Definition backslash : ascii := "\"%char.

Definition escape_char (c : ascii) : string :=
  if decide (c = dquote) then String backslash (chr dquote)
  else if decide (c = backslash) then String backslash (chr backslash)
  else if decide (32 <= byte_of c)%Z then chr c
  else if decide (c = "008"%char) then String backslash "b"
  else if decide (c = tab) then String backslash "t"
  else if decide (c = nl) then String backslash "n"
  else if decide (c = "012"%char) then String backslash "f"
  else if decide (c = cr) then String backslash "r"
  else String backslash ("u00" +:+ hex_byte (byte_of c)).

Fixpoint escape (s : string) : string :=
  match s with
  | EmptyString => EmptyString
  | String c s => escape_char c +:+ escape s
  end.

Definition quote (s : string) : string := String dquote (escape s +:+ chr dquote).

Fixpoint print (v : Json) : string :=
  match v with
  | JNull => "null"
  | JBool true => "true"
  | JBool false => "false"
  | JInt n => pretty n
  | JOther s => s
  | JStr s => quote s
  | JArr l => "[" +:+ join "," (List.map print l) +:+ "]"
  | JObj o => "{" +:+ join "," (List.map (λ e, quote e.1 +:+ ":" +:+ print e.2) o) +:+ "}"
  end.

(** *** Reading *)

Definition is_ws (c : ascii) : bool :=
  bool_decide (c = " "%char ∨ c = tab ∨ c = nl ∨ c = cr).

Fixpoint skip_ws (s : string) : string :=
  match s with
  | String c r => if is_ws c then skip_ws r else s
  | EmptyString => EmptyString
  end.

Definition hex_value (c : ascii) : option Z :=
  let b := byte_of c in
  if decide (48 <= b <= 57)%Z then Some (b - 48)%Z
  else if decide (97 <= b <= 102)%Z then Some (b - 87)%Z
  else if decide (65 <= b <= 70)%Z then Some (b - 55)%Z
  else None.

Definition unescape_char (e : ascii) : option ascii :=
  if decide (e = dquote ∨ e = backslash ∨ e = "/"%char) then Some e
  else if decide (e = "b"%char) then Some "008"%char
  else if decide (e = "t"%char) then Some tab
  else if decide (e = "n"%char) then Some nl
  else if decide (e = "f"%char) then Some "012"%char
  else if decide (e = "r"%char) then Some cr
  else None.

(** The character of an escape [\u00XX] below 128. *)
Definition unicode_char (a b c d : ascii) : option ascii :=
  h1 ← hex_value a; h2 ← hex_value b; h3 ← hex_value c; h4 ← hex_value d;
  let code := (((h1 * 16 + h2) * 16 + h3) * 16 + h4)%Z in
  if decide (code < 128)%Z then Some (char_of code) else None.

(** A string after its opening quote, and what follows its closing one. *)
Fixpoint read_string (s : string) : option (string * string) :=
  match s with
  | EmptyString => None
  | String c r =>
      if decide (c = dquote) then Some (EmptyString, r)
      else if decide (c = backslash) then
        match r with
        | EmptyString => None
        | String e r =>
            if decide (e = "u"%char) then
              match r with
              | String a (String b (String x (String d r))) =>
                  c ← unicode_char a b x d; '(t, r) ← read_string r; Some (String c t, r)
              | _ => None
              end
            else c ← unescape_char e; '(t, r) ← read_string r; Some (String c t, r)
        end
      else if decide (32 <= byte_of c)%Z
      then '(t, r) ← read_string r; Some (String c t, r)
      else None
  end.

Definition number_char (c : ascii) : bool :=
  bool_decide (48 <= byte_of c <= 57)%Z ||
  bool_decide (c = "-"%char ∨ c = "+"%char ∨ c = "."%char ∨ c = "e"%char ∨ c = "E"%char).

Fixpoint span_number (s : string) : string * string :=
  match s with
  | String c r =>
      if number_char c then let '(t, r) := span_number r in (String c t, r)
      else (EmptyString, s)
  | EmptyString => (EmptyString, EmptyString)
  end.

Fixpoint decimal (acc : Z) (s : string) : option Z :=
  match s with
  | EmptyString => Some acc
  | String c s => d ← to_digit 10 c; decimal (acc * 10 + d) s
  end.

(** An integer has no leading zero but in zero itself. *)
Definition natural (s : string) : option Z :=
  match s with
  | EmptyString => None
  | String c r =>
      if decide (c = "0"%char ∧ r ≠ EmptyString) then None else decimal 0 s
  end.

Definition number (token : string) : Json :=
  match (match token with
         | String c r => if decide (c = "-"%char ∧ r ≠ "0"%string) then Z.opp <$> natural r
                         else natural token
         | EmptyString => None
         end) with
  | Some n => JInt n
  | None => JOther token
  end.

(** A value at the head of a text, and the rest of it. *)
Fixpoint read_value (fuel : nat) (s : string) : option (Json * string) :=
  match fuel with
  | O => None
  | S fuel =>
      match skip_ws s with
      | EmptyString => None
      | String c r =>
          if decide (c = dquote) then '(t, r) ← read_string r; Some (JStr t, r)
          else if decide (c = "["%char) then
            match strip_prefix "]" (skip_ws r) with
            | Some r => Some (JArr [], r)
            | None => '(l, r) ← read_elements fuel r; Some (JArr l, r)
            end
          else if decide (c = "{"%char) then
            match strip_prefix "}" (skip_ws r) with
            | Some r => Some (JObj [], r)
            | None => '(o, r) ← read_members fuel r; Some (JObj o, r)
            end
          else if number_char c then
            let '(t, r) := span_number (String c r) in Some (number t, r)
          else
            match strip_prefix "null" (String c r), strip_prefix "true" (String c r),
                  strip_prefix "false" (String c r) with
            | Some r, _, _ => Some (JNull, r)
            | _, Some r, _ => Some (JBool true, r)
            | _, _, Some r => Some (JBool false, r)
            | _, _, _ => None
            end
      end
  end
with read_elements (fuel : nat) (s : string) : option (list Json * string) :=
  match fuel with
  | O => None
  | S fuel =>
      '(v, r) ← read_value fuel s;
      match skip_ws r with
      | String "," r => '(l, r) ← read_elements fuel r; Some (v :: l, r)
      | String "]" r => Some ([v], r)
      | _ => None
      end
  end
with read_members (fuel : nat) (s : string) : option (list (string * Json) * string) :=
  match fuel with
  | O => None
  | S fuel =>
      match skip_ws s with
      | String c r =>
          if decide (c = dquote) then
            '(k, r) ← read_string r;
            match skip_ws r with
            | String ":" r =>
                '(v, r) ← read_value fuel r;
                match skip_ws r with
                | String "," r => '(o, r) ← read_members fuel r; Some ((k, v) :: o, r)
                | String "}" r => Some ([(k, v)], r)
                | _ => None
                end
            | _ => None
            end
          else None
      | EmptyString => None
      end
  end.

(** A text is one value with white space around it. *)
Definition parse (s : string) : option Json :=
  '(v, r) ← read_value (S (String.length s)) s;
  if str_is_empty (skip_ws r) then Some v else None.

#[export] Instance rfc_json : JsonLib := {|
  to_text := print;
  to_text_pretty := print;
  of_text := parse;
  json_error _ := "invalid";
|}.

End Rfc.

(** ** Lemmas: what is written reads back *)
Section rfc_lemmas.
Import Rfc.

Lemma read_string_char c t : read_string (escape_char c +:+ t) =
  '(u, r) ← read_string t; Some (String c u, r).
Proof. by destruct c as [[] [] [] [] [] [] [] []]. Qed.

Lemma escape_char_no_nl c : Forall_str (λ c, c ≠ nl) (escape_char c).
Proof. by destruct c as [[] [] [] [] [] [] [] []]; repeat split. Qed.

Lemma read_string_escape s rest :
  read_string (escape s +:+ String dquote rest) = Some (s, rest).
Proof.
  induction s as [|c s IH]; [done|].
  cbn [escape]. by rewrite <- str_app_assoc, read_string_char, IH.
Qed.

(** *** Integers *)

Lemma numeral_app ds es : numeral (ds ++ es) = numeral ds +:+ numeral es.
Proof. induction ds as [|d ds IH]; simpl; [done|]. by f_equal. Qed.

Lemma digits_value_app acc ds es :
  digits_value 10 acc (ds ++ es) = digits_value 10 (digits_value 10 acc ds) es.
Proof. revert acc. induction ds as [|d ds IH]; intros acc; simpl; auto. Qed.

Lemma pretty_N_char_digit x : (x < 10)%N → pretty_N_char x = digit_char (Z.of_N x).
Proof.
  intros Hx. assert (x ∈ [0; 1; 2; 3; 4; 5; 6; 7; 8; 9]%N) as Hin by (rewrite !elem_of_cons; lia).
  rewrite !elem_of_cons, elem_of_nil in Hin. by destruct_or?; subst.
Qed.

(** The decimal numeral of a positive number. *)
Definition decimal_of (x : N) (d : Z) (ds : list Z) : Prop :=
  (1 <= d < 10)%Z ∧ Forall (λ d, 0 <= d < 10)%Z ds ∧ digits_value 10 0 (d :: ds) = Z.of_N x.

Lemma pretty_N_go_numeral x s :
  (0 < x)%N → ∃ d ds, decimal_of x d ds ∧ pretty_N_go x s = numeral (d :: ds) +:+ s.
Proof.
  revert s. induction (N.lt_wf_0 x) as [x _ IH]; intros s Hx.
  rewrite pretty_N_go_step by done. rewrite pretty_N_char_digit by (apply N.mod_lt; lia).
  destruct (decide (x < 10)%N) as [Hlt|Hge].
  - rewrite N.div_small, pretty_N_go_0, N.mod_small by done.
    exists (Z.of_N x), []. split; [|done]. split_and!; [lia|lia|done|done].
  - destruct (IH (x / 10)%N) with (s := String (digit_char (Z.of_N (x mod 10))) s)
      as (d & ds & (Hd & Hds & Hv) & ->).
    { apply N.div_lt; lia. }
    { apply N.div_str_pos. lia. }
    exists d, (ds ++ [Z.of_N (x mod 10)]). split.
    + pose proof (N.mod_lt x 10 ltac:(done)) as Hm. pose proof (N.div_mod' x 10) as Hdm.
      set (r := (x mod 10)%N) in *. set (q := (x / 10)%N) in *. clearbody r q.
      split_and!; [lia..| |].
      * apply Forall_app. split; [done|]. apply Forall_singleton. lia.
      * change (d :: ds ++ ?e) with ((d :: ds) ++ e). rewrite digits_value_app, Hv. simpl. lia.
    + change (d :: ds ++ ?e) with ((d :: ds) ++ e). by rewrite numeral_app, <- str_app_assoc.
Qed.

Lemma pretty_N_numeral x :
  (0 < x)%N → ∃ d ds, decimal_of x d ds ∧ pretty x = numeral (d :: ds).
Proof.
  intros Hx. destruct (pretty_N_go_numeral x EmptyString Hx) as (d & ds & Hd & Hp).
  exists d, ds. split; [done|]. unfold pretty, pretty_N. rewrite decide_False by lia.
  by rewrite Hp, str_app_nil_r.
Qed.

Lemma digit_char_byte d : (0 <= d < 10)%Z → byte_of (digit_char d) = (48 + d)%Z.
Proof. intros Hd. unfold digit_char. apply byte_of_char_of. unfold u8_range. lia. Qed.

Lemma digit_number_char d : (0 <= d < 10)%Z → number_char (digit_char d) = true.
Proof.
  intros Hd. unfold number_char. apply orb_true_intro. left.
  apply bool_decide_eq_true. rewrite digit_char_byte by done. lia.
Qed.

Lemma decimal_numeral acc ds :
  Forall (λ d, 0 <= d < 10)%Z ds → decimal acc (numeral ds) = Some (digits_value 10 acc ds).
Proof.
  intros Hds. revert acc. induction Hds as [|d ds Hd _ IH]; intros acc; [done|].
  cbn [numeral foldr decimal]. rewrite to_digit_char by (done || lia). apply IH.
Qed.

Lemma natural_numeral x d ds : decimal_of x d ds → natural (numeral (d :: ds)) = Some (Z.of_N x).
Proof.
  intros (Hd & Hds & Hv). cbn [numeral foldr natural].
  rewrite decide_False.
  2: { intros [Heq _]. apply (f_equal byte_of) in Heq. rewrite digit_char_byte in Heq by lia.
       change (byte_of "0") with 48%Z in Heq. lia. }
  rewrite <- Hv. apply (decimal_numeral 0 (d :: ds)). constructor; [lia|done].
Qed.

(** A text that cannot go on a number. *)
Definition ends_number (s : string) : Prop :=
  match s with EmptyString => True | String c _ => number_char c = false end.

Lemma span_number_app t rest :
  Forall_str (λ c, number_char c = true) t → ends_number rest →
  span_number (t +:+ rest) = (t, rest).
Proof.
  intros Ht Hrest. induction t as [|c t IH]; simpl.
  - destruct rest as [|c r]; [done|]. simpl in *. by rewrite Hrest.
  - destruct Ht as [-> Ht]. by rewrite IH.
Qed.

Lemma numeral_number_chars ds :
  Forall (λ d, 0 <= d < 10)%Z ds → Forall_str (λ c, number_char c = true) (numeral ds).
Proof. induction 1; simpl; [done|]. auto using digit_number_char. Qed.

Lemma number_pretty n :
  number (pretty n) = JInt n ∧ Forall_str (λ c, number_char c = true) (pretty n) ∧
  ∃ c r, pretty n = String c r ∧ number_char c = true.
Proof.
  destruct n as [|p|p]; [by split_and!; try eexists _, _..| |].
  - destruct (pretty_N_numeral (N.pos p)) as (d & ds & Hd & Hp); [lia|].
    change (pretty (Z.pos p)) with (pretty (N.pos p)). rewrite Hp. destruct Hd as (Hr & Hds & Hv).
    split_and!; [|apply numeral_number_chars; constructor; [lia|done]|].
    + unfold number. cbn [numeral foldr]. rewrite decide_False.
      2: { intros [Heq _]. apply (f_equal byte_of) in Heq. rewrite digit_char_byte in Heq by lia.
           change (byte_of "-") with 45%Z in Heq. lia. }
      pose proof (natural_numeral (N.pos p) d ds) as Hn. cbn [numeral foldr] in Hn.
      by rewrite Hn.
    + eexists _, _. split; [done|]. apply digit_number_char. lia.
  - destruct (pretty_N_numeral (N.pos p)) as (d & ds & Hd & Hp); [lia|].
    change (pretty (Z.neg p)) with (String "-" (pretty (N.pos p))). rewrite Hp.
    pose proof (natural_numeral _ _ _ Hd) as Hn. destruct Hd as (Hr & Hds & Hv).
    split_and!; [|split; [done|]; apply numeral_number_chars; constructor; [lia|done]|by eexists _, _].
    unfold number. rewrite decide_True, Hn; [done|]. split; [done|].
    intros Heq. rewrite Heq in Hn. by vm_compute in Hn.
Qed.

(** *** Values *)

(** What a value's text begins with. *)
Definition value_head (c : ascii) : Prop :=
  is_ws c = false ∧ c ≠ "]"%char ∧ c ≠ "}"%char.

Lemma number_char_head c : number_char c = true → value_head c ∧ c ≠ dquote ∧ c ≠ "["%char ∧ c ≠ "{"%char.
Proof. by destruct c as [[] [] [] [] [] [] [] []]. Qed.

Lemma print_head v : plain v = true → ∃ c r, print v = String c r ∧ value_head c.
Proof.
  destruct v as [|[]|n|t|t|l|o]; intros Hv; try done; try by eexists _, _.
  destruct (number_pretty n) as (_ & _ & c & r & Hn & Hc%number_char_head).
  exists c, r. by destruct Hc.
Qed.

Lemma skip_ws_head c r : is_ws c = false → skip_ws (String c r) = String c r.
Proof. simpl. by intros ->. Qed.

Lemma str_app_cons c s t : String c s +:+ t = String c (s +:+ t).
Proof. done. Qed.

(** The text of a value is read as that value, whatever follows. *)
Definition reads (v : Json) : Prop :=
  ∀ fuel rest, String.length (print v) <= fuel → ends_number rest →
    read_value fuel (print v +:+ rest) = Some (v, rest).

Definition elements_text (l : list Json) : string := join "," (List.map print l).

Definition member_text (e : string * Json) : string := quote e.1 +:+ ":" +:+ print e.2.

Definition members_text (o : list (string * Json)) : string := join "," (List.map member_text o).

Lemma join_cons2 a b (l : list string) : join "," (a :: b :: l) = a +:+ String "," (join "," (b :: l)).
Proof. done. Qed.

Lemma read_elements_text l fuel rest :
  Forall reads l → l ≠ [] → String.length (elements_text l) < fuel →
  read_elements fuel (elements_text l +:+ String "]" rest) = Some (l, rest).
Proof.
  intros Hl. revert fuel. induction Hl as [|v l Hv Hl IH]; intros fuel Hne Hf; [done|].
  destruct fuel as [|fuel]; [lia|]. unfold elements_text in *. destruct l as [|w l].
  - cbn [List.map join] in *. cbn [read_elements]. by rewrite Hv by (done || lia).
  - cbn [List.map] in *. rewrite join_cons2 in Hf |- *.
    rewrite str_length_app in Hf. cbn [String.length] in Hf.
    rewrite <- str_app_assoc, str_app_cons. cbn [read_elements].
    rewrite Hv by (done || lia). cbn [mbind option_bind]. rewrite skip_ws_head by done.
    cbn match beta. rewrite IH by (done || lia). done.
Qed.

Lemma read_members_text o fuel rest :
  Forall (λ e, reads e.2) o → o ≠ [] → String.length (members_text o) < fuel →
  read_members fuel (members_text o +:+ String "}" rest) = Some (o, rest).
Proof.
  assert (Hm : ∀ k v s, member_text (k, v) +:+ s =
            String dquote (escape k +:+ String dquote (String ":" (print v +:+ s)))).
  { intros k v s. unfold member_text, quote. simpl. by rewrite <- !str_app_assoc. }
  assert (Hlen : ∀ k v, String.length (print v) < String.length (member_text (k, v))).
  { intros k v. unfold member_text, quote. simpl. rewrite !str_length_app. simpl. lia. }
  intros Ho. revert fuel. induction Ho as [|[k v] o Hv Ho IH]; intros fuel Hne Hf; [done|].
  specialize (Hlen k v). simpl in Hv.
  destruct fuel as [|fuel]; [lia|]. unfold members_text in *. destruct o as [|w o].
  - cbn [List.map join] in *. rewrite Hm. cbn [read_members]. rewrite skip_ws_head by done.
    cbn match. rewrite decide_True, read_string_escape by done. cbn [mbind option_bind].
    rewrite skip_ws_head by done. cbn match beta.
    by rewrite Hv by (done || lia).
  - cbn [List.map] in *. rewrite join_cons2 in Hf |- *.
    rewrite str_length_app in Hf. cbn [String.length] in Hf.
    rewrite <- str_app_assoc, str_app_cons, Hm. cbn [read_members]. rewrite skip_ws_head by done.
    cbn match. rewrite decide_True, read_string_escape by done. cbn [mbind option_bind].
    rewrite skip_ws_head by done. cbn match beta.
    rewrite Hv by (done || lia). cbn [mbind option_bind]. rewrite skip_ws_head by done.
    cbn match beta. rewrite IH by (done || lia). done.
Qed.

Lemma read_number n fuel rest :
  ends_number rest → read_value (S fuel) (pretty n +:+ rest) = Some (JInt n, rest).
Proof.
  intros Hrest. destruct (number_pretty n) as (Hn & Hall & c & r & Hp & Hc).
  pose proof (number_char_head c Hc) as ((Hws & _ & _) & Hq & Hb & Hcb).
  pose proof (span_number_app _ rest Hall Hrest) as Hspan. rewrite Hp, str_app_cons in *.
  cbn [read_value]. rewrite skip_ws_head by done. cbn match. rewrite !decide_False by done.
  by rewrite Hc, Hspan, Hn.
Qed.

(** Behind an opening bracket, the text of what it holds. *)
Lemma open_text a s : ∃ t, String a EmptyString +:+ s = String a t ∧ t = s.
Proof. by exists s. Qed.

Lemma print_reads v : plain v = true → reads v.
Proof.
  assert (Hpos : ∀ v, plain v = true → 1 <= String.length (print v)).
  { intros v' (c & r & -> & _)%print_head. simpl. lia. }
  induction v as [|b|n|t|t|l IH|o IH] using json_nested_ind; intros Hv fuel rest Hf Hrest;
    apply Hpos in Hv as Hlen; (destruct fuel as [|fuel]; [lia|]); clear Hlen.
  - done.
  - by destruct b.
  - by apply read_number.
  - done.
  - cbn [print quote] in *. unfold quote. rewrite str_app_cons, <- str_app_assoc.
    cbn [read_value]. rewrite skip_ws_head by done. cbn match. rewrite decide_True by done.
    change (chr dquote +:+ rest) with (String dquote rest). by rewrite read_string_escape.
  - cbn [print plain] in *. fold (elements_text l) in *. rewrite !str_length_app in Hf. simpl in Hf.
    rewrite <- !str_app_assoc. change ("[" +:+ ?s) with (String "[" s).
    change ("]" +:+ rest) with (String "]" rest).
    assert (Hall : Forall reads l).
    { apply Forall_forall. intros v Hin. rewrite Forall_forall in IH. apply IH; [done|].
      rewrite forallb_forall in Hv. apply Hv. by apply list_elem_of_In. }
    cbn [read_value]. rewrite skip_ws_head by done. cbn match.
    rewrite decide_False, decide_True by done. destruct l as [|v l]; [done|].
    assert (Hno : strip_prefix "]" (skip_ws (elements_text (v :: l) +:+ String "]" rest)) = None).
    { simpl in Hv. apply andb_true_iff in Hv as [Hv _].
      destruct (print_head v Hv) as (c & r & Hp & Hws & Hb & _).
      assert (Ht : ∃ r', elements_text (v :: l) = String c r').
      { unfold elements_text. destruct l; simpl; rewrite Hp; by eexists. }
      destruct Ht as [r' ->]. rewrite str_app_cons, skip_ws_head by done. simpl.
      by rewrite decide_False. }
    rewrite Hno, read_elements_text by (done || lia). done.
  - cbn [print plain] in *. fold member_text in *. fold (members_text o) in *.
    rewrite !str_length_app in Hf. simpl in Hf.
    rewrite <- !str_app_assoc. change ("{" +:+ ?s) with (String "{" s).
    change ("}" +:+ rest) with (String "}" rest).
    assert (Hall : Forall (λ e, reads e.2) o).
    { apply Forall_forall. intros e Hin. rewrite Forall_forall in IH. apply IH; [done|].
      rewrite forallb_forall in Hv. apply Hv. by apply list_elem_of_In. }
    cbn [read_value]. rewrite skip_ws_head by done. cbn match.
    rewrite !decide_False, decide_True by done. destruct o as [|[k v] o]; [done|].
    assert (Hno : strip_prefix "}" (skip_ws (members_text ((k, v) :: o) +:+ String "}" rest)) = None).
    { assert (Ht : ∃ r', members_text ((k, v) :: o) = String dquote r').
      { unfold members_text. destruct o; simpl; by eexists. }
      destruct Ht as [r' ->]. by rewrite str_app_cons, skip_ws_head. }
    rewrite Hno, read_members_text by (done || lia). done.
Qed.

Lemma parse_print v w :
  plain v = true → ends_number w → skip_ws w = EmptyString → parse (print v +:+ w) = Some v.
Proof.
  intros Hv Hw Hs. unfold parse.
  rewrite print_reads; [|done|rewrite str_length_app; lia|done]. cbn. by rewrite Hs.
Qed.

Lemma print_no_nl v : plain v = true → Forall_str (λ c, c ≠ nl) (print v).
Proof.
  assert (Hq : ∀ s, Forall_str (λ c, c ≠ nl) (quote s)).
  { intros s. unfold quote. split; [done|]. apply Forall_str_app. split; [|by split].
    induction s as [|c s IH]; [done|]. simpl. apply Forall_str_app. split; [|done].
    apply escape_char_no_nl. }
  assert (Hj : ∀ l, Forall (Forall_str (λ c, c ≠ nl)) l → Forall_str (λ c, c ≠ nl) (join "," l)).
  { induction 1 as [|s [|t l] Hs Hl IH]; [done|done|]. rewrite join_cons2.
    apply Forall_str_app. split; [done|]. by split. }
  induction v as [|b|n|t|t|l IH|o IH] using json_nested_ind; intros Hv; cbn [print plain] in *.
  - by repeat split.
  - destruct b; by repeat split.
  - destruct (number_pretty n) as (_ & Hall & _). eapply Forall_str_impl; [|exact Hall].
    intros c Hc ->. by vm_compute in Hc.
  - done.
  - apply Hq.
  - rewrite Forall_forall in IH. rewrite forallb_forall in Hv.
    rewrite !Forall_str_app. split_and!; [done| |done]. apply Hj.
    apply Forall_forall. intros s Hs. apply list_elem_of_In, in_map_iff in Hs as (v & <- & Hin).
    apply IH; [by apply list_elem_of_In|]. by apply Hv.
  - rewrite Forall_forall in IH. rewrite forallb_forall in Hv.
    rewrite !Forall_str_app. split_and!; [done| |done]. apply Hj.
    apply Forall_forall. intros s Hs. apply list_elem_of_In, in_map_iff in Hs as ([k v] & <- & Hin).
    apply Forall_str_app. split; [apply Hq|]. split; [done|].
    apply (IH (k, v)); [by apply list_elem_of_In|]. by apply (Hv (k, v)).
Qed.

#[export] Instance rfc_json_laws : JsonLibLaws.
Proof.
  split; intros v Hv; simpl.
  - rewrite <- (str_app_nil_r (print v)). by apply parse_print.
  - by apply print_no_nl.
  - rewrite <- (str_app_nil_r (print v)). by apply parse_print.
  - by apply parse_print.
Qed.

End rfc_lemmas.
