(* ===== verification/Wire.v ===== *)
(** * Lines of JSON

    The control socket carries one request and one response, each a line of
    JSON.  What the code needs of that text is a class: its two functions, with
    the laws that a text of a value whose ports are [u16]s has no line feed in it
    and, with the line feed the code adds, reads back, and that only such values
    are read.  [Codec.v] has the instances. *)

From S2P Require Import Prelude RustStr Text Protocol.

Class JsonText (A : Type) : Type := {
  to_json : A → result string;
  from_json : string → result A;
}.

(** Of the values that are [typed]; and no other is ever read. *)
Class JsonTextLaws (A : Type) `{!JsonText A} (typed : A → Prop) : Prop := {
  json_line : ∀ a : A, typed a →
    ∃ s, to_json a = Ok s ∧ Forall_str (λ c, c ≠ nl) s ∧ from_json (s +:+ chr nl) = Ok a;
  json_typed : ∀ s a, from_json s = Ok a → typed a;
}.

(** [read_line]: up to and with the first line feed of what the stream delivers. *)
Definition read_line (stream : string) : string := default EmptyString (head (split_inclusive stream)).

Lemma read_line_line l rest :
  Forall_str (λ c, c ≠ nl) l → read_line (l +:+ String nl rest) = l +:+ chr nl.
Proof. intros Hl. unfold read_line. by rewrite split_inclusive_line. Qed.
