(* ===== verification/Launchd.v ===== *)
(** * The launchd service ([src/src/launchd.rs])

    [daemon install], [up], [down], [remove] and [status] on macOS, over the
    [Host] interface: each a command of the monad, made of the helpers the
    source has, with its texts and its paths.  Paths are absolute and plain,
    so a parent, a file name and an extension are found at the last slash and
    the last dot. *)

From stdpp Require Import pretty.
From S2P Require Import Prelude RustStr Text Surface Protocol Host Wire.

Module Launchd.
Import Protocol.

Definition LABEL : string := "pai-sho".
Definition PLIST : string := "/Library/LaunchDaemons/pai-sho.plist".
Definition BIN : string := "/usr/local/libexec/pai-sho".
Definition OPERATOR : string := "/usr/local/libexec/pai-sho-operator".
Definition KEY : string := "/usr/local/var/pai-sho/op.key".
Definition LOG : string := "/usr/local/var/log/pai-sho-operator.log".
Definition RESOLVER : string := "/etc/resolver/pai-sho".
Definition SOCKET : string := "/tmp/pai-sho.sock".
Definition RESOLVER_ADDR : string := "10.99.0.53".

(** ** Paths *)

(** At the last [sep]. *)
Fixpoint rsplit_once (sep : ascii) (s : string) : option (string * string) :=
  match s with
  | EmptyString => None
  | String c s =>
      match rsplit_once sep s with
      | Some (a, b) => Some (String c a, b)
      | None => if decide (c = sep) then Some (EmptyString, s) else None
      end
  end.

Definition parent (p : string) : option string := fst <$> rsplit_once "/" p.

Definition with_file_name (p name : string) : string :=
  match rsplit_once "/" p with
  | Some (dir, _) => dir +:+ "/" +:+ name
  | None => name
  end.

Definition file_name (p : string) : string :=
  match rsplit_once "/" p with Some (_, n) => n | None => p end.

Definition file_stem (p : string) : string :=
  match rsplit_once "." (file_name p) with
  | Some (EmptyString, _) | None => file_name p
  | Some (stem, _) => stem
  end.

Definition with_extension (p ext : string) : string :=
  with_file_name p (file_stem p +:+ "." +:+ ext).

(** ** Texts *)

Definition domain : string := "system/" +:+ LABEL.

Record InstallView : Type := mkInstallView { view_key : string; view_peers : nat }.

Definition install_message (view : option InstallView) : string :=
  match view with
  | None => "pai-sho is running. Not answering yet. Run `pai-sho key`."
  | Some view =>
      if decide (view_peers view = 0) then
        "pai-sho is running." +:+ chr nl +:+ chr nl +:+
        "This machine's key:" +:+ chr nl +:+ chr nl +:+
        "  " +:+ view_key view
      else
        let peers := if decide (view_peers view = 1) then "1 peer"
                     else pretty (view_peers view) +:+ " peers" in
        "pai-sho is running. " +:+ peers +:+ "."
  end.

Definition quoted (s : string) : string := String dquote (s +:+ chr dquote).

Definition operator_script : string := unlines
  ["#!/bin/bash";
   "# Rewritten by `pai-sho daemon install`.";
   "set -eu";
   "mkdir -p /etc/resolver";
   "printf 'nameserver " +:+ RESOLVER_ADDR +:+ "\n' > " +:+ RESOLVER;
   "KEY=" +:+ quoted KEY;
   "mkdir -p " +:+ quoted ("$(dirname " +:+ quoted "$KEY" +:+ ")");
   "u=$(stat -f%Su /dev/console) || exit 1";
   "if [ -z " +:+ quoted "$u" +:+ " ]; then";
   "  echo " +:+ quoted "pai-sho: no user on /dev/console" +:+ " >&2";
   "  exit 1";
   "fi";
   "exec " +:+ BIN +:+ " --socket " +:+ SOCKET +:+ " daemon \";
   "  --key " +:+ quoted "$KEY" +:+ " --tun utun --socket-owner " +:+ quoted "$u"].

Definition plist : string := unlines
  ["<?xml version=" +:+ quoted "1.0" +:+ " encoding=" +:+ quoted "UTF-8" +:+ "?>";
   "<!DOCTYPE plist PUBLIC " +:+ quoted "-//Apple//DTD PLIST 1.0//EN" +:+ " " +:+
     quoted "http://www.apple.com/DTDs/PropertyList-1.0.dtd" +:+ ">";
   "<plist version=" +:+ quoted "1.0" +:+ ">";
   "<dict>";
   "    <key>Label</key>";
   "    <string>" +:+ LABEL +:+ "</string>";
   "    <key>ProgramArguments</key>";
   "    <array>";
   "        <string>" +:+ OPERATOR +:+ "</string>";
   "    </array>";
   "    <key>RunAtLoad</key>";
   "    <true/>";
   "    <key>KeepAlive</key>";
   "    <true/>";
   "    <key>StandardOutPath</key>";
   "    <string>" +:+ LOG +:+ "</string>";
   "    <key>StandardErrorPath</key>";
   "    <string>" +:+ LOG +:+ "</string>";
   "    <key>EnvironmentVariables</key>";
   "    <dict>";
   "        <key>PATH</key>";
   "        <string>/usr/bin:/bin:/usr/sbin:/sbin</string>";
   "    </dict>";
   "</dict>";
   "</plist>"].

(** ** Reading launchd's text *)

Definition label_disabled (text label : string) : bool :=
  let needle := quoted label +:+ " =>" in
  existsb (λ line,
    match strip_prefix needle (trim line) with
    | None => false
    | Some rest => bool_decide (first_word rest = Some "disabled")
    end) (lines text).

Definition field (text key : string) : option string :=
  let prefix := key +:+ " = " in
  head (omap (λ line,
    value ← strip_prefix prefix (trim line);
    let value := trim value in
    if str_is_empty value then None else Some value) (lines text)).

(** ** The state of the service *)

Record ServiceStatus : Type := mkServiceStatus {
  installed : bool;
  loaded : bool;
  disabled : bool;
  launchd_state : option string;
  pid : option string;
  socket_owner : option string;
  key_present : bool;
  resolver_present : bool;
}.

Record StatusReport : Type := mkStatusReport {
  r_service : string;
  r_state : string;
  r_pid : option Z;
  r_disabled : bool;
  r_installed : bool;
  r_loaded : bool;
  r_socket : option string;
  r_socket_owner : option string;
  r_key : option string;
  r_resolver : option string;
  r_log : string;
}.

Definition state_word (status : ServiceStatus) : string :=
  if loaded status then default "loaded" (launchd_state status)
  else if installed status then "stopped" else "not installed".

Definition then_some {A} (b : bool) (a : A) : option A := if b then Some a else None.

Definition report (status : ServiceStatus) : StatusReport := {|
  r_service := domain;
  r_state := state_word status;
  r_pid := (pid status ≫= u32_from_str_radix 10);
  r_disabled := disabled status;
  r_installed := installed status;
  r_loaded := loaded status;
  r_socket := (λ _, SOCKET) <$> socket_owner status;
  r_socket_owner := socket_owner status;
  r_key := then_some (key_present status) KEY;
  r_resolver := then_some (resolver_present status) RESOLVER;
  r_log := LOG;
|}.

Section launchd.
Context {H : Type} `{!Host H}.
Context `{!JsonText Request} `{!JsonText Response}.
(** [cfg!(target_os)] and [serde_json::to_string_pretty]. *)
Variable os : Surface.Os.
Variable to_string_pretty : StatusReport → result string.

(** ** launchctl *)

Definition launchctl_output (args : list string) : cmd H Output :=
  with_context ("running launchctl " +:+ join " " args) (command "launchctl" args).

Definition launchctl_stdout (args : list string) : cmd H string :=
  out ← launchctl_output args;
  if success out then mret (from_utf8_lossy (stdout out))
  else
    let err := trim (from_utf8_lossy (stderr out)) in
    if str_is_empty err
    then bail ("launchctl " +:+ join " " args +:+ " failed: exit " +:+ status_text out)
    else bail ("launchctl " +:+ join " " args +:+ " failed: " +:+ err).

Definition launchctl (args : list string) : cmd H unit :=
  out ← with_context ("running launchctl " +:+ join " " args) (command "launchctl" args);
  if success out then mret tt
  else
    let msg := trim (from_utf8_lossy (stderr out)) in
    let msg := if str_is_empty msg then trim (from_utf8_lossy (stdout out)) else msg in
    let msg := if str_is_empty msg then "exit " +:+ status_text out else msg in
    bail ("launchctl " +:+ join " " args +:+ " failed: " +:+ msg).

Definition service_loaded : cmd H bool := λ h,
  match command "launchctl" ["print"; domain] h with
  | (h, Ok out) => (h, Done (success out))
  | (h, Err _) => (h, Done false)
  end.

(** ** Privilege *)

Definition require_macos : cmd H unit :=
  match os with
  | Surface.Macos => mret tt
  | _ => bail "daemon install, up, down, remove, and status run on macOS"
  end.

Definition ensure_root : cmd H unit :=
  root ← gets is_root;
  if (root : bool) then mret tt
  else
    e ← gets elevating;
    if (e : bool) then bail "this command needs root"
    else
      exe ← with_context "finding this pai-sho" (λ h, (h, current_exe h));
      rest ← gets args;
      code ← with_context "running sudo"
               (sudo (["--preserve-env=PAI_SHO_ELEVATING"; "--"; exe] ++ rest));
      exit (default 1%Z code).

Definition prepare : cmd H unit := _ ← require_macos; ensure_root.

(** ** Files *)

Definition chown_root (path : string) : cmd H unit :=
  if str_contains "000"%char path then bail "path contains a nul"
  else λ h, match chown path 0 0 h with
            | (h, Ok _) => (h, Done tt)
            | (h, Err e) => (h, Failed ("chown " +:+ path +:+ ": " +:+ e))
            end.

Definition create_parent (path : string) : cmd H unit :=
  match parent path with
  | Some dir => with_context ("creating " +:+ dir) (create_dir_all dir)
  | None => mret tt
  end.

Definition write_root_file (path contents : string) (mode : Z) : cmd H unit :=
  _ ← create_parent path;
  let tmp := with_extension path "tmp" in
  _ ← with_context ("writing " +:+ tmp) (write_file tmp contents);
  _ ← with_context ("chmod " +:+ tmp) (set_permissions tmp mode);
  _ ← chown_root tmp;
  with_context ("replacing " +:+ path) (rename tmp path).

Definition place_binary (tmp dest : string) : cmd H unit :=
  _ ← with_context ("chmod " +:+ tmp) (set_permissions tmp 493);
  _ ← chown_root tmp;
  with_context ("replacing " +:+ dest) (rename tmp dest).

Definition install_binary : cmd H unit :=
  src ← with_context "finding this pai-sho" (λ h, (h, current_exe h));
  _ ← create_parent BIN;
  let tmp := with_file_name BIN ".pai-sho.installing" in
  _ ← with_context ("copying " +:+ src +:+ " to " +:+ tmp) (copy_file src tmp);
  on_error (place_binary tmp BIN) (λ e, _ ← does (λ h, (remove tmp h).1); bail e).

Definition remove_file (path : string) : cmd H unit := λ h,
  match remove path h with
  | (h, Removed) | (h, NotFound) => (h, Done tt)
  | (h, NotRemoved _) => (h, Failed ("removing " +:+ path))
  end.

(** [for x in l { f(x)? }]. *)
Fixpoint for_each {A} (l : list A) (f : A → cmd H unit) : cmd H unit :=
  match l with
  | [] => mret tt
  | x :: l => _ ← f x; for_each l f
  end.

Definition ensure_dirs : cmd H unit :=
  for_each ["/usr/local/libexec"; "/usr/local/var/log"; "/usr/local/var/pai-sho"]
    (λ dir, with_context ("creating " +:+ dir) (create_dir_all dir)).

(** ** Commands *)

Definition start (reload : bool) : cmd H unit :=
  _ ← launchctl ["enable"; domain];
  loaded ← service_loaded;
  if (loaded && negb reload)%bool then launchctl ["kickstart"; "-k"; domain]
  else
    _ ← (if (loaded : bool) then launchctl ["bootout"; domain] else mret tt);
    launchctl ["bootstrap"; "system"; PLIST].

Definition fetch_view : cmd H InstallView :=
  stream ← with_context "connecting to the daemon" (connect SOCKET);
  _ ← with_context "setting the read timeout" (set_read_timeout stream 1000);
  request ← try_result (to_json ReqList);
  _ ← with_context "writing the list request" (stream_write stream (request +:+ chr nl));
  line ← with_context "reading the list response" (stream_read_line stream);
  response ← try_result (from_json line);
  match response with
  | RespList info => mret (mkInstallView (li_me info) (length (li_peers info)))
  | RespError e => bail e
  | _ => bail "unexpected response from the daemon"
  end.

(** The loop of [wait_for_daemon]; [None] is fuel running out.  Times are in
    milliseconds. *)
Fixpoint wait_loop (fuel : nat) (deadline : Z) (h : H) : H * option (option InstallView) :=
  match fuel with
  | O => (h, None)
  | S fuel =>
      match fetch_view h with
      | (h, Done view) => (h, Some (Some view))
      | (h, _) =>
          if decide (clock h < deadline)%Z then wait_loop fuel deadline (sleep 100 h)
          else (h, Some None)
      end
  end.

(** Fifty sleeps reach the deadline. *)
Definition wait_for_daemon : cmd H (option InstallView) := λ h,
  let '(h, view) := wait_loop 52 (clock h + 5000) h in
  (h, Done (default None view)).

Definition install : cmd H unit :=
  _ ← prepare;
  _ ← ensure_dirs;
  _ ← install_binary;
  _ ← write_root_file OPERATOR operator_script 493;
  _ ← write_root_file PLIST plist 420;
  _ ← start true;
  view ← wait_for_daemon;
  does (println (install_message view)).

Definition not_installed : string := "pai-sho is not installed. Run `pai-sho daemon install`".

Definition up : cmd H unit :=
  _ ← prepare;
  there ← gets (path_exists PLIST);
  _ ← (if (there : bool) then mret tt else bail not_installed);
  restarting ← service_loaded;
  _ ← start false;
  does (println (if (restarting : bool) then "pai-sho restarted." else "pai-sho is running.")).

Definition down : cmd H unit :=
  _ ← prepare;
  there ← gets (path_exists PLIST);
  _ ← (if (there : bool) then mret tt
       else loaded ← service_loaded; if (loaded : bool) then mret tt else bail not_installed);
  loaded ← service_loaded;
  _ ← (if (loaded : bool) then launchctl ["bootout"; domain] else mret tt);
  _ ← launchctl ["disable"; domain];
  does (println "pai-sho is stopped. It stays stopped until `pai-sho daemon up`.").

Definition remove_service : cmd H unit :=
  _ ← prepare;
  loaded ← service_loaded;
  _ ← (if (loaded : bool) then launchctl ["bootout"; domain] else mret tt);
  _ ← ignore (launchctl ["enable"; domain]);
  _ ← for_each [PLIST; OPERATOR; BIN; RESOLVER; LOG] remove_file;
  kept ← gets (path_exists KEY);
  does (println (if (kept : bool) then "Service removed. Kept the key at " +:+ KEY
                 else "Service removed.")).

Definition owner_of_socket (path : string) (h : H) : option string :=
  uid ← metadata_uid path h;
  match getpwuid uid h with
  | Some name => Some name
  | None => Some (pretty uid)
  end.

Definition gather : cmd H ServiceStatus :=
  installed ← gets (path_exists PLIST);
  disabled_text ← launchctl_stdout ["print-disabled"; "system"];
  let disabled := label_disabled disabled_text LABEL in
  printed ← launchctl_output ["print"; domain];
  loaded ← (if success printed then mret true
            else let err := from_utf8_lossy (stderr printed) in
                 if contains_str "Could not find service" err then mret false
                 else bail ("launchctl print " +:+ domain +:+ " failed: " +:+ trim err));
  let text := from_utf8_lossy (stdout printed) in
  owner ← gets (owner_of_socket SOCKET);
  key ← gets (path_exists KEY);
  resolver ← gets (path_exists RESOLVER);
  mret (mkServiceStatus installed loaded disabled
          (if (loaded : bool) then field text "state" else None)
          (if (loaded : bool) then field text "pid" else None)
          owner key resolver).

Definition status : cmd H unit :=
  _ ← require_macos;
  s ← gather;
  text ← try_result (to_string_pretty (report s));
  does (println text).

End launchd.
End Launchd.
