(* ===== verification/Codec.v ===== *)
(** * The JSON form of messages and records

    What [#[derive(Serialize, Deserialize)]] makes of the types of
    [src/src/protocol.rs], [Pin], [SurfaceRecord] and [StatusReport]: for each
    type, the value it is written as and the values it is read from.  An enum is
    tagged by the name of its variant; a struct is an object, read with its
    fields in any order, or an array in their order; a field the type does not
    have is ignored, one given twice is an error, a missing one is an error
    unless it is an [Option] or has a default.  The text of values is
    [serde_json]'s ([Json.v]); with it the codecs give what the rest of the
    development asks of JSON: the lines of the control socket, the streams of
    peers and the record files. *)

From S2P Require Import Prelude RustStr Text Json Store Enroll Surface Protocol Wire Launchd.

(** A type's values and how they are read. *)
Record Codec (A : Type) : Type := mkCodec { enc : A → Json; dec : Json → option A }.
Arguments mkCodec {A}.
Arguments enc {A}.
Arguments dec {A}.

Module Serde.

(** ** Fields and variants *)

Definition string_codec : Codec string :=
  mkCodec JStr (λ v, match v with JStr s => Some s | _ => None end).

Definition bool_codec : Codec bool :=
  mkCodec JBool (λ v, match v with JBool b => Some b | _ => None end).

Definition u16_codec : Codec Z :=
  mkCodec JInt (λ v, match v with
                     | JInt n => if decide (u16_range n) then Some n else None
                     | _ => None
                     end).

Definition option_codec {A} (c : Codec A) : Codec (option A) :=
  mkCodec (λ o, match o with Some a => enc c a | None => JNull end)
          (λ v, match v with JNull => Some None | _ => Some <$> dec c v end).

Definition vec_codec {A} (c : Codec A) : Codec (list A) :=
  mkCodec (λ l, JArr (enc c <$> l))
          (λ v, match v with JArr l => mapM (dec c) l | _ => None end).

Definition Fields : Type := list (string * Json).

Definition named (name : string) (o : Fields) : Fields :=
  List.filter (λ e, String.eqb e.1 name) o.

(** The field [name], the [i]th of its struct: [missing] stands for it in an
    object, [absent] in an array that is too short. *)
Definition field {A} (c : Codec A) (missing absent : option A) (name : string) (i : nat)
    (v : Json) : option A :=
  match v with
  | JObj o => match named name o with
              | [] => missing
              | [e] => dec c e.2
              | _ => None
              end
  | JArr l => match l !! i with
              | Some x => dec c x
              | None => absent
              end
  | _ => None
  end.

Definition required {A} (c : Codec A) : string → nat → Json → option A := field c None None.

(** An [Option] without and with [#[serde(default)]]. *)
Definition optional {A} (c : Codec A) : string → nat → Json → option (option A) :=
  field (option_codec c) (Some None) None.

Definition defaulted {A} (c : Codec A) (d : A) : string → nat → Json → option A :=
  field c (Some d) (Some d).

(** The fields of a struct of [n]. *)
Definition struct {A} (n : nat) (f : Json → option A) (v : Json) : option A :=
  match v with
  | JObj _ => f v
  | JArr l => if decide (length l <= n) then f v else None
  | _ => None
  end.

(** The variant of an enum and what comes with it. *)
Definition variant (v : Json) : option (string * option Json) :=
  match v with
  | JStr name => Some (name, None)
  | JObj [(name, payload)] => Some (name, Some payload)
  | _ => None
  end.

Definition unit_variant {A} (a : A) (payload : option Json) : option A :=
  match payload with
  | None | Some JNull => Some a
  | _ => None
  end.

(** The reader of the variant that is named. *)
Fixpoint choose {A} (l : list (string * (option Json → option A))) (name : string)
    (payload : option Json) : option A :=
  match l with
  | [] => None
  | (n, f) :: l => if String.eqb n name then f payload else choose l name payload
  end.

Definition enum {A} (l : list (string * (option Json → option A))) (v : Json) : option A :=
  '(name, payload) ← variant v; choose l name payload.

Definition with_payload {A} (f : Json → option A) (payload : option Json) : option A :=
  payload ≫= f.

Definition tagged (name : string) (v : Json) : Json := JObj [(name, v)].

(** ** The control socket *)
Import Protocol.

Definition request_codec : Codec Request := mkCodec
  (λ r, match r with
        | ReqInvite key name expose =>
            tagged "Invite" (JObj [("key", enc (option_codec string_codec) key);
                                   ("name", enc (option_codec string_codec) name);
                                   ("expose", enc (vec_codec u16_codec) expose)])
        | ReqAccept handle name =>
            tagged "Accept" (JObj [("handle", JStr handle);
                                   ("name", enc (option_codec string_codec) name)])
        | ReqForget peer => tagged "Forget" (JObj [("peer", JStr peer)])
        | ReqExpose port to all =>
            tagged "Expose" (JObj [("port", JInt port); ("to", enc (vec_codec string_codec) to);
                                   ("all", JBool all)])
        | ReqUnexpose port to =>
            tagged "Unexpose" (JObj [("port", JInt port);
                                     ("to", enc (option_codec string_codec) to)])
        | ReqList => JStr "List"
        | ReqKey => JStr "Key"
        | ReqProject peer ip name =>
            tagged "Project" (JObj [("peer", JStr peer);
                                    ("ip", enc (option_codec string_codec) ip);
                                    ("name", enc (option_codec string_codec) name)])
        | ReqUnproject peer => tagged "Unproject" (JObj [("peer", JStr peer)])
        end)
  (enum [("Invite", with_payload (struct 3 (λ v,
            key ← optional string_codec "key" 0 v; name ← optional string_codec "name" 1 v;
            expose ← required (vec_codec u16_codec) "expose" 2 v;
            Some (ReqInvite key name expose))));
         ("Accept", with_payload (struct 2 (λ v,
            handle ← required string_codec "handle" 0 v; name ← optional string_codec "name" 1 v;
            Some (ReqAccept handle name))));
         ("Forget", with_payload (struct 1 (λ v,
            peer ← required string_codec "peer" 0 v; Some (ReqForget peer))));
         ("Expose", with_payload (struct 3 (λ v,
            port ← required u16_codec "port" 0 v; to ← required (vec_codec string_codec) "to" 1 v;
            all ← required bool_codec "all" 2 v; Some (ReqExpose port to all))));
         ("Unexpose", with_payload (struct 2 (λ v,
            port ← required u16_codec "port" 0 v; to ← optional string_codec "to" 1 v;
            Some (ReqUnexpose port to))));
         ("List", unit_variant ReqList);
         ("Key", unit_variant ReqKey);
         ("Project", with_payload (struct 3 (λ v,
            peer ← required string_codec "peer" 0 v; ip ← optional string_codec "ip" 1 v;
            name ← optional string_codec "name" 2 v; Some (ReqProject peer ip name))));
         ("Unproject", with_payload (struct 1 (λ v,
            peer ← required string_codec "peer" 0 v; Some (ReqUnproject peer))))]).

Definition grant_info_codec : Codec GrantInfo := mkCodec
  (λ g, JObj [("port", JInt (gi_port g)); ("to", JStr (gi_to g))])
  (struct 2 (λ v, port ← required u16_codec "port" 0 v; to ← required string_codec "to" 1 v;
                  Some (mkGrantInfo port to))).

Definition peer_info_codec : Codec PeerInfo := mkCodec
  (λ p, JObj [("key", JStr (pi_key p)); ("name", enc (option_codec string_codec) (pi_name p));
              ("version", enc (option_codec string_codec) (pi_version p));
              ("online", JBool (pi_online p)); ("admission", JStr (pi_admission p));
              ("they_expose", enc (vec_codec u16_codec) (pi_they_expose p));
              ("ip", enc (option_codec string_codec) (pi_ip p));
              ("bound", enc (vec_codec u16_codec) (pi_bound p))])
  (struct 8 (λ v,
     key ← required string_codec "key" 0 v; name ← optional string_codec "name" 1 v;
     version ← defaulted (option_codec string_codec) None "version" 2 v;
     online ← required bool_codec "online" 3 v; admission ← required string_codec "admission" 4 v;
     they_expose ← required (vec_codec u16_codec) "they_expose" 5 v;
     ip ← optional string_codec "ip" 6 v; bound ← required (vec_codec u16_codec) "bound" 7 v;
     Some (mkPeerInfo key name version online admission they_expose ip bound))).

(** [cli] is left out while it is empty. *)
Definition list_info_codec : Codec ListInfo := mkCodec
  (λ i, JObj ([("me", JStr (li_me i))] ++
              (if str_is_empty (li_cli i) then [] else [("cli", JStr (li_cli i))]) ++
              [("daemon", JStr (li_daemon i));
               ("peers", enc (vec_codec peer_info_codec) (li_peers i));
               ("i_expose", enc (vec_codec u16_codec) (li_i_expose i));
               ("grants", enc (vec_codec grant_info_codec) (li_grants i))]))
  (struct 6 (λ v,
     me ← required string_codec "me" 0 v; cli ← defaulted string_codec EmptyString "cli" 1 v;
     daemon ← defaulted string_codec EmptyString "daemon" 2 v;
     peers ← required (vec_codec peer_info_codec) "peers" 3 v;
     i_expose ← required (vec_codec u16_codec) "i_expose" 4 v;
     grants ← required (vec_codec grant_info_codec) "grants" 5 v;
     Some (mkListInfo me cli daemon peers i_expose grants))).

Definition response_codec : Codec Response := mkCodec
  (λ r, match r with
        | RespOk => JStr "Ok"
        | RespKey key => tagged "Key" (JStr key)
        | RespList info => tagged "List" (enc list_info_codec info)
        | RespInvite invite => tagged "Invite" (JStr invite)
        | RespError e => tagged "Error" (JStr e)
        end)
  (enum [("Ok", unit_variant RespOk);
         ("Key", with_payload (λ v, RespKey <$> dec string_codec v));
         ("List", with_payload (λ v, RespList <$> dec list_info_codec v));
         ("Invite", with_payload (λ v, RespInvite <$> dec string_codec v));
         ("Error", with_payload (λ v, RespError <$> dec string_codec v))]).

(** ** Peers *)

Definition message_codec : Codec PeerMessage := mkCodec
  (λ m, match m with
        | ExposedPorts ports => tagged "ExposedPorts" (enc (vec_codec u16_codec) ports)
        | Connect port => tagged "Connect" (JObj [("port", JInt port)])
        | Enroll token version =>
            tagged "Enroll" (JObj [("token", JStr token);
                                   ("version", enc (option_codec string_codec) version)])
        | MsgError e => tagged "Error" (JStr e)
        end)
  (enum [("ExposedPorts", with_payload (λ v, ExposedPorts <$> dec (vec_codec u16_codec) v));
         ("Connect", with_payload (struct 1 (λ v,
            port ← required u16_codec "port" 0 v; Some (Connect port))));
         ("Enroll", with_payload (struct 2 (λ v,
            token ← required string_codec "token" 0 v;
            version ← defaulted (option_codec string_codec) None "version" 1 v;
            Some (Enroll token version))));
         ("Error", with_payload (λ v, MsgError <$> dec string_codec v))]).

(** How 0.5.0 reads an [Enroll]: it has a token and nothing else. *)
Definition old_enroll (v : Json) : option string :=
  enum [("Enroll", with_payload (struct 1 (required string_codec "token" 0)))] v.

(** ** Records and reports *)

Definition pin_codec : Codec Pins.Pin := mkCodec
  (λ p, JObj [("key", JStr (Pins.key p)); ("label", enc (option_codec string_codec) (Pins.label p))])
  (struct 2 (λ v, key ← required string_codec "key" 0 v;
                  label ← defaulted (option_codec string_codec) None "label" 1 v;
                  Some (Pins.mkPin key label))).

Section ip.
(** [IpAddr] is written and read as its text. *)
Variable ip_to_string : Surface.IpAddr → string.
Variable parse_ip : string → option Surface.IpAddr.

Definition ip_codec : Codec Surface.IpAddr := mkCodec
  (λ ip, JStr (ip_to_string ip)) (λ v, match v with JStr s => parse_ip s | _ => None end).

Definition surface_record_codec : Codec Surface.SurfaceRecord := mkCodec
  (λ r, JObj [("key", JStr (Surface.rec_key r)); ("ip", enc ip_codec (Surface.rec_ip r));
              ("name", enc (option_codec string_codec) (Surface.rec_name r))])
  (struct 3 (λ v, key ← required string_codec "key" 0 v; ip ← required ip_codec "ip" 1 v;
                  name ← optional string_codec "name" 2 v;
                  Some (Surface.mkSurfaceRecord key ip name))).

End ip.

Definition status_report_value (r : Launchd.StatusReport) : Json :=
  JObj [("service", JStr (Launchd.r_service r)); ("state", JStr (Launchd.r_state r));
        ("pid", match Launchd.r_pid r with Some n => JInt n | None => JNull end);
        ("disabled", JBool (Launchd.r_disabled r)); ("installed", JBool (Launchd.r_installed r));
        ("loaded", JBool (Launchd.r_loaded r));
        ("socket", enc (option_codec string_codec) (Launchd.r_socket r));
        ("socket_owner", enc (option_codec string_codec) (Launchd.r_socket_owner r));
        ("key", enc (option_codec string_codec) (Launchd.r_key r));
        ("resolver", enc (option_codec string_codec) (Launchd.r_resolver r));
        ("log", JStr (Launchd.r_log r))].

End Serde.

(** ** Lemmas *)
Section codec_lemmas.
Import Serde Protocol.

(** What a codec promises of the values of a type that are [ok]. *)
Record good {A} (c : Codec A) (ok : A → Prop) : Prop := {
  enc_plain : ∀ a, plain (enc c a) = true;
  dec_enc : ∀ a, ok a → dec c (enc c a) = Some a;
  dec_ok : ∀ v a, dec c v = Some a → ok a;
}.

Lemma good_string : good string_codec (λ _, True).
Proof. by split. Qed.

Lemma good_bool : good bool_codec (λ _, True).
Proof. by split. Qed.

Lemma good_u16 : good u16_codec u16_range.
Proof.
  split; [done|intros n Hn; simpl; by rewrite decide_True|].
  intros [] a; simpl; try done. case_decide; [|done]. by intros [= <-].
Qed.

Lemma good_option_string : good (option_codec string_codec) (λ _, True).
Proof. split; [by intros []|by intros []|done]. Qed.

Lemma good_vec {A} (c : Codec A) ok : good c ok → good (vec_codec c) (Forall ok).
Proof.
  intros [Hp He Hd]. split.
  - intros l. simpl. apply forallb_forall. intros v (a & <- & _)%in_map_iff. apply Hp.
  - intros l Hl. simpl. apply mapM_Some, Forall2_fmap_l, Forall_Forall2_diag.
    eapply Forall_impl; [exact Hl|]. exact He.
  - intros [| | | | |vs|] l; simpl; try done. intros Hl%mapM_Some. clear -Hl Hd.
    induction Hl; constructor; eauto.
Qed.

Lemma good_weaken {A} (c : Codec A) (P Q : A → Prop) :
  good c P → (∀ a, P a ↔ Q a) → good c Q.
Proof. intros [? He Hd] Hpq. split; [done|intros; apply He; naive_solver|naive_solver]. Qed.

Lemma dec_option_string o : dec (option_codec string_codec) (enc (option_codec string_codec) o) = Some o.
Proof. by apply good_option_string. Qed.

Lemma dec_u16s l : u16s l → dec (vec_codec u16_codec) (enc (vec_codec u16_codec) l) = Some l.
Proof. apply (good_vec _ _ good_u16). Qed.

Lemma dec_strings l : dec (vec_codec string_codec) (enc (vec_codec string_codec) l) = Some l.
Proof. apply (good_vec _ _ good_string). by apply Forall_true. Qed.

Lemma dec_u16 n : u16_range n → dec u16_codec (JInt n) = Some n.
Proof. apply good_u16. Qed.

Lemma plain_u16s l : plain (enc (vec_codec u16_codec) l) = true.
Proof. apply (good_vec _ _ good_u16). Qed.

Lemma plain_strings l : plain (enc (vec_codec string_codec) l) = true.
Proof. apply (good_vec _ _ good_string). Qed.

Lemma plain_option o : plain (enc (option_codec string_codec) o) = true.
Proof. apply good_option_string. Qed.

(** Read back a struct that was written: its fields are found by their names. *)
Ltac read_back :=
  repeat (cbn -[option_codec vec_codec u16_codec];
          rewrite ?dec_option_string, ?dec_u16s, ?dec_strings, ?dec_u16 by done); try done.

(** Whatever is read is what some reader of a variant, or of a struct, gave. *)
Lemma enum_ok {A} (P : A → Prop) l v a :
  Forall (λ e, ∀ payload a, e.2 payload = Some a → P a) l → enum l v = Some a → P a.
Proof.
  intros Hl. unfold enum. destruct (variant v) as [[name payload]|]; [|done]. simpl.
  induction Hl as [|[n f] l Hf _ IH]; simpl; [done|]. destruct (String.eqb n name); eauto.
Qed.

Lemma payload_ok {A} (P : A → Prop) f payload a :
  (∀ v a, f v = Some a → P a) → with_payload f payload = Some a → P a.
Proof. intros Hf. destruct payload; simpl; [apply Hf|done]. Qed.

Lemma struct_ok {A} (P : A → Prop) n f v a :
  (∀ v a, f v = Some a → P a) → struct n f v = Some a → P a.
Proof. intros Hf. destruct v; simpl; try done; [case_decide; [|done]|]; apply Hf. Qed.

Lemma unit_ok {A} (P : A → Prop) b payload a : P b → unit_variant b payload = Some a → P a.
Proof. intros Hb. destruct payload as [[]|]; simpl; try done; by intros [= <-]. Qed.

Lemma required_ok {A} (c : Codec A) ok name i v a :
  good c ok → required c name i v = Some a → ok a.
Proof.
  intros [_ _ Hd]. unfold required, field. destruct v as [| | | | |l|o]; try done.
  - destruct (l !! i); [apply Hd|done].
  - destruct (named name o) as [|? []]; try done. apply Hd.
Qed.

(** What the fields that were read satisfy. *)
Ltac read_inv :=
  simpl; repeat match goal with
  | H : _ ≫= _ = Some _ |- _ => apply bind_Some in H as (? & ? & H)
  | H : _ <$> _ = Some _ |- _ => apply fmap_Some in H as (? & H & ?)
  end; simplify_eq; simpl;
  repeat match goal with
  | H : required u16_codec _ _ _ = Some _ |- _ => apply (required_ok _ _ _ _ _ _ good_u16) in H
  | H : required (vec_codec u16_codec) _ _ _ = Some _ |- _ =>
      apply (required_ok _ _ _ _ _ _ (good_vec _ _ good_u16)) in H
  end; try done.

Ltac each_variant :=
  apply enum_ok; repeat (apply Forall_cons; split; [simpl|]); [..|by constructor].

Lemma good_request : good request_codec typed_request.
Proof.
  split.
  - intros []; cbn -[option_codec vec_codec];
      rewrite ?plain_u16s, ?plain_strings, ?plain_option; done.
  - intros [] Hr; simpl in Hr; read_back.
  - intros v r. each_variant; intros payload a;
      first [by apply unit_ok | apply payload_ok; intros ? ?; apply struct_ok; intros; read_inv].
Qed.

Lemma good_grant_info : good grant_info_codec (λ g, u16_range (gi_port g)).
Proof.
  split; [done|intros [] Hg; simpl in Hg; read_back|].
  intros v g. apply (struct_ok (λ g, u16_range (gi_port g))). intros. read_inv.
Qed.

Lemma good_peer_info : good peer_info_codec typed_peer.
Proof.
  split.
  - intros []. cbn -[option_codec vec_codec]. by rewrite ?plain_u16s, ?plain_option.
  - intros [] [Ht Hb]. simpl in Ht, Hb. read_back.
  - intros v p. apply struct_ok. intros. unfold typed_peer. read_inv.
Qed.

Lemma good_list_info : good list_info_codec typed_list.
Proof.
  pose proof (good_vec _ _ good_peer_info) as Hp. pose proof (good_vec _ _ good_grant_info) as Hg.
  split.
  - intros [me cli daemon peers i_expose grants].
    destruct cli; cbn -[option_codec vec_codec peer_info_codec grant_info_codec];
      by rewrite plain_u16s, (enc_plain _ _ Hp), (enc_plain _ _ Hg).
  - intros [me cli daemon peers i_expose grants] (Hps & He & Hgs). simpl in Hps, He, Hgs.
    destruct cli as [|c cli]; cbn -[option_codec vec_codec u16_codec peer_info_codec grant_info_codec];
      rewrite (dec_enc _ _ Hp), dec_u16s by done;
      cbn -[option_codec vec_codec u16_codec peer_info_codec grant_info_codec];
      by rewrite (dec_enc _ _ Hg) by done.
  - intros v i. apply struct_ok. intros v' i' H. unfold typed_list.
    repeat (apply bind_Some in H as (? & ? & H)). injection H as <-. simpl.
    split_and!; eapply required_ok; try eassumption. apply good_vec, good_u16.
Qed.

Lemma good_response : good response_codec typed_response.
Proof.
  pose proof good_list_info as Hi. split.
  - intros []; try done. cbn -[list_info_codec]. by rewrite (enc_plain _ _ Hi).
  - intros [] Hr; try done. simpl in Hr. cbn -[list_info_codec]. by rewrite (dec_enc _ _ Hi).
  - intros v r. each_variant; intros payload a;
      first [by apply unit_ok | apply payload_ok; intros; read_inv]. by eapply dec_ok.
Qed.

Lemma good_message : good message_codec typed_message.
Proof.
  split.
  - intros []; cbn -[option_codec vec_codec]; rewrite ?plain_u16s, ?plain_option; done.
  - intros [] Hm; simpl in Hm; read_back.
  - intros v m. each_variant; intros payload a; apply payload_ok; intros v' a';
      [intros H|apply struct_ok; intros; read_inv..|intros; read_inv].
    apply fmap_Some in H as (l & H & ->). by apply (good_vec _ _ good_u16) in H.
Qed.

Lemma good_pin : good pin_codec (λ _, True).
Proof.
  split; [|intros [] _; read_back|done].
  intros []. cbn -[option_codec]. by rewrite plain_option.
Qed.

Lemma good_surface_record show parse :
  (∀ ip, parse (show ip) = Some ip) → good (surface_record_codec show parse) (λ _, True).
Proof.
  intros Hip. split; [| |done].
  - intros []. cbn -[option_codec]. by rewrite plain_option.
  - intros [] _. cbn -[option_codec]. rewrite Hip. cbn -[option_codec].
    by rewrite dec_option_string.
Qed.

End codec_lemmas.

(** ** What the rest of the development asks of JSON *)

Definition json_text `{!JsonLib} {A} (c : Codec A) : JsonText A := {|
  to_json a := Ok (to_text (enc c a));
  from_json s := ok_or (of_text s ≫= dec c) (json_error s);
|}.

Definition record_codec `{!JsonLib} {R} (c : Codec R) : JsonCodec R := {|
  to_vec_pretty l := Ok (str_bytes (to_text_pretty (enc (Serde.vec_codec c) l)));
  from_slice d := of_text (str_of_bytes d) ≫= dec (Serde.vec_codec c);
|}.

Section instances.
Context `{!JsonLib}.

Lemma json_text_laws `{!JsonLibLaws} {A} (c : Codec A) ok :
  good c ok → @JsonTextLaws A (json_text c) ok.
Proof.
  intros [Hp He Hd]. split.
  - intros a Ha. exists (to_text (enc c a)). split; [done|]. split; [by apply text_one_line|].
    simpl. rewrite text_line_reads_back by done. simpl. by rewrite He.
  - intros s a. simpl. destruct (of_text s) as [v|]; [|done]. simpl.
    destruct (dec c v) as [a'|] eqn:Hv; [|done]. intros [= <-]. by eapply Hd.
Qed.

Lemma record_codec_laws `{!JsonLibLaws} {R} (c : Codec R) :
  good c (λ _, True) → @JsonCodecLaws R (record_codec c).
Proof.
  intros Hc. pose proof (good_vec c _ Hc) as [Hp He _]. split. intros l.
  eexists. split; [done|]. simpl. rewrite str_of_bytes_bytes, pretty_reads_back by apply Hp.
  simpl. apply He. by apply Forall_true.
Qed.

#[export] Instance request_json : JsonText Protocol.Request := json_text Serde.request_codec.
#[export] Instance response_json : JsonText Protocol.Response := json_text Serde.response_codec.

#[export] Instance request_json_laws `{!JsonLibLaws} :
  JsonTextLaws Protocol.Request Protocol.typed_request := json_text_laws _ _ good_request.
#[export] Instance response_json_laws `{!JsonLibLaws} :
  JsonTextLaws Protocol.Response Protocol.typed_response := json_text_laws _ _ good_response.

End instances.
