(* ===== verification/CodecProps.v ===== *)
(** * JSON forms: properties

    What is written is read back, whoever reads it: the same version, whatever
    the order of the fields; an older or a newer one, which has fewer fields or
    more.  [Pin] and [SurfaceRecord] files are the JSON lists that [Store.v]
    needs. *)

From S2P Require Import Prelude RustStr Keys Text Json Store Enroll Surface Protocol Wire Launchd Codec.

Module Skew.
Import Serde Protocol.

(** A peer, and a list, as a daemon wrote them before they had versions. *)
Definition old_peer_value (p : PeerInfo) : Json :=
  JObj [("key", JStr (pi_key p)); ("name", enc (option_codec string_codec) (pi_name p));
        ("online", JBool (pi_online p)); ("admission", JStr (pi_admission p));
        ("they_expose", enc (vec_codec u16_codec) (pi_they_expose p));
        ("ip", enc (option_codec string_codec) (pi_ip p));
        ("bound", enc (vec_codec u16_codec) (pi_bound p))].

Definition old_list_value (i : ListInfo) : Json :=
  JObj [("me", JStr (li_me i)); ("peers", JArr (old_peer_value <$> li_peers i));
        ("i_expose", enc (vec_codec u16_codec) (li_i_expose i));
        ("grants", enc (vec_codec grant_info_codec) (li_grants i))].

(** What is left of them without versions. *)
Definition without_version (p : PeerInfo) : PeerInfo :=
  mkPeerInfo (pi_key p) (pi_name p) None (pi_online p) (pi_admission p) (pi_they_expose p)
             (pi_ip p) (pi_bound p).

Definition without_versions (i : ListInfo) : ListInfo :=
  mkListInfo (li_me i) EmptyString EmptyString (without_version <$> li_peers i) (li_i_expose i)
             (li_grants i).

(** The object [o'] has the fields of [o], in any order and among others. *)
Definition extends (o' o : Fields) : Prop :=
  ∃ extra, o' ≡ₚ o ++ extra ∧ ∀ e, e ∈ extra → e.1 ∉ o.*1.

End Skew.

(** ** Lemmas *)
Section skew_lemmas.
Import Serde Protocol Skew.

Lemma named_app name (o o' : Fields) : named name (o ++ o') = named name o ++ named name o'.
Proof. apply List.filter_app. Qed.

Lemma named_none name (o : Fields) : name ∉ o.*1 → named name o = [].
Proof.
  induction o as [|[n v] o IH]; [done|]. csimpl. rewrite not_elem_of_cons. intros [Hn Ho].
  unfold named. simpl. destruct (String.eqb_spec n name); [by subst|]. by apply IH.
Qed.

Lemma named_permutation name (o o' : Fields) : o ≡ₚ o' → named name o ≡ₚ named name o'.
Proof.
  unfold named. induction 1 as [|e o o' _ IH|e1 e2 o|o1 o2 o3 _ IH1 _ IH2]; simpl.
  - done.
  - destruct (String.eqb _ _); [by constructor|done].
  - destruct (String.eqb _ _), (String.eqb _ _); try done. constructor.
  - by etrans.
Qed.

Lemma named_one name (o : Fields) : NoDup o.*1 → name ∈ o.*1 → ∃ e, named name o = [e].
Proof.
  induction o as [|[n v] o IH]; csimpl; [by intros _ ?%elem_of_nil|].
  intros [Hn Ho]%NoDup_cons. unfold named. simpl.
  destruct (String.eqb_spec n name) as [->|Hne].
  - intros _. exists (name, v). f_equal. by apply named_none.
  - intros [->|Hin]%elem_of_cons; [done|]. by apply IH.
Qed.

Lemma extends_named o o' name :
  extends o' o → NoDup o.*1 → name ∈ o.*1 → named name o' = named name o.
Proof.
  intros (extra & Hp & Hextra) Hnd Hin. destruct (named_one name o Hnd Hin) as [e He].
  rewrite He. apply Permutation_singleton_r. rewrite (named_permutation name _ _ Hp), named_app, He.
  rewrite (named_none name extra); [done|]. intros ([n v] & -> & Hx)%list_elem_of_fmap.
  by apply (Hextra _ Hx).
Qed.

Lemma extends_field {A} (c : Codec A) missing absent name i o o' :
  extends o' o → NoDup o.*1 → name ∈ o.*1 →
  field c missing absent name i (JObj o') = field c missing absent name i (JObj o).
Proof. intros Hx Hnd Hin. simpl. by rewrite (extends_named o o' name). Qed.

(** A struct's reader looks at the fields it names. *)
Ltac same_fields :=
  match goal with Hx : extends ?o' ?o |- _ =>
    assert (Hnd : NoDup o.*1) by (apply (bool_decide_unpack _); by vm_compute);
    cbn -[field option_codec vec_codec u16_codec string_codec bool_codec];
    unfold required, optional, defaulted;
    rewrite ?(λ A c m a n i, extends_field (A:=A) c m a n i _ _ Hx Hnd)
      by (apply (bool_decide_unpack _); by vm_compute); done
  end.

Lemma request_extends req variant o o' :
  enc request_codec req = tagged variant (JObj o) → extends o' o →
  dec request_codec (tagged variant (JObj o')) = dec request_codec (tagged variant (JObj o)).
Proof. destruct req; intros [= <- <-] Hx; same_fields. Qed.

Lemma message_extends msg variant o o' :
  enc message_codec msg = tagged variant (JObj o) → extends o' o →
  dec message_codec (tagged variant (JObj o')) = dec message_codec (tagged variant (JObj o)).
Proof. destruct msg; intros [= <- <-] Hx; same_fields. Qed.

Lemma old_peer_reads p :
  typed_peer p → dec peer_info_codec (old_peer_value p) = Some (without_version p).
Proof.
  destruct p as [key name version online admission they_expose ip bound]. intros [He Hb].
  simpl in He, Hb. cbn -[option_codec vec_codec u16_codec].
  repeat (rewrite ?dec_option_string, ?dec_u16s by done; cbn -[option_codec vec_codec u16_codec]).
  done.
Qed.

Lemma old_list_reads i :
  typed_list i → dec list_info_codec (old_list_value i) = Some (without_versions i).
Proof.
  destruct i as [me cli daemon peers i_expose grants]. intros (Hp & He & Hg).
  simpl in Hp, He, Hg.
  assert (Hps : mapM (dec peer_info_codec) (old_peer_value <$> peers) = Some (without_version <$> peers)).
  { apply mapM_Some, Forall2_fmap, Forall_Forall2_diag. eapply Forall_impl; [exact Hp|].
    intros p. apply old_peer_reads. }
  pose proof (dec_enc _ _ (good_vec _ _ good_grant_info) grants Hg) as Hgs.
  cbn -[option_codec vec_codec u16_codec peer_info_codec grant_info_codec old_peer_value].
  change (dec (vec_codec peer_info_codec) (JArr ?l)) with (mapM (dec peer_info_codec) l).
  rewrite Hps. cbn -[option_codec vec_codec u16_codec peer_info_codec grant_info_codec].
  rewrite dec_u16s by done. cbn -[option_codec vec_codec u16_codec peer_info_codec grant_info_codec].
  by rewrite Hgs.
Qed.

Lemma plain_old_list i : plain (old_list_value i) = true.
Proof.
  destruct i as [me cli daemon peers i_expose grants].
  cbn -[option_codec vec_codec old_peer_value].
  rewrite plain_u16s, (enc_plain _ _ (good_vec _ _ good_grant_info)), andb_true_r.
  apply forallb_forall. intros v (p & <- & _)%in_map_iff. destruct p.
  cbn -[option_codec vec_codec]. by rewrite ?plain_u16s, ?plain_option.
Qed.

End skew_lemmas.

(** A text of a value that the codec reads. *)
Lemma read_value_of `{!JsonLib} {A} (c : Codec A) t v a :
  of_text t = Some v → dec c v = Some a →
  @from_json A (json_text c) t = Ok a ∧ of_text t ≫= dec c = Some a.
Proof. intros Ht Ha. simpl. rewrite Ht. simpl. by rewrite Ha. Qed.

(** A message as the bytes of a stream, and what is read from any text. *)
Lemma message_reads_back `{!JsonLib} `{!JsonLibLaws} msg :
  Protocol.typed_message msg →
  of_text (str_of_bytes (str_bytes (to_text (enc Serde.message_codec msg)))) ≫= dec Serde.message_codec = Some msg.
Proof.
  intros Hm. pose proof good_message as [Hp He _].
  rewrite str_of_bytes_bytes, text_reads_back by done. by apply He.
Qed.

Lemma message_typed `{!JsonLib} text msg :
  of_text text ≫= dec Serde.message_codec = Some msg → Protocol.typed_message msg.
Proof. intros (v & _ & Hv)%bind_Some. by eapply dec_ok; [apply good_message|]. Qed.

(** The record files of the daemon. *)
#[export] Instance pin_json `{!JsonLib} : JsonCodec Pins.Pin := record_codec Serde.pin_codec.
#[export] Instance pin_json_laws `{!JsonLib} `{!JsonLibLaws} : JsonCodecLaws Pins.Pin :=
  record_codec_laws _ good_pin.

(** ** Properties *)
Section codec_properties.
Import Serde Protocol Skew.
Context `{!JsonLib} `{!JsonLibLaws}.

(** C19: What is written reads back.  A request and a response go over the
    control socket as one line that is read as the same value, and a peer message
    over a stream as bytes that are; a pin file and a surface file are read as the
    records they were written from, an address as its text; and no request line
    and no message is read with a port that is not a [u16]. *)
Theorem messages_read_back (ip_to_string : Surface.IpAddr → string)
    (parse_ip : string → option Surface.IpAddr) (req : Request) (resp : Response)
    (msg : PeerMessage) (pins : list Pins.Pin) (surfaces : list Surface.SurfaceRecord) :
  typed_request req → typed_response resp → typed_message msg →
  (∀ ip, parse_ip (ip_to_string ip) = Some ip) →
  (∃ s, to_json req = Ok s ∧ Forall_str (λ c, c ≠ nl) s ∧ from_json (s +:+ chr nl) = Ok req) ∧
  (∃ s, to_json resp = Ok s ∧ Forall_str (λ c, c ≠ nl) s ∧ from_json (s +:+ chr nl) = Ok resp) ∧
  of_text (str_of_bytes (str_bytes (to_text (enc message_codec msg)))) ≫= dec message_codec = Some msg ∧
  (∃ d, to_vec_pretty pins = Ok d ∧ from_slice d = Some pins) ∧
  (let codec := record_codec (surface_record_codec ip_to_string parse_ip) in
   ∃ d, @to_vec_pretty _ codec surfaces = Ok d ∧ @from_slice _ codec d = Some surfaces) ∧
  (∀ line r, from_json line = Ok r → typed_request r) ∧
  (∀ text r, of_text text ≫= dec message_codec = Some r → typed_message r).
Proof.
  intros Hreq Hresp Hmsg Hip. split_and!.
  - by apply json_line.
  - by apply json_line.
  - by apply message_reads_back.
  - apply from_slice_to_vec.
  - apply (@from_slice_to_vec _ _ (record_codec_laws _ (good_surface_record _ _ Hip))).
  - intros line r. apply json_typed.
  - intros text r. apply message_typed.
Qed.

(** The order of fields does not matter, and unknown ones are ignored.  Of
    the object a request or a message is written as, any rearrangement with any
    further fields is read as the same request or message. *)
Theorem fields_in_any_order (o o' : Fields) (variant : string) (req : Request)
    (msg : PeerMessage) :
  typed_request req → typed_message msg → extends o' o → plain (JObj o') = true →
  (enc request_codec req = tagged variant (JObj o) →
   from_json (to_text (tagged variant (JObj o'))) = Ok req) ∧
  (enc message_codec msg = tagged variant (JObj o) →
   of_text (to_text (tagged variant (JObj o'))) ≫= dec message_codec = Some msg).
Proof.
  intros Hreq Hmsg Hx Hp.
  assert (Ht : of_text (to_text (tagged variant (JObj o'))) = Some (tagged variant (JObj o'))).
  { apply text_reads_back. unfold tagged. cbn [plain forallb snd] in *. by rewrite Hp. }
  split; intros He; eapply (read_value_of _ _ _ _ Ht).
  - rewrite (request_extends _ _ _ _ He Hx), <- He. by apply (dec_enc _ _ good_request).
  - rewrite (message_extends _ _ _ _ He Hx), <- He. by apply (dec_enc _ _ good_message).
Qed.

(** C20: versions understand each other.  The [Enroll] of a daemon that has no
    versions is read as one without a version; a daemon that has none reads the
    token of ours; and the [list] of an older daemon is read with its versions
    empty and all else as it was. *)
Theorem versions_interoperate (token : string) (version : option string) (info : ListInfo) :
  typed_list info →
  of_text (to_text (tagged "Enroll" (JObj [("token", JStr token)]))) ≫= dec message_codec =
    Some (Enroll token None) ∧
  of_text (to_text (enc message_codec (Enroll token version))) ≫= old_enroll = Some token ∧
  from_json (to_text (tagged "List" (old_list_value info))) = Ok (RespList (without_versions info)).
Proof.
  intros Hi. split_and!.
  - by rewrite text_reads_back.
  - rewrite text_reads_back by apply good_message. by destruct version.
  - eapply (read_value_of response_codec).
    + apply text_reads_back. unfold tagged. cbn [plain forallb snd]. by rewrite plain_old_list.
    + cbn -[list_info_codec old_list_value]. by rewrite old_list_reads.
Qed.

End codec_properties.

(** ** Witnesses *)
Section codec_witnesses.
Import Serde Protocol Skew Rfc.

(** Addresses as the decimal of the number that encodes them. *)
Definition show_one (ip : Surface.IpAddr) : string := pretty.pretty (encode ip).

Definition parse_one (s : string) : option Surface.IpAddr :=
  match natural s with Some n => decode (Z.to_pos n) | None => None end.

Lemma parse_show_one ip : parse_one (show_one ip) = Some ip.
Proof.
  unfold parse_one, show_one. destruct (pretty_N_numeral (N.pos (encode ip))) as (d & ds & Hd & Hp); [lia|].
  change (pretty.pretty (encode ip)) with (pretty.pretty (N.pos (encode ip))).
  rewrite Hp, (natural_numeral _ _ _ Hd). simpl. apply decode_encode.
Qed.

Lemma messages_read_back_witness :
  from_json (print (tagged "Unexpose" (JObj [("port", JInt 8080); ("to", JNull)])) +:+ chr nl) =
    Ok (ReqUnexpose 8080 None) ∧
  of_text (str_of_bytes (str_bytes (print (tagged "ExposedPorts" (JArr [JInt 443])))))
    ≫= dec message_codec = Some (ExposedPorts [443%Z]) ∧
  ∃ d, to_vec_pretty [Pins.mkPin "7" (Some "ann")] = Ok d ∧
       from_slice d = Some [Pins.mkPin "7" (Some "ann")].
Proof.
  destruct (messages_read_back show_one parse_one (ReqUnexpose 8080 None) RespOk
              (ExposedPorts [443%Z]) [Pins.mkPin "7" (Some "ann")] []) as ((s & Hs & _ & Hr) & _ & Hm & Hp & _);
    [by simpl; unfold u16_range; lia|done|repeat constructor; unfold u16_range; lia|apply parse_show_one|].
  split; [|split; [exact Hm|exact Hp]]. injection Hs as <-. exact Hr.
Defined.

(** An [Enroll] from a version to come. *)
Lemma fields_in_any_order_witness :
  let o := [("token", JStr "abc"); ("version", JStr "0.5.5")] in
  let o' := [("version", JStr "0.5.5"); ("features", JArr [JInt 1; JNull]); ("token", JStr "abc")] in
  of_text (print (tagged "Enroll" (JObj o'))) ≫= dec message_codec =
    Some (Enroll "abc" (Some "0.5.5")).
Proof.
  intros o o'. refine (proj2 (fields_in_any_order o o' "Enroll" ReqList (Enroll "abc" (Some "0.5.5"))
    I I _ eq_refl) eq_refl).
  exists [("features", JArr [JInt 1; JNull])]. split; [|intros e ->%list_elem_of_singleton; simpl; decide_now].
  unfold o, o'. simpl.
  apply (Permutation_trans (l' := [("version", JStr "0.5.5"); ("token", JStr "abc");
                                   ("features", JArr [JInt 1; JNull])])).
  - constructor. constructor.
  - constructor.
Defined.

Lemma versions_interoperate_witness :
  let info := mkListInfo "k" "0.5.5" "0.5.4" [mkPeerInfo "7" None (Some "0.5.4") true "added" [80%Z] None []]
                         [8080%Z] [mkGrantInfo 8080 "7"] in
  from_json (print (tagged "List" (old_list_value info))) =
    Ok (RespList (mkListInfo "k" EmptyString EmptyString [mkPeerInfo "7" None None true "added" [80%Z] None []]
                             [8080%Z] [mkGrantInfo 8080 "7"])).
Proof.
  intros info. refine (proj2 (proj2 (versions_interoperate "abc" None info _))).
  repeat first [apply Forall_nil_2 | apply Forall_cons_2 | split]; simpl; lia.
Defined.

End codec_witnesses.
