(* ===== verification/LaunchdText.v ===== *)
(** * launchd's text reads back

    [print_disabled] and [print_service] write the text of
    [launchctl print-disabled system] and [launchctl print] as launchd does;
    what [label_disabled] and [field] read from it is what was written. *)

From S2P Require Import Prelude RustStr Text Surface Protocol Host Wire Launchd.
Import Launchd.

(** One line per service of the disabled list, and its frame. *)
Definition print_disabled (l : list (string * bool)) : string :=
  unlines ("disabled services = {" ::
    ((λ p : string * bool, chr tab +:+ quoted p.1 +:+ " => " +:+
        (if p.2 then "disabled" else "enabled")) <$> l) ++ ["}"]).

(** One line per attribute of the service, and its frame. *)
Definition print_service (name : string) (l : list (string * string)) : string :=
  unlines ((name +:+ " = {") ::
    ((λ p : string * string, chr tab +:+ p.1 +:+ " = " +:+ p.2) <$> l) ++ ["}"]).

(** A label as launchd allows: visible characters, no quote. *)
Definition plain_label (s : string) : Prop := Forall_str (λ c, graphic c ∧ c ≠ dquote) s.

(** An attribute: a visible name without an equals sign, and a tidy value on
    one line. *)
Definition plain_attr (p : string * string) : Prop :=
  Forall_str (λ c, graphic c ∧ c ≠ "="%char) p.1 ∧ p.1 ≠ EmptyString ∧ tidy p.2 ∧ one_line p.2.

Section text_lemmas.

Lemma graphic_one_line s : Forall_str graphic s → one_line s.
Proof.
  apply Forall_str_impl. intros c Hc. split; intros ->; by destruct Hc.
Qed.

Lemma one_line_app s t : one_line s → one_line t → one_line (s +:+ t).
Proof. intros Hs Ht. apply Forall_str_app. by split. Qed.

(** Two names up to a character neither has. *)
Lemma split_at_char sep a a' r r' :
  Forall_str (λ c, c ≠ sep) a → Forall_str (λ c, c ≠ sep) a' →
  a +:+ String sep r = a' +:+ String sep r' → a = a' ∧ r = r'.
Proof.
  intros Ha Ha' Heq. pose proof (split_once_app sep a r Ha) as H1.
  rewrite Heq, split_once_app in H1 by done. by injection H1.
Qed.

Lemma plain_label_quote s : plain_label s → Forall_str (λ c, c ≠ dquote) s.
Proof. apply Forall_str_impl. naive_solver. Qed.

Lemma strip_quoted s s' r :
  plain_label s → plain_label s' →
  strip_prefix (quoted s +:+ " =>") (quoted s' +:+ " => " +:+ r) =
  if decide (s = s') then Some (String " "%char r) else None.
Proof.
  intros Hs Hs'. case_decide as Heq.
  - subst s'. apply strip_prefix_Some. simpl. f_equal. by rewrite <- !str_app_assoc.
  - destruct (strip_prefix _ _) as [t|] eqn:Ht; [|done]. exfalso. apply Heq.
    apply strip_prefix_Some in Ht. unfold quoted in Ht. simpl in Ht. injection Ht as Ht.
    rewrite <- !str_app_assoc in Ht. simpl in Ht. symmetry in Ht.
    by apply split_at_char in Ht as [-> _]; [|by apply plain_label_quote..].
Qed.

(** A line of the disabled list. *)
Lemma disabled_line_trim s w :
  tidy w → one_line w →
  plain_label s → trim (chr tab +:+ quoted s +:+ " => " +:+ w) = quoted s +:+ " => " +:+ w ∧
                  one_line (chr tab +:+ quoted s +:+ " => " +:+ w).
Proof.
  intros [Hw1 Hw2] Hw Hs. split.
  - rewrite <- (str_app_nil_r (quoted s +:+ " => " +:+ w)) at 1. apply trim_tidy; auto with pai_sho.
    split; [done|]. do 2 apply ends_graphic_app. done.
  - apply one_line_app; [decide_now|].
    apply one_line_app; [|by apply one_line_app; [decide_now|]].
    change (one_line (chr dquote +:+ s +:+ chr dquote)).
    apply one_line_app; [decide_now|]. apply one_line_app; [|decide_now].
    apply graphic_one_line. revert Hs. apply Forall_str_impl. naive_solver.
Qed.

Lemma attr_line_trim p :
  plain_attr p → trim (chr tab +:+ p.1 +:+ " = " +:+ p.2) = p.1 +:+ " = " +:+ p.2 ∧
                 one_line (chr tab +:+ p.1 +:+ " = " +:+ p.2).
Proof.
  intros (Hk & Hne & [Hv1 Hv2] & Hl). split.
  - rewrite <- (str_app_nil_r (p.1 +:+ " = " +:+ p.2)) at 1. apply trim_tidy; auto with pai_sho.
    split; [|by do 2 apply ends_graphic_app].
    destruct p.1 as [|c k]; [done|]. simpl in *. apply Hk.
  - apply one_line_app; [decide_now|]. apply one_line_app; [|by apply one_line_app; [decide_now|]].
    apply graphic_one_line. revert Hk. apply Forall_str_impl. naive_solver.
Qed.

Lemma strip_attr key p :
  Forall_str (λ c, graphic c ∧ c ≠ "="%char) key → plain_attr p →
  strip_prefix (key +:+ " = ") (p.1 +:+ " = " +:+ p.2) =
  if decide (key = p.1) then Some p.2 else None.
Proof.
  intros Hk (Hp & _). case_decide as Heq.
  - subst key. apply strip_prefix_Some. by rewrite <- str_app_assoc.
  - destruct (strip_prefix _ _) as [t|] eqn:Ht; [|done]. exfalso. apply Heq.
    apply strip_prefix_Some in Ht. rewrite <- str_app_assoc in Ht. simpl in Ht.
    apply split_at_char in Ht as [-> _]; [done|..];
      (eapply Forall_str_impl; [|eassumption]); intros c [Hg _] ->; by destruct Hg.
Qed.

Lemma trim_tidy_alone s : tidy s → trim s = s.
Proof.
  intros Hs. pose proof (trim_tidy EmptyString s EmptyString ws_string_nil ws_string_nil Hs) as Ht.
  simpl in Ht. by rewrite str_app_nil_r in Ht.
Qed.

Lemma label_disabled_print l lab :
  Forall plain_label l.*1 → plain_label lab →
  label_disabled (print_disabled l) lab = true ↔ (lab, true) ∈ l.
Proof.
  intros Hl Hlab. unfold label_disabled, print_disabled.
  assert (Hw : ∀ b : bool, tidy (if b then "disabled" else "enabled") ∧
                           one_line (if b then "disabled" else "enabled")).
  { intros []; split; decide_now. }
  rewrite lines_unlines.
  2: { constructor; [decide_now|]. apply Forall_app. split; [|by constructor; [decide_now|]].
       apply Forall_fmap. rewrite Forall_fmap in Hl. eapply Forall_impl; [exact Hl|].
       intros p Hp. by apply disabled_line_trim; [apply Hw..|]. }
  cbn [existsb]. rewrite existsb_app. cbn [existsb].
  assert (Hhd : ∀ t, (t = "disabled services = {" ∨ t = "}") →
    match strip_prefix (quoted lab +:+ " =>") (trim t) with
    | Some rest => bool_decide (first_word rest = Some "disabled")
    | None => false
    end = false).
  { intros t Ht. rewrite trim_tidy_alone by (destruct Ht as [->| ->]; decide_now).
    by destruct Ht as [->| ->]. }
  rewrite !Hhd by auto. rewrite orb_false_l, !orb_false_r.
  induction l as [|[s b] l IH]; cbn [fmap list_fmap existsb].
  - split; [done|]. by intros ?%elem_of_nil.
  - rewrite fmap_cons in Hl. apply Forall_cons in Hl as [Hs Hl]. simpl in Hs.
    rewrite orb_true_iff, IH by done.
    destruct (disabled_line_trim s (if b then "disabled" else "enabled")) as [Htr _];
      [apply Hw..|done|]. cbn [fst snd]. rewrite Htr, strip_quoted by done.
    rewrite elem_of_cons. case_decide as Heq.
    + subst s. destruct b; rewrite first_word_graphic by (done || decide_now).
      * rewrite bool_decide_eq_true. naive_solver.
      * rewrite bool_decide_eq_true. naive_solver.
    + naive_solver.
Qed.

Lemma field_print name attrs key :
  Forall plain_attr attrs → plain_attr (name, "{") →
  Forall_str (λ c, graphic c ∧ c ≠ "="%char) key →
  field (print_service name attrs) key =
    snd <$> head (filter (λ p, p.1 = key) ((name, "{") :: attrs)).
Proof.
  intros Hattrs Hname Hkey. unfold field, print_service.
  assert (Hfirst : one_line (name +:+ " = {") ∧ trim (name +:+ " = {") = name +:+ " = " +:+ "{").
  { pose proof (attr_line_trim (name, "{") Hname) as [Ht Ho]. simpl in Ht, Ho. split; [apply Ho|].
    destruct Hname as (Hk & Hne & _). apply trim_tidy_alone. split.
    - simpl in Hk, Hne. destruct name as [|c n]; [done|]. simpl in *. apply Hk.
    - by apply (ends_graphic_app name " = {"). }
  rewrite lines_unlines.
  2: { constructor; [apply Hfirst|]. apply Forall_app. split; [|by constructor; [decide_now|]].
       apply Forall_fmap. eapply Forall_impl; [exact Hattrs|].
       intros p Hp. by apply attr_line_trim. }
  set (read := λ line, _).
  assert (Hread : ∀ t p, plain_attr p → trim t = p.1 +:+ " = " +:+ p.2 →
                         read t = if decide (p.1 = key) then Some p.2 else None).
  { intros t p Hp Ht. unfold read. rewrite Ht, strip_attr by done.
    destruct Hp as (_ & _ & Hv & _).
    destruct (decide (key = p.1)), (decide (p.1 = key)); try congruence; [|done].
    simpl. rewrite trim_tidy_alone by done. destruct p.2; [by destruct Hv|done]. }
  assert (Hend : read "}" = None).
  { unfold read. rewrite trim_tidy_alone by decide_now.
    destruct (strip_prefix (key +:+ " = ") "}") as [t|] eqn:Ht; [|done].
    apply strip_prefix_Some, (f_equal String.length) in Ht.
    rewrite !str_length_app in Ht. simpl in Ht. lia. }
  cbn [omap list_omap]. rewrite (Hread _ (name, "{") Hname) by apply Hfirst.
  rewrite filter_cons. cbn [fst]. case_decide; [done|].
  induction Hattrs as [|p attrs Hp _ IH].
  - simpl. by rewrite Hend.
  - rewrite fmap_cons. simpl app. cbn [omap list_omap].
    rewrite (Hread _ p Hp) by (by apply attr_line_trim).
    rewrite filter_cons. case_decide; [done|]. exact IH.
Qed.

End text_lemmas.

(** ** Properties *)

(** The service reads launchd's text back.  In the text of the
    disabled list, over plain labels, a label reads as disabled exactly when a
    line says so; in the text of a service, an attribute reads as the value on
    the first line of that name, whatever the values contain, and as nothing
    when there is none. *)
Theorem launchd_text_reads_back (l : list (string * bool)) (lab name key : string)
    (attrs : list (string * string)) :
  Forall plain_label l.*1 → plain_label lab →
  Forall plain_attr attrs → Forall_str (λ c, graphic c ∧ c ≠ "="%char) key →
  plain_attr (name, "{") →
  (label_disabled (print_disabled l) lab = true ↔ (lab, true) ∈ l) ∧
  field (print_service name attrs) key =
    snd <$> head (filter (λ p, p.1 = key) ((name, "{") :: attrs)).
Proof.
  intros Hl Hlab Hattrs Hkey Hname. split.
  - by apply label_disabled_print.
  - by apply field_print.
Qed.

(** One service disabled and one not; a state, a process, and a value that has
    another attribute's text in it. *)
Lemma launchd_text_reads_back_witness :
  label_disabled (print_disabled [("pai-sho-x", true); (LABEL, false)]) LABEL = false ∧
  field (print_service domain
           [("state", "running"); ("note", "pid = 1"); ("pid", "42"); ("pid", "7")]) "pid"
    = Some "42"%string.
Proof.
  destruct (launchd_text_reads_back [("pai-sho-x", true); (LABEL, false)] LABEL domain "pid"
              [("state", "running"); ("note", "pid = 1"); ("pid", "42"); ("pid", "7")])
    as [Hd Hf]; [decide_now..|]. split.
  - apply not_true_is_false. intros Hd'%Hd. revert Hd'. by decide_now.
  - rewrite Hf. by vm_compute.
Defined.
