(* ===== verification/LaunchdProps.v ===== *)
(** * The launchd service: properties

    What each service command leaves of the files and of launchd's state, at
    every end, normal or not; who may run them; and how long [install] waits.
    [Launchctl] states the documented behaviour of [launchctl] on one label,
    [Sudo] that it runs the command again as root or refuses, [ClockLaws] that
    time does not go back. *)

From S2P Require Import Prelude RustStr Text Surface Protocol Host Json Wire Launchd Codec.
Import Launchd.

(** ** launchctl *)

(** What launchd knows of our label. *)
Record Service : Type := mkService { is_loaded : bool; is_disabled : bool }.

(** A subcommand that succeeds. *)
Definition launchctl_effect (l : list string) (s : Service) : Service :=
  match l with
  | ["enable"; d] => if decide (d = domain) then mkService (is_loaded s) false else s
  | ["disable"; d] => if decide (d = domain) then mkService (is_loaded s) true else s
  | ["bootout"; d] => if decide (d = domain) then mkService false (is_disabled s) else s
  | ["bootstrap"; "system"; p] => if decide (p = PLIST) then mkService true (is_disabled s) else s
  | _ => s
  end.

Definition succeeded (r : result Output) : bool :=
  match r with Ok out => success out | Err _ => false end.

(** A subcommand that fails changes nothing, [print] can be run and tells
    whether the service is loaded, [kickstart] fails on one that is not, and
    nothing but [launchctl] touches the service.  The property list is a file
    when it is there. *)
Class Launchctl (H : Type) `{!Host H} `{!HostLaws H} : Type := {
  service : H → Service;
  launchctl_law : ∀ l h, match command "launchctl" l h with
    | (h', r) => service h' = if succeeded r then launchctl_effect l (service h) else service h
    end;
  print_law : ∀ h, ∃ out, (command "launchctl" ["print"; domain] h).2 = Ok out ∧
                          success out = is_loaded (service h);
  kickstart_law : ∀ h, succeeded (command "launchctl" ["kickstart"; "-k"; domain] h).2 = true →
                       is_loaded (service h) = true;
  path_law : ∀ h, path_exists PLIST h = true ↔ is_Some (files h !! PLIST);
  create_dir_svc : ∀ p h, service (create_dir_all p h).1 = service h;
  write_svc : ∀ p s h, service (write_file p s h).1 = service h;
  copy_svc : ∀ p q h, service (copy_file p q h).1 = service h;
  permissions_svc : ∀ p m h, service (set_permissions p m h).1 = service h;
  chown_svc : ∀ p u g h, service (chown p u g h).1 = service h;
  rename_svc : ∀ p q h, service (rename p q h).1 = service h;
  remove_svc : ∀ p h, service (remove p h).1 = service h;
  unix_listen_svc : ∀ p h, service (unix_listen p h).1 = service h;
  connect_svc : ∀ p h, service (connect p h).1 = service h;
  timeout_svc : ∀ c d h, service (set_read_timeout c d h).1 = service h;
  stream_write_svc : ∀ c s h, service (stream_write c s h).1 = service h;
  stream_read_svc : ∀ c h, service (stream_read_line c h).1 = service h;
  sleep_svc : ∀ d h, service (sleep d h) = service h;
  println_svc : ∀ s h, service (println s h) = service h;
}.

(** [sudo] runs the command it is given as root: from [ensure_root] that is this
    very program with the arguments it was called with, so the command [c] it is
    doing, over again.  Or it refuses, and nothing happened. *)
Class Sudo {H : Type} `{!Host H} `{!HostLaws H} `{!Launchctl H} (c : cmd H unit) : Prop :=
  sudo_law : ∀ exe h, is_root h = false → elevating h = false → current_exe h = Ok exe →
    match sudo ("--preserve-env=PAI_SHO_ELEVATING" :: "--" :: exe :: args h) h with
    | (h', r) =>
        (files h' = files h ∧ service h' = service h) ∨
        ∃ h1, files h1 = files h ∧ service h1 = service h ∧ is_root h1 = true ∧
              files h' = files (c h1).1 ∧ service h' = service (c h1).1
    end.

Class ClockLaws (H : Type) `{!Host H} : Prop := {
  sleep_clock : ∀ d h, (clock h + d <= clock (sleep d h))%Z;
  connect_clock : ∀ p h, (clock h <= clock (connect p h).1)%Z;
  timeout_clock : ∀ c d h, (clock h <= clock (set_read_timeout c d h).1)%Z;
  stream_write_clock : ∀ c s h, (clock h <= clock (stream_write c s h).1)%Z;
  stream_read_clock : ∀ c h, (clock h <= clock (stream_read_line c h).1)%Z;
}.

(** ** Lemmas *)
Section launchd_lemmas.
Context {H : Type} `{!Host H} `{!HostLaws H} `{!Launchctl H}.
Context `{!JsonText Protocol.Request} `{!JsonText Protocol.Response}.
Implicit Types (h : H).

(** A view of the state nothing in [c] changes. *)
Definition keeps {V A} (view : H → V) (c : cmd H A) : Prop := ∀ h, view (c h).1 = view h.

Lemma keeps_ret {V A} (view : H → V) (a : A) : keeps view (mret a).
Proof. done. Qed.

Lemma keeps_bind {V A B} (view : H → V) (c : cmd H A) (k : A → cmd H B) :
  keeps view c → (∀ a, keeps view (k a)) → keeps view (c ≫= k).
Proof.
  intros Hc Hk h. unfold mbind, cmd_bind. specialize (Hc h).
  destruct (c h) as [h' [a| |]]; simpl in *; [by rewrite Hk|done..].
Qed.

Lemma keeps_try {V A} (view : H → V) (r : result A) : keeps view (try_result r).
Proof. by destruct r. Qed.

Lemma keeps_context {V A} (view : H → V) msg (f : H → H * result A) :
  (∀ h, view (f h).1 = view h) → keeps view (with_context msg f).
Proof. intros Hf h. specialize (Hf h). unfold with_context. by destruct (f h) as [h' []]. Qed.

(** Both views at once: the files and the service. *)
Definition world h : gmap string Entry * Service := (files h, service h).

Lemma wp_keeps {V A} (view : H → V) (c : cmd H A) h :
  keeps view c → wp c (λ _ h', view h' = view h) (λ h', view h' = view h) h.
Proof. intros Hc. specialize (Hc h). unfold wp. by destruct (c h) as [h' []]. Qed.

Lemma keeps_fetch : keeps world fetch_view.
Proof.
  unfold fetch_view. repeat (apply keeps_bind;
    [apply keeps_try ||
       (apply keeps_context; intros h; unfold world; f_equal; [by autorewrite with host|
          auto using connect_svc, timeout_svc, stream_write_svc, stream_read_svc])|intros ?]).
  by destruct a4.
Qed.

Lemma keeps_wait fuel deadline h : world (wait_loop fuel deadline h).1 = world h.
Proof.
  revert h. induction fuel as [|fuel IH]; intros h; simpl; [done|].
  pose proof (keeps_fetch h) as Hf. destruct (fetch_view h) as [h' [view| |]]; simpl in Hf; [done|..];
    (case_decide; [|done]); rewrite IH, <- Hf; unfold world; by rewrite sleep_law, sleep_svc.
Qed.

Lemma keeps_wait_for_daemon : keeps world wait_for_daemon.
Proof.
  intros h. unfold wait_for_daemon. pose proof (keeps_wait 52 (clock h + 5000) h) as Hw.
  by destruct (wait_loop _ _ _).
Qed.

Lemma fetch_clock `{!ClockLaws H} h : (clock h <= clock (fetch_view h).1)%Z.
Proof.
  assert (Hle : ∀ {A B} (c : cmd H A) (k : A → cmd H B),
    (∀ h, clock h <= clock (c h).1)%Z → (∀ a h, clock h <= clock (k a h).1)%Z →
    ∀ h, (clock h <= clock ((c ≫= k) h).1)%Z).
  { intros A B c k Hc Hk h0. unfold mbind, cmd_bind. specialize (Hc h0).
    destruct (c h0) as [h1 [a| |]]; simpl in *; [|done..]. specialize (Hk a h1). lia. }
  assert (Hctx : ∀ {A} msg (f : H → H * result A),
    (∀ h, clock h <= clock (f h).1)%Z → ∀ h, (clock h <= clock (with_context msg f h).1)%Z).
  { intros A msg f Hf h0. unfold with_context. specialize (Hf h0). by destruct (f h0) as [? []]. }
  assert (Htry : ∀ {A} (r : result A) h, (clock h <= clock (try_result r h).1)%Z).
  { intros A [] h0; simpl; lia. }
  unfold fetch_view. revert h.
  repeat (apply Hle; [apply Htry || apply Hctx;
    auto using connect_clock, timeout_clock, stream_write_clock, stream_read_clock|intros ?]).
  intros h. destruct a4; simpl; lia.
Qed.

(** Enough fuel for the sleeps that are left, and more changes nothing. *)
Lemma wait_loop_ends `{!ClockLaws H} n deadline h :
  (deadline <= clock h + 100 * Z.of_nat n)%Z →
  ∃ view h', (view = None → (deadline <= clock h')%Z) ∧
             ∀ fuel, n < fuel → wait_loop fuel deadline h = (h', Some view).
Proof.
  revert h. induction n as [|n IH]; intros h Hd.
  all: pose proof (fetch_clock h) as Hc; destruct (fetch_view h) as [h1 r] eqn:Hf; simpl in Hc;
       assert (Hr : (∃ v, r = Done v) ∨ ∀ v, r ≠ Done v) by (destruct r; naive_solver);
       destruct Hr as [[v ->]|Hr];
       [exists (Some v), h1; split; [done|]; intros [|fuel] Hfuel; [lia|]; simpl; by rewrite Hf|].
  1: exists None, h1; split; [lia|]; intros [|fuel] Hfuel; [lia|]; simpl; rewrite Hf.
  1: destruct r; [naive_solver|rewrite decide_False by lia; done..].
  destruct (decide (clock h1 < deadline)%Z) as [Hlt|].
  - destruct (IH (sleep 100 h1)) as (view & h' & Hv & Hl).
    { pose proof (sleep_clock 100 h1). lia. }
    exists view, h'. split; [done|]. intros [|fuel] Hfuel; [lia|]. simpl. rewrite Hf.
    destruct r; [naive_solver|rewrite decide_True by done; apply Hl; lia..].
  - exists None, h1. split; [lia|]. intros [|fuel] Hfuel; [lia|]. simpl. rewrite Hf.
    destruct r; [naive_solver|rewrite decide_False by done; done..].
Qed.

(** ** What each launchctl call does *)

Lemma wp_launchctl l (Q : unit → H → Prop) E h :
  (∀ h', files h' = files h → service h' = launchctl_effect l (service h) →
         succeeded (command "launchctl" l h).2 = true → Q tt h') →
  (∀ h', world h' = world h → E h') →
  wp (launchctl l) Q E h.
Proof.
  intros HQ HE. unfold launchctl. rewrite wp_bind, wp_context.
  pose proof (launchctl_law l h) as Hl. pose proof (command_law "launchctl" l h) as Hf.
  destruct (command "launchctl" l h) as [h' [out|e]]; simpl in Hl, Hf, HQ.
  - destruct (success out); simpl in *; [by apply HQ|]. rewrite wp_bail. apply HE.
    unfold world. congruence.
  - apply HE. unfold world. congruence.
Qed.

Lemma wp_service_loaded (Q : bool → H → Prop) E h :
  (∀ h', world h' = world h → Q (is_loaded (service h)) h') → wp service_loaded Q E h.
Proof.
  intros HQ. unfold wp, service_loaded. destruct (print_law h) as (out & Hr & Hs).
  pose proof (launchctl_law ["print"; domain] h) as Hl.
  pose proof (command_law "launchctl" ["print"; domain] h) as Hf.
  destruct (command "launchctl" _ h) as [h' r]. simpl in *. subst r. rewrite Hs.
  apply HQ. unfold world. rewrite Hl, Hf. by case_match.
Qed.

Lemma wp_println s (Q : unit → H → Prop) E h :
  (∀ h', world h' = world h → Q tt h') → wp (does (println s)) Q E h.
Proof. intros HQ. rewrite wp_does. apply HQ. unfold world. by rewrite println_law, println_svc. Qed.

(** [start]: however it ends the files are as they were; if it ends well the
    service is loaded and enabled. *)
Lemma wp_start reload (Q : unit → H → Prop) (E : H → Prop) h :
  (∀ h', files h' = files h → service h' = mkService true false → Q tt h') →
  (∀ h', files h' = files h → E h') →
  wp (start reload) Q E h.
Proof.
  intros HQ HE. unfold start. rewrite wp_bind. apply wp_launchctl; [|by intros h' [= ? _]; apply HE].
  intros h1 Hf1 Hs1 _. rewrite wp_bind. apply wp_service_loaded. intros h2 [= Hf2 Hs2].
  simpl in Hs1. rewrite Hs1 in Hs2 |- *.
  destruct (is_loaded (service h)) eqn:Hl; simpl.
  - destruct reload; simpl.
    + rewrite wp_bind. apply wp_launchctl; [|intros h3 [= ? _]; apply HE; congruence].
      intros h3 Hf3 Hs3 _. apply wp_launchctl; [|intros h4 [= ? _]; apply HE; congruence].
      intros h4 Hf4 Hs4 _. apply HQ; [congruence|]. rewrite Hs4, Hs3, Hs2. done.
    + apply wp_launchctl; [|intros h3 [= ? _]; apply HE; congruence].
      intros h3 Hf3 Hs3 _. apply HQ; [congruence|]. by rewrite Hs3, Hs2.
  - rewrite wp_bind, wp_ret. apply wp_launchctl; [|intros h3 [= ? _]; apply HE; congruence].
    intros h3 Hf3 Hs3 _. apply HQ; [congruence|]. by rewrite Hs3, Hs2.
Qed.

(** ** Files put in place *)

(** The files but for [ps], and the service, are as they were. *)
Definition same_but (ps : list string) h h' : Prop :=
  (∀ q, q ∉ ps → files h' !! q = files h !! q) ∧ service h' = service h.

Lemma same_but_trans ps h1 h2 h3 : same_but ps h1 h2 → same_but ps h2 h3 → same_but ps h1 h3.
Proof. intros [H1 S1] [H2 S2]. split; [|congruence]. intros q Hq. by rewrite H2, H1. Qed.

Lemma same_but_world ps h h' : world h' = world h → same_but ps h h'.
Proof. intros [= Hf Hs]. split; [|done]. intros q _. by rewrite Hf. Qed.

Lemma same_but_mono ps ps' h h' : ps ⊆ ps' → same_but ps h h' → same_but ps' h h'.
Proof. intros Hps [Hf Hs]. split; [|done]. intros q Hq. apply Hf. set_solver. Qed.

(** Mode and owner are set before the file takes its name: until then only the
    temporary file changes. *)
Lemma wp_place tmp dest m s (Q : unit → H → Prop) E h :
  tmp ≠ dest → Z.land m 4095 = m → contents <$> files h !! tmp = Some s →
  (∀ h', files h' !! dest = Some (mkEntry s m (0, 0)%Z) → files h' !! tmp = None →
         same_but [tmp; dest] h h' → Q tt h') →
  (∀ h', same_but [tmp] h h' → E h') →
  wp (_ ← with_context ("chmod " +:+ tmp) (set_permissions tmp m);
      _ ← chown_root tmp;
      with_context ("replacing " +:+ dest) (rename tmp dest)) Q E h.
Proof.
  intros Hne Hm Hs HQ HE. rewrite wp_bind, wp_context.
  pose proof (permissions_law tmp m h) as Hf1. pose proof (permissions_svc tmp m h) as Hs1.
  destruct (set_permissions tmp m h) as [h1 [[]|]]; simpl in Hf1, Hs1; rewrite ?Hm in Hf1.
  2: { apply HE. split; [|done]. intros q _. by rewrite Hf1. }
  assert (H1 : same_but [tmp] h h1).
  { split; [|done]. intros q Hq. rewrite Hf1, lookup_alter_ne; [done|set_solver]. }
  rewrite wp_bind. unfold chown_root. destruct (str_contains _ tmp); [by rewrite wp_bail; apply HE|].
  unfold wp at 1. pose proof (chown_law tmp 0 0 h1) as Hf2. pose proof (chown_svc tmp 0 0 h1) as Hs2.
  destruct (chown tmp 0 0 h1) as [h2 [[]|]]; simpl in Hf2, Hs2.
  2: { apply HE. eapply same_but_trans; [exact H1|]. split; [|done]. intros q _. by rewrite Hf2. }
  assert (H2 : same_but [tmp] h h2).
  { eapply same_but_trans; [exact H1|]. split; [|done]. intros q Hq.
    rewrite Hf2, lookup_alter_ne; [done|set_solver]. }
  rewrite wp_context. pose proof (rename_law tmp dest h2) as Hf3.
  pose proof (rename_svc tmp dest h2) as Hs3.
  destruct (rename tmp dest h2) as [h3 [[]|]]; simpl in Hs3.
  2: { apply HE. eapply same_but_trans; [exact H2|]. split; [|done]. intros q _. by rewrite Hf3. }
  destruct Hf3 as (e & He & Hf3). apply HQ.
  - rewrite Hf3, lookup_insert_eq. rewrite Hf2, lookup_alter_eq, Hf1, lookup_alter_eq in He.
    destruct (files h !! tmp) as [e0|]; [|done]. simpl in He, Hs. by simplify_eq/=.
  - rewrite Hf3, lookup_insert_ne, lookup_delete_eq by done. done.
  - destruct H2 as [H2 ?]. split; [|congruence]. intros q Hq.
    rewrite Hf3, lookup_insert_ne, lookup_delete_ne by set_solver. apply H2. set_solver.
Qed.

Lemma wp_create_parent p (Q : unit → H → Prop) E h :
  (∀ h', world h' = world h → Q tt h') → (∀ h', world h' = world h → E h') →
  wp (create_parent p) Q E h.
Proof.
  intros HQ HE. unfold create_parent. destruct (parent p) as [dir|]; [|by apply HQ].
  rewrite wp_context. pose proof (create_dir_law dir h) as Hf. pose proof (create_dir_svc dir h) as Hs.
  destruct (create_dir_all dir h) as [h' [[]|]]; simpl in *; [apply HQ|apply HE];
    unfold world; congruence.
Qed.

Lemma wp_write_root_file path s m (Q : unit → H → Prop) E h :
  let tmp := with_extension path "tmp" in
  tmp ≠ path → Z.land m 4095 = m →
  (∀ h', files h' !! path = Some (mkEntry s m (0, 0)%Z) → same_but [tmp; path] h h' → Q tt h') →
  (∀ h', same_but [tmp] h h' → E h') →
  wp (write_root_file path s m) Q E h.
Proof.
  intros tmp Hne Hm HQ HE. unfold write_root_file. rewrite wp_bind.
  apply wp_create_parent; [|intros; by apply HE, same_but_world].
  intros h1 Hw1. fold tmp. rewrite wp_bind, wp_context.
  pose proof (write_law tmp s h1) as Hf. pose proof (write_svc tmp s h1) as Hs.
  destruct (write_file tmp s h1) as [h2 r]. simpl in Hs. destruct Hf as [Hf Hr].
  assert (H2 : same_but [tmp] h h2).
  { eapply same_but_trans; [by apply same_but_world|]. split; [|done].
    intros q Hq. apply Hf. set_solver. }
  destruct r as [[]|]; [|by apply HE]. apply (wp_place tmp path m s); auto.
  - intros h' Hp _ Hsame. apply HQ; [done|]. eapply same_but_trans; [|exact Hsame].
    eapply same_but_mono; [|exact H2]. set_solver.
  - intros h' Hsame. apply HE. by eapply same_but_trans.
Qed.

Definition BIN_TMP : string := with_file_name BIN ".pai-sho.installing".

Lemma wp_install_binary (Q : unit → H → Prop) E h :
  current_exe h ≠ Ok BIN_TMP →
  (∀ exe e h', current_exe h = Ok exe → files h !! exe = Some e →
     files h' !! BIN = Some (mkEntry (contents e) 493 (0, 0)%Z) →
     same_but [BIN_TMP; BIN] h h' → Q tt h') →
  (∀ h', same_but [BIN_TMP] h h' → E h') →
  wp install_binary Q E h.
Proof.
  intros Hself HQ HE. unfold install_binary. rewrite wp_bind, wp_context.
  destruct (current_exe h) as [exe|] eqn:Hexe; [|by apply HE, same_but_world].
  rewrite wp_bind. apply wp_create_parent; [|intros; by apply HE, same_but_world].
  intros h1 Hw1. fold BIN_TMP. rewrite wp_bind, wp_context.
  pose proof (copy_law exe BIN_TMP h1) as Hf. pose proof (copy_svc exe BIN_TMP h1) as Hs.
  destruct (copy_file exe BIN_TMP h1) as [h2 r]. simpl in Hs. destruct Hf as [Hf Hr].
  assert (H2 : same_but [BIN_TMP] h h2).
  { eapply same_but_trans; [by apply same_but_world|]. split; [|done].
    intros q Hq. apply Hf. set_solver. }
  destruct r as [[]|]; [|by apply HE]. destruct (Hr eq_refl) as (e & He & Hc); [congruence|].
  apply wp_on_error. apply (wp_place BIN_TMP BIN 493 (contents e)); [done|done|done| |].
  - intros h' Hb _ Hsame. apply (HQ exe e); [done| |done|].
    + injection Hw1 as Hw1 _. by rewrite <- Hw1.
    + eapply same_but_trans; [|exact Hsame]. eapply same_but_mono; [|exact H2]. set_solver.
  - intros h' Hsame. assert (H3 : same_but [BIN_TMP] h h') by (by eapply same_but_trans).
    split; [by apply HE|]. intros e'. rewrite wp_bind, wp_does, wp_bail. apply HE.
    eapply same_but_trans; [exact H3|]. pose proof (remove_law BIN_TMP h') as Hrm.
    pose proof (remove_svc BIN_TMP h') as Hsr.
    destruct (remove BIN_TMP h') as [h'' []]; simpl in *; (split; [|done]); intros q Hq.
    + rewrite Hrm, lookup_delete_ne; [done|set_solver].
    + destruct Hrm as [_ ->]. done.
    + by rewrite Hrm.
Qed.

(** ** Files taken away *)

Lemma wp_remove_file p (Q : unit → H → Prop) E h :
  (∀ h', files h' = delete p (files h) → service h' = service h → Q tt h') →
  (∀ h', world h' = world h → E h') →
  wp (remove_file p) Q E h.
Proof.
  intros HQ HE. unfold wp, remove_file. pose proof (remove_law p h) as Hf.
  pose proof (remove_svc p h) as Hs. destruct (remove p h) as [h' []]; simpl in Hs.
  - by apply HQ.
  - destruct Hf as [Hp Hf]. apply HQ; [|done]. by rewrite Hf, delete_id.
  - apply HE. unfold world. congruence.
Qed.

Lemma wp_remove_files l (Q : unit → H → Prop) (E : H → Prop) h :
  (∀ h', (∀ p, p ∈ l → files h' !! p = None) → same_but l h h' → Q tt h') →
  (∀ h', (∀ p, p ∈ l → files h' !! p = None ∨ files h' !! p = files h !! p) →
         same_but l h h' → E h') →
  wp (for_each l remove_file) Q E h.
Proof.
  revert Q E h. induction l as [|p l IH]; intros Q E h HQ HE.
  - apply HQ; [by intros ? ?%elem_of_nil|by split].
  - simpl. rewrite wp_bind. apply wp_remove_file.
    2: { intros h' [= Hf Hs]. apply HE; [|by apply same_but_world; unfold world; congruence].
         intros q _. right. by rewrite Hf. }
    intros h1 Hf1 Hs1.
    assert (H1 : ∀ h', same_but l h1 h' → same_but (p :: l) h h').
    { intros h' [Hf Hs]. split; [|congruence]. intros q Hq.
      rewrite Hf, Hf1, lookup_delete_ne by set_solver. done. }
    assert (Hp : ∀ h' q, same_but l h1 h' → q = p → q ∉ l → files h' !! q = None).
    { intros h' q [Hf _] -> Hq. rewrite Hf by done. rewrite Hf1. apply lookup_delete_eq. }
    apply IH; intros h' Hl Hsame; [apply HQ|apply HE]; auto.
    + intros q Hq. destruct (decide (q ∈ l)); [by apply Hl|]. eapply Hp; set_solver.
    + intros q Hq. destruct (decide (q ∈ l)) as [Hin|].
      * destruct (Hl q Hin) as [?|Hsm]; [by left|]. rewrite Hsm, Hf1.
        destruct (decide (q = p)) as [->|]; [left; apply lookup_delete_eq|].
        right. by rewrite lookup_delete_ne.
      * left. eapply Hp; set_solver.
Qed.

(** ** Who may run a command *)

(** It goes on as root; or ends with nothing done; or ends with what [sudo] did. *)
Lemma wp_prepare os (Q : unit → H → Prop) (E : H → Prop) h :
  (os = Surface.Macos → is_root h = true → Q tt h) →
  (∀ h', files h' = files h → E h') →
  (∀ exe, is_root h = false → elevating h = false → current_exe h = Ok exe →
     E (sudo ("--preserve-env=PAI_SHO_ELEVATING" :: "--" :: exe :: args h) h).1) →
  wp (prepare os) Q E h.
Proof.
  intros HQ HE HS. unfold prepare, require_macos. rewrite wp_bind.
  destruct os; [rewrite wp_bail; by apply HE|rewrite wp_ret|rewrite wp_bail; by apply HE].
  unfold ensure_root. rewrite wp_bind, wp_gets. destruct (is_root h) eqn:Hr; [by apply HQ|].
  rewrite wp_bind, wp_gets. destruct (elevating h); [rewrite wp_bail; by apply HE|].
  wp_simpl. destruct (current_exe h) as [exe|] eqn:Hexe; [|by apply HE]. wp_simpl.
  specialize (HS exe eq_refl eq_refl eq_refl). simpl.
  destruct (sudo _ _) as [h' []]; by wp_simpl.
Qed.

Lemma wp_prepare_root os (Q : unit → H → Prop) (E : H → Prop) h :
  is_root h = true → (os = Surface.Macos → Q tt h) → (∀ h', files h' = files h → E h') →
  wp (prepare os) Q E h.
Proof. intros Hr HQ HE. apply wp_prepare; [auto..|]. intros exe Hr'. congruence. Qed.

(** What holds of a command run as root holds of it run by anyone, where it says
    no more of a normal end than of any other, and speaks of the files and the
    service alone. *)
Lemma wp_elevated os (k : cmd H unit) `{!Sudo (_ ← prepare os; k)} (Q E : H → Prop) h :
  (∀ h', Q h' → E h') → (∀ h' h'', world h'' = world h' → E h' → E h'') →
  (∀ h', files h' = files h → E h') →
  (∀ h1, world h1 = world h → is_root h1 = true → wp (_ ← prepare os; k) (λ _, Q) E h1) →
  wp (_ ← prepare os; k) (λ _, Q) E h.
Proof.
  intros HQE Hw Hsame Hroot. destruct (is_root h) eqn:Hr; [by apply Hroot|].
  rewrite wp_bind. apply wp_prepare; [congruence|done|]. intros exe _ Hel Hexe.
  pose proof (sudo_law exe h Hr Hel Hexe) as Hs. destruct (sudo _ _) as [h' r]. cbn [fst].
  destruct Hs as [[Hf _]|(h1 & Hf1 & Hs1 & Hr1 & Hf & Hs)]; [by apply Hsame|].
  assert (H1 : wp (_ ← prepare os; k) (λ _, Q) E h1)
    by (apply Hroot; [unfold world; congruence|done]).
  apply (Hw ((_ ← prepare os; k) h1).1); [unfold world; congruence|].
  unfold wp in H1. destruct ((_ ← prepare os; k) h1) as [h2 [[]| |]]; auto.
Qed.

Lemma wp_bootout_if_loaded {A} (k : cmd H A) (Q : A → H → Prop) (E : H → Prop) h :
  (∀ h', files h' = files h → service h' = mkService false (is_disabled (service h)) →
         wp k Q E h') →
  (∀ h', files h' = files h → E h') →
  wp (loaded ← service_loaded;
      _ ← (if (loaded : bool) then launchctl ["bootout"; domain] else mret tt); k) Q E h.
Proof.
  intros HQ HE. rewrite wp_bind. apply wp_service_loaded. intros h1 [= Hf1 Hs1]. rewrite wp_bind.
  destruct (is_loaded (service h)) eqn:Hl.
  - apply wp_launchctl; [|intros h2 [= ? _]; apply HE; congruence].
    intros h2 Hf2 Hs2 _. apply HQ; [congruence|]. by rewrite Hs2, Hs1.
  - apply HQ; [done|]. rewrite Hs1. destruct (service h) as [l d]. simpl in *. by subst.
Qed.

Lemma wp_ensure_dirs (Q : unit → H → Prop) E h :
  (∀ h', world h' = world h → Q tt h') → (∀ h', world h' = world h → E h') →
  wp ensure_dirs Q E h.
Proof.
  unfold ensure_dirs. generalize ["/usr/local/libexec"; "/usr/local/var/log"; "/usr/local/var/pai-sho"].
  intros l. revert h. induction l as [|d l IH]; intros h HQ HE; simpl; [by apply HQ|].
  rewrite wp_bind, wp_context. pose proof (create_dir_law d h) as Hf.
  pose proof (create_dir_svc d h) as Hs.
  destruct (create_dir_all d h) as [h1 [[]|]]; simpl in Hf, Hs.
  - apply IH; intros h' Hw; [apply HQ|apply HE]; rewrite Hw; unfold world; congruence.
  - apply HE. unfold world. congruence.
Qed.

End launchd_lemmas.

(** ** Properties *)

(** The state after [c], at a normal end and at any other. *)
Definition ends {H} (c : cmd H unit) (Q E : H → Prop) (h : H) : Prop := wp c (λ _, Q) E h.

(** A path holds the complete file, root's, with its mode. *)
Definition in_place {H} `{HostLaws H} (p s : string) (m : Z) (h : H) : Prop :=
  files h !! p = Some (mkEntry s m (0, 0)%Z).

(** The temporary names [install] writes under. *)
Definition TEMPS : list string :=
  [BIN_TMP; with_extension OPERATOR "tmp"; with_extension PLIST "tmp"].

Section launchd_theorems.
Context {H : Type} `{!Host H} `{!HostLaws H} `{!Launchctl H}.
Context `{!JsonText Protocol.Request} `{!JsonText Protocol.Response}.
Implicit Types (h : H).

(** What [install] puts at [p], given the state it began in. *)
Definition placed h0 h (p : string) : Prop :=
  (p = PLIST ∧ in_place p plist 420 h) ∨
  (p = OPERATOR ∧ in_place p operator_script 493 h) ∨
  (p = BIN ∧ ∃ exe e, current_exe h0 = Ok exe ∧ files h0 !! exe = Some e ∧
                      in_place p (contents e) 493 h).

(** However far it got. *)
Definition partly_installed h0 h : Prop :=
  (∀ q, q ∉ [PLIST; OPERATOR; BIN] ++ TEMPS → files h !! q = files h0 !! q) ∧
  ∀ p, p ∈ [PLIST; OPERATOR; BIN] → placed h0 h p ∨ files h !! p = files h0 !! p.

Lemma placed_same h0 h h' p : files h' !! p = files h !! p → placed h0 h p → placed h0 h' p.
Proof. unfold placed, in_place. intros ->. done. Qed.

Lemma partly_refl h : partly_installed h h.
Proof. split; auto. Qed.

(** What counts of the state it began in are the files. *)
Lemma placed_from h h1 h' p : files h1 = files h → placed h1 h' p → placed h h' p.
Proof. unfold placed. by rewrite (exe_law h1 h); intros ->. Qed.

Lemma partly_from h h1 h' : files h1 = files h → partly_installed h1 h' → partly_installed h h'.
Proof.
  intros Hf [Ho Hp]. split; [intros q Hq; rewrite <- Hf; by apply Ho|].
  intros p Hin. rewrite <- Hf. destruct (Hp p Hin); [left; by eapply placed_from|by right].
Qed.

Lemma temps_fresh p : p ∈ [PLIST; OPERATOR; BIN] → p ∉ TEMPS.
Proof.
  assert (Hd : Forall (λ q, q ∉ TEMPS) [PLIST; OPERATOR; BIN]) by decide_now.
  rewrite Forall_forall in Hd. apply Hd.
Qed.

Lemma partly_keep h0 h h' : files h' = files h → partly_installed h0 h → partly_installed h0 h'.
Proof. unfold partly_installed, placed, in_place. by intros ->. Qed.

Lemma partly_temp h0 h h' t :
  t ∈ TEMPS → same_but [t] h h' → partly_installed h0 h → partly_installed h0 h'.
Proof.
  intros Ht [Hf _] [Ho Hp]. split.
  - intros q Hq. rewrite Hf; [by apply Ho|set_solver].
  - intros p Hin. assert (Hsame : files h' !! p = files h !! p).
    { apply Hf. intros ->%list_elem_of_singleton. by eapply temps_fresh. }
    rewrite Hsame. destruct (Hp p Hin); [left; by eapply placed_same|by right].
Qed.

Lemma partly_place h0 h h' t p :
  t ∈ TEMPS → p ∈ [PLIST; OPERATOR; BIN] → placed h0 h' p → same_but [t; p] h h' →
  partly_installed h0 h → partly_installed h0 h'.
Proof.
  intros Ht Hin Hpl [Hf _] [Ho Hp]. split.
  - intros q Hq. rewrite Hf; [by apply Ho|set_solver].
  - intros q Hq. destruct (decide (q = p)) as [->|Hne]; [by left|].
    assert (Hsame : files h' !! q = files h !! q).
    { apply Hf. intros [->| ->%list_elem_of_singleton]%elem_of_cons; [|done].
      by eapply temps_fresh. }
    rewrite Hsame. destruct (Hp q Hq); [left; by eapply placed_same|by right].
Qed.

(** Run as root. *)
Lemma install_as_root os h :
  is_root h = true → current_exe h ≠ Ok BIN_TMP →
  ends (install os)
    (λ h', service h' = mkService true false ∧ partly_installed h h' ∧
           ∀ p, p ∈ [PLIST; OPERATOR; BIN] → placed h h' p)
    (partly_installed h) h.
Proof.
  intros Hr Hself. unfold ends, install. rewrite wp_bind.
  apply wp_prepare_root; [done|intros _|by intros; eapply partly_keep, partly_refl].
  rewrite wp_bind. apply wp_ensure_dirs; [|by intros h' [= ? _]; eapply partly_keep, partly_refl].
  intros h1 [= Hf1 Hs1]. rewrite wp_bind.
  assert (H1 : partly_installed h h1) by (eapply partly_keep; [done|apply partly_refl]).
  apply wp_install_binary; [by rewrite (exe_law h1 h)| |].
  2: { intros h' Hs. eapply partly_temp; [|done..]. decide_now. }
  intros exe e h2 Hexe He Hb Hs2.
  assert (Hb2 : placed h h2 BIN).
  { right. right. split; [done|]. exists exe, e. rewrite <- Hf1. by rewrite (exe_law h h1). }
  assert (H2 : partly_installed h h2) by (eapply partly_place; [| |exact Hb2|done..]; decide_now).
  rewrite wp_bind. apply wp_write_root_file; [decide_now|done| |].
  2: { intros h' Hs. eapply partly_temp; [|done..]. decide_now. }
  intros h3 Ho Hs3.
  assert (Ho3 : placed h h3 OPERATOR) by (right; by left).
  assert (H3 : partly_installed h h3) by (eapply partly_place; [| |exact Ho3|done..]; decide_now).
  assert (Hb3 : placed h h3 BIN) by (eapply placed_same; [apply Hs3; decide_now|done]).
  rewrite wp_bind. apply wp_write_root_file; [decide_now|done| |].
  2: { intros h' Hs. eapply partly_temp; [|done..]. decide_now. }
  intros h4 Hp Hs4.
  assert (Hp4 : placed h h4 PLIST) by (by left).
  assert (H4 : partly_installed h h4) by (eapply partly_place; [| |exact Hp4|done..]; decide_now).
  assert (Hall : ∀ p, p ∈ [PLIST; OPERATOR; BIN] → placed h h4 p).
  { intros p. rewrite !elem_of_cons, elem_of_nil. intros [->|[->|[->|[]]]]; [done|..];
      (eapply placed_same; [apply Hs4; decide_now|done]). }
  rewrite wp_bind. apply wp_start; [|by intros h' Hf; eapply partly_keep].
  intros h5 Hf5 Hs5. rewrite wp_bind.
  refine (wp_mono _ _ _ _ _ _ (wp_keeps world wait_for_daemon h5 keeps_wait_for_daemon) _ _).
  2: { intros h' [= Hf _]. eapply partly_keep; [|exact H4]. congruence. }
  intros v h6 [= Hf6 Hs6]. apply wp_println. intros h7 [= Hf7 Hs7].
  assert (Hf : files h7 = files h4) by congruence. split_and!; [congruence|by eapply partly_keep|].
  intros p Hin. eapply placed_same; [|by apply Hall]. by rewrite Hf.
Qed.

(** C36: [daemon install] puts the service in place or leaves what was
    there.  When it ends well the service is loaded and enabled, and the
    property list, the operator script and a copy of this program are each
    complete, root's and of the right mode; however it ends, each of those three
    is either untouched or so complete, and no path but these and the three
    temporary names has changed.  So it is for whoever runs it: when not root, it
    is [sudo] that runs it again, or refuses. *)
Theorem install_ends os h `{!Sudo (install os)} :
  current_exe h ≠ Ok BIN_TMP →
  ends (install os)
    (λ h', service h' = mkService true false ∧ partly_installed h h' ∧
           ∀ p, p ∈ [PLIST; OPERATOR; BIN] → placed h h' p)
    (partly_installed h) h.
Proof.
  intros Hself. unfold ends, install. apply wp_elevated; [exact _| | | |].
  - by intros h' (_ & ? & _).
  - intros h' h'' [= Hf _]. by apply partly_keep.
  - intros h' Hf. eapply partly_keep, partly_refl. done.
  - intros h1 [= Hf1 _] Hr. refine (wp_mono _ _ _ _ _ _ (install_as_root os h1 Hr _) _ _).
    + by rewrite (exe_law h1 h).
    + intros _ h' (? & ? & Hp). split_and!; [done|by eapply partly_from|].
      intros p Hin. by eapply placed_from, Hp.
    + intros h'. by apply partly_from.
Qed.

(** What [up] leaves. *)
Lemma up_ends os h `{!Sudo (up os)} :
  ends (up os)
    (λ h', service h' = mkService true false ∧ is_Some (files h !! PLIST) ∧ files h' = files h)
    (λ h', files h' = files h) h.
Proof.
  unfold ends, up. apply wp_elevated; [exact _|naive_solver|by intros ? ? [= -> _]|done|].
  intros h0 [= <- _] Hr. clear h. rename h0 into h.
  unfold not_installed. rewrite wp_bind. apply wp_prepare_root; [done|intros _|done].
  rewrite wp_bind, wp_gets, wp_bind. pose proof (path_law h) as Hp.
  destruct (path_exists PLIST h); [rewrite wp_ret|by rewrite wp_bail].
  rewrite wp_bind. apply wp_service_loaded. intros h1 [= Hf1 Hs1].
  rewrite wp_bind. apply wp_start; [|by intros; congruence]. intros h2 Hf2 Hs2.
  apply wp_println. intros h3 [= Hf3 Hs3]. split_and!; [congruence|by apply Hp|congruence].
Qed.

(** What [down] leaves. *)
Lemma down_ends os h `{!Sudo (down os)} :
  ends (down os)
    (λ h', service h' = mkService false true ∧ files h' = files h)
    (λ h', files h' = files h) h.
Proof.
  unfold ends, down. apply wp_elevated; [exact _|naive_solver|by intros ? ? [= -> _]|done|].
  intros h0 [= <- _] Hr. clear h. rename h0 into h.
  rewrite wp_bind. apply wp_prepare_root; [done|intros _|done].
  rewrite wp_bind, wp_gets, wp_bind.
  assert (Hrest : ∀ h1, world h1 = world h →
    wp (loaded ← service_loaded;
        _ ← (if (loaded : bool) then launchctl ["bootout"; domain] else mret tt);
        _ ← launchctl ["disable"; domain];
        does (println "pai-sho is stopped. It stays stopped until `pai-sho daemon up`."))
       (λ _ h', service h' = mkService false true ∧ files h' = files h)
       (λ h', files h' = files h) h1).
  { intros h1 [= Hf1 Hs1]. apply wp_bootout_if_loaded; [|by intros; congruence].
    intros h2 Hf2 Hs2. rewrite wp_bind. apply wp_launchctl; [|intros h' [= ? _]; congruence].
    intros h3 Hf3 Hs3 _. apply wp_println. intros h4 [= Hf4 Hs4].
    split; [rewrite Hs4, Hs3, Hs2; done|congruence]. }
  destruct (path_exists PLIST h); [rewrite wp_ret; by apply Hrest|].
  rewrite wp_bind. apply wp_service_loaded. intros h1 Hw1.
  destruct (is_loaded (service h)); [rewrite wp_ret; by apply Hrest|].
  unfold not_installed. rewrite wp_bail. by injection Hw1.
Qed.

(** Each of [ps] is gone or as it was, and all else is as it was. *)
Definition some_gone (ps : list string) h h' : Prop :=
  (∀ p, p ∈ ps → files h' !! p = None ∨ files h' !! p = files h !! p) ∧
  (∀ p, p ∉ ps → files h' !! p = files h !! p).

Lemma some_gone_keep ps h h' : files h' = files h → some_gone ps h h'.
Proof. intros Hf. unfold some_gone. rewrite Hf. auto. Qed.

(** Taking the files of the service away, once it is not loaded. *)
Lemma remove_service_files ps (msg : bool → string) h h2 :
  files h2 = files h → is_loaded (service h2) = false →
  wp (_ ← for_each ps remove_file; kept ← gets (path_exists KEY); does (println (msg kept)))
    (λ _ h', is_loaded (service h') = false ∧ (∀ p, p ∈ ps → files h' !! p = None) ∧
             (∀ p, p ∉ ps → files h' !! p = files h !! p))
    (some_gone ps h) h2.
Proof.
  intros Hf2 Hs2. rewrite wp_bind. apply wp_remove_files.
  - intros h3 Hgone [Hf3 Hs3]. rewrite wp_bind, wp_gets. apply wp_println.
    intros h4 [= Hf4 Hs4]. rewrite Hf4, Hs4, Hs3. split_and!; [done|done|].
    intros p Hp. by rewrite Hf3, Hf2.
  - intros h3 Hgone [Hf3 _]. rewrite Hf2 in Hgone. split; [done|].
    intros p Hp. by rewrite Hf3, Hf2.
Qed.

(** What [remove] leaves. *)
Lemma remove_ends os h `{!Sudo (remove_service os)} :
  let gone := [PLIST; OPERATOR; BIN; RESOLVER; LOG] in
  ends (remove_service os)
    (λ h', is_loaded (service h') = false ∧ (∀ p, p ∈ gone → files h' !! p = None) ∧
           (∀ p, p ∉ gone → files h' !! p = files h !! p))
    (some_gone gone h) h.
Proof.
  intros gone. unfold ends, remove_service.
  apply wp_elevated; [exact _| | |apply some_gone_keep|].
  { intros h' (_ & ? & ?). split; auto. }
  { intros h' h'' [= Hf _]. unfold some_gone. by rewrite Hf. }
  intros h0 [= Hf0 _] Hr. unfold some_gone. rewrite <- Hf0. fold (some_gone gone h0).
  clear dependent h. rename h0 into h.
  rewrite wp_bind. apply wp_prepare_root; [done|intros _|apply some_gone_keep].
  apply wp_bootout_if_loaded; [|apply some_gone_keep]. intros h1 Hf1 Hs1. rewrite wp_bind.
  apply wp_ignore, wp_launchctl.
  - intros h2 Hf2 Hs2 _.
    apply (remove_service_files gone (λ kept, if kept then _ else _)); [congruence|].
    by rewrite Hs2, Hs1.
  - intros h2 [= Hf2 Hs2]. split; [apply some_gone_keep; congruence|].
    apply (remove_service_files gone (λ kept, if kept then _ else _)); [congruence|].
    by rewrite Hs2, Hs1.
Qed.

(** What [up], [down] and [remove] leave.  When [up] ends well the
    service is loaded and enabled, and it was installed; when [down] does, it
    is neither loaded nor enabled; neither ever touches a file.  When [remove]
    ends well the service is not loaded and its five files are gone; however
    it ends, each of those is gone or untouched, and every other file, the key
    among them, is as it was. *)
Theorem service_commands os h
    `{!Sudo (up os)} `{!Sudo (down os)} `{!Sudo (remove_service os)} :
  ends (up os)
    (λ h', service h' = mkService true false ∧ is_Some (files h !! PLIST) ∧ files h' = files h)
    (λ h', files h' = files h) h ∧
  ends (down os)
    (λ h', service h' = mkService false true ∧ files h' = files h)
    (λ h', files h' = files h) h ∧
  let gone := [PLIST; OPERATOR; BIN; RESOLVER; LOG] in
  ends (remove_service os)
    (λ h', is_loaded (service h') = false ∧ (∀ p, p ∈ gone → files h' !! p = None) ∧
           (∀ p, p ∉ gone → files h' !! p = files h !! p))
    (λ h', (∀ p, p ∈ gone → files h' !! p = None ∨ files h' !! p = files h !! p) ∧
           (∀ p, p ∉ gone → files h' !! p = files h !! p)) h ∧
  KEY ∉ gone.
Proof.
  split; [by apply up_ends|split; [by apply down_ends|split; [by apply remove_ends|decide_now]]].
Qed.

(** [install] does not wait for ever.  Under a clock that does not go
    back, the loop that asks the new daemon for its key ends, with the answer
    or, once five seconds have passed, without; fifty-two rounds are enough
    and more make no difference. *)
Theorem install_waits_five_seconds `{!ClockLaws H} h :
  ∃ view h', (∀ fuel, 52 <= fuel → wait_loop fuel (clock h + 5000) h = (h', Some view)) ∧
             wait_for_daemon h = (h', Done view) ∧
             (view = None → (clock h + 5000 <= clock h')%Z).
Proof.
  destruct (wait_loop_ends 50 (clock h + 5000) h) as (view & h' & Hv & Hl); [lia|].
  exists view, h'. split_and!; [|unfold wait_for_daemon; by rewrite Hl by lia|done].
  intros fuel Hfuel. apply Hl. lia.
Qed.

(** The commands that change the service do nothing on another
    system, and nothing but run themselves again under [sudo], once, when not
    root: the second run, marked as such, stops instead, and the first ends
    with the exit code of the second. *)
Theorem refused_before_anything os h :
  Forall (λ c : cmd H unit,
    (os ≠ Surface.Macos →
       c h = (h, Failed "daemon install, up, down, remove, and status run on macOS")) ∧
    (os = Surface.Macos → is_root h = false → elevating h = true →
       c h = (h, Failed "this command needs root")) ∧
    (∀ exe, os = Surface.Macos → is_root h = false → elevating h = false →
       current_exe h = Ok exe →
       c h = match sudo ("--preserve-env=PAI_SHO_ELEVATING" :: "--" :: exe :: args h) h with
             | (h', Ok code) => (h', Exited (default 1%Z code))
             | (h', Err _) => (h', Failed "running sudo")
             end)) [install os; up os; down os; remove_service os].
Proof.
  assert (Hp : ∀ k : cmd H unit, let c := _ ← prepare os; k in
    (os ≠ Surface.Macos →
       c h = (h, Failed "daemon install, up, down, remove, and status run on macOS")) ∧
    (os = Surface.Macos → is_root h = false → elevating h = true →
       c h = (h, Failed "this command needs root")) ∧
    (∀ exe, os = Surface.Macos → is_root h = false → elevating h = false →
       current_exe h = Ok exe →
       c h = match sudo ("--preserve-env=PAI_SHO_ELEVATING" :: "--" :: exe :: args h) h with
             | (h', Ok code) => (h', Exited (default 1%Z code))
             | (h', Err _) => (h', Failed "running sudo")
             end)).
  { intros k c. unfold c, prepare, require_macos, ensure_root, mbind, cmd_bind, gets, mret, cmd_ret,
      bail, exit. split_and!.
    - by destruct os.
    - by intros -> -> ->.
    - intros exe -> -> -> Hexe. simpl. unfold with_context. rewrite Hexe. simpl.
      by destruct (sudo _ _) as [h' []]. }
  repeat constructor; apply Hp.
Qed.

End launchd_theorems.

(** ** A concrete machine *)
Module Mac.
Import Json.Rfc.

Record Mac : Type := mkMac {
  m_files : gmap string Entry;
  m_service : Service;
  m_root : bool;
  m_elevating : bool;
  m_clock : Z;
  m_reply : string;
  m_screen : list string;
}.

Definition with_files (f : gmap string Entry) (m : Mac) : Mac :=
  mkMac f (m_service m) (m_root m) (m_elevating m) (m_clock m) (m_reply m) (m_screen m).

Definition with_service (s : Service) (m : Mac) : Mac :=
  mkMac (m_files m) s (m_root m) (m_elevating m) (m_clock m) (m_reply m) (m_screen m).

Definition at_time (t : Z) (m : Mac) : Mac :=
  mkMac (m_files m) (m_service m) (m_root m) (m_elevating m) t (m_reply m) (m_screen m).

Definition printing (s : string) (m : Mac) : Mac :=
  mkMac (m_files m) (m_service m) (m_root m) (m_elevating m) (m_clock m) (m_reply m)
        (m_screen m ++ [s]).

(** Change the entry at [p], or fail when there is none. *)
Definition on_entry (p : string) (f : Entry → Entry) (m : Mac) : Mac * result unit :=
  match m_files m !! p with
  | Some _ => (with_files (alter f p (m_files m)) m, Ok tt)
  | None => (m, Err "no such file")
  end.

Definition put (p s : string) (m : Mac) : Mac :=
  with_files (<[p := mkEntry s 420 (501, 20)%Z]> (m_files m)) m.

(** Everything succeeds but [print] and [kickstart] of a service not loaded. *)
Definition runs (l : list string) (m : Mac) : bool :=
  if decide (l = ["print"; domain] ∨ l = ["kickstart"; "-k"; domain])
  then is_loaded (m_service m) else true.

#[export] Instance mac_host : Host Mac := {|
  is_root := m_root;
  elevating := m_elevating;
  current_exe _ := Ok "/tmp/pai-sho";
  args _ := ["daemon"; "up"];
  path_exists p m := bool_decide (is_Some (m_files m !! p));
  metadata_uid _ _ := None;
  getpwuid _ _ := None;
  getpwnam u _ := if decide (u = "ann"%string) then Some (501, 20)%Z else None;
  clock := m_clock;
  create_dir_all _ m := (m, Ok tt);
  write_file p s m := (put p s m, Ok tt);
  copy_file p q m := match m_files m !! p with
                     | Some e => (put q (contents e) m, Ok tt)
                     | None => (m, Err "no such file")
                     end;
  set_permissions p mo := on_entry p (λ e, mkEntry (contents e) (Z.land mo 4095) (owner e));
  chown p u g := on_entry p (λ e, mkEntry (contents e) (mode e) (u, g));
  rename p q m := match m_files m !! p with
                  | Some e => (with_files (<[q := e]> (delete p (m_files m))) m, Ok tt)
                  | None => (m, Err "no such file")
                  end;
  remove p m := match m_files m !! p with
                | Some _ => (with_files (delete p (m_files m)) m, Removed)
                | None => (m, NotFound)
                end;
  command c l m :=
    if decide (c = "launchctl"%string)
    then (if runs l m then with_service (launchctl_effect l (m_service m)) m else m,
          Ok (mkOutput (runs l m) [] [] "1"))
    else (m, Err "no such command");
  sudo _ m := (m, Ok (Some 3%Z));
  env_var _ _ := None;
  unix_listen p m := match m_files m !! p with
                     | Some _ => (m, Err "address in use")
                     | None => (put p EmptyString m, Ok 1%N)
                     end;
  connect _ m := (m, if is_loaded (m_service m) then Ok 0%N else Err "refused");
  set_read_timeout _ _ m := (m, Ok tt);
  stream_write _ _ m := (m, Ok tt);
  stream_read_line _ m := (m, Ok (m_reply m));
  sleep d m := at_time (m_clock m + d) m;
  println := printing;
  eprintln := printing;
|}.

#[export] Instance mac_laws : HostLaws Mac.
Proof.
  refine {| files := m_files |}; try done.
  - intros p s m. simpl. split; intros; [by rewrite lookup_insert_ne|by rewrite lookup_insert_eq].
  - intros p q m. simpl. destruct (m_files m !! p) as [e|] eqn:He; simpl; [|by split].
    split; [by intros; rewrite lookup_insert_ne|]. intros _ _. exists e.
    by rewrite lookup_insert_eq.
  - intros p mo m. simpl. unfold on_entry. by destruct (m_files m !! p).
  - intros p u g m. simpl. unfold on_entry. by destruct (m_files m !! p).
  - intros p q m. simpl. destruct (m_files m !! p) as [e|]; simpl; [|done]. by exists e.
  - intros p m. simpl. by destruct (m_files m !! p) eqn:He.
  - intros c l m. simpl. case_decide; [|done]. simpl. by case_match.
  - intros p m. simpl. destruct (m_files m !! p) eqn:He; [done|]. split; [done|].
    by eexists.
Defined.

#[export] Instance mac_launchctl : Launchctl Mac.
Proof.
  refine {| service := m_service : Mac → Service |}; try done.
  - intros l m. simpl. by destruct (runs l m).
  - intros m. simpl. eexists. split; [done|]. done.
  - intros m. simpl. apply bool_decide_eq_true.
  - intros p q m. simpl. by destruct (m_files m !! p).
  - intros p mo m. simpl. unfold on_entry. by destruct (m_files m !! p).
  - intros p u g m. simpl. unfold on_entry. by destruct (m_files m !! p).
  - intros p q m. simpl. by destruct (m_files m !! p).
  - intros p m. simpl. by destruct (m_files m !! p).
  - intros p m. simpl. by destruct (m_files m !! p).
Defined.

(** Its [sudo] asks for a password that nobody types. *)
#[export] Instance mac_sudo c : Sudo (H:=Mac) c.
Proof. intros exe m _ _ _. by left. Qed.

#[export] Instance mac_clock : ClockLaws Mac.
Proof. split; simpl; intros; lia. Qed.

(** A root shell on a machine with the program at [/tmp]; its daemon answers
    a list with a key and no peer. *)
Definition fresh_mac : Mac :=
  mkMac {["/tmp/pai-sho" := mkEntry "the program" 493 (501, 20)%Z]} (mkService false true)
        true false 0
        (Json.Rfc.print (enc Serde.response_codec
           (Protocol.RespList (Protocol.mkListInfo "k" EmptyString EmptyString [] [] []))) +:+ chr nl) [].

Definition installed_mac : Mac := (install Surface.Macos fresh_mac).1.

(** A machine with the service loaded, and no more than its property list. *)
Definition loaded_mac : Mac :=
  mkMac {[PLIST := mkEntry plist 420 (0, 0)%Z]} (mkService true false) true false 0 EmptyString [].

Definition user_mac : Mac :=
  mkMac ∅ (mkService false false) false false 0 EmptyString [].

End Mac.

Section launchd_witnesses.
Import Json.Rfc Mac.

(** The install of a fresh machine ends well, with three new files. *)
Lemma install_ends_witness :
  service installed_mac = mkService true false ∧
  (∀ p, p ∈ [PLIST; OPERATOR; BIN] → placed fresh_mac installed_mac p) ∧
  m_screen installed_mac = [install_message (Some (mkInstallView "k" 0))].
Proof.
  assert (Hself : current_exe fresh_mac ≠ Ok BIN_TMP) by (by vm_compute).
  pose proof (install_ends Surface.Macos fresh_mac Hself) as Hi. unfold ends, wp in Hi.
  assert (Hd : (install Surface.Macos fresh_mac).2 = Done tt) by (by vm_compute).
  fold installed_mac in Hi.
  rewrite (surjective_pairing (install Surface.Macos fresh_mac)), Hd in Hi.
  destruct Hi as (Hs & _ & Hp). split_and!; [exact Hs|exact Hp|by vm_compute].
Defined.

(** Down, up and remove of a service that is loaded. *)
Lemma service_commands_witness :
  service (down Surface.Macos loaded_mac).1 = mkService false true ∧
  service (up Surface.Macos loaded_mac).1 = mkService true false ∧
  files (remove_service Surface.Macos loaded_mac).1 !! PLIST = None.
Proof.
  destruct (service_commands Surface.Macos loaded_mac) as (Hu & Hd & Hr & _).
  unfold ends, wp in Hu, Hd, Hr.
  assert (H1 : (up Surface.Macos loaded_mac).2 = Done tt) by (by vm_compute).
  assert (H2 : (down Surface.Macos loaded_mac).2 = Done tt) by (by vm_compute).
  assert (H3 : (remove_service Surface.Macos loaded_mac).2 = Done tt) by (by vm_compute).
  rewrite (surjective_pairing (up _ _)), H1 in Hu.
  rewrite (surjective_pairing (down _ _)), H2 in Hd.
  rewrite (surjective_pairing (remove_service _ _)), H3 in Hr.
  split_and!; [apply Hd|apply Hu|apply Hr; decide_now].
Defined.

Lemma install_waits_five_seconds_witness :
  ∃ view h', wait_for_daemon user_mac = (h', Done view) ∧
             (view = None → (5000 <= clock h')%Z).
Proof.
  destruct (install_waits_five_seconds user_mac) as (view & h' & _ & Hw & Hv).
  exists view, h'. split; [exact Hw|exact Hv].
Defined.

Lemma refused_before_anything_witness :
  up Surface.Macos user_mac = (user_mac, Exited 3) ∧
  up Surface.Linux user_mac =
    (user_mac, Failed "daemon install, up, down, remove, and status run on macOS").
Proof.
  split.
  - pose proof (refused_before_anything Surface.Macos user_mac) as Hr.
    apply Forall_inv_tail, Forall_inv in Hr. destruct Hr as (_ & _ & Hr).
    exact (Hr "/tmp/pai-sho"%string eq_refl eq_refl eq_refl eq_refl).
  - pose proof (refused_before_anything Surface.Linux user_mac) as Hr.
    apply Forall_inv_tail, Forall_inv in Hr. destruct Hr as (Hr & _). by apply Hr.
Defined.

End launchd_witnesses.
