(* ===== verification/Control.v ===== *)
(** * The command line and the control socket ([src/src/main.rs],
    [src/src/client.rs], and [run], [handle_client] and the socket's owner and
    mode in [src/src/daemon.rs])

    The commands as [clap] returns them, the client that sends one to the
    daemon and prints the answer, the daemon's side of that conversation, and
    the start of a daemon around [Daemon.run]: the key, the control socket, who
    owns it.  [clap] itself, [iroh]'s endpoint, the opening of a TUN device and
    the loops a started daemon runs are parameters. *)

From S2P Require Import Prelude RustStr Keys Text Store Enroll Protocol Surface Netstack Peer Daemon Host Wire Launchd.

Module Control.
Import Protocol.

(** ** Commands *)

Inductive DaemonService : Type := Install | Up | Down | Remove | Status.

#[global] Instance service_eq_dec : EqDecision DaemonService.
Proof. solve_decision. Defined.

(** The fields of [Command::Daemon]. *)
Record DaemonArgs : Type := mkDaemonArgs {
  service : option DaemonService;
  host : Surface.IpAddr;
  accept : list string;
  ports : list Z;
  key_path : option string;
  resolver : option (Surface.IpAddr * Z);
  tun : option string;
  socket_owner : option string;
  socket_mode : option string;
  name : option string;
}.

Inductive Command : Type :=
| CmdDaemon (a : DaemonArgs)
| CmdInvite (key name : option string) (expose : list Z)
| CmdAccept (handle : string) (name : option string)
| CmdForget (peer : string)
| CmdExpose (port : Z) (to : list string) (all : bool)
| CmdUnexpose (port : Z) (to : option string)
| CmdList
| CmdKey
| CmdProject (peer : string) (ip : option Surface.IpAddr) (name : option string)
| CmdUnproject (peer : string).

Record Cli : Type := mkCli { socket : string; command : Command }.

(** The default of [host]. *)
Definition no_args (a : DaemonArgs) : Prop :=
  host a = Surface.LOCALHOST ∧ accept a = [] ∧ ports a = [] ∧ key_path a = None ∧
  resolver a = None ∧ tun a = None ∧ socket_owner a = None ∧ socket_mode a = None ∧ name a = None.

(** What the declarations say of a command that parses: ports are [u16]; a path
    is not empty; a service command takes no other argument ([args_conflicts_with_subcommands]);
    of [--to] and [--all] exactly one is there (the group [grantees]). *)
Definition declared (c : Command) : Prop :=
  match c with
  | CmdDaemon a =>
      Forall u16_range (ports a) ∧ key_path a ≠ Some EmptyString ∧
      (is_Some (service a) → no_args a)
  | CmdInvite _ _ expose => Forall u16_range expose
  | CmdExpose port to all => u16_range port ∧ (to = [] ↔ all = true)
  | CmdUnexpose port _ => u16_range port
  | _ => True
  end.

(** ** The client *)

(** The request of a command; the daemon's own command has none. *)
Definition request_of (ip_to_string : Surface.IpAddr → string) (c : Command) : option Request :=
  match c with
  | CmdInvite key name expose => Some (ReqInvite key name expose)
  | CmdAccept handle name => Some (ReqAccept handle name)
  | CmdForget peer => Some (ReqForget peer)
  | CmdExpose port to all => Some (ReqExpose port to all)
  | CmdUnexpose port to => Some (ReqUnexpose port to)
  | CmdList => Some ReqList
  | CmdKey => Some ReqKey
  | CmdProject peer ip name => Some (ReqProject peer (ip_to_string <$> ip) name)
  | CmdUnproject peer => Some (ReqUnproject peer)
  | CmdDaemon _ => None
  end.

Definition with_cli (info : ListInfo) : ListInfo :=
  mkListInfo (li_me info) VERSION (li_daemon info) (li_peers info) (li_i_expose info)
             (li_grants info).

Section client.
Context {H : Type} `{!Host H}.
Context `{!JsonText Request} `{!JsonText Response}.
Variable ip_to_string : Surface.IpAddr → string.
(** [serde_json::to_string_pretty] of a list. *)
Variable list_to_string_pretty : ListInfo → result string.

(** The exit code of a panic. *)
Definition PANIC : Z := 101.

Definition print_response (r : Response) : cmd H unit :=
  match r with
  | RespOk => does (println "OK")
  | RespKey key => does (println key)
  | RespInvite invite => does (println invite)
  | RespList info =>
      text ← try_result (list_to_string_pretty (with_cli info));
      does (println text)
  | RespError e => _ ← does (eprintln ("Error: " +:+ e)); exit 1
  end.

Definition send_command (socket_path : string) (c : Command) : cmd H unit :=
  match request_of ip_to_string c with
  | None => exit PANIC
  | Some request =>
      stream ← with_context "failed to connect to daemon - is it running?" (connect socket_path);
      request_json ← try_result (to_json request);
      _ ← try_io (stream_write stream request_json);
      _ ← try_io (stream_write stream (chr nl));
      line ← try_io (stream_read_line stream);
      response ← try_result (from_json line);
      print_response response
  end.

End client.

(** ** The daemon's side *)

(** A connection to the control socket. *)
Class LineStream (S : Type) : Type := {
  read_line : S → S * result string;
  write_str : string → S → S * result unit;
}.

Section server.
Context {K : Type} `{!EndpointKey K} `{!DashMap}.
Context `{!JsonCodec Pins.Pin} `{!JsonCodec Surface.SurfaceRecord}.
Context `{!JsonText Request} `{!JsonText Response}.
Context {S : Type} `{!LineStream S}.
Variable cfg : Peers.Config K.
Variable parse_ip : string → option Surface.IpAddr.

Definition handle_client (random : bytes) (now : Z) (s : S) (m : Peers.PeerManager K) :
    S * Peers.PeerManager K * result unit :=
  match read_line s with
  | (s, Err e) => (s, m, Err e)
  | (s, Ok line) =>
      match from_json line with
      | Err e => (s, m, Err e)
      | Ok request =>
          let '(m, response) := Daemon.handle_request cfg parse_ip request random now m in
          match to_json response with
          | Err e => (s, m, Err e)
          | Ok response_json =>
              match write_str response_json s with
              | (s, Err e) => (s, m, Err e)
              | (s, Ok _) => let '(s, r) := write_str (chr nl) s in (s, m, r)
              end
          end
      end
  end.

End server.

(** ** Starting a daemon *)

(** [PathBuf::join] with a relative path. *)
Definition path_join (base rel : string) : string :=
  if str_is_empty base then rel
  else match strip_suffix "/" base with
       | Some _ => base +:+ rel
       | None => base +:+ "/" +:+ rel
       end.

Section run.
Context {H : Type} `{!Host H}.
Context `{!JsonText Request} `{!JsonText Response}.
Context {K : Type} `{!EndpointKey K} `{!DashMap}.
Context `{!JsonCodec Pins.Pin} `{!JsonCodec Surface.SurfaceRecord}.

Definition default_key_path (h : H) : string :=
  let base := match env_var "XDG_STATE_HOME" h with
              | Some dir => dir
              | None => match env_var "HOME" h with
                        | Some home => path_join (path_join home ".local") "state"
                        | None => "."
                        end
              end in
  path_join (path_join base "pai-sho") "key".

(** How a path prints with [{:?}]. *)
Variable debug_path : string → string.

Definition set_socket_owner (path user : string) : cmd H unit :=
  if str_contains "000"%char user then bail "invalid --socket-owner"
  else
    pw ← gets (getpwnam user);
    match pw with
    | None => bail ("unknown --socket-owner user: " +:+ user)
    | Some (uid, gid) =>
        if str_contains "000"%char path then bail "bad socket path"
        else λ h, match chown path uid gid h with
                  | (h, Ok _) => (h, Done tt)
                  | (h, Err e) =>
                      (h, Failed ("chown " +:+ debug_path path +:+ " to " +:+ user +:+ ": " +:+ e))
                  end
    end.

Definition set_socket_mode (path mode : string) : cmd H unit :=
  match u32_from_str_radix 8 mode with
  | None => bail ("invalid --socket-mode (octal): " +:+ mode)
  | Some m => with_context ("chmod " +:+ debug_path path) (set_permissions path m)
  end.

(** [if let Some(x) = o { f(x)? }]. *)
Definition when_some {A} (o : option A) (f : A → cmd H unit) : cmd H unit :=
  match o with
  | Some a => f a
  | None => mret tt
  end.

(** The record files of the daemon and its key, as the file system has them at
    a path, and a file as it was left. *)
Variable file_at : string → H → Store.File.
Variable put_file : Store.File → H → H.
(** [SecretKey::generate]; [Endpoint::builder(..).bind()] with the host, the
    name and the system the manager is configured with; [netstack::spawn]. *)
Variable generated : bytes.
Variable endpoint : bytes → Surface.IpAddr → option string → result (Peers.Config K).
Variable spawn_tun : string → H → H * result NetStack.NetStack.

(** [Daemon::new]. *)
Definition daemon_new (a : DaemonArgs) (path : string) (ns : option NetStack.NetStack) :
    cmd H (Peers.Config K * Peers.PeerManager K) :=
  key_file ← gets (file_at path);
  let '(key_file, secret) := Daemon.load_or_create_key generated key_file in
  _ ← does (put_file key_file);
  secret ← try_result secret;
  cfg ← try_result (context (endpoint secret (host a) (name a)) "failed to create iroh endpoint");
  pins ← gets (file_at (path +:+ ".peers.json"));
  surfaces ← gets (file_at (path +:+ ".surfaces.json"));
  m ← try_result (Daemon.with_endpoint cfg pins surfaces (Daemon.register_self cfg ns));
  mret (cfg, m).

(** [run] up to the loops: the daemon that is about to serve. *)
Definition start (a : DaemonArgs) (socket_path : string) :
    cmd H (Peers.Config K * Peers.PeerManager K) :=
  _ ← does (λ h, (remove socket_path h).1);
  ns ← (match tun a with
        | Some dev => λ h, match spawn_tun dev h with
                           | (h, Ok ns) => (h, Done (Some ns))
                           | (h, Err _) => (h, Done None)
                           end
        | None => mret None
        end);
  path ← (match key_path a with
          | Some path => mret path
          | None => gets default_key_path
          end);
  '(cfg, m) ← daemon_new a path ns;
  _ ← does (println ("Ticket: " +:+ Daemon.ticket cfg));
  let m := Daemon.start_accepts (accept a) (ports a) m in
  _ ← with_context "failed to bind Unix socket" (unix_listen socket_path);
  _ ← when_some (socket_owner a) (set_socket_owner socket_path);
  _ ← when_some (socket_mode a) (set_socket_mode socket_path);
  mret (cfg, m).

(** The router, the accept loop and the wait for a signal. *)
Variable serve : Peers.Config K → Peers.PeerManager K → cmd H unit.

Definition run (a : DaemonArgs) (socket_path : string) : cmd H unit :=
  d ← start a socket_path;
  serve d.1 d.2.

Variable os : Surface.Os.
Variable ip_to_string : Surface.IpAddr → string.
Variable status_to_string_pretty : Launchd.StatusReport → result string.
Variable list_to_string_pretty : ListInfo → result string.

(** [main], once the command line is parsed. *)
Definition main (cli : Cli) : cmd H unit :=
  match command cli with
  | CmdDaemon a =>
      match service a with
      | Some Install => Launchd.install os
      | Some Up => Launchd.up os
      | Some Down => Launchd.down os
      | Some Remove => Launchd.remove_service os
      | Some Status => Launchd.status os status_to_string_pretty
      | None => run a (socket cli)
      end
  | c => send_command ip_to_string list_to_string_pretty (socket cli) c
  end.

End run.
End Control.
