(* ===== verification/ControlProps.v ===== *)
(** * The command line and the control socket: properties

    [Pair] is a client and a daemon with a socket between them: what one side
    writes the other reads, in order.  Over it a command run from the shell does
    to the daemon exactly what it names, [perform], and prints the daemon's
    answer.  Then the start of a daemon, and the modes [--socket-mode] takes. *)

From S2P Require Import Prelude RustStr Keys Text Store Enroll Protocol Session Surface Netstack Peer Daemon Shell Bindings BindingProps Types Host Json Wire Launchd Codec CodecProps LaunchdProps Control.

Module Pair.
Import Protocol Control.

(** The daemon's end of a connection: what came in and what went out. *)
Record DaemonEnd : Type := mkEnd { inbox : string; outbox : string }.

#[export] Instance end_stream : LineStream DaemonEnd := {|
  read_line s := (s, Ok (Wire.read_line (inbox s)));
  write_str t s := (mkEnd (inbox s) (outbox s +:+ t), Ok tt);
|}.

Section pair.
Context {K : Type} `{!EndpointKey K} `{!DashMap}.
Context `{!JsonCodec Pins.Pin} `{!JsonCodec Surface.SurfaceRecord}.
Context `{!JsonText Request} `{!JsonText Response}.
Variable cfg : Peers.Config K.
Variable parse_ip : string → option Surface.IpAddr.
(** The random bytes and the time of the request. *)
Variable random : bytes.
Variable now : Z.

(** A daemon, what the client has written to it, and what is on the client's
    two outputs. *)
Record World : Type := mkWorld {
  manager : Peers.PeerManager K;
  written : string;
  screen : list string;
  errors : list string;
}.

(** The daemon reads once the client waits for its answer. *)
Definition answer (w : World) : World * result string :=
  let '(s, m, _) := handle_client cfg parse_ip random now (mkEnd (written w) EmptyString)
                                  (manager w) in
  (mkWorld m EmptyString (screen w) (errors w), Ok (Wire.read_line (outbox s))).

#[export] Instance pair_host : Host World := {|
  is_root _ := false;
  elevating _ := false;
  current_exe _ := Err "unsupported";
  args _ := [];
  path_exists _ _ := false;
  metadata_uid _ _ := None;
  getpwuid _ _ := None;
  getpwnam _ _ := None;
  clock _ := now;
  create_dir_all _ w := (w, Err "unsupported");
  write_file _ _ w := (w, Err "unsupported");
  copy_file _ _ w := (w, Err "unsupported");
  set_permissions _ _ w := (w, Err "unsupported");
  chown _ _ _ w := (w, Err "unsupported");
  rename _ _ w := (w, Err "unsupported");
  remove _ w := (w, NotFound);
  Host.command _ _ w := (w, Err "unsupported");
  sudo _ w := (w, Err "unsupported");
  env_var _ _ := None;
  unix_listen _ w := (w, Err "unsupported");
  connect _ w := (mkWorld (manager w) EmptyString (screen w) (errors w), Ok 0%N);
  set_read_timeout _ _ w := (w, Ok tt);
  stream_write _ t w := (mkWorld (manager w) (written w +:+ t) (screen w) (errors w), Ok tt);
  stream_read_line _ w := answer w;
  sleep _ w := w;
  println t w := mkWorld (manager w) (written w) (screen w ++ [t]) (errors w);
  eprintln t w := mkWorld (manager w) (written w) (screen w) (errors w ++ [t]);
|}.

(** What each command is to do to the daemon, and the answer. *)
Definition perform (c : Command) (m : Peers.PeerManager K) : Peers.PeerManager K * Response :=
  match c with
  | CmdInvite key name expose => Daemon.invite cfg key name expose random now m
  | CmdAccept handle name => Daemon.respond (Daemon.accept handle name m)
  | CmdForget peer => Daemon.respond (Peers.remove_peer cfg peer m)
  | CmdExpose port to all =>
      match Daemon.grantees to all (Peers.session m) with
      | Ok ks => (Daemon.expose port ks m, RespOk)
      | Err e => (m, RespError e)
      end
  | CmdUnexpose port None => (Daemon.unexpose port None m, RespOk)
  | CmdUnexpose port (Some peer) =>
      match Session.resolve_grantee peer (Peers.session m) with
      | Ok k => (Daemon.unexpose port (Some k) m, RespOk)
      | Err e => (m, RespError e)
      end
  | CmdList => (m, RespList (Daemon.list_info cfg m))
  | CmdKey => (m, RespKey (to_string (Peers.me cfg)))
  | CmdProject peer ip name => Daemon.respond (Peers.project cfg peer ip name m)
  | CmdUnproject peer => Daemon.respond (Peers.unproject cfg peer m)
  | CmdDaemon _ => (m, RespError EmptyString)
  end.

(** What the client shows of an answer: lines, error lines, its end. *)
Definition shown (list_to_string_pretty : ListInfo → result string) (r : Response) :
    list string * list string * outcome unit :=
  match r with
  | RespOk => (["OK"], [], Done tt)
  | RespKey s | RespInvite s => ([s], [], Done tt)
  | RespList info =>
      match list_to_string_pretty (with_cli info) with
      | Ok s => ([s], [], Done tt)
      | Err e => ([], [], Failed e)
      end
  | RespError e => ([], ["Error: " +:+ e], Exited 1)
  end.

End pair.
End Pair.

(** ** Lemmas *)
Section control_lemmas.
Context {K : Type} `{!EndpointKey K} `{!DashMap}.
Context `{!JsonCodec Pins.Pin} `{!JsonCodec Surface.SurfaceRecord}.
Context `{!JsonText Protocol.Request} `{!JsonText Protocol.Response}.
Context `{!JsonTextLaws Protocol.Request Protocol.typed_request}.
Context `{!JsonTextLaws Protocol.Response Protocol.typed_response}.
Variable cfg : Peers.Config K.
Variable parse_ip : string → option Surface.IpAddr.
Variable random : bytes.
Variable now : Z.
Import Protocol Control Pair.

Lemma read_whole_line t :
  Forall_str (λ c, c ≠ nl) t → Wire.read_line (t +:+ chr nl) = t +:+ chr nl.
Proof. apply (read_line_line t EmptyString). Qed.

(** A request line is answered with the line of its response. *)
Lemma answer_request req json m sc er :
  to_json req = Ok json → Forall_str (λ c, c ≠ nl) json → from_json (json +:+ chr nl) = Ok req →
  typed_response (Daemon.handle_request cfg parse_ip req random now m).2 →
  let '(m', resp) := Daemon.handle_request cfg parse_ip req random now m in
  ∃ line, answer cfg parse_ip random now (mkWorld m (json +:+ chr nl) sc er) =
            (mkWorld m' EmptyString sc er, Ok line) ∧
          from_json line = Ok resp.
Proof.
  intros _ Hjson Hfrom Hty. unfold answer, handle_client. simpl.
  rewrite read_whole_line, Hfrom by done.
  destruct (Daemon.handle_request _ _ _ _ _ _) as [m' resp].
  destruct (json_line resp Hty) as (t & Ht & Htl & Htf). rewrite Ht. simpl.
  eexists. split; [done|]. by rewrite read_whole_line.
Qed.

(** The request of a command asks for what the command performs. *)
Lemma handle_request_of c req m :
  (∀ ip, parse_ip (Peers.ip_to_string cfg ip) = Some ip) →
  request_of (Peers.ip_to_string cfg) c = Some req →
  Daemon.handle_request cfg parse_ip req random now m = perform cfg random now c m.
Proof.
  intros Hip. destruct c as [| | | | |? []| | |? []|]; intros [= <-]; simpl; try done.
  - by destruct (Session.resolve_grantee _ _).
  - by rewrite Hip.
Qed.

Lemma typed_request_of show c req :
  declared c → request_of show c = Some req → typed_request req.
Proof. destruct c as [| | | |? ? ?| | | | |]; intros Hc [= <-]; simpl in *; try done; apply Hc. Qed.

End control_lemmas.

(** ** Properties *)
Section control_theorems.
Context {K : Type} `{EKL : EndpointKeyLaws K} `{DML : DashMapLaws}.
Context `{!JsonCodec Pins.Pin} `{!JsonCodec Surface.SurfaceRecord}.
Context `{!JsonText Protocol.Request} `{!JsonText Protocol.Response}.
Context `{!JsonTextLaws Protocol.Request Protocol.typed_request}.
Context `{!JsonTextLaws Protocol.Response Protocol.typed_response}.
Variable cfg : Peers.Config K.
Variable parse_ip : string → option Surface.IpAddr.
Variable random : bytes.
Variable now : Z.
Import Protocol Control Pair.

(** C13: a command does to the daemon what it says.  Typed at the shell,
    any command but the daemon's own goes over the socket as one line and
    comes back as one; the daemon ends in the state the command names, the
    client prints its answer on one line, and ends with exit code 1 and the
    error's text when the answer is an error.  ([declared]: the command's ports
    are [u16]s; [typed] and [announced] hold of every reachable daemon.) *)
Theorem command_end_to_end socket_path c m out err pretty :
  (∀ ip, parse_ip (Peers.ip_to_string cfg ip) = Some ip) →
  (∀ a, c ≠ CmdDaemon a) → declared c → Types.typed m → Bindings.announced m →
  let '(m', resp) := perform cfg random now c m in
  let '(lines, elines, res) := shown pretty resp in
  @send_command _ (pair_host cfg parse_ip random now) _ _ (Peers.ip_to_string cfg) pretty
    socket_path c (mkWorld m EmptyString out err) =
  (mkWorld m' EmptyString (out ++ lines) (err ++ elines), res).
Proof.
  intros Hip Hd Hdecl Hty Han. destruct (request_of (Peers.ip_to_string cfg) c) as [req|] eqn:Hreq;
    [|by destruct c; naive_solver].
  pose proof (handle_request_of cfg parse_ip random now c req m Hip Hreq) as Hh.
  destruct (json_line req (typed_request_of _ _ _ Hdecl Hreq)) as (json & Hj & Hnl & Hf).
  pose proof (answer_request cfg parse_ip random now req json m out err Hj Hnl Hf
                (Types.typed_answer _ _ _ _ _ _ Hty Han)) as Ha.
  rewrite Hh in Ha. destruct (perform _ _ _ c m) as [m' resp] eqn:Hp.
  destruct Ha as (line & Ha & Hl).
  unfold send_command. rewrite Hreq. unfold mbind, cmd_bind, with_context, try_io, try_result. simpl.
  rewrite Hj. cbn [stream_write pair_host]. simpl. rewrite Ha. simpl. rewrite Hl.
  destruct resp; simpl; rewrite ?app_nil_r; try done.
  unfold mbind, cmd_bind, try_result. by destruct (pretty _); simpl; rewrite ?app_nil_r.
Qed.

End control_theorems.

(** ** The start of a daemon *)
Section start_theorems.
Context {H : Type} `{!Host H} `{!HostLaws H}.
Context {K : Type} `{!EndpointKey K} `{!DashMap}.
Context `{!JsonCodec Pins.Pin} `{!JsonCodec Surface.SurfaceRecord}.
Variable debug_path : string → string.
Implicit Types (h : H).
Import Control.

Lemma wp_set_socket_owner path user (Q : unit → H → Prop) E h :
  (∀ uid gid h', getpwnam user h = Some (uid, gid) →
     files h' = alter (λ e, mkEntry (contents e) (mode e) (uid, gid)) path (files h) → Q tt h') →
  (∀ h', files h' = files h → E h') →
  wp (set_socket_owner debug_path path user) Q E h.
Proof.
  intros HQ HE. unfold set_socket_owner. destruct (str_contains _ user); [by apply HE|].
  wp_simpl. destruct (getpwnam user h) as [[uid gid]|]; [|by apply HE].
  destruct (str_contains _ path); [by apply HE|].
  unfold wp. pose proof (chown_law path uid gid h) as Hc.
  destruct (chown path uid gid h) as [h' [[]|]]; simpl in Hc; [by eapply HQ|by apply HE].
Qed.

Lemma wp_set_socket_mode path text (Q : unit → H → Prop) E h :
  (∀ m h', u32_from_str_radix 8 text = Some m →
     files h' = alter (λ e, mkEntry (contents e) (Z.land m 4095) (owner e)) path (files h) →
     Q tt h') →
  (∀ h', files h' = files h → E h') →
  wp (set_socket_mode debug_path path text) Q E h.
Proof.
  intros HQ HE. unfold set_socket_mode.
  destruct (u32_from_str_radix 8 text) as [m|]; [|by apply HE]. wp_simpl.
  pose proof (permissions_law path m h) as Hc.
  destruct (set_permissions path m h) as [h' [[]|]]; simpl in Hc; [by eapply HQ|by apply HE].
Qed.

(** [--socket-mode] takes octal numerals of 32 bits and nothing
    else.  A text of octal digits, with or without a plus sign, whose value
    fits is the mode given to [set_permissions], and once that succeeds the
    socket has its low twelve bits; every other text, digits that overflow
    included, is an error that changes nothing. *)
Theorem socket_mode_exact path text h :
  (∀ sign ds, (sign = EmptyString ∨ sign = chr "+") → ds ≠ [] → Forall (λ d, 0 <= d < 8)%Z ds →
     text = sign +:+ numeral ds → (digits_value 8 0 ds < 2 ^ 32)%Z →
     set_socket_mode debug_path path text h =
       with_context ("chmod " +:+ debug_path path) (set_permissions path (digits_value 8 0 ds)) h ∧
     ((set_permissions path (digits_value 8 0 ds) h).2 = Ok tt →
      mode <$> files (set_socket_mode debug_path path text h).1 !! path =
        (λ _, digits_value 8 0 ds mod 4096)%Z <$> files h !! path)) ∧
  ((¬ ∃ sign ds, (sign = EmptyString ∨ sign = chr "+") ∧ ds ≠ [] ∧
       Forall (λ d, 0 <= d < 8)%Z ds ∧ text = sign +:+ numeral ds ∧
       (digits_value 8 0 ds < 2 ^ 32)%Z) →
   set_socket_mode debug_path path text h =
     (h, Failed ("invalid --socket-mode (octal): " +:+ text))).
Proof.
  split.
  - intros sign ds Hsign Hne Hds -> Hlt.
    assert (Hp : u32_from_str_radix 8 (sign +:+ numeral ds) = Some (digits_value 8 0 ds))
      by by apply u32_from_str_radix_numeral.
    unfold set_socket_mode. rewrite Hp. split; [done|]. unfold with_context.
    pose proof (permissions_law path (digits_value 8 0 ds) h) as Hc.
    destruct (set_permissions path _ h) as [h' [[]|]]; simpl in *; [|done]. intros _.
    rewrite Hc, lookup_alter_eq. rewrite <- option_fmap_compose.
    apply option_fmap_ext. intros e. simpl. by rewrite (Z.land_ones _ 12).
  - intros Hno. unfold set_socket_mode.
    destruct (u32_from_str_radix 8 text) as [m|] eqn:Hm; [|done]. exfalso. apply Hno.
    apply u32_from_str_radix_Some in Hm as (sign & ds & ? & ? & ? & ? & -> & ?); [|done].
    by exists sign, ds.
Qed.

Lemma wp_when_some {A} (o : option A) (f : A → cmd H unit) (Q : unit → H → Prop) E h :
  (o = None → Q tt h) → (∀ a, o = Some a → wp (f a) Q E h) → wp (when_some o f) Q E h.
Proof. intros Hn Hs. destruct o; [by apply Hs|by apply Hn]. Qed.

Lemma wp_owner o path e (Q : unit → H → Prop) h :
  files h !! path = Some e →
  (∀ h' e', files h' !! path = Some e' →
     (∀ user, o = Some user →
        ∃ h0 uid gid, getpwnam user h0 = Some (uid, gid) ∧ owner e' = (uid, gid)) → Q tt h') →
  wp (when_some o (set_socket_owner debug_path path)) Q (λ _, True) h.
Proof.
  intros He HQ. apply wp_when_some; [intros ->; by eapply HQ|]. intros user ->.
  apply wp_set_socket_owner; [|done]. intros uid gid h' Hpw Hf. eapply HQ.
  - by rewrite Hf, lookup_alter_eq, He.
  - intros user' [= <-]. by exists h, uid, gid.
Qed.

Lemma wp_mode o path e (Q : unit → H → Prop) h :
  files h !! path = Some e →
  (∀ h' e', files h' !! path = Some e' → owner e' = owner e →
     (∀ text, o = Some text →
        ∃ m, u32_from_str_radix 8 text = Some m ∧ mode e' = Z.land m 4095) → Q tt h') →
  wp (when_some o (set_socket_mode debug_path path)) Q (λ _, True) h.
Proof.
  intros He HQ. apply wp_when_some; [intros ->; by eapply HQ|]. intros text ->.
  apply wp_set_socket_mode; [|done]. intros m h' Hm Hf. eapply HQ.
  - by rewrite Hf, lookup_alter_eq, He.
  - done.
  - intros text' [= <-]. by exists m.
Qed.

Variable file_at : string → H → Store.File.
Variable put_file : Store.File → H → H.
Variable generated : bytes.
Variable endpoint : bytes → Surface.IpAddr → option string → result (Peers.Config K).
Variable spawn_tun : string → H → H * result NetStack.NetStack.

(** The manager [daemon_new] builds is [Daemon.run]'s, before what [--accept]
    and [--expose] ask for, under the key of the key file. *)
Lemma wp_daemon_new a path ns (Q : Peers.Config K * Peers.PeerManager K → H → Prop)
    (E : H → Prop) h :
  (∀ cfg m h' secret pins surfaces,
     (Daemon.load_or_create_key generated (file_at path h)).2 = Ok secret →
     endpoint secret (host a) (name a) = Ok cfg →
     Daemon.with_endpoint cfg pins surfaces (Daemon.register_self cfg ns) = Ok m → Q (cfg, m) h') →
  (∀ h', E h') →
  wp (daemon_new file_at put_file generated endpoint a path ns) Q E h.
Proof.
  intros HQ HE. unfold daemon_new. wp_simpl.
  destruct (Daemon.load_or_create_key generated (file_at path h)) as [key_file secret] eqn:Hk.
  wp_simpl. destruct secret as [secret|]; [|apply HE]. wp_simpl.
  destruct (endpoint secret (host a) (name a)) as [cfg|] eqn:He; simpl; [|apply HE]. wp_simpl.
  destruct (Daemon.with_endpoint _ _ _ _) as [m|] eqn:Hm; [|apply HE]. wp_simpl.
  by eapply HQ.
Qed.

(** A daemon that gets to serve is one of [Shell.reachable], under the
    key of its key file, and its control socket already belongs to the user
    and has the mode that were asked for; if either cannot be given, or the
    pins cannot be read, or the socket path is still taken, it does not get
    there. *)
Theorem daemon_starts_ready a socket_path parse_ip h :
  wp (start debug_path file_at put_file generated endpoint spawn_tun a socket_path)
    (λ d h', let '(cfg, m) := d in
       (∃ secret, endpoint secret (host a) (name a) = Ok cfg) ∧
       Shell.reachable cfg parse_ip m ∧
       ∃ entry, files h' !! socket_path = Some entry ∧
         (∀ user, socket_owner a = Some user →
            ∃ h0 uid gid, getpwnam user h0 = Some (uid, gid) ∧ owner entry = (uid, gid)) ∧
         (∀ text, socket_mode a = Some text →
            ∃ m, u32_from_str_radix 8 text = Some m ∧ mode entry = Z.land m 4095))
    (λ _, True) h.
Proof.
  unfold start. wp_simpl.
  refine (wp_mono _ _ _ _ _ _ (wp_any _ _) _ _); [intros ns h1 _|done]. wp_simpl.
  refine (wp_mono _ _ _ _ _ _ (wp_any _ _) _ _); [intros path h2 _|done]. wp_simpl.
  apply wp_daemon_new; [|done].
  intros cfg m h3 secret pins surfaces _ He Hm. wp_simpl.
  pose proof (unix_listen_law socket_path (println ("Ticket: " +:+ Daemon.ticket cfg) h3)) as Hu.
  destruct (unix_listen _ _) as [h4 [l|]]; [|done]. wp_simpl.
  destruct Hu as (_ & e & Hu).
  assert (Hreach : Shell.reachable cfg parse_ip (Daemon.start_accepts (accept a) (ports a) m)).
  { eexists (accept a), (ports a), pins, surfaces, ns, _, []. split; [|done].
    unfold Daemon.run. by rewrite Hm. }
  assert (H4 : files h4 !! socket_path = Some e) by (rewrite Hu; apply lookup_insert_eq).
  apply (wp_owner _ _ e); [done|]. intros h5 e5 H5 Howner. wp_simpl.
  apply (wp_mode _ _ e5); [done|]. intros h6 e6 H6 Hsame Hmode. wp_simpl.
  split; [by eexists|]. split; [done|]. exists e6. rewrite Hsame. done.
Qed.

End start_theorems.

(** ** Witnesses *)
Module ControlToy.
Import Protocol Control Pair Mac Json.Rfc.

(** The toy daemon with addresses that print and parse. *)
Definition config : Peers.Config N :=
  Peers.mkConfig 1%N Surface.LOCALHOST (Some "me") Surface.Linux (λ _ _, Ok tt) show_one
    (λ _ _, EmptyString) Toy.tcp_bind.

Lemma start_typed : Types.typed Toy.start.
Proof.
  eapply Types.typed_start; [|exact Toy.start_run]. repeat constructor; unfold u16_range; lia.
Qed.

Lemma start_announced : Bindings.announced Toy.start.
Proof. apply (inv_reachable Toy.config Toy.parse_ip Toy.start toy_exclusive (Toy.start_reachable [])). Qed.

(** A client and the daemon that has accepted peer 7. *)
Definition world : World := mkWorld Toy.start EmptyString [] [].

(** Project peer 7 at an address, then ask for the project of a peer that is
    not there. *)
Lemma command_end_to_end_witness :
  let run c := @send_command _ (pair_host config parse_one [] 0) _ _ show_one (λ _, Ok EmptyString)
                 "/tmp/pai-sho.sock" c world in
  let '(m, _) := perform config [] 0 (CmdProject "7" (Some (Surface.V4 127 0 1 9)) (Some "box"))
                         Toy.start in
  run (CmdProject "7" (Some (Surface.V4 127 0 1 9)) (Some "box")) =
    (mkWorld m EmptyString ["OK"] [], Done tt) ∧
  (run (CmdProject "8" None None)).2 = Exited 1.
Proof.
  intros run. pose proof (λ c Hd Hc, command_end_to_end config parse_one [] 0 "/tmp/pai-sho.sock" c
    Toy.start [] [] (λ _, Ok EmptyString) parse_show_one Hd Hc start_typed start_announced) as Hc.
  pose proof (Hc (CmdProject "7" (Some (Surface.V4 127 0 1 9)) (Some "box")) ltac:(done) I) as H1.
  pose proof (Hc (CmdProject "8" None None) ltac:(done) I) as H2.
  destruct (perform config [] 0 (CmdProject "7" _ _) Toy.start) as [m r] eqn:Hp.
  destruct (perform config [] 0 (CmdProject "8" None None) Toy.start) as [m2 r2] eqn:Hp2.
  apply (f_equal snd) in Hp, Hp2. vm_compute in Hp, Hp2. simpl in Hp, Hp2. subst r r2. split.
  - exact H1.
  - exact (f_equal snd H2).
Defined.

Lemma socket_mode_exact_witness :
  (set_socket_mode id Launchd.OPERATOR "660" installed_mac).2 = Done tt ∧
  mode <$> files (set_socket_mode id Launchd.OPERATOR "660" installed_mac).1 !! Launchd.OPERATOR = Some 432%Z ∧
  set_socket_mode id Launchd.OPERATOR "668" installed_mac =
    (installed_mac, Failed "invalid --socket-mode (octal): 668").
Proof.
  pose proof (λ t, socket_mode_exact id Launchd.OPERATOR t installed_mac) as Hm. split_and!.
  - destruct (Hm "660"%string) as [Hok _].
    destruct (Hok EmptyString [6; 6; 0]%Z) as [-> _]; [by left|done|decide_now..|by vm_compute].
  - destruct (Hm "660"%string) as [Hok _].
    destruct (Hok EmptyString [6; 6; 0]%Z) as [_ Hf]; [by left|done|decide_now..|].
    etrans; [apply Hf; by vm_compute|]. by vm_compute.
  - destruct (Hm "668"%string) as [_ Hbad]. apply Hbad.
    intros (sign & ds & Hsign & Hne & Hds & Heq & Hlt).
    assert (Hn : u32_from_str_radix 8 "668" = Some (digits_value 8 0 ds)).
    { rewrite Heq. apply u32_from_str_radix_numeral; [lia|assumption..]. }
    assert (Hno : u32_from_str_radix 8 "668" = None) by (by vm_compute). congruence.
Defined.

Definition daemon_args : DaemonArgs :=
  mkDaemonArgs None Surface.LOCALHOST ["7"] [8080%Z] (Some "/tmp/key") None None
    (Some "ann") (Some "660") (Some "me").

Lemma daemon_starts_ready_witness :
  let r := start id (λ p _, Toy.file p) (λ _ h, h) [] (λ _ _ _, Ok config)
             (λ _ h, (h, Err "no device")) daemon_args "/tmp/pai-sho.sock" fresh_mac in
  match r with
  | (h', Done (cfg, m)) => Shell.reachable cfg parse_one m ∧
      ∃ entry, files h' !! "/tmp/pai-sho.sock" = Some entry ∧ mode entry = 432%Z
  | _ => False
  end.
Proof.
  intros r. pose proof (daemon_starts_ready id (λ p _, Toy.file p) (λ _ h, h) [] (λ _ _ _, Ok config)
    (λ _ h, (h, Err "no device")) daemon_args "/tmp/pai-sho.sock" parse_one fresh_mac) as Hs.
  unfold wp in Hs. fold r in Hs.
  assert (Hd : match r.2 with Done _ => true | _ => false end = true) by (by vm_compute).
  destruct r as [h' [[cfg m]| |]]; [|discriminate Hd..].
  destruct Hs as (_ & Hreach & entry & He & _ & Hmode). split; [exact Hreach|].
  exists entry. split; [exact He|]. destruct (Hmode "660"%string eq_refl) as (v & Hv & ->).
  vm_compute in Hv. by injection Hv as <-.
Defined.

End ControlToy.
