(* ===== verification/Streams.v ===== *)
(** * Bytes in, events out

    How the bytes that peers and clients send become the events of [Shell]: a
    control message is a unidirectional stream of JSON, read whole up to a limit
    ([send_message], [handle_uni_stream] and the loop of [handle_enrollment] in
    [src/src/peer.rs]); a request is a line of JSON ([handle_client]).  The
    stream itself is QUIC's: what it delivers is a class. *)

From stdpp Require Import pretty.
From S2P Require Import Prelude RustStr Keys Text Grants Store Enroll Protocol Session Surface Netstack Tunnel Peer Daemon Shell Bindings BindingProps Types Json Wire Codec CodecProps Control ControlProps.

Module Streams.
Import Peers.

(** A stream that a peer opened: its bytes up to the end, or an error. *)
Class UniStream (U : Type) : Type := { read_to_end : Z → U → result bytes }.

(** Read with a limit, a stream that carries [d] gives [d] or is too long. *)
Definition carries {U} `{!UniStream U} (u : U) (d : bytes) : Prop :=
  ∀ limit : Z, if decide (Z.of_nat (length d) <= limit)%Z then read_to_end limit u = Ok d
               else ∃ e, read_to_end limit u = Err e.

Definition CONTROL_LIMIT : Z := 64 * 1024.

Section streams.
Context {K : Type} `{!EndpointKey K} `{!DashMap} `{!JsonLib}.
Context `{!JsonCodec Pins.Pin} `{!JsonCodec Surface.SurfaceRecord}.
Context {U : Type} `{!UniStream U} {S : Type} `{!Control.LineStream S}.
Variable cfg : Config K.
Variable parse_ip : string → option IpAddr.

(** What [send_message] writes. *)
Definition message_bytes (msg : Protocol.PeerMessage) : bytes :=
  str_bytes (to_text (enc Serde.message_codec msg)).

Definition parse_message (d : bytes) : option Protocol.PeerMessage :=
  of_text (str_of_bytes d) ≫= dec Serde.message_codec.

(** [handle_uni_stream]: of a peer that is admitted. *)
Definition uni_stream (o : ObjId) (u : U) (m : PeerManager K) : PeerManager K :=
  match read_to_end CONTROL_LIMIT u with
  | Err _ => m
  | Ok data =>
      match parse_message data with
      | None => m
      | Some msg => handle_uni_stream cfg o (Some msg) m
      end
  end.

(** A round of [handle_enrollment]'s loop, on a connection that waits: a stream
    that fails is the end of the wait, one that does not parse is passed over. *)
Definition enroll_stream (id : Session.ConnId) (u : U) (now : Z) (m : PeerManager K) :
    PeerManager K :=
  match read_to_end CONTROL_LIMIT u with
  | Err _ => enroll_end cfg id m
  | Ok data => enroll_message cfg id (parse_message data) now m
  end.

(** What reaches a daemon: a client's connection, a peer's stream, or anything
    that brings no message. *)
Inductive Input : Type :=
| InClient (s : S) (random : bytes) (now : Z)
| InUni (o : ObjId) (u : U)
| InEnroll (id : Session.ConnId) (u : U) (now : Z)
| InEvent (e : Shell.Event (K:=K)).

Definition brings_message (e : Shell.Event (K:=K)) : bool :=
  match e with
  | Shell.EvRequest _ _ _ | Shell.EvEnroll _ _ _ | Shell.EvUni _ _ => true
  | _ => false
  end.

Definition serve (m : PeerManager K) (i : Input) : PeerManager K :=
  match i with
  | InClient s random now => (Control.handle_client cfg parse_ip random now s m).1.2
  | InUni o u => uni_stream o u m
  | InEnroll id u now => enroll_stream id u now m
  | InEvent e => if brings_message e then m else Shell.step cfg parse_ip m e
  end.

End streams.
Arguments Input K U S : clear implicits.

(** [to_vec] writes compact JSON. *)
Class CompactJson `{!JsonLib} : Prop := {
  compact : ∀ v, plain v = true → to_text v = Rfc.print v;
}.

(** A stream that is just its bytes. *)
#[export] Instance bytes_stream : UniStream bytes := {|
  read_to_end limit d := if decide (Z.of_nat (length d) <= limit)%Z then Ok d else Err "too long";
|}.

End Streams.

(** ** Lemmas *)
Section streams_lemmas.
Import Peers Streams.
Context {K : Type} `{EKL : EndpointKeyLaws K} `{DML : DashMapLaws} `{!JsonLib}.
Context `{!JsonCodec Pins.Pin} `{!JsonCodec Surface.SurfaceRecord}.
Context {U : Type} `{!UniStream U} {S : Type} `{!Control.LineStream S}.
Implicit Types (m : PeerManager K) (u : U) (s : S).

Lemma parse_message_typed d msg : parse_message d = Some msg → Protocol.typed_message msg.
Proof. apply message_typed. Qed.

Lemma parse_message_bytes `{!JsonLibLaws} msg :
  Protocol.typed_message msg → parse_message (message_bytes msg) = Some msg.
Proof. apply message_reads_back. Qed.

(** The daemon's part of a connection to the control socket is a step, with
    whatever becomes of its answer. *)
Lemma handle_client_step cfg parse_ip random now s m :
  let m' := (Control.handle_client cfg parse_ip random now s m).1.2 in
  m' = m ∨ ∃ req, Protocol.typed_request req ∧
                  m' = Shell.step cfg parse_ip m (Shell.EvRequest req random now).
Proof.
  unfold Control.handle_client. simpl. destruct (Control.read_line s) as [s1 [line|]]; [|by left].
  destruct (of_text line ≫= _) as [req|] eqn:Hreq; simpl; [|by left]. right. exists req. split.
  - apply bind_Some in Hreq as (v & _ & Hv). by eapply dec_ok; [apply good_request|].
  - destruct (Daemon.handle_request _ _ _ _ _ _) as [m' resp]. simpl.
    destruct (Control.write_str _ s1) as [s2 [|]]; [|done].
    by destruct (Control.write_str _ s2).
Qed.

(** Whatever arrives is nothing or a typed event of the shell. *)
Lemma serve_step cfg parse_ip m (i : Input K U S) :
  serve cfg parse_ip m i = m ∨
  ∃ e, typed_event e ∧ serve cfg parse_ip m i = Shell.step cfg parse_ip m e.
Proof.
  destruct i as [s random now|o u|id u now|e]; simpl.
  - pose proof (handle_client_step cfg parse_ip random now s m) as Hc. simpl in Hc.
    destruct Hc as [->|(req & ? & ->)]; [by left|right]. by exists (Shell.EvRequest req random now).
  - unfold uni_stream. destruct (read_to_end _ _) as [d|]; [|by left].
    destruct (parse_message d) as [msg|] eqn:Hd; [right|by left].
    exists (Shell.EvUni o (Some msg)). split; [by eapply parse_message_typed|done].
  - right. unfold enroll_stream. destruct (read_to_end _ _) as [d|].
    + exists (Shell.EvEnroll id (parse_message d) now). split; [|done]. simpl.
      destruct (parse_message d) eqn:Hd; [by eapply parse_message_typed|done].
    + by exists (Shell.EvEnrollEnd id).
  - destruct (brings_message e) eqn:He; [by left|right]. exists e. split; [by destruct e|done].
Qed.

(** What a command's answer relies on ([ControlProps.v]) lasts, whatever bytes
    clients and peers send. *)
Lemma typed_served cfg parse_ip m (ins : list (Input K U S)) :
  typed m → typed (foldl (serve cfg parse_ip) m ins).
Proof.
  revert m. induction ins as [|i ins IH]; intros m Hm; [done|]. simpl. apply IH.
  destruct (serve_step cfg parse_ip m i) as [->|(e & He & ->)]; [done|by apply typed_step].
Qed.

End streams_lemmas.

(** *** The length of an announcement *)
Section lengths.
Import Rfc.

Lemma digits_value_bounds acc ds :
  Forall (λ d, 0 <= d < 10)%Z ds →
  (acc * 10 ^ Z.of_nat (length ds) <= digits_value 10 acc ds <
   (acc + 1) * 10 ^ Z.of_nat (length ds))%Z.
Proof.
  intros Hds. revert acc. induction Hds as [|d ds Hd _ IH]; intros acc; [simpl; lia|].
  cbn [digits_value length]. specialize (IH (acc * 10 + d)%Z).
  rewrite Nat2Z.inj_succ, Z.pow_succ_r by lia.
  assert (0 < 10 ^ Z.of_nat (length ds))%Z by (apply Z.pow_pos_nonneg; lia). nia.
Qed.

Lemma numeral_length ds : String.length (numeral ds) = length ds.
Proof. induction ds as [|d ds IH]; simpl; [done|]. by f_equal. Qed.

Lemma port_length p :
  u16_range p → String.length (pretty p) <= 5 ∧ ((10000 <= p)%Z → String.length (pretty p) = 5).
Proof.
  intros Hp. unfold u16_range in Hp. destruct p as [|p|p]; [simpl; split; [lia|lia]| |lia].
  destruct (pretty_N_numeral (N.pos p)) as (d & ds & (Hd & Hds & Hv) & Heq); [lia|].
  change (pretty (Z.pos p)) with (pretty (N.pos p)). rewrite Heq, numeral_length. simpl in Hv |- *.
  pose proof (digits_value_bounds (0 * 10 + d) ds Hds) as Hb. rewrite Hv in Hb.
  assert (Hlt : length ds < 5).
  { apply Nat.nle_gt. intros Hge.
    assert (10 ^ 5 <= 10 ^ Z.of_nat (length ds))%Z by (apply Z.pow_le_mono_r; lia). nia. }
  split; [lia|]. intros Hbig. f_equal. apply Nat.le_antisymm; [lia|]. apply Nat.nlt_ge. intros Hs.
  assert (10 ^ Z.of_nat (length ds) <= 10 ^ 3)%Z by (apply Z.pow_le_mono_r; lia). nia.
Qed.

(** [n] ports take at most six characters each but one, and exactly that from
    10000 up. *)
Lemma ports_length ports :
  u16s ports → ports ≠ [] →
  String.length (join "," (List.map print (JInt <$> ports))) <= 6 * length ports - 1 ∧
  (Forall (λ p, 10000 <= p)%Z ports →
   String.length (join "," (List.map print (JInt <$> ports))) = 6 * length ports - 1).
Proof.
  induction ports as [|p [|q ports] IH]; intros Hu Hne; [done|..];
    apply Forall_cons in Hu as [Hp Hu]; destruct (port_length p Hp) as [Hle Heq].
  - simpl. split; [lia|]. intros [Hbig _]%Forall_cons. rewrite Heq; lia.
  - destruct (IH Hu) as [IHle IHeq]; [done|].
    change (List.map print (JInt <$> p :: q :: ports))
      with (pretty p :: print (JInt q) :: List.map print (JInt <$> ports)).
    rewrite join_cons2, str_length_app.
    change (List.map print (JInt <$> q :: ports))
      with (print (JInt q) :: List.map print (JInt <$> ports)) in IHle, IHeq.
    cbn [String.length length] in *. split; [lia|].
    intros [Hbig Hrest]%Forall_cons. rewrite Heq, IHeq by done. lia.
Qed.

Lemma announcement_length ports :
  u16s ports → ports ≠ [] →
  let len := String.length (print (enc Serde.message_codec (Protocol.ExposedPorts ports))) in
  len <= 6 * length ports + 18 ∧
  (Forall (λ p, 10000 <= p)%Z ports → len = 6 * length ports + 18).
Proof.
  intros Hu Hne len. destruct (ports_length ports Hu Hne) as [Hle Heq].
  assert (Hn : 0 < length ports) by (destruct ports; simpl; [done|lia]).
  assert (Hlen : len = String.length (join "," (List.map print (JInt <$> ports))) + 19).
  { unfold len. simpl. rewrite !str_length_app. simpl. lia. }
  rewrite Hlen. split; [lia|]. intros Hbig. rewrite Heq by done. lia.
Qed.

Lemma message_bytes_length `{!JsonLib} `{!Streams.CompactJson} ports :
  u16s ports →
  let len := length (Streams.message_bytes (Protocol.ExposedPorts ports)) in
  len <= 6 * length ports + 19 ∧
  (ports ≠ [] → len <= 6 * length ports + 18 ∧
                (Forall (λ p, 10000 <= p)%Z ports → len = 6 * length ports + 18)).
Proof.
  intros Hu len.
  assert (Hlen : len = String.length (print (enc Serde.message_codec (Protocol.ExposedPorts ports)))).
  { unfold len, Streams.message_bytes. rewrite str_bytes_length, Streams.compact; [done|].
    apply good_message. }
  rewrite Hlen. destruct ports as [|p ports]; [split; [simpl; lia|done]|].
  destruct (announcement_length (p :: ports) Hu) as [Hle Heq]; [done|]. split; [lia|]. auto.
Qed.

End lengths.

(** ** Properties *)
Section streams_properties.
Import Peers Streams.
Context {K : Type} `{EKL : EndpointKeyLaws K} `{DML : DashMapLaws} `{!JsonLib}.
Context `{!JsonCodec Pins.Pin} `{!JsonCodec Surface.SurfaceRecord}.
Context {U : Type} `{!UniStream U} {S : Type} `{!Control.LineStream S}.

(** C18: daemons understand each other.  What [send_message] writes for a
    message is, at the other end, the event of that message, on a connection
    that is admitted as on one that waits; the text is read whole only up to 64
    KiB: a longer one is passed over on an admitted connection, and ends the
    wait of one that is not. *)
Theorem messages_cross_streams `{!JsonLibLaws} (cfg : Config K) (msg : Protocol.PeerMessage)
    (u : U) (m : PeerManager K) (o : ObjId) (id : Session.ConnId) (now : Z) :
  Protocol.typed_message msg → carries u (message_bytes msg) →
  if decide (Z.of_nat (length (message_bytes msg)) <= CONTROL_LIMIT)%Z
  then uni_stream cfg o u m = handle_uni_stream cfg o (Some msg) m ∧
       enroll_stream cfg id u now m = enroll_message cfg id (Some msg) now m
  else uni_stream cfg o u m = m ∧ enroll_stream cfg id u now m = enroll_end cfg id m.
Proof.
  intros Hm Hu. specialize (Hu CONTROL_LIMIT). unfold uni_stream, enroll_stream.
  case_decide; [|by destruct Hu as [e ->]]. by rewrite Hu, parse_message_bytes.
Qed.

(** C37: how many ports can be announced.  An announcement of up to 10919 ports
    always fits the stream it is sent on and becomes the peer's ports at the
    other end; one of 10920 ports or more, each of five digits, never does: the
    other end drops it and keeps what it had, bindings included. *)
Theorem announcement_limit `{!JsonLibLaws} `{!CompactJson} (cfg : Config K) (ports : list Z)
    (u : U) (m : PeerManager K) (o : ObjId) :
  u16s ports → carries u (message_bytes (Protocol.ExposedPorts ports)) →
  ((Z.of_nat (length ports) <= 10919)%Z → uni_stream cfg o u m = update_peer_ports cfg o ports m) ∧
  ((10920 <= Z.of_nat (length ports))%Z → Forall (λ p, 10000 <= p)%Z ports → uni_stream cfg o u m = m).
Proof.
  intros Hp Hu.
  specialize (Hu CONTROL_LIMIT). unfold uni_stream.
  destruct (message_bytes_length ports Hp) as [Hle0 Hne]. split.
  - intros Hn. rewrite decide_True in Hu.
    2: { unfold CONTROL_LIMIT. destruct ports; [cbn [length] in Hle0; lia|]. destruct Hne; [done|]. lia. }
    by rewrite Hu, parse_message_bytes.
  - intros Hn Hbig. rewrite decide_False in Hu; [by destruct Hu as [e ->]|].
    destruct Hne as [_ Hlen]; [by intros ->; cbn [length] in Hn; lia|].
    rewrite (Hlen Hbig). unfold CONTROL_LIMIT. lia.
Qed.

End streams_properties.

(** ** Witnesses *)
Section streams_witnesses.
Import Peers Streams Rfc ControlToy Pair.

#[local] Instance rfc_compact : CompactJson.
Proof. by split. Qed.

Lemma bytes_carry (d : bytes) : carries d d.
Proof. intros limit. simpl. case_decide; [done|]. by eexists. Qed.

Lemma messages_cross_streams_witness :
  let msg := Protocol.enroll "5f1e" in
  uni_stream config 0%N (message_bytes msg) Toy.start =
    handle_uni_stream config 0%N (Some msg) Toy.start.
Proof.
  intros msg. pose proof (messages_cross_streams config msg (message_bytes msg) Toy.start 0%N 1%Z 0%Z
                            I (bytes_carry _)) as H.
  rewrite decide_True in H by (by vm_compute). apply H.
Defined.

Lemma announcement_limit_witness :
  let many := replicate (Z.to_nat 10920) 10000%Z in
  let m := uni_stream config 0%N (message_bytes (Protocol.ExposedPorts [443%Z])) Toy.start in
  m = update_peer_ports config 0%N [443%Z] Toy.start ∧
  uni_stream config 0%N (message_bytes (Protocol.ExposedPorts many)) m = m.
Proof.
  intros many m.
  assert (Hmany : u16s many) by (apply Forall_replicate; unfold u16_range; lia).
  split.
  - destruct (announcement_limit config [443%Z] _ Toy.start 0%N
                ltac:(repeat constructor; unfold u16_range; lia) (bytes_carry _)) as [H _].
    apply H. simpl. lia.
  - destruct (announcement_limit config many _ m 0%N Hmany (bytes_carry _)) as [_ H].
    apply H; [unfold many; rewrite length_replicate; lia|]. apply Forall_replicate. lia.
Defined.

End streams_witnesses.
