(* ===== verification/Window.v ===== *)
(** * The window of a connection that waits ([handle_enrollment] in
    [src/src/peer.rs])

    A connection of a stranger waits for a code, ten seconds at most.  [Streams]
    has one round of that wait; here the rounds are put together under the
    clock: the streams that arrive with the time each is read to its end, until
    one of them decides, one fails, or the time is up. *)

From S2P Require Import Prelude RustStr Keys Grants Backoff Dial Invite Store Enroll Protocol Session SessionSafety Surface Resolver Netstack Tunnel Peer PeerFacts PeerLoop Daemon Shell Bindings PeerProps Calls Link Host Json Wire Launchd Codec Control Streams.

Module Window.
Import Peers Streams.

Definition ENROLL_TIMEOUT : Z := Backoff.from_secs 10.

Section window.
Context {K : Type} `{!EndpointKey K} `{!DashMap} `{!JsonLib}.
Context `{!JsonCodec Pins.Pin} `{!JsonCodec Surface.SurfaceRecord}.
Context {U : Type} `{!UniStream U}.
Variable cfg : Config K.

(** [timeout(ENROLL_TIMEOUT, loop)] and the verdict, with the time it falls.
    [None] is a connection on which no stream can be accepted any more.  What is
    there when the time is up still counts: [timeout] looks at the loop first. *)
Fixpoint enroll_loop (id : Session.ConnId) (deadline : Z) (arrivals : list (Z * option U))
    (m : PeerManager K) : PeerManager K * Z :=
  match arrivals with
  | [] => (enroll_end cfg id m, deadline)
  | (now, stream) :: arrivals =>
      if decide (now <= deadline)%Z
      then
        match stream with
        | None => (enroll_end cfg id m, now)
        | Some u =>
            let m := enroll_stream cfg id u now m in
            match waiting m !! id with
            | None => (m, now)
            | Some _ => enroll_loop id deadline arrivals m
            end
        end
      else (enroll_end cfg id m, deadline)
  end.

Definition handle_enrollment (id : Session.ConnId) (start : Z) (arrivals : list (Z * option U))
    (m : PeerManager K) : PeerManager K * Z :=
  enroll_loop id (start + ENROLL_TIMEOUT) arrivals m.

End window.
End Window.

(** ** Lemmas *)
Section window_lemmas.
Import Peers Streams Window.
Context {K : Type} `{EKL : EndpointKeyLaws K} `{DML : DashMapLaws} `{!JsonLib}.
Context `{!JsonCodec Pins.Pin} `{!JsonCodec Surface.SurfaceRecord}.
Context {U : Type} `{!UniStream U}.
Variable cfg : Config K.
Implicit Types (m : PeerManager K) (c : Conn K).

(** The message a stream carries. *)
Definition carried (u : U) : option Protocol.PeerMessage :=
  data ← ok (read_to_end CONTROL_LIMIT u); parse_message data.

(** Turned away: nothing changed, and the connection is closed. *)
Definition turned_away m c m' : Prop := untouched m m' ∧ is_Some (closed m' !! cid c).

(** Welcomed: as a peer on this connection, under the name of the code, with
    its ports, told its list and nothing else. *)
Definition welcomed m c (tok : Tokens.PendingToken) m' : Prop :=
  let k := remote_id c in
  (∃ o, peers m' !! k = Some o ∧ conn_of o m' = Some c) ∧
  Session.peers (session m') !! k = Some (Session.mkAdmitted (Tokens.name tok) Session.Code) ∧
  (∀ port, port ∈ Tokens.ports tok → Grants.allows port k (Session.grants (session m')) = true) ∧
  sent m' = sent m ++ [(c, Protocol.ExposedPorts (Grants.ports_for k (Session.grants (session m'))))] ∧
  closed m' = closed m.

(** Still waiting, with nothing changed but what the session holds for it. *)
Definition still_waits m id c m' : Prop :=
  (∃ wt, waiting m' !! id = Some wt ∧ wait_conn wt = c) ∧ untouched m m' ∧ closed m' = closed m ∧
  Session.tokens (session m') = Session.tokens (session m).

Lemma still_waits_refl m id wt : waiting m !! id = Some wt → still_waits m id (wait_conn wt) m.
Proof. intros Hwt. split; [by exists wt|]. by repeat split. Qed.

Lemma end_turns_away m id wt :
  waiting m !! id = Some wt →
  turned_away m (wait_conn wt) (enroll_end cfg id m) ∧ waiting (enroll_end cfg id m) !! id = None.
Proof.
  intros Hwt. unfold enroll_end. rewrite Hwt. unfold Session.on_enroll_timeout.
  destruct (Session.pending (session m) !! id).
  - destruct (verdict_turns_away cfg id wt [Session.Refuse id Session.EnrollTimeout]
      (set_session (Session.with_pending (delete id (Session.pending (session m))) (session m)) m) m)
      as (Hu & Hw & Hc); [by repeat split|done|].
    split; [split; [exact Hu|]|exact Hw]. by eexists.
  - destruct (verdict_turns_away cfg id wt [] (set_session (session m) m) m)
      as (Hu & Hw & Hc); [by repeat split|done|].
    split; [split; [exact Hu|]|exact Hw]. by eexists.
Qed.

(** A claim that is no good. *)
Lemma bad_claim_turns_away m id wt token v now :
  waiting m !! id = Some wt →
  (Tokens.claim now token (Session.tokens (session m))).2 = None →
  let m' := enroll_message cfg id (Some (Protocol.Enroll token v)) now m in
  waiting m' !! id = None ∧ turned_away m (wait_conn wt) m'.
Proof.
  intros Hwt Hbad. unfold enroll_message. rewrite Hwt. simpl.
  set (wt' := match v with Some _ => _ | None => wt end).
  assert (Hc : wait_conn wt' = wait_conn wt) by (unfold wt'; by destruct v).
  clearbody wt'.
  destruct (Tokens.claim now token _) as [t verdict] eqn:Ht. simpl in Hbad. subst verdict.
  pose proof (verdict_turns_away cfg id wt' [Session.Refuse id Session.NotAuthorized]
    (set_session (Session.with_pending (delete id (Session.pending (session m)))
       (Session.with_tokens t (session m))) m) m) as Hv.
  destruct Hv as (Hu & Hw & Hcl); [by repeat split|done|]. rewrite Hc in Hcl.
  split; [exact Hw|split; [exact Hu|]]. by eexists.
Qed.

(** One message of a connection that waits. *)
Lemma message_decides m id wt msg now :
  waiting m !! id = Some wt →
  let c := wait_conn wt in
  let m' := enroll_message cfg id msg now m in
  still_waits m id c m' ∨
  (waiting m' !! id = None ∧ turned_away m c m') ∨
  ∃ token v tok, msg = Some (Protocol.Enroll token v) ∧
    Tokens.pending (Session.tokens (session m)) !! token = Some tok ∧
    (now < Tokens.expires tok)%Z ∧ waiting m' !! id = None ∧ welcomed m c tok m'.
Proof.
  intros Hwt c m'. subst m'.
  assert (Hstill : ∀ s, Session.peers s = Session.peers (session m) →
    Session.grants s = Session.grants (session m) → Session.tokens s = Session.tokens (session m) →
    still_waits m id c (set_waiting (<[id := wt]> (waiting m)) (set_session s m))).
  { intros s Hp Hg Ht. split; [|by repeat split]. exists wt. simpl. by rewrite lookup_insert_eq. }
  destruct msg as [[ports|port|token v|e]|]; [left|left| |left|left].
  - unfold enroll_message. rewrite Hwt. simpl.
    by destruct (Session.pending (session m) !! id); apply Hstill.
  - unfold enroll_message. rewrite Hwt. by apply Hstill.
  - right. pose proof (claim_lookup now token (Session.tokens (session m))) as Hc.
    destruct (Tokens.pending (Session.tokens (session m)) !! token) as [tok|] eqn:Htok;
      [destruct (decide (now < Tokens.expires tok)%Z) as [Hnow|Hnow]|];
      [right|left; by apply bad_claim_turns_away..].
    destruct (claim_on_waiting cfg m id wt token v now tok Hwt Htok Hnow)
      as (o & p & Ho & Hp & Hs & Hcl & Hsent & Hpe & Hg & Hw).
    exists token, v, tok. split; [done|]. split; [done|]. split; [done|]. split; [exact Hw|].
    split; [|split; [|split; [|done]]].
    + exists o. split; [done|]. unfold conn_of. by rewrite Hp.
    + by rewrite Hpe, lookup_insert_eq.
    + intros port Hport. rewrite Hg. apply allows_add_ports. auto.
  - unfold enroll_message. rewrite Hwt. by apply Hstill.
  - unfold enroll_message. rewrite Hwt. by apply still_waits_refl.
Qed.

(** The same from where it has waited for a while. *)
Lemma turned_away_after m1 m2 id c m : still_waits m id c m1 → turned_away m1 c m2 → turned_away m c m2.
Proof.
  intros (_ & Hu & _ & _) [Hu2 Hc]. split; [|done]. unfold untouched in *. naive_solver congruence.
Qed.

Lemma still_waits_after m1 m2 id c m :
  still_waits m id c m1 → still_waits m1 id c m2 → still_waits m id c m2.
Proof.
  intros (_ & Hu & Hc & Ht) (Hw & Hu2 & Hc2 & Ht2). split; [done|].
  split_and!; try congruence; unfold untouched in *; naive_solver congruence.
Qed.

Lemma welcomed_after m1 m2 id c tok m :
  still_waits m id c m1 → welcomed m1 c tok m2 → welcomed m c tok m2.
Proof.
  intros (_ & (Hs & _) & Hc & _) (H1 & H2 & H3 & H4 & H5). unfold welcomed.
  by rewrite <- Hs, <- Hc.
Qed.

(** The loop, from where it has waited for a while. *)
Lemma loop_decides m id c deadline arrivals m1 :
  still_waits m id c m1 →
  let '(m', t) := enroll_loop cfg id deadline arrivals m1 in
  (t <= deadline)%Z ∧ waiting m' !! id = None ∧
  (turned_away m c m' ∨
   ∃ u token v tok, (t, Some u) ∈ arrivals ∧ carried u = Some (Protocol.Enroll token v) ∧
     Tokens.pending (Session.tokens (session m)) !! token = Some tok ∧
     (t < Tokens.expires tok)%Z ∧ welcomed m c tok m').
Proof.
  revert m1. induction arrivals as [|[now stream] arrivals IH]; intros m1 Hm1;
    pose proof Hm1 as ((wt & Hwt & Hc) & _ & _ & Htokens);
    destruct (end_turns_away m1 id wt Hwt) as [Hend Hgone]; rewrite Hc in Hend;
    apply (turned_away_after _ _ _ _ _ Hm1) in Hend; simpl.
  { split_and!; [lia|done|by left]. }
  case_decide; [|split_and!; [lia|done|by left]].
  destruct stream as [u|]; [|split_and!; [done|done|by left]].
  unfold enroll_stream. destruct (read_to_end CONTROL_LIMIT u) as [d|e] eqn:Hd;
    [|rewrite Hgone; split_and!; [done|done|by left]].
  destruct (message_decides m1 id wt (parse_message d) now Hwt) as [Hs|[[Hw Hv]|Hgood]].
  - rewrite Hc in Hs. pose proof Hs as ((wt' & Hwt' & _) & _). rewrite Hwt'.
    apply (still_waits_after _ _ _ _ _ Hm1) in Hs. specialize (IH _ Hs).
    destruct (enroll_loop _ _ _ _ _) as [m' t]. destruct IH as (Ht & Hw & [Hv|Hv]);
      (split_and!; [done|done|]); [by left|right].
    destruct Hv as (u' & token & v & tok & Hin & Hrest). exists u', token, v, tok.
    split; [by right|exact Hrest].
  - rewrite Hw, Hc in *. split_and!; [done|done|left]. by eapply turned_away_after.
  - destruct Hgood as (token & v & tok & Hmsg & Htok & Hnow & Hw & Hv). rewrite Hw.
    rewrite Hc in Hv. split_and!; [done|done|right]. exists u, token, v, tok.
    split_and!; [by left| |congruence|done|by eapply welcomed_after].
    unfold carried. by rewrite Hd.
Qed.

End window_lemmas.

(** ** Properties *)
Section window_properties.
Import Peers Streams Window.
Context {K : Type} `{EKL : EndpointKeyLaws K} `{DML : DashMapLaws} `{!JsonLib}.
Context `{!JsonCodec Pins.Pin} `{!JsonCodec Surface.SurfaceRecord}.
Context {U : Type} `{!UniStream U}.

(** C26: every stranger is decided about within ten seconds.  Whatever streams
    arrive on a connection that waits, readable or not, and whenever, the wait
    ends, ten seconds after its start at the latest, in one of two ways.  Either
    the connection is closed, nothing was sent on it and no peer, object, pin,
    record, socket or grant has changed; or at that moment a stream brought a
    code that was minted and has not expired, and the connection is now that of
    a known peer, admitted by the code under its name and with its ports, which
    has been sent the list of what it may use and nothing else. *)
Theorem strangers_are_decided_in_time (cfg : Config K) (m : PeerManager K) (id : Session.ConnId)
    (wt : Waiting K) (start : Z) (arrivals : list (Z * option U)) :
  waiting m !! id = Some wt →
  let '(m', t) := handle_enrollment cfg id start arrivals m in
  (t <= start + ENROLL_TIMEOUT)%Z ∧ waiting m' !! id = None ∧
  (turned_away m (wait_conn wt) m' ∨
   ∃ u token v tok, (t, Some u) ∈ arrivals ∧ carried u = Some (Protocol.Enroll token v) ∧
     Tokens.pending (Session.tokens (session m)) !! token = Some tok ∧
     (t < Tokens.expires tok)%Z ∧ welcomed m (wait_conn wt) tok m').
Proof. intros Hwt. by apply loop_decides, still_waits_refl. Qed.

End window_properties.

Section window_witnesses.
Import Peers Streams Window Json.Rfc.

(** Garbage arrives, then the code that is good, then the connection breaks. *)
Definition its_streams : list (Z * option bytes) :=
  [(3%Z, Some [123%Z]); (7%Z, Some (message_bytes (Protocol.enroll "ab"))); (8%Z, None)].

Lemma strangers_are_decided_in_time_witness :
  let r := handle_enrollment Toy.config 1%Z 1 its_streams invited in
  waiting r.1 !! 1%Z = None ∧ r.2 = 7%Z ∧ is_Some (peers r.1 !! 9%N).
Proof.
  intros r.
  pose proof (strangers_are_decided_in_time Toy.config invited 1%Z
                (mkWaiting (mkConn 101%N 9%N) None) 1 its_streams) as H.
  assert (Ht : r.2 = 7%Z ∧ bool_decide (is_Some (peers r.1 !! 9%N)) = true)
    by (split; by vm_compute).
  destruct Ht as [Ht Hp%bool_decide_eq_true]. split_and!; [|exact Ht|exact Hp].
  unfold r in *. destruct (handle_enrollment _ _ _ _ _) as [m' t].
  destruct H as (_ & Hw & _); [by vm_compute|exact Hw].
Defined.

End window_witnesses.
