(* ===== verification/Server.v ===== *)
(** * The serving daemon ([run] in [src/src/daemon.rs], past its start)

    Two loops run side by side until a signal: iroh's router hands connections
    to the peer manager, and the accept loop of the control socket spawns a task
    per client.  [Process] is the daemon with the clients whose tasks have not
    finished; what the peers' side does is an [Input] of [Streams.v]. *)

From S2P Require Import Prelude RustStr Keys Text Store Enroll Protocol Session Surface Netstack Peer Daemon Shell Types Json Wire Codec Control ControlProps Streams.

(** The peers' side has no clients. *)
#[export] Instance no_stream : Control.LineStream Empty_set := {|
  Control.read_line (s : Empty_set) := match s with end;
  Control.write_str _ (s : Empty_set) := match s with end;
|}.

Module Server.
Import Peers.

Inductive Signal : Type := Interrupt | Terminate.

Section server.
Context {K : Type} `{!EndpointKey K} `{!DashMap} `{!JsonLib}.
Context `{!JsonCodec Pins.Pin} `{!JsonCodec Surface.SurfaceRecord}.
Context {U : Type} `{!Streams.UniStream U} {S : Type} `{!Control.LineStream S}.
Variable cfg : Config K.
Variable parse_ip : string → option IpAddr.

(** [ended]: what [run] returned; [drained]: whether the router was shut down
    before. *)
Record Process : Type := mkProcess {
  manager : PeerManager K;
  clients : gmap N S;
  next_task : N;
  ended : option (result unit);
  drained : bool;
}.

Definition serving (m : PeerManager K) : Process := mkProcess m ∅ 0 None false.

Inductive Event : Type :=
| SocketAccept (r : result S)
| ClientTask (id : N) (random : bytes) (now : Z)
| Net (i : Streams.Input K U Empty_set)
| Signalled (s : Signal).

(** [listener.accept().await?] and the spawn. *)
Definition socket_accept (r : result S) (p : Process) : Process :=
  match r with
  | Ok s => mkProcess (manager p) (<[next_task p := s]> (clients p)) (next_task p + 1)%N None
                      (drained p)
  | Err e => mkProcess (manager p) (clients p) (next_task p) (Some (Err e)) (drained p)
  end.

(** A client's task: an error of [handle_client] is logged. *)
Definition client_task (id : N) (random : bytes) (now : Z) (p : Process) : Process :=
  match clients p !! id with
  | Some s =>
      let '(_, m, _) := Control.handle_client cfg parse_ip random now s (manager p) in
      mkProcess m (delete id (clients p)) (next_task p) None (drained p)
  | None => p
  end.

(** [select!]: the signal ends the accept loop, and the router is drained. *)
Definition signalled (s : Signal) (p : Process) : Process :=
  mkProcess (manager p) (clients p) (next_task p) (Some (Ok tt)) true.

(** Once [run] has returned nothing happens. *)
Definition step (p : Process) (e : Event) : Process :=
  match ended p with
  | Some _ => p
  | None =>
      match e with
      | SocketAccept r => socket_accept r p
      | ClientTask id random now => client_task id random now p
      | Net i => mkProcess (Streams.serve cfg parse_ip (manager p) i) (clients p) (next_task p) None
                           (drained p)
      | Signalled s => signalled s p
      end
  end.

(** The end an event asks for, and whether it is orderly. *)
Definition ends (e : Event) : option (result unit * bool) :=
  match e with
  | SocketAccept (Err e) => Some (Err e, false)
  | Signalled _ => Some (Ok tt, true)
  | _ => None
  end.

End server.
Arguments Process K {_} S.
Arguments Event K U S : clear implicits.
End Server.

(** ** Lemmas *)
Section server_lemmas.
Import Peers Server.
Context {K : Type} `{EKL : EndpointKeyLaws K} `{DML : DashMapLaws} `{!JsonLib}.
Context `{!JsonCodec Pins.Pin} `{!JsonCodec Surface.SurfaceRecord}.
Context {U : Type} `{!Streams.UniStream U} {S : Type} `{!Control.LineStream S}.
Implicit Types (p : Process K S) (e : Event K U S).

Lemma step_ended cfg parse_ip p e r : ended p = Some r → step cfg parse_ip p e = p.
Proof. unfold step. by intros ->. Qed.

Lemma run_ended cfg parse_ip p (es : list (Event K U S)) r :
  ended p = Some r → foldl (step cfg parse_ip) p es = p.
Proof. intros Hp. induction es as [|e es IH]; simpl; [done|]. by erewrite step_ended. Qed.

Lemma step_manager cfg parse_ip p e :
  manager (step cfg parse_ip p e) = manager p ∨
  ∃ ev, typed_event ev ∧ manager (step cfg parse_ip p e) = Shell.step cfg parse_ip (manager p) ev.
Proof.
  unfold step. destruct (ended p); [by left|]. destruct e as [r|id random now|i|s]; simpl.
  - left. by destruct r.
  - unfold client_task. destruct (clients p !! id) as [s|]; [|by left].
    pose proof (handle_client_step cfg parse_ip random now s (manager p)) as Hc. simpl in Hc.
    destruct (Control.handle_client _ _ _ _ _ _) as [[s' m] r]. simpl in *.
    destruct Hc as [->|(req & ? & ->)]; [by left|right].
    by exists (Shell.EvRequest req random now).
  - apply serve_step.
  - by left.
Qed.

Lemma step_reachable cfg parse_ip p e :
  Shell.reachable cfg parse_ip (manager p) →
  Shell.reachable cfg parse_ip (manager (step cfg parse_ip p e)).
Proof.
  intros (texts & ports & f1 & f2 & ns & m0 & es & Hrun & Hm).
  destruct (step_manager cfg parse_ip p e) as [->|(ev & _ & ->)].
  - by exists texts, ports, f1, f2, ns, m0, es.
  - exists texts, ports, f1, f2, ns, m0, (es ++ [ev]). split; [done|]. by rewrite foldl_snoc, Hm.
Qed.

End server_lemmas.

(** ** Properties *)
Section server_properties.
Import Peers Server.
Context {K : Type} `{EKL : EndpointKeyLaws K} `{DML : DashMapLaws} `{!JsonLib}.
Context `{!JsonCodec Pins.Pin} `{!JsonCodec Surface.SurfaceRecord}.
Context {U : Type} `{!Streams.UniStream U} {S : Type} `{!Control.LineStream S}.

(** C25: how a daemon ends.  A daemon that serves goes on until the first
    signal, or the first error of [accept] on its control socket, and does
    nothing after.  A signal is a good end, with the router drained; an error of
    [accept], of whatever kind, ends the daemon with that error, and nothing is
    drained. *)
Theorem daemon_ends_once (cfg : Config K) (parse_ip : string → option IpAddr)
    (p : Process K S) (es : list (Event K U S)) :
  ended p = None →
  let p' := foldl (step cfg parse_ip) p es in
  (Forall (λ e, ends e = None) es → ended p' = None ∧ drained p' = drained p) ∧
  (∀ es1 e es2 r orderly, es = es1 ++ e :: es2 → Forall (λ e, ends e = None) es1 →
     ends e = Some (r, orderly) →
     p' = foldl (step cfg parse_ip) p (es1 ++ [e]) ∧
     manager p' = manager (foldl (step cfg parse_ip) p es1) ∧
     ended p' = Some r ∧ drained p' = (orderly || drained p)%bool).
Proof.
  intros Hp p'.
  assert (Hgo : ∀ es, Forall (λ e, ends e = None) es →
    ended (foldl (step cfg parse_ip) p es) = None ∧
    drained (foldl (step cfg parse_ip) p es) = drained p).
  { clear p' es. induction es as [|e es IH] using rev_ind; [done|].
    rewrite Forall_app, Forall_singleton, foldl_snoc. intros [Hes He].
    destruct (IH Hes) as [Hn Hd]. set (q := foldl _ p es) in *. unfold step. rewrite Hn.
    destruct e as [[s|err]|id random now|i|s]; simpl in *; try done.
    unfold client_task. destruct (clients q !! id) as [s|]; [|done].
    by destruct (Control.handle_client _ _ _ _ _ _) as [[s' m] r]. }
  split; [by apply Hgo|]. intros es1 e es2 r orderly -> Hes1 He. subst p'.
  destruct (Hgo es1 Hes1) as [Hn Hd]. rewrite foldl_app. simpl. rewrite foldl_snoc.
  set (q := foldl (step cfg parse_ip) p es1) in *.
  assert (Hend : ended (step cfg parse_ip q e) = Some r ∧ manager (step cfg parse_ip q e) = manager q ∧
                 drained (step cfg parse_ip q e) = (orderly || drained p)%bool).
  { unfold step. rewrite Hn. destruct e as [[s|err]|id random now|i|s]; simpl in *; simplify_eq; done. }
  destruct Hend as (He1 & He2 & He3). erewrite run_ended by exact He1. done.
Qed.

(** Clients do not get in each other's way.  From a start on, with
    clients and peers interleaved as they come, a daemon is always in a
    [reachable] state; a client's task acts as the one request of its line, at
    the moment it runs, and leaves the others waiting; one whose line is no
    request changes nothing. *)
Theorem clients_are_served (cfg : Config K) (parse_ip : string → option IpAddr)
    (texts : list string) (ports : list Z) (f1 f2 : Store.File) (ns : option NetStack.NetStack)
    (m0 : PeerManager K) (es : list (Event K U S)) (id : N) (s : S) (random : bytes) (now : Z) :
  Daemon.run cfg texts ports f1 f2 ns = Ok m0 →
  let p := foldl (step cfg parse_ip) (serving m0) es in
  let p' := step cfg parse_ip p (ClientTask id random now) in
  Shell.reachable cfg parse_ip (manager p) ∧
  (ended p = None → clients p !! id = Some s →
   clients p' = delete id (clients p) ∧
   match Control.read_line s with
   | (_, Err _) => manager p' = manager p
   | (_, Ok line) =>
       match from_json line with
       | Err _ => manager p' = manager p
       | Ok req => manager p' = (Daemon.handle_request cfg parse_ip req random now (manager p)).1
       end
   end).
Proof.
  intros Hrun p p'. split.
  - unfold p. clear p p'. induction es as [|e es IH] using rev_ind.
    + by exists texts, ports, f1, f2, ns, m0, [].
    + rewrite foldl_snoc. by apply step_reachable.
  - intros Hp Hs. unfold p', step. rewrite Hp. unfold client_task. rewrite Hs.
    unfold Control.handle_client. destruct (Control.read_line s) as [s1 [line|]]; [|done].
    destruct (from_json line) as [req|]; [|done].
    destruct (Daemon.handle_request _ _ _ _ _ _) as [m resp]. simpl.
    destruct (Control.write_str _ s1) as [s2 [|]]; [|done].
    by destruct (Control.write_str _ s2).
Qed.

End server_properties.

Section server_witnesses.
Import Peers Streams Rfc Pair Server.

Definition line (req : Json) : DaemonEnd := mkEnd (print req +:+ chr nl) EmptyString.

(** Two clients, the second first: its request is cut short, the first's
    revokes; then [accept] fails. *)
Definition two_clients : list (Event N bytes DaemonEnd) :=
  [SocketAccept (Ok (line (JObj [("Unexpose", JObj [("port", JInt 8080); ("to", JNull)])])));
   SocketAccept (Ok (mkEnd "{" EmptyString)); ClientTask 1 [] 0].

Lemma daemon_ends_once_witness :
  let p := foldl (step Toy.config Toy.parse_ip) (serving Toy.start)
                 (two_clients ++ [SocketAccept (Err "too many open files"); Signalled Terminate]) in
  ended p = Some (Err "too many open files") ∧ drained p = false.
Proof.
  intros p. destruct (daemon_ends_once Toy.config Toy.parse_ip (serving Toy.start)
    (two_clients ++ [SocketAccept (Err "too many open files"); Signalled Terminate]) eq_refl) as [_ H].
  destruct (H two_clients (SocketAccept (Err "too many open files")) [Signalled Terminate]
              (Err "too many open files") false eq_refl) as (_ & _ & He & Hd);
    [by repeat constructor|done|]. by split.
Defined.

Lemma clients_are_served_witness :
  let p := foldl (step Toy.config Toy.parse_ip) (serving Toy.start) two_clients in
  let p' := step Toy.config Toy.parse_ip p (ClientTask 0 [] 0) in
  Session.granted_ports (session (manager p)) = [8080%Z] ∧
  Session.granted_ports (session (manager p')) = [].
Proof.
  intros p p'. destruct (clients_are_served Toy.config Toy.parse_ip _ _ _ _ _ _ two_clients 0
    (line (JObj [("Unexpose", JObj [("port", JInt 8080); ("to", JNull)])])) [] 0%Z Toy.start_run)
    as [_ H]. split; [by vm_compute|].
  destruct (H ltac:(by vm_compute) ltac:(by vm_compute)) as [_ Hm].
  assert (Hreq : from_json (print (JObj [("Unexpose", JObj [("port", JInt 8080); ("to", JNull)])])
                   +:+ chr nl) = Ok (Protocol.ReqUnexpose 8080 None)) by (by vm_compute).
  assert (Hline : Control.read_line (line (JObj [("Unexpose", JObj [("port", JInt 8080); ("to", JNull)])])) =
    (line (JObj [("Unexpose", JObj [("port", JInt 8080); ("to", JNull)])]),
     Ok (print (JObj [("Unexpose", JObj [("port", JInt 8080); ("to", JNull)])]) +:+ chr nl)))
    by (by vm_compute).
  rewrite Hline, Hreq in Hm. etrans; [exact (f_equal (λ m, Session.granted_ports (session m)) Hm)|].
  by vm_compute.
Defined.

End server_witnesses.
