(* ===== verification/Forward.v ===== *)
(** * Two-way forwarding ([forward_bidirectional] in [src/src/tunnel.rs])

    A tunnel copies both ways at once under [select!], which ends it as soon as
    one of the two copies ends and drops the other where it stands.  A copy is
    a state machine over the two places it waits at, its read and its write, and
    a schedule says which copy goes on next; [copy_loop] of [Tunnel.v] is the
    machine run alone. *)

From S2P Require Import Prelude RustStr Surface Tunnel.

Module Forward.
Import Tunnel.

(** Waiting to read; holding what was read until the writer takes it; ended. *)
Inductive CopyPc : Type :=
| Reading
| Writing (l : bytes)
| Ended (r : result Z).

Record Copy (R W : Type) : Type := mkCopy { reader : R; writer : W; total : Z; pc : CopyPc }.
Arguments mkCopy {R W}.
Arguments reader {R W}.
Arguments writer {R W}.
Arguments total {R W}.
Arguments pc {R W}.

Section copy.
Context {R W : Type} `{!AsyncRead R} `{!AsyncWrite W}.

Definition copy_start (r : R) (w : W) : Copy R W := mkCopy r w 0 Reading.

(** [copy_flush] up to where it next waits. *)
Definition copy_step (c : Copy R W) : Copy R W :=
  match pc c with
  | Reading =>
      match read (reader c) BUF with
      | (r, Err e) => mkCopy r (writer c) (total c) (Ended (Err e))
      | (r, Ok []) => mkCopy r (writer c) (total c) (Ended (Ok (total c)))
      | (r, Ok l) => mkCopy r (writer c) (total c) (Writing l)
      end
  | Writing l =>
      match write_all (writer c) l with
      | (w, Err e) => mkCopy (reader c) w (total c) (Ended (Err e))
      | (w, Ok _) => mkCopy (reader c) w (u64_add (total c) (Z.of_nat (length l))) Reading
      end
  | Ended _ => c
  end.

Definition ended (c : Copy R W) : bool :=
  match pc c with
  | Ended _ => true
  | _ => false
  end.

End copy.

Section forward.
Context {TcpRead QuicSend QuicRecv TcpWrite : Type}.
Context `{!AsyncRead TcpRead} `{!AsyncWrite QuicSend}.
Context `{!AsyncRead QuicRecv} `{!AsyncWrite TcpWrite}.
(** [SendStream::finish]. *)
Variable finish : QuicSend → QuicSend.

Record Tunnel : Type := mkTunnel {
  tcp_to_quic : Copy TcpRead QuicSend;
  quic_to_tcp : Copy QuicRecv TcpWrite;
}.

(** The two branches of the [select!]; the first closes its stream when its
    copy ends. *)
Inductive Branch : Type := TcpToQuic | QuicToTcp.

Definition over (t : Tunnel) : bool := (ended (tcp_to_quic t) || ended (quic_to_tcp t))%bool.

Definition poll (b : Branch) (t : Tunnel) : Tunnel :=
  match b with
  | TcpToQuic =>
      let c := copy_step (tcp_to_quic t) in
      let c := if ended c then mkCopy (reader c) (finish (writer c)) (total c) (pc c) else c in
      mkTunnel c (quic_to_tcp t)
  | QuicToTcp => mkTunnel (tcp_to_quic t) (copy_step (quic_to_tcp t))
  end.

(** A schedule; nothing is polled once a branch has ended. *)
Fixpoint forward (schedule : list Branch) (t : Tunnel) : Tunnel :=
  match schedule with
  | [] => t
  | b :: schedule => if over t then t else forward schedule (poll b t)
  end.

Definition forward_bidirectional (schedule : list Branch) (tcp_read : TcpRead)
    (quic_send : QuicSend) (quic_recv : QuicRecv) (tcp_write : TcpWrite) : Tunnel :=
  forward schedule (mkTunnel (copy_start tcp_read quic_send) (copy_start quic_recv tcp_write)).

(** The accept loop of a listener: each connection is served on its own, and
    the first accept that fails ends the loop.  What it started and how it
    ended; [None] is a loop still waiting. *)
Fixpoint serve_listener {Conn} (accepts : list (result Conn)) : list Conn * option string :=
  match accepts with
  | [] => ([], None)
  | Err e :: _ => ([], Some e)
  | Ok stream :: accepts =>
      let '(served, r) := serve_listener accepts in (stream :: served, r)
  end.

(** One of them: open a tunnel, then forward. *)
Definition serve_connection (opened : result (QuicSend * QuicRecv)) (schedule : list Branch)
    (tcp_read : TcpRead) (tcp_write : TcpWrite) : result Tunnel :=
  match opened with
  | Ok (send, recv) => Ok (forward_bidirectional schedule tcp_read send recv tcp_write)
  | Err e => Err e
  end.

End forward.
End Forward.

(** ** Lemmas *)
Import Tunnel Forward.

Section copy_lemmas.
Context {R W : Type} `{AsyncReadLaws R} `{AsyncWriteLaws W}.

(** What is held between a read and its write. *)
Definition held (c : Copy R W) : bytes :=
  match pc c with
  | Writing l => l
  | _ => []
  end.

(** [c] has forwarded part of the stream of [r] to [w]: what it wrote, what it
    holds and what is left make up the stream as long as it goes on; at the end
    what it wrote is a prefix, all of it when it ended well. *)
Definition copied (r : R) (w : W) (c : Copy R W) : Prop :=
  ∃ l, written (writer c) = written w ++ l ∧
    match pc c with
    | Ended (Ok n) => l = pending r ∧ n = (Z.of_nat (length l) mod 2 ^ 64)%Z
    | Ended (Err _) => l `prefix_of` pending r
    | _ => l ++ held c ++ pending (reader c) = pending r ∧
           total c = (Z.of_nat (length l) mod 2 ^ 64)%Z
    end.

Lemma copied_start r w : copied r w (copy_start r w).
Proof. exists []. by rewrite app_nil_r. Qed.

Lemma copied_step r w c : copied r w c → copied r w (copy_step c).
Proof.
  intros (l & Hw & Hc). destruct c as [rd wr tot [|h|res]]; unfold held in *; simpl in *.
  - destruct Hc as [Hp Ht]. unfold copy_step. simpl.
    destruct (read rd BUF) as [rd' [[|b k]|e]] eqn:Hr.
    + destruct (read_ok rd rd' BUF []) as (_ & _ & Hend); [apply BUF_pos|done|].
      exists l. simpl. rewrite Hend, app_nil_r in Hp by done. by subst.
    + destruct (read_ok rd rd' BUF (b :: k)) as (Hp' & _ & _); [apply BUF_pos|done|].
      exists l. unfold held. simpl. split; [done|]. rewrite Hp' in Hp. done.
    + exists l. simpl. split; [done|]. rewrite <- Hp. by apply prefix_app_r.
  - destruct Hc as [Hp Ht]. unfold copy_step. simpl.
    destruct (write_all wr h) as [wr' [[]|e]] eqn:Hwr.
    + apply write_all_ok in Hwr. exists (l ++ h). unfold held. simpl. split_and!.
      * by rewrite Hwr, Hw, <- app_assoc.
      * by rewrite <- app_assoc.
      * rewrite Ht. unfold u64_add. rewrite Z.add_mod_idemp_l by done.
        rewrite length_app. f_equal. lia.
    + apply write_all_err in Hwr as (k & [k' ->] & Hwr). exists (l ++ k). simpl. split.
      * by rewrite Hwr, Hw, <- app_assoc.
      * rewrite <- Hp. apply prefix_app. rewrite <- app_assoc. by apply prefix_app_r.
  - by exists l.
Qed.

Lemma copied_prefix r w c :
  copied r w c → ∃ l, l `prefix_of` pending r ∧ written (writer c) = written w ++ l.
Proof.
  intros (l & Hw & Hc). exists l. split; [|done]. destruct (pc c) as [| |[n|e]].
  - destruct Hc as [<- _]. by apply prefix_app_r.
  - destruct Hc as [<- _]. by apply prefix_app_r.
  - by destruct Hc as [-> _].
  - done.
Qed.

Lemma copy_step_ended c : ended c = true → copy_step c = c.
Proof. unfold ended, copy_step. by destruct c as [r w tot [| |]]. Qed.

Lemma iter_ended n c : ended c = true → Nat.iter n copy_step c = c.
Proof. intros Hc. induction n as [|n IH]; [done|]. simpl. rewrite IH. by apply copy_step_ended. Qed.

(** One round of the loop is two steps, or one that ends. *)
Lemma copy_loop_steps fuel tot r w r' w' res :
  copy_loop fuel tot r w = Some (r', w', res) →
  ∃ tot', Nat.iter (2 * fuel) copy_step (mkCopy r w tot Reading) = mkCopy r' w' tot' (Ended res).
Proof.
  revert tot r w. induction fuel as [|fuel IH]; intros tot r w; [done|].
  cbn [copy_loop]. intros Hl.
  assert (Htwo : ∀ c, Nat.iter (2 * S fuel) copy_step c =
                      Nat.iter (2 * fuel) copy_step (copy_step (copy_step c))).
  { intros c. replace (2 * S fuel) with (S (S (2 * fuel))) by lia.
    by rewrite !Nat.iter_succ_r. }
  rewrite Htwo. clear Htwo.
  assert (Hend : ∀ c c', copy_step c = c' → ended c' = true →
    Nat.iter (2 * fuel) copy_step (copy_step (copy_step c)) = c').
  { intros c c' -> Hc'. by rewrite copy_step_ended, iter_ended. }
  destruct (read r BUF) as [r1 [[|b k]|e]] eqn:Hr.
  - injection Hl as -> -> <-. exists tot. apply Hend; [|done]. unfold copy_step. simpl. by rewrite Hr.
  - assert (H1 : copy_step (mkCopy r w tot Reading) = mkCopy r1 w tot (Writing (b :: k))).
    { unfold copy_step. simpl. by rewrite Hr. }
    rewrite H1. destruct (write_all w (b :: k)) as [w1 [u|e]] eqn:Hwr.
    + destruct (IH _ _ _ Hl) as [tot' Hit]. exists tot'. rewrite <- Hit. f_equal.
      unfold copy_step. cbn [pc writer]. by rewrite Hwr.
    + injection Hl as -> -> <-. exists tot. unfold copy_step at 2. cbn [pc writer]. rewrite Hwr.
      by rewrite iter_ended.
  - injection Hl as -> -> <-. exists tot. apply Hend; [|done]. unfold copy_step. simpl. by rewrite Hr.
Qed.

Lemma copy_loop_total fuel tot r w :
  length (pending r) < fuel → is_Some (copy_loop fuel tot r w).
Proof.
  revert tot r w. induction fuel as [|fuel IH]; intros tot r w Hf; [lia|]. cbn [copy_loop].
  destruct (read r BUF) as [r1 [[|b k]|e]] eqn:Hr; [by eexists| |by eexists].
  destruct (write_all w (b :: k)) as [w1 [u|e]]; [|by eexists].
  destruct (read_ok r r1 BUF (b :: k)) as (Hp & _); [apply BUF_pos|done|].
  apply IH. rewrite Hp, length_app in Hf. simpl in Hf. lia.
Qed.

(** The steps a copy still has in it. *)
Definition measure (c : Copy R W) : nat :=
  match pc c with
  | Reading => 2 * length (pending (reader c)) + 2
  | Writing _ => 2 * length (pending (reader c)) + 3
  | Ended _ => 0
  end.

Lemma measure_step c : ended c = false → measure (copy_step c) < measure c.
Proof.
  destruct c as [r w tot [|l|]]; intros Hc; [..|done]; unfold measure, copy_step; simpl.
  - destruct (read r BUF) as [r' [[|b k]|e]] eqn:Hr; simpl; [lia| |lia].
    destruct (read_ok r r' BUF (b :: k)) as (Hp & _); [apply BUF_pos|done|].
    rewrite Hp, length_app. simpl. lia.
  - destruct (write_all w l) as [w' [|]]; simpl; lia.
Qed.

Lemma measure_ended c : measure c = 0 → ended c = true.
Proof. unfold measure, ended. case_match; simpl; [lia..|done]. Qed.

End copy_lemmas.

Section forward_lemmas.
Context {TcpRead QuicSend QuicRecv TcpWrite : Type}.
Context `{AsyncReadLaws TcpRead} `{AsyncWriteLaws QuicSend}.
Context `{AsyncReadLaws QuicRecv} `{AsyncWriteLaws TcpWrite}.
Variable finish : QuicSend → QuicSend.
Hypothesis finish_written : ∀ w, written (finish w) = written w.
Implicit Types (t : Tunnel (TcpRead:=TcpRead) (QuicSend:=QuicSend) (QuicRecv:=QuicRecv) (TcpWrite:=TcpWrite)).

Definition tunnel_ok tr qs qr tw t : Prop :=
  copied tr qs (tcp_to_quic t) ∧ copied qr tw (quic_to_tcp t).

Lemma copied_finish {R} `{!AsyncRead R} (r : R) w c :
  copied r w c → copied r w (mkCopy (reader c) (finish (writer c)) (total c) (pc c)).
Proof. unfold copied, held. simpl. by rewrite finish_written. Qed.

Lemma tunnel_ok_poll tr qs qr tw b t :
  tunnel_ok tr qs qr tw t → tunnel_ok tr qs qr tw (poll finish b t).
Proof.
  intros [Hc1 Hc2]. destruct b; split; simpl; try done; [|by apply copied_step].
  pose proof (copied_step tr qs _ Hc1) as Hs. case_match; [by apply copied_finish|done].
Qed.

Lemma tunnel_ok_forward tr qs qr tw s t :
  tunnel_ok tr qs qr tw t → tunnel_ok tr qs qr tw (forward finish s t).
Proof.
  revert t. induction s as [|b s IH]; intros t Ht; simpl; [done|].
  destruct (over t); [done|]. by apply IH, tunnel_ok_poll.
Qed.

Lemma forward_over s t : over t = true → forward finish s t = t.
Proof. intros Ht. destruct s; simpl; by rewrite ?Ht. Qed.

Lemma forward_app s s' t : forward finish (s ++ s') t = forward finish s' (forward finish s t).
Proof.
  revert t. induction s as [|b s IH]; intros t; simpl; [done|].
  destruct (over t) eqn:Ho; [by rewrite forward_over|]. apply IH.
Qed.

(** Only one branch polled: its copy runs, the other stands still. *)
Lemma forward_tcp n t :
  ended (quic_to_tcp t) = false → ended (tcp_to_quic t) = false →
  let t' := forward finish (replicate n TcpToQuic) t in
  quic_to_tcp t' = quic_to_tcp t ∧
  pc (tcp_to_quic t') = pc (Nat.iter n copy_step (tcp_to_quic t)) ∧
  written (writer (tcp_to_quic t')) = written (writer (Nat.iter n copy_step (tcp_to_quic t))).
Proof.
  revert t. induction n as [|n IH]; intros t Hq Ht; [done|].
  rewrite replicate_S. cbn [forward]. unfold over. rewrite Ht, Hq. cbn [orb]. rewrite Nat.iter_succ_r.
  destruct (ended (copy_step (tcp_to_quic t))) eqn:He.
  - rewrite forward_over; [|by unfold over; simpl; rewrite He; simpl; unfold ended in *; simpl; case_match].
    cbn [poll]. rewrite He. simpl. rewrite iter_ended by done. by rewrite finish_written.
  - destruct (IH (poll finish TcpToQuic t)) as (H1' & H2' & H3'); simpl; [done|by rewrite He|].
    rewrite He in *. simpl in *. rewrite He in *. done.
Qed.

#[export] Instance branch_eq_dec : EqDecision Branch.
Proof. solve_decision. Defined.

Definition polls (b : Branch) (s : list Branch) : nat := length (filter (b =.) s).

Definition measure_of (b : Branch) t : nat :=
  match b with
  | TcpToQuic => measure (tcp_to_quic t)
  | QuicToTcp => measure (quic_to_tcp t)
  end.

Lemma measure_poll b b' t :
  over t = false →
  measure_of b (poll finish b' t) + (if decide (b = b') then 1 else 0) <= measure_of b t.
Proof.
  intros Ho. unfold over in Ho. apply orb_false_iff in Ho as [H1' H2'].
  destruct b, b'; simpl; rewrite ?decide_True, ?decide_False by done; try lia.
  - pose proof (measure_step _ H1') as Hm.
    destruct (ended (copy_step (tcp_to_quic t))); [|lia]. unfold measure in *. simpl in *. lia.
  - pose proof (measure_step _ H2'). lia.
Qed.

Lemma forward_ends b s t : measure_of b t <= polls b s → over (forward finish s t) = true.
Proof.
  revert t. induction s as [|b' s IH]; intros t; simpl.
  - unfold polls. simpl. intros Hm. unfold over. apply orb_true_iff.
    destruct b; [left|right]; apply measure_ended; simpl in Hm; lia.
  - intros Hm. destruct (over t) eqn:Ho; [done|]. apply IH.
    pose proof (measure_poll b b' t Ho) as Hp. unfold polls in *. rewrite filter_cons in Hm.
    case_decide; simpl in Hm; lia.
Qed.

End forward_lemmas.

(** ** Properties *)
Section copy_theorems.
Context {R W : Type} `{AsyncReadLaws R} `{AsyncWriteLaws W}.

(** The machine a tunnel schedules is the loop of [copy_flush].  Run
    alone from its start, it has ended after two steps per byte the reader has
    and two more, in the reader, the writer and the result that [copy_flush]
    ends with, and in no other; and however much longer it is run, it stays
    there. *)
Theorem copy_machine_is_copy_flush (r : R) (w : W) (n : nat) r' w' res :
  2 * S (length (pending r)) <= n →
  copy_flush (S (length (pending r))) r w = Some (r', w', res) ↔
  ∃ tot, Nat.iter n copy_step (copy_start r w) = mkCopy r' w' tot (Ended res).
Proof.
  intros Hn. set (fuel := S (length (pending r))) in *.
  assert (Hmore : ∀ c, Nat.iter (2 * fuel) copy_step (copy_start r w) = c → ended c = true →
    Nat.iter n copy_step (copy_start r w) = c).
  { intros c Hc He. replace n with ((n - 2 * fuel) + 2 * fuel) by lia.
    rewrite Nat.iter_add, Hc. by apply iter_ended. }
  split.
  - intros Hc. apply copy_loop_steps in Hc as [tot Hit]. exists tot. by apply Hmore.
  - intros [tot Hit].
    destruct (copy_loop_total fuel 0 r w) as [[[r1 w1] res1] Hc]; [unfold fuel; lia|].
    unfold copy_flush. rewrite Hc. apply copy_loop_steps in Hc as [tot1 Hit1].
    apply Hmore in Hit1; [|done]. rewrite Hit in Hit1. by injection Hit1 as -> -> _ ->.
Qed.

End copy_theorems.

Section forward_theorems.
Context {TcpRead QuicSend QuicRecv TcpWrite : Type}.
Context `{AsyncReadLaws TcpRead} `{AsyncWriteLaws QuicSend}.
Context `{AsyncReadLaws QuicRecv} `{AsyncWriteLaws TcpWrite}.
Variable finish : QuicSend → QuicSend.
Hypothesis finish_written : ∀ w, written (finish w) = written w.

(** C34: a tunnel forwards both ways at once and mixes nothing.  However
    the two copies are scheduled, each writer has at every moment taken a prefix,
    in order, of what its own reader had to give; a copy that has ended well has
    forwarded all of it; and the tunnel is over at the latest once one of the
    copies has gone on twice per byte it had to forward and twice more. *)
Theorem forwarding_both_ways schedule tr qs qr tw :
  let t := forward_bidirectional finish schedule tr qs qr tw in
  (∃ l, l `prefix_of` pending tr ∧ written (writer (tcp_to_quic t)) = written qs ++ l) ∧
  (∃ l, l `prefix_of` pending qr ∧ written (writer (quic_to_tcp t)) = written tw ++ l) ∧
  (∀ n, pc (tcp_to_quic t) = Ended (Ok n) →
     written (writer (tcp_to_quic t)) = written qs ++ pending tr) ∧
  (∀ n, pc (quic_to_tcp t) = Ended (Ok n) →
     written (writer (quic_to_tcp t)) = written tw ++ pending qr) ∧
  (2 * S (length (pending tr)) <= polls TcpToQuic schedule ∨
   2 * S (length (pending qr)) <= polls QuicToTcp schedule → over t = true).
Proof.
  intros t.
  assert (Hok : tunnel_ok tr qs qr tw t).
  { apply tunnel_ok_forward; [done|]. split; apply copied_start. }
  destruct Hok as [Hq Ht]. split_and!.
  - by apply copied_prefix.
  - by apply copied_prefix.
  - intros n Hn. destruct Hq as (l & Hw & Hc). rewrite Hn in Hc. by destruct Hc as [-> _].
  - intros n Hn. destruct Ht as (l & Hw & Hc). rewrite Hn in Hc. by destruct Hc as [-> _].
  - intros [Hs|Hs]; [apply (forward_ends _ TcpToQuic)|apply (forward_ends _ QuicToTcp)];
      unfold measure_of, measure; simpl; lia.
Qed.

(** A client that closes its sending side can lose the whole
    answer.  Whatever the other machine has to send, there is a schedule on
    which the request is copied to its end, as [copy_flush] alone would copy it,
    and nothing of the answer, then or on any continuation: the first copy to
    end takes the other with it. *)
Theorem half_close_loses_answer tr qs qr tw r' w' res :
  copy_flush (S (length (pending tr))) tr qs = Some (r', w', res) →
  ∃ schedule, ∀ rest,
    let t := forward_bidirectional finish (schedule ++ rest) tr qs qr tw in
    over t = true ∧ pc (tcp_to_quic t) = Ended res ∧
    written (writer (tcp_to_quic t)) = written w' ∧
    written (writer (quic_to_tcp t)) = written tw ∧ pending (reader (quic_to_tcp t)) = pending qr.
Proof.
  intros Hc. apply copy_loop_steps in Hc as [tot Hit].
  exists (replicate (2 * S (length (pending tr))) TcpToQuic). intros rest t.
  unfold t, forward_bidirectional. rewrite forward_app.
  destruct (forward_tcp finish finish_written (2 * S (length (pending tr)))
              (mkTunnel (copy_start tr qs) (copy_start qr tw))) as (Hq & Hp & Hw); [done..|].
  unfold copy_start in *. cbn [tcp_to_quic] in Hp, Hw. rewrite Hit in Hp, Hw. cbn [pc writer] in Hp, Hw.
  set (t' := forward _ _ _) in *.
  assert (Ho : over t' = true) by (unfold over, ended; by rewrite Hp).
  rewrite forward_over by done. rewrite Hq. done.
Qed.

End forward_theorems.

Section forward_witnesses.
#[local] Existing Instances list_read list_read_laws list_write list_write_laws.

(** Two lists each way; the schedule alternates. *)
Lemma forwarding_both_ways_witness :
  let s := [TcpToQuic; QuicToTcp; TcpToQuic; QuicToTcp; TcpToQuic] in
  let t := forward_bidirectional (QuicSend:=bytes) id s
             [1; 2]%Z [] [7; 8; 9]%Z [5]%Z in
  written (writer (tcp_to_quic t)) = [1; 2]%Z ∧
  (∃ l, l `prefix_of` [7; 8; 9]%Z ∧ written (writer (quic_to_tcp t)) = [5]%Z ++ l).
Proof.
  intros s t. destruct (forwarding_both_ways (QuicSend:=bytes) id (λ _, eq_refl) s
    [1; 2]%Z [] [7; 8; 9]%Z [5]%Z) as (_ & Hb & Hall & _).
  split; [|exact Hb]. apply (Hall 2%Z). by vm_compute.
Defined.

Lemma copy_machine_is_copy_flush_witness :
  ∃ tot, Nat.iter 6 copy_step (copy_start [1; 2]%Z [9]%Z) = mkCopy [] [9; 1; 2]%Z tot (Ended (Ok 2%Z)).
Proof. apply (copy_machine_is_copy_flush [1; 2]%Z [9]%Z 6); [simpl; lia|by vm_compute]. Defined.

Lemma half_close_loses_answer_witness :
  ∃ schedule,
    let t := forward_bidirectional (QuicSend:=bytes) id schedule
               [1; 2]%Z [] [7; 8; 9]%Z [] in
    written (writer (tcp_to_quic t)) = [1; 2]%Z ∧ written (writer (quic_to_tcp t)) = [].
Proof.
  destruct (half_close_loses_answer (QuicSend:=bytes) id (λ _, eq_refl)
    [1; 2]%Z [] [7; 8; 9]%Z [] [] [1; 2]%Z (Ok 2%Z)) as [s Hs];
    [by vm_compute|].
  exists s. specialize (Hs []). rewrite app_nil_r in Hs. destruct Hs as (_ & _ & H1 & H2 & _).
  split; [exact H1|exact H2].
Defined.

End forward_witnesses.
