(* ===== verification/Relay.v ===== *)
(** * A tunnel from end to end

    Two programs talk through two machines: the client's program to a socket of
    its own daemon, that daemon over a QUIC stream to the daemon of the host,
    and that one to the program behind the granted port.  Both daemons run
    [forward_bidirectional] ([src/src/tunnel.rs]) on their end, as [Forward]
    models it; the request that opens the tunnel has been read.  The two ends
    are joined by streams that deliver in order.  A read waits while there is
    nothing to read and the stream goes on; a program may close its side, and
    any read or write may fail.  The first copy of an end that ends takes the
    other with it.  The property says what the copying delivers of what is
    written, and when that is all of it. *)

From S2P Require Import Prelude RustStr Surface Tunnel Forward.

Module Relay.
Import Tunnel Forward.

(** A stream one reads from: what has arrived, whether nothing more will, and
    whether it has been reset. *)
Record Socket : Type := mkSocket { arrived : bytes; eof : bool; reset : bool }.

(** One that is written to: what it took, whether it was finished, and how much
    it will still take if it breaks. *)
Record Sink : Type := mkSink { taken : bytes; finished : bool; breaks : option nat }.

#[export] Instance socket_read : AsyncRead Socket := {|
  read s cap :=
    if reset s then (s, Err "connection reset")
    else (mkSocket (drop cap (arrived s)) (eof s) false, Ok (take cap (arrived s)));
  pending := arrived;
|}.

#[export] Instance sink_write : AsyncWrite Sink := {|
  write_all w l :=
    match breaks w with
    | None => (mkSink (taken w ++ l) (finished w) None, Ok tt)
    | Some n =>
        if decide (length l <= n)
        then (mkSink (taken w ++ l) (finished w) (Some (n - length l)), Ok tt)
        else (mkSink (taken w ++ take n l) (finished w) (Some 0), Err "broken pipe")
    end;
  written := taken;
|}.

Definition finish (w : Sink) : Sink := mkSink (taken w) true (breaks w).

Local Abbreviation Copy := (Copy Socket Sink).
Local Abbreviation Tunnel :=
  (Tunnel (TcpRead:=Socket) (QuicSend:=Sink) (QuicRecv:=Socket) (TcpWrite:=Sink)).

(** ** What happens to a copy from outside *)

Definition on_reader (f : Socket → Socket) (c : Copy) : Copy :=
  mkCopy (f (reader c)) (writer c) (total c) (pc c).

Definition on_writer (f : Sink → Sink) (c : Copy) : Copy :=
  mkCopy (reader c) (f (writer c)) (total c) (pc c).

(** Bytes arrive for it to read; no more will; its stream is reset; what it
    writes to takes [n] more bytes and breaks. *)
Definition give (l : bytes) : Copy → Copy :=
  on_reader (λ s, mkSocket (arrived s ++ l) (eof s) (reset s)).

Definition no_more : Copy → Copy := on_reader (λ s, mkSocket (arrived s) true (reset s)).

Definition resets : Copy → Copy := on_reader (λ s, mkSocket (arrived s) (eof s) true).

Definition breaking (n : nat) : Copy → Copy :=
  on_writer (λ w, mkSink (taken w) (finished w) (Some n)).

(** A read waits until something arrives, the stream ends or it is reset. *)
Definition blocked (c : Copy) : bool :=
  match pc c with
  | Reading => bool_decide (arrived (reader c) = []) && negb (eof (reader c) || reset (reader c))
  | _ => false
  end.

Definition copy_of (b : Branch) (t : Tunnel) : Copy :=
  match b with
  | TcpToQuic => tcp_to_quic t
  | QuicToTcp => quic_to_tcp t
  end.

Definition set_copy (b : Branch) (c : Copy) (t : Tunnel) : Tunnel :=
  match b with
  | TcpToQuic => mkTunnel c (quic_to_tcp t)
  | QuicToTcp => mkTunnel (tcp_to_quic t) c
  end.

(** The [select!] polls a branch, unless one of the two has ended it. *)
Definition go (b : Branch) (t : Tunnel) : Tunnel :=
  if blocked (copy_of b t) then t else forward finish [b] t.

(** ** The two ends *)

Inductive Side : Type := Host | Client.

Definition other (s : Side) : Side := match s with Host => Client | Client => Host end.

#[export] Instance side_eq_dec : EqDecision Side.
Proof. solve_decision. Defined.

(** The tunnel at each end, and how much of what the end sent over QUIC has
    arrived at the other. *)
Record Relay : Type := mkRelay {
  host_end : Tunnel;
  client_end : Tunnel;
  host_carried : nat;
  client_carried : nat;
}.

Definition end_of (s : Side) (r : Relay) : Tunnel :=
  match s with Host => host_end r | Client => client_end r end.

Definition carried (s : Side) (r : Relay) : nat :=
  match s with Host => host_carried r | Client => client_carried r end.

Definition set_end (s : Side) (t : Tunnel) (r : Relay) : Relay :=
  match s with
  | Host => mkRelay t (client_end r) (host_carried r) (client_carried r)
  | Client => mkRelay (host_end r) t (host_carried r) (client_carried r)
  end.

Definition set_carried (s : Side) (n : nat) (r : Relay) : Relay :=
  match s with
  | Host => mkRelay (host_end r) (client_end r) n (client_carried r)
  | Client => mkRelay (host_end r) (client_end r) (host_carried r) n
  end.

(** One copy of one end is touched. *)
Definition touch (s : Side) (b : Branch) (f : Copy → Copy) (r : Relay) : Relay :=
  set_end s (set_copy b (f (copy_of b (end_of s r))) (end_of s r)) r.

(** A program writes, or closes its sending side; a branch of an end is polled;
    QUIC carries at most [n] more bytes from an end to the other, and the end of
    the stream behind the last; an end that is over drops its stream, which
    finishes it; a copy's reader is reset, its writer breaks. *)
Inductive Step : Type :=
| Writes (s : Side) (l : bytes)
| Closes (s : Side)
| Poll (s : Side) (b : Branch)
| Carry (s : Side) (n : nat)
| Drops (s : Side)
| ReadFails (s : Side) (b : Branch)
| WriteFails (s : Side) (b : Branch) (n : nat).

(** What is under way from an end, the first [n] bytes of it. *)
Definition under_way (s : Side) (n : nat) (r : Relay) : bytes :=
  take n (drop (carried s r) (taken (writer (tcp_to_quic (end_of s r))))).

(** Is everything an end will send there, once [n] bytes are? *)
Definition last_of (s : Side) (n : nat) (r : Relay) : bool :=
  let w := writer (tcp_to_quic (end_of s r)) in
  finished w && bool_decide (n = length (taken w)).

Definition step (r : Relay) (e : Step) : Relay :=
  match e with
  | Writes s l => touch s TcpToQuic (λ c, if eof (reader c) then c else give l c) r
  | Closes s => touch s TcpToQuic no_more r
  | Poll s b => set_end s (go b (end_of s r)) r
  | Carry s n =>
      let l := under_way s n r in
      let k := carried s r + length l in
      set_carried s k
        (touch (other s) QuicToTcp
           (λ c, if last_of s k r then no_more (give l c) else give l c) r)
  | Drops s => if over (end_of s r) then touch s TcpToQuic (on_writer finish) r else r
  | ReadFails s b => touch s b resets r
  | WriteFails s b n => touch s b (breaking n) r
  end.

Definition run (r : Relay) (es : list Step) : Relay := foldl step r es.

Definition fresh_socket : Socket := mkSocket [] false false.

Definition fresh_sink : Sink := mkSink [] false None.

Definition fresh_end : Tunnel :=
  forward_bidirectional finish [] fresh_socket fresh_sink fresh_socket fresh_sink.

Definition start : Relay := mkRelay fresh_end fresh_end 0 0.

(** What the program at a side has been given. *)
Definition received (s : Side) (r : Relay) : bytes := taken (writer (quic_to_tcp (end_of s r))).

(** What it wrote, before it closed. *)
Fixpoint wrote (s : Side) (es : list Step) : bytes :=
  match es with
  | Writes s' l :: es => if decide (s = s') then l ++ wrote s es else wrote s es
  | Closes s' :: es => if decide (s = s') then [] else wrote s es
  | _ :: es => wrote s es
  | [] => []
  end.

#[export] Instance step_eq_dec : EqDecision Step.
Proof. solve_decision. Defined.

(** What does not keep the program at [s] from being heard: it may close, the
    other may not, and nothing fails. *)
Definition lets (s : Side) (e : Step) : bool :=
  match e with
  | Closes s' => bool_decide (s' = s)
  | ReadFails _ _ | WriteFails _ _ _ => false
  | _ => true
  end.

(** The daemons and the stream between them, and not the programs. *)
Definition is_transport (e : Step) : bool :=
  match e with Poll _ _ | Carry _ _ | Drops _ => true | _ => false end.

(** A round: every branch is polled and both directions are carried, in any
    order and as often as one likes. *)
Definition fair_round (es : list Step) : Prop :=
  (∀ s b, Poll s b ∈ es) ∧ (∀ s, ∃ n, 0 < n ∧ Carry s n ∈ es) ∧
  Forall (λ e, is_transport e = true) es.

(** A round robin, for a concrete schedule. *)
Definition robin : list Step :=
  [Poll Host TcpToQuic; Poll Host QuicToTcp; Poll Client TcpToQuic; Poll Client QuicToTcp;
   Carry Host 7; Carry Client 7].

End Relay.

(** ** Lemmas: the four copies *)
Import Tunnel Forward Relay.

Section relay_lemmas.
Implicit Types (c : Copy Socket Sink) (r : Relay) (s : Side).

Local Abbreviation near s r := (tcp_to_quic (end_of s r)).
Local Abbreviation far s r := (quic_to_tcp (end_of (other s) r)).

(** What a poll makes of a branch. *)
Definition polled (b : Branch) (t : Tunnel) : Copy Socket Sink :=
  let c := copy_of b t in
  if blocked c || over t then c
  else match b with
       | TcpToQuic => if ended (copy_step c) then on_writer finish (copy_step c) else copy_step c
       | QuicToTcp => copy_step c
       end.

Lemma go_polled b t : go b t = set_copy b (polled b t) t.
Proof.
  unfold go, polled. destruct t as [tq qt]. destruct (blocked _) eqn:Hb; [by destruct b|].
  cbn [forward orb]. destruct (over _) eqn:Ho; [by destruct b|]. by destruct b.
Qed.

(** The copy a step touches, and what becomes of it. *)
Definition place (e : Step) : Side * Branch :=
  match e with
  | Writes s _ | Closes s | Drops s => (s, TcpToQuic)
  | Carry s _ => (other s, QuicToTcp)
  | Poll s b | ReadFails s b | WriteFails s b _ => (s, b)
  end.

Definition arrival (s : Side) (n : nat) r c : Copy Socket Sink :=
  let l := under_way s n r in
  if last_of s (carried s r + length l) r then no_more (give l c) else give l c.

Definition effect (e : Step) r c : Copy Socket Sink :=
  match e with
  | Writes s l => if eof (reader c) then c else give l c
  | Closes s => no_more c
  | Poll s b => polled b (end_of s r)
  | Carry s n => arrival s n r c
  | Drops s => if over (end_of s r) then on_writer finish c else c
  | ReadFails _ _ => resets c
  | WriteFails _ _ n => breaking n c
  end.

Lemma step_copy e r s b :
  copy_of b (end_of s (step r e)) =
    if decide (place e = (s, b)) then effect e r (copy_of b (end_of s r)) else copy_of b (end_of s r).
Proof.
  destruct e as [s' l|s'|s' b'|s' n|s'|s' b'|s' b' n]; cbn [step place effect];
    rewrite ?go_polled; [| | | |destruct (over _) eqn:Ho| |];
    repeat match goal with
           | x : Side |- _ => destruct x
           | x : Branch |- _ => destruct x
           end; cbn; rewrite ?decide_True, ?decide_False by done; try done; by rewrite ?Ho.
Qed.

Lemma step_carried e r s :
  carried s (step r e) =
    match e with
    | Carry s' n => if decide (s' = s) then carried s r + length (under_way s n r) else carried s r
    | _ => carried s r
    end.
Proof.
  destruct e as [s' l|s'|s' b'|s' n|s'|s' b'|s' b' n]; cbn [step]; [..| |];
    try destruct (over _); by repeat match goal with x : Side |- _ => destruct x end.
Qed.

(** ** Lemmas: what is on its way stays in order

    A lane is what goes from the program at [s] to the other one: the copy at
    its own end, the QUIC stream, the copy at the other end. *)

(** [w] is what the copy took in all, as far as it has not failed. *)
Definition follows (w : bytes) c : Prop :=
  match pc c with
  | Ended (Err _) => taken (writer c) `prefix_of` w
  | _ => w = taken (writer c) ++ held c ++ arrived (reader c)
  end.

Lemma follows_prefix w c : follows w c → taken (writer c) `prefix_of` w.
Proof. unfold follows. destruct (pc c) as [| |[|]]; intros ->; by try apply prefix_app_r. Qed.

Lemma follows_give w l c : follows w c → follows (w ++ l) (give l c).
Proof.
  unfold follows, held, give. cbn. destruct (pc c) as [| |[|]]; [intros ->; by rewrite <- !app_assoc..|].
  intros ?. by apply prefix_app_r.
Qed.

Lemma follows_copy_step w c : follows w c → follows w (copy_step c).
Proof.
  destruct c as [[a e rs] [k f br] tot [|l|res]]; unfold follows, held; [..|done].
  - cbn. intros ->. unfold copy_step. cbn [pc reader writer total read socket_read reset].
    destruct rs; cbn; [by apply prefix_app_r|]. pose proof BUF_pos as Hcap. revert Hcap.
    generalize BUF as cap. intros [|cap] Hcap; [lia|]. destruct a as [|x a]; cbn; [done|].
    by rewrite take_drop.
  - cbn. intros ->. unfold copy_step. cbn. destruct br as [n|]; cbn; [case_decide|]; cbn;
      rewrite <- ?app_assoc; try done.
    apply prefix_app. etrans; [apply prefix_take|]. by apply prefix_app_r.
Qed.

Lemma taken_copy_step c : taken (writer c) `prefix_of` taken (writer (copy_step c)).
Proof.
  destruct c as [[a e rs] [k f br] tot [|l|res]]; unfold copy_step; cbn; [| |done].
  - destruct rs; cbn; [done|]. by destruct (take BUF a).
  - destruct br as [n|]; cbn; [case_decide|]; cbn; by apply prefix_app_r.
Qed.

Lemma follows_polled w b t : follows w (copy_of b t) → follows w (polled b t).
Proof.
  intros Hf. unfold polled. destruct (_ || _); [done|]. apply follows_copy_step in Hf.
  destruct b; [by case_match|done].
Qed.

Lemma taken_polled b t : taken (writer (copy_of b t)) `prefix_of` taken (writer (polled b t)).
Proof.
  unfold polled. destruct (_ || _); [done|]. pose proof (taken_copy_step (copy_of b t)) as Ht.
  destruct b; [by case_match|done].
Qed.

(** What the program wrote before these steps, what they add, whether it has
    closed. *)
Definition adds s (closed : bool) (e : Step) : bytes :=
  match e with
  | Writes s' l => if decide (s = s') then if closed then [] else l else []
  | _ => []
  end.

Definition in_order (w : bytes) s r : Prop :=
  follows w (near s r) ∧
  follows (take (carried s r) (taken (writer (near s r)))) (far s r) ∧
  carried s r <= length (taken (writer (near s r))).

Definition closes s (e : Step) : bool := match e with Closes s' => bool_decide (s = s') | _ => false end.

Lemma step_near s e r :
  near s (step r e) = if decide (place e = (s, TcpToQuic)) then effect e r (near s r) else near s r.
Proof. exact (step_copy e r s TcpToQuic). Qed.

Lemma step_far s e r :
  far s (step r e) = if decide (place e = (other s, QuicToTcp)) then effect e r (far s r) else far s r.
Proof. exact (step_copy e r (other s) QuicToTcp). Qed.

Lemma eof_copy_step c : eof (reader (copy_step c)) = eof (reader c).
Proof.
  destruct c as [[a e rs] [k f br] tot [|l|res]]; unfold copy_step; cbn; [|..|done].
  - destruct rs; [done|]. cbn. by destruct (take BUF a).
  - destruct br as [n|]; cbn; [by case_decide|done].
Qed.

Lemma eof_polled b t : eof (reader (polled b t)) = eof (reader (copy_of b t)).
Proof.
  unfold polled. destruct (_ || _); [done|]. destruct b; [|apply eof_copy_step].
  case_match; apply eof_copy_step.
Qed.

(** The program's side is closed by its close alone. *)
Lemma eof_near s e r : eof (reader (near s (step r e))) = eof (reader (near s r)) || closes s e.
Proof.
  rewrite step_near. destruct e as [s' l|s'|s' b'|s' n|s'|s' b'|s' b' n]; cbn [place effect closes];
    rewrite ?orb_false_r; case_decide as Hp; try done.
  - by case_match.
  - injection Hp as ->. by rewrite bool_decide_true, orb_true_r.
  - rewrite bool_decide_false by naive_solver. by rewrite orb_false_r.
  - injection Hp as -> ->. apply (eof_polled TcpToQuic).
  - by case_match.
Qed.

Lemma under_way_take s n r :
  take (carried s r + length (under_way s n r)) (taken (writer (near s r))) =
    take (carried s r) (taken (writer (near s r))) ++ under_way s n r.
Proof.
  unfold under_way. set (t := taken _). set (k := carried s r).
  rewrite <- take_take_drop. f_equal. rewrite length_take.
  destruct (decide (n <= length (drop k t))) as [?|?]; [by rewrite Nat.min_l by lia|].
  by rewrite Nat.min_r, !take_ge by lia.
Qed.

Lemma taken_near s e r : taken (writer (near s r)) `prefix_of` taken (writer (near s (step r e))).
Proof.
  rewrite step_near. destruct e as [s' l|s'|s' b'|s' n|s'|s' b'|s' b' n]; cbn [place effect];
    case_decide as Hp; try done; [by case_match| |by case_match].
  injection Hp as -> ->. apply (taken_polled TcpToQuic).
Qed.

Lemma in_order_step w s e r :
  in_order w s r → in_order (w ++ adds s (eof (reader (near s r))) e) s (step r e).
Proof.
  intros (Hn & Hf & Hle).
  assert (Hn' : follows (w ++ adds s (eof (reader (near s r))) e) (near s (step r e))).
  { rewrite step_near. case_decide as Hp.
    2: { destruct e as [s' l| | | | | |]; cbn [adds]; rewrite ?app_nil_r; try done.
         rewrite decide_False by (intros ->; by apply Hp). by rewrite app_nil_r. }
    destruct e as [s' l|s'|s' b'|s' n|s'|s' b'|s' b' n]; cbn [place effect adds] in *;
      rewrite ?app_nil_r; try done; injection Hp as ->.
    - rewrite decide_True by done.
      destruct (eof (reader (near s r))); [by rewrite app_nil_r|by apply follows_give].
    - subst b'. by apply (follows_polled _ TcpToQuic).
    - by case_match. }
  pose proof (taken_near s e r) as Ht.
  split; [done|]. assert (Hk : ∀ k, k <= length (taken (writer (near s r))) →
    take k (taken (writer (near s (step r e)))) = take k (taken (writer (near s r)))).
  { intros k Hk. destruct Ht as [l ->]. by rewrite take_app_le. }
  apply prefix_length in Ht. rewrite step_carried, step_far.
  destruct e as [s' l|s'|s' b'|s' n|s'|s' b'|s' b' n]; cbn [place effect]; rewrite ?Hk by done.
  4: { case_decide as Hs.
       - subst s'. assert (Hlen : carried s r + length (under_way s n r) <= length (taken (writer (near s r))))
           by (unfold under_way; rewrite length_take, length_drop; lia).
         rewrite Hk, under_way_take, decide_True by done. split; [|lia].
         unfold arrival. destruct (last_of _ _ _); by apply follows_give.
       - rewrite Hk, decide_False by (done || by destruct s, s'). split; [done|lia]. }
  all: split; [|lia]; case_decide as Hp; try done.
  injection Hp as -> ->. by apply (follows_polled _ QuicToTcp).
Qed.

(** The steps up to here. *)
Lemma run_snoc r es e : run r (es ++ [e]) = step (run r es) e.
Proof. unfold run. by rewrite foldl_app. Qed.

Lemma wrote_app s es es' :
  wrote s (es ++ es') = wrote s es ++ (if existsb (closes s) es then [] else wrote s es').
Proof.
  induction es as [|e es IH]; [done|].
  destruct e as [s' l|s'|s' b'|s' n|s'|s' b'|s' b' n]; cbn; try done.
  - case_decide; [|done]. by rewrite IH, <- app_assoc.
  - case_decide; [by rewrite bool_decide_true|by rewrite bool_decide_false].
Qed.

Lemma in_order_run s es :
  in_order (wrote s es) s (run start es) ∧
  eof (reader (near s (run start es))) = existsb (closes s) es.
Proof.
  induction es as [|e es [IH IHe]] using rev_ind; [by destruct s|].
  rewrite run_snoc, eof_near, existsb_app, IHe. split; [|simpl; by rewrite orb_false_r].
  apply (in_order_step _ _ e) in IH. rewrite IHe in IH.
  replace (wrote s (es ++ [e])) with (wrote s es ++ adds s (existsb (closes s) es) e); [done|].
  rewrite wrote_app. f_equal. destruct (existsb _ _); destruct e; simpl; repeat case_decide; try done.
  by rewrite app_nil_r.
Qed.

(** ** Lemmas: a lane stays alive

    As long as nothing fails and the program it goes to does not close. *)

(** A copy whose streams have not failed. *)
Definition works c : Prop := reset (reader c) = false ∧ breaks (writer c) = None.

(** One that ends at the end of its stream alone. *)
Definition sound c : Prop := works c ∧ (ended c = true → eof (reader c) = true).

(** One that ends once all is read, and holds something when it writes. *)
Definition thorough c : Prop :=
  sound c ∧
  match pc c with
  | Reading => True
  | Writing l => l ≠ []
  | Ended x => arrived (reader c) = [] ∧ ∃ n, x = Ok n
  end.

(** What a copy still has to do: every byte read, then written, then
    carried; or no further than written. *)
Definition pot c : nat :=
  5 * length (arrived (reader c)) + 4 * length (held c) + 3 * length (taken (writer c)).

Definition rest c : nat := 2 * length (arrived (reader c)) + length (held c).

Definition idle c : Prop := arrived (reader c) = [] ∧ held c = [].

Lemma copy_step_sound c :
  sound c → blocked c = false →
  sound (copy_step c) ∧ finished (writer (copy_step c)) = finished (writer c).
Proof.
  destruct c as [[a e rs] [k f br] tot pc]. unfold sound, works, blocked, ended, copy_step.
  pose proof BUF_pos as Hcap. revert Hcap. generalize BUF as cap. intros cap Hcap.
  cbn. intros [[-> ->] He] Hb. destruct pc as [|l|res]; cbn in *; [|done..].
  destruct cap as [|cap]; [lia|]. destruct a as [|x a]; [|done]. by destruct e.
Qed.

Lemma copy_step_thorough c :
  thorough c → blocked c = false →
  thorough (copy_step c) ∧
  (if decide (idle c)
   then pot (copy_step c) = pot c ∧ taken (writer (copy_step c)) = taken (writer c) ∧
        idle (copy_step c)
   else pot (copy_step c) < pot c ∧ rest (copy_step c) < rest c).
Proof.
  intros [Hs Hpc] Hb. pose proof (proj1 (copy_step_sound c Hs Hb)) as Hs'. unfold thorough.
  apply (Logic.and_assoc _ _ _). split; [done|]. clear Hs'.
  destruct c as [[a e rs] [k f br] tot pc]. destruct Hs as [[Hr Hbr] He]. cbn in Hr, Hbr. subst.
  unfold blocked, idle, pot, rest, held, copy_step in *.
  pose proof BUF_pos as Hcap. revert Hcap. generalize BUF as cap. intros [|cap] Hcap; [lia|].
  cbn in *. destruct pc as [|l|res]; cbn in *.
  - destruct a as [|x a]; cbn; [rewrite decide_True by done; split_and!; eauto|].
    rewrite decide_False by naive_solver. split; [done|]. rewrite length_take, length_drop. lia.
  - rewrite decide_False by naive_solver. split; [done|].
    rewrite length_app. destruct l; [done|]. cbn. lia.
  - destruct Hpc as [-> ?]. by rewrite decide_True.
Qed.

(** The lane of [s], and the way back: it ends only once the lane has. *)
Record alive s r : Prop := {
  near_thorough : thorough (near s r);
  far_thorough : thorough (far s r);
  near_over : finished (writer (near s r)) = true → ended (near s r) = true;
  far_last : eof (reader (far s r)) = true →
    finished (writer (near s r)) = true ∧ carried s r = length (taken (writer (near s r)));
  back_works : works (near (other s) r) ∧ ended (near (other s) r) = false ∧
    eof (reader (near (other s) r)) = false;
  back_over : finished (writer (near (other s) r)) = true → ended (far s r) = true;
  back_sound : sound (quic_to_tcp (end_of s r));
  back_last : eof (reader (quic_to_tcp (end_of s r))) = true →
    finished (writer (near (other s) r)) = true;
}.

Lemma sound_ended c : sound c → ended c = true → eof (reader c) = true.
Proof. by intros [_ ?]. Qed.

Lemma alive_over s r :
  alive s r → over (end_of s r) = ended (near s r) ∧ over (end_of (other s) r) = ended (far s r).
Proof.
  intros [Hn Hf Hno Hfl (_ & Hb & _) Hbo Hks Hkl]. unfold over. rewrite Hb. split; [|done].
  destruct (ended (near s r)) eqn:HN; [done|]. cbn.
  destruct (ended (quic_to_tcp (end_of s r))) eqn:HK; [|done].
  rewrite <- Hno; [done|]. apply Hfl. apply sound_ended; [apply Hf|]. apply Hbo, Hkl.
  by apply sound_ended.
Qed.

(** A poll of each of the four. *)
Lemma polled_over b t : over t = true → polled b t = copy_of b t.
Proof. unfold polled. intros ->. by rewrite orb_true_r. Qed.

Lemma polled_thorough b t :
  thorough (copy_of b t) → thorough (polled b t) ∧
  (finished (writer (polled b t)) = true → finished (writer (copy_of b t)) = true ∨
                                            ended (polled b t) = true) ∧
  (idle (copy_of b t) → idle (polled b t) ∧ taken (writer (polled b t)) = taken (writer (copy_of b t))).
Proof.
  intros Hc. unfold polled. destruct (blocked _) eqn:Hb; [cbn; tauto|]. destruct (over t); [cbn; tauto|]. cbn.
  destruct (copy_step_thorough _ Hc Hb) as [Hc' Hi].
  destruct (copy_step_sound _ (proj1 Hc) Hb) as [_ Hfin].
  assert (idle (copy_of b t) → idle (copy_step (copy_of b t)) ∧
    taken (writer (copy_step (copy_of b t))) = taken (writer (copy_of b t))).
  { intros Hidle. rewrite decide_True in Hi by done. tauto. }
  destruct b; [|rewrite Hfin; by auto]. destruct (ended _) eqn:He; [|rewrite Hfin; by auto].
  split; [done|]. split; [by right|done].
Qed.

Lemma polled_sound b t :
  sound (copy_of b t) → sound (polled b t).
Proof.
  intros Hc. unfold polled. destruct (blocked _) eqn:Hb; [cbn; tauto|]. destruct (over t); [cbn; tauto|]. cbn.
  destruct (copy_step_sound _ Hc Hb) as [Hc' _]. destruct b; [|done]. by case_match.
Qed.

Lemma step_back s e r :
  near (other s) (step r e) =
    (if decide (place e = (other s, TcpToQuic)) then effect e r (near (other s) r) else near (other s) r) ∧
  quic_to_tcp (end_of s (step r e)) =
    (if decide (place e = (s, QuicToTcp)) then effect e r (quic_to_tcp (end_of s r))
     else quic_to_tcp (end_of s r)).
Proof. split; [apply (step_copy e r (other s) TcpToQuic)|apply (step_copy e r s QuicToTcp)]. Qed.

Lemma alive_start s : alive s start.
Proof. by destruct s; split; repeat split. Qed.

(** Each of the four when a step touches it. *)
Lemma near_touched s e r :
  alive s r → lets s e = true → place e = (s, TcpToQuic) →
  let c := effect e r (near s r) in
  thorough c ∧ (finished (writer c) = true → ended c = true) ∧
  (finished (writer (near s r)) = true →
     finished (writer c) = true ∧ taken (writer c) = taken (writer (near s r))).
Proof.
  intros Ha Hl Hp. pose proof (alive_over s r Ha) as [Hov _]. destruct Ha as [Hn _ Hno _ _ _ _ _].
  destruct e as [s' l|s'|s' b'|s' n|s'|s' b'|s' b' n]; try done; injection Hp as ->; cbn.
  - destruct (eof (reader (near s r))) eqn:He; [done|]. split; [|done].
    destruct Hn as [Hs Hpc]. split; [done|]. cbn. destruct (pc (near s r)) as [| |x] eqn:Hx; try done.
    destruct Hs as [_ Hs]. unfold ended in Hs. rewrite Hx, He in Hs. by destruct (Hs eq_refl).
  - split; [|done]. by destruct Hn as [[? _] ?].
  - subst b'. destruct (over (end_of s r)) eqn:Ho.
    + by rewrite polled_over.
    + destruct (polled_thorough TcpToQuic _ Hn) as (Hn' & Hf & _). split; [done|].
      assert (finished (writer (near s r)) ≠ true) as Hnf.
      { intros Hf'. rewrite Hno in Hov by done. congruence. }
      split; [|done]. intros H. by destruct (Hf H).
  - destruct (over (end_of s r)); [|done]. split; [done|]. split; [|done]. by intros _.
Qed.

Lemma far_touched s e r :
  alive s r → lets s e = true → place e = (other s, QuicToTcp) →
  let c := effect e r (far s r) in
  thorough c ∧ (ended (far s r) = true → ended c = true) ∧
  (eof (reader c) = true → finished (writer (near s r)) = true ∧
                           carried s (step r e) = length (taken (writer (near s r)))).
Proof.
  intros Ha Hl Hp. pose proof (alive_over s r Ha) as [_ Hov]. destruct Ha as [_ Hf _ Hfl _ _ _ _].
  destruct e as [s' l|s'|s' b'|s' n|s'|s' b'|s' b' n]; try done; cbn in Hp; rewrite step_carried.
  - injection Hp as -> ->. cbn. rewrite (eof_polled QuicToTcp).
    destruct (polled_thorough QuicToTcp _ Hf) as (Hf' & _). split; [done|]. split; [|done].
    intros He. rewrite polled_over; [done|by rewrite Hov].
  - assert (s' = s) as -> by (by destruct s, s'). rewrite decide_True by done. cbn. clear Hp.
    assert (Hg : thorough (give (under_way s n r) (far s r))).
    { destruct Hf as [Hs Hpc]. split; [done|]. cbn.
      destruct (pc (far s r)) as [| |x] eqn:Hx; try done. destruct Hpc as [Hnil Hx']. split; [|done].
      destruct Hfl as [_ Hk]; [apply sound_ended; [done|]; unfold ended; by rewrite Hx|].
      unfold under_way. rewrite Hnil, Hk, drop_all. by destruct n. }
    unfold arrival, last_of. destruct (finished _ && _) eqn:Hlast; cbn.
    + apply andb_true_iff in Hlast as [H1 H2%bool_decide_eq_true]. split_and!; try done.
      by destruct Hg as [[? _] ?].
    + split; [done|]. split; [done|]. intros He. destruct (Hfl He) as [? Hk]. split; [done|].
      unfold under_way. rewrite Hk, drop_all. destruct n; cbn; lia.
Qed.

Lemma back_touched s e r :
  alive s r → lets s e = true → place e = (other s, TcpToQuic) →
  let c := effect e r (near (other s) r) in
  works c ∧ ended c = false ∧ eof (reader c) = false ∧
  (finished (writer c) = true → ended (far s r) = true) ∧
  (finished (writer (near (other s) r)) = true → finished (writer c) = true).
Proof.
  intros Ha Hl Hp. pose proof (alive_over s r Ha) as [_ Hov].
  destruct Ha as [_ _ _ _ (Hw & He & Hq) Hbo _ _].
  destruct e as [s' l|s'|s' b'|s' n|s'|s' b'|s' b' n]; try done; cbn in Hp; injection Hp as ->.
  - cbn. by rewrite Hq.
  - cbn in Hl. rewrite bool_decide_eq_true in Hl. by destruct s.
  - subst b'. cbn. rewrite (eof_polled TcpToQuic). unfold polled. destruct (blocked _) eqn:Hb; [done|].
    destruct (over _); [done|]. cbn in Hb |- *.
    destruct (copy_step_sound (near (other s) r)) as [[Hw' Hs'] Hfin]; [|done|].
    { split; [done|]. by rewrite He. }
    rewrite eof_copy_step, Hq in Hs'.
    destruct (ended (copy_step (near (other s) r))) eqn:Hx; [by specialize (Hs' eq_refl)|].
    rewrite Hfin. split_and!; auto.
  - cbn. rewrite Hov. destruct (ended (far s r)); split_and!; auto.
Qed.

Lemma return_touched s e r :
  alive s r → lets s e = true → place e = (s, QuicToTcp) →
  let c := effect e r (quic_to_tcp (end_of s r)) in
  sound c ∧ (eof (reader c) = true → finished (writer (near (other s) r)) = true).
Proof.
  intros Ha Hl Hp. destruct Ha as [_ _ _ _ _ _ Hs Hkl].
  destruct e as [s' l|s'|s' b'|s' n|s'|s' b'|s' b' n]; try done; cbn in Hp.
  - injection Hp as -> ->. cbn. split; [by apply (polled_sound QuicToTcp)|].
    by rewrite (eof_polled QuicToTcp).
  - assert (s' = other s) as -> by (by destruct s, s'). cbn. unfold arrival, last_of.
    destruct Hs as [? Hs]. destruct (finished _ && _) eqn:Hlast; [|done].
    apply andb_true_iff in Hlast as [H1 _]. done.
Qed.

Lemma alive_step s e r : alive s r → lets s e = true → alive s (step r e).
Proof.
  intros Ha Hl.
  pose proof (near_touched s e r Ha Hl) as HN. pose proof (far_touched s e r Ha Hl) as HF.
  pose proof (back_touched s e r Ha Hl) as HB. pose proof (return_touched s e r Ha Hl) as HK.
  assert (Hk : place e ≠ (other s, QuicToTcp) → carried s (step r e) = carried s r).
  { intros Hp. rewrite step_carried. destruct e; try done. by case_decide; subst. }
  pose proof (step_near s e r) as Hn. pose proof (step_far s e r) as Hf.
  destruct (step_back s e r) as [Hb Hq]. assert (s ≠ other s) by (by destruct s).
  destruct (decide (place e = (s, TcpToQuic))) as [Hp|H1];
    [|destruct (decide (place e = (other s, QuicToTcp))) as [Hp|H2];
    [|destruct (decide (place e = (other s, TcpToQuic))) as [Hp|H3];
    [|destruct (decide (place e = (s, QuicToTcp))) as [Hp|H4]]]];
    rewrite ?decide_False in Hf by congruence; rewrite ?decide_False in Hb by congruence;
    rewrite ?decide_False in Hq by congruence.
  all: destruct Ha; split; rewrite ?Hn, ?Hf, ?Hb, ?Hq.
  all: rewrite ?Hk by congruence; try done; cbn zeta in *; intuition congruence.
Qed.

(** ** Lemmas: every round gets on *)

(** The bytes of a lane and the steps they still need. *)
Definition lane s r :=
  (arrived (reader (near s r)), held (near s r), taken (writer (near s r)), carried s r,
   arrived (reader (far s r)), held (far s r)).

Definition work s r : nat :=
  5 * length (arrived (reader (near s r))) + 4 * length (held (near s r)) +
  3 * (length (taken (writer (near s r))) - carried s r) + rest (far s r).

Definition same c c' : Prop :=
  arrived (reader c') = arrived (reader c) ∧ held c' = held c ∧
  taken (writer c') = taken (writer c).

Lemma thorough_idle c : thorough c → ended c = true ∨ blocked c = true → idle c.
Proof.
  unfold thorough, ended, blocked, idle, held. intros [_ Hpc]. destruct (pc c); [|naive_solver..].
  intros [?|[H%bool_decide_eq_true _]%andb_true_iff]; done.
Qed.

Lemma polled_moves b t :
  thorough (copy_of b t) → over t = ended (copy_of b t) →
  if decide (idle (copy_of b t)) then same (copy_of b t) (polled b t)
  else pot (polled b t) < pot (copy_of b t) ∧ rest (polled b t) < rest (copy_of b t).
Proof.
  intros Hc Ho. case_decide as Hi.
  - destruct (polled_thorough b t Hc) as (_ & _ & Hp). destruct (Hp Hi) as [[? ?] ?].
    destruct Hi as [? ?]. split_and!; congruence.
  - unfold polled. rewrite Ho. destruct (_ || _) eqn:Hb.
    { destruct Hi. apply thorough_idle; [done|]. apply orb_true_iff in Hb. tauto. }
    apply orb_false_iff in Hb as [Hb _]. destruct (copy_step_thorough _ Hc Hb) as [_ Hm].
    rewrite decide_False in Hm by done. destruct b; [|done]. by case_match.
Qed.

(** The two steps of its copies, and that of the stream between them, each
    either gets the lane on or has nothing to do. *)
Lemma work_near s r :
  alive s r → carried s r <= length (taken (writer (near s r))) →
  let r' := step r (Poll s TcpToQuic) in
  if decide (idle (near s r)) then lane s r' = lane s r else work s r' < work s r.
Proof.
  intros Ha Hle r'. pose proof (polled_moves TcpToQuic (end_of s r) (near_thorough _ _ Ha)) as Hm.
  specialize (Hm (proj1 (alive_over s r Ha))).
  pose proof (taken_near s (Poll s TcpToQuic) r) as Ht%prefix_length. fold r' in Ht.
  assert (Hn : near s r' = polled TcpToQuic (end_of s r))
    by (unfold r'; rewrite step_near; cbn; by rewrite decide_True).
  assert (Hf : far s r' = far s r) by (unfold r'; rewrite step_far; cbn; by rewrite decide_False).
  assert (Hk : carried s r' = carried s r) by (unfold r'; by rewrite step_carried).
  cbn [copy_of] in Hm. unfold lane, work. rewrite Hn in *. rewrite Hf, Hk. case_decide.
  - by destruct Hm as (-> & -> & ->).
  - destruct Hm as [Hm _]. unfold pot in Hm. lia.
Qed.

Lemma work_far s r :
  alive s r →
  let r' := step r (Poll (other s) QuicToTcp) in
  if decide (idle (far s r)) then lane s r' = lane s r else work s r' < work s r.
Proof.
  intros Ha r'. pose proof (polled_moves QuicToTcp (end_of (other s) r) (far_thorough _ _ Ha)) as Hm.
  specialize (Hm (proj2 (alive_over s r Ha))).
  assert (Hn : near s r' = near s r) by (unfold r'; rewrite step_near; cbn; by rewrite decide_False).
  assert (Hf : far s r' = polled QuicToTcp (end_of (other s) r))
    by (unfold r'; rewrite step_far; cbn; by rewrite decide_True).
  assert (Hk : carried s r' = carried s r) by (unfold r'; by rewrite step_carried).
  cbn [copy_of] in Hm. unfold lane, work. rewrite Hn, Hf, Hk. case_decide.
  - by destruct Hm as (-> & -> & _).
  - lia.
Qed.

Lemma work_carry s n r :
  0 < n →
  let r' := step r (Carry s n) in
  if decide (carried s r < length (taken (writer (near s r)))) then work s r' < work s r
  else lane s r' = lane s r.
Proof.
  intros Hpos r'.
  assert (Hn : near s r' = near s r) by (unfold r'; rewrite step_near; cbn; by rewrite decide_False).
  assert (Hf : ∃ c, far s r' = c ∧ arrived (reader c) = arrived (reader (far s r)) ++ under_way s n r ∧
                    held c = held (far s r)).
  { eexists. split; [done|]. unfold r'. rewrite step_far. cbn. rewrite decide_True by done.
    unfold arrival. by case_match. }
  assert (Hk : carried s r' = carried s r + length (under_way s n r))
    by (unfold r'; rewrite step_carried; by rewrite decide_True).
  destruct Hf as (c & Hf & Harr & Hheld). unfold lane, work, rest. rewrite Hn, Hf, Hk, Harr, Hheld.
  rewrite length_app. unfold under_way. rewrite length_take, length_drop. case_decide; [lia|].
  rewrite drop_ge, take_nil, app_nil_r by lia. f_equal. f_equal. f_equal. lia.
Qed.

(** The others leave it as it is. *)
Lemma lane_other s e r :
  is_transport e = true → e ≠ Poll s TcpToQuic → e ≠ Poll (other s) QuicToTcp →
  (∀ n, 0 < n → e ≠ Carry s n) → lane s (step r e) = lane s r.
Proof.
  intros He H1 H2 H3. unfold lane. rewrite step_near, step_far, step_carried.
  destruct e as [s' l|s'|s' b'|s' n|s'|s' b'|s' b' n]; try done; cbn [place effect].
  - rewrite !decide_False by naive_solver. done.
  - rewrite (decide_False (P := _ = (s, _))) by done. destruct (decide (s' = s)) as [->|Hs].
    + rewrite decide_True by done. destruct n as [|n]; [|by destruct (H3 (S n)); [lia|]].
      unfold arrival, under_way. rewrite take_0, Nat.add_0_r. case_match; cbn; by rewrite app_nil_r.
    + rewrite decide_False by (destruct s, s'; naive_solver). done.
  - rewrite (decide_False (P := _ = (other s, _))) by done. case_decide; [|done]. by case_match.
Qed.

Lemma work_lane s r r' : lane s r' = lane s r → work s r' = work s r.
Proof. unfold lane, work, rest. by intros [= -> -> -> -> -> ->]. Qed.

Lemma work_step s e r :
  alive s r → carried s r <= length (taken (writer (near s r))) → is_transport e = true →
  work s (step r e) < work s r ∨ lane s (step r e) = lane s r.
Proof.
  intros Ha Hle He.
  destruct (decide (e = Poll s TcpToQuic)) as [->|H1].
  { pose proof (work_near s r Ha Hle) as H. simpl in H. case_decide; auto. }
  destruct (decide (e = Poll (other s) QuicToTcp)) as [->|H2].
  { pose proof (work_far s r Ha) as H. simpl in H. case_decide; auto. }
  destruct e as [| | |s' n| | |];
    try (right; apply lane_other; (done || (intros ? _; congruence))).
  destruct (decide (s' = s ∧ 0 < n)) as [[-> Hn]|Hs].
  - pose proof (work_carry s n r Hn) as H. simpl in H. case_decide; auto.
  - right. apply lane_other; [done..|]. intros n' Hn [= -> ->]. by apply Hs.
Qed.

(** A lane that is alive and in order. *)
Definition well s r : Prop := alive s r ∧ ∃ w, in_order w s r.

Lemma well_carried s r : well s r → carried s r <= length (taken (writer (near s r))).
Proof. by intros (_ & w & _ & _ & ?). Qed.

Lemma well_step s e r : well s r → lets s e = true → well s (step r e).
Proof. intros (Ha & w & Hw) He. split; [by apply alive_step|]. eexists. by apply in_order_step. Qed.

Lemma well_run s es r : well s r → Forall (λ e, lets s e = true) es → well s (run r es).
Proof.
  intros Hr Hes. revert r Hr. induction Hes as [|e es He _ IH]; intros r Hr; [done|].
  by apply IH, well_step.
Qed.

Lemma transport_lets s e : is_transport e = true → lets s e = true.
Proof. by destruct e. Qed.

Lemma transports_let s es :
  Forall (λ e, is_transport e = true) es → Forall (λ e, lets s e = true) es.
Proof. intros H. eapply Forall_impl; [exact H|]. intros e. apply transport_lets. Qed.

Lemma work_run s es r :
  well s r → Forall (λ e, is_transport e = true) es →
  work s (run r es) < work s r ∨ lane s (run r es) = lane s r.
Proof.
  intros Hr Hes. revert r Hr. induction Hes as [|e es He Hes IH]; intros r Hr; [by right|].
  destruct (IH (step r e)) as [Hlt|Heq]; [by apply well_step, transport_lets|..];
    destruct (work_step s e r (proj1 Hr) (well_carried _ _ Hr) He) as [Hlt'|Heq']; cbn [run foldl].
  - left. unfold run in *. lia.
  - left. by rewrite <- (work_lane s r (step r e)).
  - left. by rewrite (work_lane s (step r e)).
  - right. unfold run in *. by rewrite Heq.
Qed.

(** While there is work, one of the steps of a round gets it on. *)
Lemma work_moves s r es :
  work s r ≠ 0 → fair_round es →
  ∃ e, e ∈ es ∧ ∀ r', well s r' → lane s r' = lane s r → work s (step r' e) < work s r.
Proof.
  intros Hw (Hpoll & Hcarry & _).
  assert (Hsame : ∀ r', lane s r' = lane s r → (idle (near s r') ↔ idle (near s r)) ∧
            (idle (far s r') ↔ idle (far s r)) ∧ carried s r' = carried s r ∧
            taken (writer (near s r')) = taken (writer (near s r))).
  { intros r'. unfold lane, idle. by intros [= -> -> -> -> -> ->]. }
  destruct (decide (idle (near s r))) as [Hn|Hn].
  2: { exists (Poll s TcpToQuic). split; [apply Hpoll|]. intros r' Hr' Hl.
       pose proof (work_near s r' (proj1 Hr') (well_carried _ _ Hr')) as H. simpl in H.
       rewrite decide_False in H by (by rewrite (proj1 (Hsame _ Hl))).
       by rewrite <- (work_lane s r r' Hl). }
  destruct (decide (idle (far s r))) as [Hf|Hf].
  2: { exists (Poll (other s) QuicToTcp). split; [apply Hpoll|]. intros r' Hr' Hl.
       pose proof (work_far s r' (proj1 Hr')) as H. simpl in H.
       rewrite decide_False in H by (by rewrite (proj1 (proj2 (Hsame _ Hl)))).
       by rewrite <- (work_lane s r r' Hl). }
  destruct (Hcarry s) as (n & Hpos & Hin). exists (Carry s n). split; [done|].
  intros r' _ Hl. pose proof (work_carry s n r' Hpos) as H. simpl in H.
  rewrite decide_True in H; [by rewrite <- (work_lane s r r' Hl)|].
  destruct (Hsame _ Hl) as (_ & _ & -> & ->). destruct Hn as [Hn1 Hn2], Hf as [Hf1 Hf2].
  unfold work, rest in Hw. rewrite Hn1, Hn2, Hf1, Hf2 in Hw. simpl in Hw. lia.
Qed.

Lemma round_works s r es :
  well s r → fair_round es → work s (run r es) <= work s r - 1.
Proof.
  intros Hr Hes. pose proof Hes as (_ & _ & Ht).
  destruct (decide (work s r = 0)) as [H0|Hw].
  { destruct (work_run s es r Hr Ht) as [|Hl]; [lia|]. rewrite (work_lane _ _ _ Hl). lia. }
  destruct (work_moves s r es Hw Hes) as (e & Hin & Hmove).
  apply list_elem_of_split in Hin as (es1 & es2 & ->).
  apply Forall_app in Ht as [Ht1 [He Ht2]%Forall_cons].
  unfold run. rewrite foldl_app. fold (run r es1). cbn [foldl].
  fold (run (step (run r es1) e) es2).
  assert (Hr1 : well s (run r es1)) by (by apply well_run, transports_let).
  assert (work s (step (run r es1) e) < work s r) as Hlt.
  { destruct (work_run s es1 r Hr Ht1) as [Hlt|Hl]; [|by apply Hmove].
    destruct (work_step s e (run r es1) (proj1 Hr1) (well_carried _ _ Hr1) He) as [|Hl]; [lia|].
    by rewrite (work_lane _ _ _ Hl). }
  destruct (work_run s es2 (step (run r es1) e)) as [|Hl];
    [by apply well_step, transport_lets|done|lia|].
  rewrite (work_lane _ _ _ Hl). lia.
Qed.

Lemma rounds_work s rounds r :
  well s r → Forall fair_round rounds → work s r <= length rounds →
  work s (run r (concat rounds)) = 0.
Proof.
  intros Hr Hes. revert r Hr. induction Hes as [|es rounds He Hes IH]; intros r Hr; simpl; [lia|].
  intros Hw. unfold run. rewrite foldl_app. apply IH.
  - apply well_run; [done|]. apply transports_let, He.
  - pose proof (round_works s r es Hr He). unfold run in *. lia.
Qed.

(** What is in order, is in order with what a copy that goes on holds. *)
Lemma follows_thorough w c :
  thorough c → follows w c → w = taken (writer c) ++ held c ++ arrived (reader c).
Proof.
  unfold thorough, follows. intros [_ Hpc]. destruct (pc c) as [| |x]; [done..|].
  by destruct Hpc as [_ [n ->]].
Qed.

(** What is left to do is at most five steps per byte written. *)
Lemma in_order_work w s r : alive s r → in_order w s r → work s r <= 5 * length w.
Proof.
  intros Ha (Hn & Hf & Hle). apply follows_thorough in Hn; [|by apply near_thorough].
  apply follows_thorough in Hf; [|by apply far_thorough]. apply (f_equal length) in Hf.
  rewrite length_take, !length_app in Hf. subst w. unfold work, rest. rewrite !length_app. lia.
Qed.

Lemma in_order_done w s r :
  alive s r → in_order w s r → work s r = 0 → received (other s) r = w.
Proof.
  intros Ha (Hn & Hf & Hle) H0. unfold work, rest in H0. unfold received.
  apply follows_thorough in Hn; [|by apply near_thorough].
  apply follows_thorough in Hf; [|by apply far_thorough].
  assert (arrived (reader (near s r)) = [] ∧ held (near s r) = [] ∧
          arrived (reader (far s r)) = [] ∧ held (far s r) = []) as (H1 & H2 & H3 & H4).
  { split_and!; apply length_zero_iff_nil; lia. }
  rewrite H1, H2, app_nil_r in Hn. rewrite H3, H4, !app_nil_r in Hf.
  rewrite Hn, <- Hf, take_ge by lia. done.
Qed.

Lemma in_order_prefix w s r : in_order w s r → received (other s) r `prefix_of` w.
Proof.
  intros (Hn & Hf & _). apply follows_prefix in Hn, Hf. etrans; [exact Hf|].
  etrans; [apply prefix_take|done].
Qed.

Lemma wrote_rounds s rounds : Forall fair_round rounds → wrote s (concat rounds) = [].
Proof.
  induction 1 as [|es rounds (_ & _ & Ht) _ IH]; [done|]. cbn [concat]. rewrite wrote_app, IH.
  clear IH. assert (wrote s es = []) as ->; [|by destruct (existsb _ _)].
  induction Ht as [|e es He _ IH]; [done|]. by destruct e.
Qed.

End relay_lemmas.

(** ** Properties *)

(** C16: Nothing a program writes is withheld while its tunnel lasts.  Whatever the
    two programs and the two daemons do, whatever fails and whoever closes, each
    program has at every moment been given a prefix, in order, of what the other
    wrote before it closed.  And as long as no read and no write fails and the
    receiving program does not close, whether or not the writing one does, it is
    given all of that without another byte being written: after at most five
    rounds per byte, where in a round every branch is polled and either direction
    carried, in any order and as often as one likes.  Without that, when the
    receiving program has closed its side, the rest can be lost:
    [answer_lost_after_half_close]. *)
Theorem nothing_is_withheld (es : list Step) (rounds : list (list Step)) (s : Side) :
  received (other s) (run start es) `prefix_of` wrote s es ∧
  (Forall (λ e, lets s e = true) es → Forall fair_round rounds →
   5 * length (wrote s es) <= length rounds →
   received (other s) (run start (es ++ concat rounds)) = wrote s es).
Proof.
  pose proof (proj1 (in_order_run s es)) as Ho. split; [by apply in_order_prefix|].
  intros Hes Hr Hn. pose proof (proj1 (in_order_run s (es ++ concat rounds))) as Ho'.
  assert (Ha : well s (run start es)) by (apply well_run; [split; [apply alive_start|]|done];
    exists []; by destruct s).
  rewrite wrote_app, wrote_rounds in Ho' by done.
  assert (Hw : ∀ b : bool, wrote s es ++ (if b then [] else []) = wrote s es)
    by (intros []; by rewrite app_nil_r).
  rewrite Hw in Ho'. apply in_order_done; [|done|]; unfold run in *; rewrite foldl_app.
  - apply (well_run s (concat rounds)); [done|]. apply transports_let.
    clear -Hr. induction Hr as [|x l (_ & _ & Hx) _ IH]; [constructor|by apply Forall_app].
  - apply rounds_work; [done..|]. pose proof (in_order_work _ _ _ (proj1 Ha) Ho). unfold run in *. lia.
Qed.

Lemma robin_fair : fair_round robin.
Proof.
  split; [|split].
  - intros [] []; unfold robin; rewrite !elem_of_cons; tauto.
  - intros []; exists 7; (split; [lia|]); unfold robin; rewrite !elem_of_cons; tauto.
  - by repeat constructor.
Qed.

(** The first part of an event arrives before the rest of it is written; and an
    answer arrives whole when the host closes behind it. *)
Lemma nothing_is_withheld_witness :
  let es := [Writes Client (str_bytes "GET /"); Writes Host (str_bytes "data: ping"); Closes Host] in
  received Client (run start (es ++ concat (replicate 50 robin))) = str_bytes "data: ping".
Proof.
  intros es. apply (nothing_is_withheld es (replicate 50 robin) Host).
  - by repeat constructor.
  - apply Forall_replicate. apply robin_fair.
  - vm_compute. lia.
Defined.

(** A client that sends its request and closes its sending side hears nothing: the
    end of its request ends both ends of the tunnel. *)
Example answer_lost_after_half_close :
  let es := [Writes Client (str_bytes "GET /"); Closes Client; Writes Host (str_bytes "data: ping")] in
  let r := run start (es ++ concat (replicate 50 robin)) in
  received Host r = str_bytes "GET /" ∧ received Client r = [].
Proof. by vm_compute. Qed.
