(* ===== verification/Bridge.v ===== *)
(** * Connections of the TUN backend ([bridge] and [run_netstack_accepts] in
    [src/src/peer.rs])

    A connection that the userspace stack accepted is spliced onto a tunnel of
    the peer whose surface it came in at.  The splice is the two copies of
    [Forward.v] under a [select!], with one more place to wait at: the copy back
    to the client, once it has ended, shuts the client's stream down before its
    branch is over. *)

From S2P Require Import Prelude RustStr Keys Grants Dial Store Enroll Protocol Session Surface Resolver Netstack Tunnel Peer PeerFacts PeerLoop Daemon Shell Bindings PeerProps Forward Stack.

Module Bridge.
Import Tunnel Forward.

Section bridge.
Context {ClientRead QuicSend QuicRecv ClientWrite : Type}.
Context `{!AsyncRead ClientRead} `{!AsyncWrite QuicSend}.
Context `{!AsyncRead QuicRecv} `{!AsyncWrite ClientWrite}.
(** [SendStream::finish], and what [shutdown] makes of the client's stream. *)
Variable finish : QuicSend → QuicSend.
Variable shutdown : ClientWrite → ClientWrite.

Record Splice : Type := mkSplice {
  client_to_quic : Copy ClientRead QuicSend;
  quic_to_client : Copy QuicRecv ClientWrite;
  shut : bool;
}.

(** A branch goes on with its copy, or the shutdown it waits for completes. *)
Inductive Poll : Type := ClientToQuic | QuicToClient | Shutdown.

Definition over (t : Splice) : bool := (ended (client_to_quic t) || shut t)%bool.

Definition poll (e : Poll) (t : Splice) : Splice :=
  match e with
  | ClientToQuic =>
      let c := copy_step (client_to_quic t) in
      let c := if ended c then mkCopy (reader c) (finish (writer c)) (total c) (pc c) else c in
      mkSplice c (quic_to_client t) (shut t)
  | QuicToClient => mkSplice (client_to_quic t) (copy_step (quic_to_client t)) (shut t)
  | Shutdown =>
      let c := quic_to_client t in
      if ended c
      then mkSplice (client_to_quic t)
             (mkCopy (reader c) (shutdown (writer c)) (total c) (pc c)) true
      else t
  end.

Fixpoint splice (schedule : list Poll) (t : Splice) : Splice :=
  match schedule with
  | [] => t
  | e :: schedule => if over t then t else splice schedule (poll e t)
  end.

(** [open_tunnel] on the peer first; without it nothing is spliced. *)
Definition bridge (opened : result (QuicSend * QuicRecv)) (schedule : list Poll)
    (client_r : ClientRead) (client_w : ClientWrite) : result Splice :=
  match opened with
  | Ok (qs, qr) =>
      Ok (splice schedule (mkSplice (copy_start client_r qs) (copy_start qr client_w) false))
  | Err e => Err e
  end.

End bridge.

(** The queue of accepted connections, each with what becomes of its tunnel;
    one at an address that no peer has is dropped. *)
Section accepts.
Import Peers.
Context {K : Type} `{!EndpointKey K} `{!DashMap} {Stream : Type}.
Context `{!JsonCodec Pins.Pin} `{!JsonCodec Surface.SurfaceRecord}.

Definition run_netstack_accepts (m : PeerManager K) (queue : list (Stack.Accept Stream)) :
    list (Stack.Accept Stream * result (Conn K * bytes)) :=
  match netstack m with
  | None => []
  | Some _ => omap (λ a, pair a <$> netstack_accept (Stack.acc_ip a) (Stack.acc_port a) m) queue
  end.

End accepts.
End Bridge.

(** ** Lemmas *)
Section bridge_lemmas.
Import Tunnel Forward Bridge.
Context {ClientRead QuicSend QuicRecv ClientWrite : Type}.
Context `{AsyncReadLaws ClientRead} `{AsyncWriteLaws QuicSend}.
Context `{AsyncReadLaws QuicRecv} `{AsyncWriteLaws ClientWrite}.
Variable finish : QuicSend → QuicSend.
Variable shutdown : ClientWrite → ClientWrite.
Hypothesis finish_written : ∀ w, written (finish w) = written w.
Hypothesis shutdown_written : ∀ w, written (shutdown w) = written w.
Implicit Types t : Splice (ClientRead:=ClientRead) (QuicSend:=QuicSend) (QuicRecv:=QuicRecv)
                     (ClientWrite:=ClientWrite).

Record spliced (r : ClientRead) (qs : QuicSend) (qr : QuicRecv) (w : ClientWrite) t : Prop := {
  spliced_out : copied r qs (client_to_quic t);
  spliced_back : copied qr w (quic_to_client t);
  spliced_shut : shut t = true → ended (quic_to_client t) = true;
}.

Lemma spliced_poll r qs qr w e t :
  spliced r qs qr w t → spliced r qs qr w (poll finish shutdown e t).
Proof.
  intros [Ho Hb Hs]. destruct e; simpl.
  - split; simpl; try done. pose proof (copied_step _ _ _ Ho) as Hc.
    case_match; [by apply copied_finish|done].
  - split; simpl; try done; [by apply copied_step|]. intros He. by rewrite copy_step_ended, Hs; auto.
  - destruct (ended (quic_to_client t)) eqn:He; [|split; by rewrite ?He].
    split; simpl; [done|by apply copied_finish|done].
Qed.

Lemma spliced_splice r qs qr w s t :
  spliced r qs qr w t → spliced r qs qr w (splice finish shutdown s t).
Proof.
  revert t. induction s as [|e s IH]; intros t Ht; simpl; [done|].
  destruct (over t); [done|]. by apply IH, spliced_poll.
Qed.

End bridge_lemmas.

(** ** Properties *)
Section bridge_properties.
Import Tunnel Forward Bridge.
Context {ClientRead QuicSend QuicRecv ClientWrite : Type}.
Context `{AsyncReadLaws ClientRead} `{AsyncWriteLaws QuicSend}.
Context `{AsyncReadLaws QuicRecv} `{AsyncWriteLaws ClientWrite}.
Variable finish : QuicSend → QuicSend.
Variable shutdown : ClientWrite → ClientWrite.
Hypothesis finish_written : ∀ w, written (finish w) = written w.
Hypothesis shutdown_written : ∀ w, written (shutdown w) = written w.

(** A splice forwards both ways and cuts nothing off that it closes in order.
    However its branches are scheduled, each writer has taken a prefix of what
    its own reader had to give; and when the client's stream is shut down, the
    answer has been forwarded to the end its copy came to, the whole of it if
    that end was no error. *)
Theorem bridge_forwards schedule r qs qr w t :
  bridge finish shutdown (Ok (qs, qr)) schedule r w = Ok t →
  (∃ l, l `prefix_of` pending r ∧ written (writer (client_to_quic t)) = written qs ++ l) ∧
  (∃ l, l `prefix_of` pending qr ∧ written (writer (quic_to_client t)) = written w ++ l) ∧
  (shut t = true → ∃ res, pc (quic_to_client t) = Ended res ∧
     (is_ok res = true → written (writer (quic_to_client t)) = written w ++ pending qr)).
Proof.
  intros Ht. injection Ht as <-. set (t := splice _ _ _ _).
  assert (Hok : spliced r qs qr w t).
  { apply spliced_splice; [done..|]. split; [apply copied_start..|done]. }
  destruct Hok as [Ho Hb Hs]. split_and!; [by apply copied_prefix..|].
  intros He%Hs. unfold ended in He. destruct Hb as (l & Hw & Hc).
  destruct (pc (quic_to_client t)) as [| |[n|e]]; [done..| |].
  - exists (Ok n). split; [done|]. intros _. by destruct Hc as [-> _].
  - by exists (Err e).
Qed.

End bridge_properties.

Section accept_properties.
Import Peers Bridge.
Context {K : Type} `{EKL : EndpointKeyLaws K} `{DML : DashMapLaws} {Stream : Type}.
Context `{!JsonCodec Pins.Pin} `{!JsonCodec Surface.SurfaceRecord}.

(** A connection accepted at an address goes to a known peer that has its
    surface there, on the tunnel of that peer and for the port it came in at;
    one at an address that is nobody's is dropped. *)
Theorem accepted_goes_to_owner (m : PeerManager K) (queue : list (Stack.Accept Stream))
    (a : Stack.Accept Stream) (r : result (Conn K * bytes)) :
  (a, r) ∈ run_netstack_accepts m queue →
  a ∈ queue ∧
  ∃ k o s, peers m !! k = Some o ∧ surface_of o m = Some s ∧
    (let '(x, y, z, u) := Stack.acc_ip a in Surface.ip s = Surface.V4 x y z u) ∧
    r = open_tunnel o (Stack.acc_port a) m.
Proof.
  unfold run_netstack_accepts. destruct (netstack m); [|intros Hin; by apply elem_of_nil in Hin].
  intros (a' & Ha & Hr)%list_elem_of_omap.
  unfold netstack_accept in Hr. destruct (Stack.acc_ip a') as [[[x y] z] u] eqn:Hip.
  destruct (peer_for_ip _ m) as [o|] eqn:Ho; [|done]. simpl in Hr. injection Hr as <- <-.
  split; [done|]. unfold peer_for_ip in Ho. apply head_Some_elem_of in Ho.
  apply list_elem_of_omap in Ho as ([k o'] & Hin & Hd).
  case_decide as Hs; [|done]. injection Hd as ->. simpl in Hs.
  destruct (surface_of o m) as [s|] eqn:Hso; [|done]. injection Hs as Hs.
  rewrite dash_iter_perm in Hin. apply elem_of_map_to_list in Hin.
  exists k, o, s. rewrite Hip. done.
Qed.

End accept_properties.
