(* ===== verification/UnitTests.v ===== *)
(** * The unit tests of the core, run on the model

    The tests of [src/src/core/] and [src/src/enroll.rs] as programs over the
    definitions, under their own names: what each asserts, in the order it does.
    Keys are those of [ToyKey], as long as the short names need.  One theorem
    per file says that all of them pass. *)

From S2P Require Import Prelude RustStr Keys Grants Backoff Dial Invite Store Enroll Protocol Session Surface Json Codec CodecProps.

(** ** Assertions *)
Module Assert.

Definition assert_eq {A} `{EqDecision A} (x y : A) : bool := bool_decide (x = y).

Definition is_none {A} (o : option A) : bool := negb (bool_decide (is_Some o)).

Definition is_err {A} (r : result A) : bool := negb (is_ok r).

Definition is_empty {A} (l : list A) : bool := match l with [] => true | _ :: _ => false end.

(** [assert!]s one after the other. *)
Definition asserts (l : list bool) : bool := forallb id l.

End Assert.
Import Assert.

Module GrantTests.
Import ToyKey Grants.

Definition key (n : Z) : N := Z.to_N n.

Definition default_deny : bool :=
  let grants := default_grants in
  asserts [negb (allows 4000 (key 1) grants); is_empty (ports_for (key 1) grants)].

Definition grant_is_directed : bool :=
  let a := key 1 in let b := key 2 in
  let grants := add 4000 a default_grants in
  asserts [allows 4000 a grants; negb (allows 4000 b grants); negb (allows 4001 a grants);
           assert_eq (ports_for a grants) [4000%Z]; is_empty (ports_for b grants)].

Definition revoke_grantee_clears_all_their_grants : bool :=
  let a := key 1 in let b := key 2 in
  let grants := add 4000 b (add 4001 a (add 4000 a default_grants)) in
  let grants := revoke_grantee a grants in
  asserts [negb (allows 4000 a grants); negb (allows 4001 a grants); allows 4000 b grants;
           assert_eq (ports grants) [4000%Z]].

Definition remove_one_grantee_keeps_others : bool :=
  let a := key 1 in let b := key 2 in
  let grants := add 4000 b (add 4000 a default_grants) in
  let one := remove 4000 (Some a) grants in
  let none := remove 4000 None one in
  asserts [negb (allows 4000 a one); allows 4000 b one;
           negb (allows 4000 b none); is_empty (ports none)].

Theorem grant_tests_pass :
  asserts [default_deny; grant_is_directed; revoke_grantee_clears_all_their_grants;
           remove_one_grantee_keeps_others] = true.
Proof. by vm_compute. Qed.

End GrantTests.

Module BackoffTests.
Import Backoff.

Definition first_dial_is_immediate : bool := assert_eq (delay unreached) 0%Z.

Definition a_dropped_connection_waits_a_step : bool := assert_eq (delay connected) INITIAL.

(** [backoff.failed()] where the test goes on: a panic ends it. *)
Definition failing (b : Backoff) (k : Backoff → bool) : bool :=
  match failed b with
  | Some b => k b
  | None => false
  end.

(** The loop: the delay grows or is at the ceiling; what is seen last. *)
Fixpoint climbs (n : nat) (b : Backoff) (seen : Z) (k : Z → bool) : bool :=
  match n with
  | O => k seen
  | S n => failing b (λ b,
             (bool_decide (seen < delay b)%Z || assert_eq (delay b) MAX) &&
             climbs n b (delay b) k)
  end.

Definition an_unreached_peer_backs_off : bool :=
  failing unreached (λ b,
    assert_eq (delay b) INITIAL && climbs 10 b (delay b) (λ seen, assert_eq seen MAX)).

Fixpoint delays_are (expected : list Z) (b : Backoff) : bool :=
  match expected with
  | [] => true
  | d :: expected => failing b (λ b, assert_eq (delay b) (from_secs d) && delays_are expected b)
  end.

Definition the_delay_climbs_to_the_ceiling_and_stays : bool :=
  delays_are [2; 4; 8; 10; 10; 10]%Z connected.

Fixpoint after_failures (n : nat) (b : Backoff) (k : Backoff → bool) : bool :=
  match n with
  | O => k b
  | S n => failing b (λ b, after_failures n b k)
  end.

Definition connecting_again_clears_the_climb : bool :=
  after_failures 8 connected (λ b,
    asserts [assert_eq (delay b) MAX; assert_eq (delay (reset b)) INITIAL]).

Theorem backoff_tests_pass :
  asserts [first_dial_is_immediate; a_dropped_connection_waits_a_step; an_unreached_peer_backs_off;
           the_delay_climbs_to_the_ceiling_and_stays; connecting_again_clears_the_climb] = true.
Proof. by vm_compute. Qed.

End BackoffTests.

Module DialTests.
Import ToyKey Dial.

Definition key (n : Z) : N := Z.to_N n.

(** Two keys, lower first. *)
Definition pair : N * N :=
  let a := key 1 in let b := key 2 in
  if bytes_lt (as_bytes a) (as_bytes b) then (a, b) else (b, a).

Definition a_reconnect_from_the_dialer_is_not_a_race : bool :=
  let '(low, high) := pair in
  asserts [assert_eq (resolve low high true false false) Arriving;
           assert_eq (resolve high low true false false) Arriving].

Definition a_closed_slot_takes_arriving : bool :=
  let '(low, high) := pair in
  asserts [assert_eq (resolve low high false true false) Arriving;
           assert_eq (resolve high low false true true) Arriving].

Definition the_lower_key_keeps_its_own_dial : bool :=
  let '(low, high) := pair in assert_eq (resolve low high true true false) Held.

Definition the_higher_key_takes_theirs : bool :=
  let '(low, high) := pair in assert_eq (resolve high low true true false) Arriving.

Definition both_ends_keep_the_lower_keys_dial : bool :=
  let '(low, high) := pair in
  asserts [assert_eq (resolve low high true true false) Held;
           assert_eq (resolve high low true true false) Arriving].

Definition inbound_then_our_dial_still_keeps_the_lower_keys_dial : bool :=
  let '(low, high) := pair in
  asserts [assert_eq (resolve low high true false true) Arriving;
           assert_eq (resolve high low true false true) Held].

Theorem dial_tests_pass :
  asserts [a_reconnect_from_the_dialer_is_not_a_race; a_closed_slot_takes_arriving;
           the_lower_key_keeps_its_own_dial; the_higher_key_takes_theirs;
           both_ends_keep_the_lower_keys_dial;
           inbound_then_our_dial_still_keeps_the_lower_keys_dial] = true.
Proof. by vm_compute. Qed.

End DialTests.

Module InviteTests.
Import ToyKey Invite.

#[local] Instance invite_eq_dec : EqDecision (Invite N).
Proof. solve_decision. Defined.
#[local] Instance handle_eq_dec : EqDecision (Handle N).
Proof. solve_decision. Defined.

Definition key (n : Z) : N := Z.to_N n.

Definition parse (s : string) : result (Handle N) := from_str s.

Definition an_invitation_round_trips : bool :=
  let invite := mkInvite (key 1) "abc123" in
  assert_eq (parse (fmt invite)) (Ok (HandleInvite invite)).

Definition a_bare_key_parses_as_a_key : bool :=
  assert_eq (parse (to_string (key 1))) (Ok (HandleKey (key 1))).

Definition an_invitation_and_a_key_agree_on_who_to_dial : bool :=
  let k := key 1 in
  match parse (fmt (mkInvite k "abc")), parse (to_string k) with
  | Ok invite, Ok bare =>
      asserts [assert_eq (handle_key invite) (handle_key bare);
               assert_eq (handle_code invite) (Some "abc"); assert_eq (handle_code bare) None]
  | _, _ => false
  end.

Definition junk_is_rejected : bool :=
  asserts [is_err (parse "not-a-key"); is_err (parse EmptyString)].

Definition an_invitation_without_a_code_is_rejected : bool :=
  is_err (parse (to_string (key 1) +:+ ".")).

Definition an_invitation_with_a_bad_key_is_rejected : bool := is_err (parse "nonsense.abc123").

Definition surrounding_whitespace_is_ignored : bool :=
  assert_eq (parse ("  " +:+ to_string (key 1) +:+ "  ")) (Ok (HandleKey (key 1))).

Theorem invite_tests_pass :
  asserts [an_invitation_round_trips; a_bare_key_parses_as_a_key;
           an_invitation_and_a_key_agree_on_who_to_dial; junk_is_rejected;
           an_invitation_without_a_code_is_rejected; an_invitation_with_a_bad_key_is_rejected;
           surrounding_whitespace_is_ignored] = true.
Proof. by vm_compute. Qed.

End InviteTests.

Module EnrollTests.
Import Json.Rfc.

(** What [mint] draws. *)
Definition drawn : bytes := repeat 171%Z 16.

Section tokens.
Import Tokens.

Definition token_is_single_use : bool :=
  let '(tokens, token) := mint drawn 0 (Some "rustdev") [] default_tokens in
  let '(tokens, first) := claim 0 token tokens in
  let '(tokens, second) := claim 0 token tokens in
  asserts [assert_eq (claimed_name <$> first) (Some (Some "rustdev"));
           assert_eq (claimed_ports <$> first) (Some []);
           negb (bool_decide (is_Some second))].

Definition unknown_token_fails : bool :=
  let '(_, claimed) := claim 0 "nope" default_tokens in negb (bool_decide (is_Some claimed)).

Definition expired_token_fails : bool :=
  let '(tokens, token) := mint_with_ttl drawn 0 (Some "rustdev") [] 0 default_tokens in
  let '(_, claimed) := claim 0 token tokens in negb (bool_decide (is_Some claimed)).

Definition a_token_carries_its_ports : bool :=
  let '(tokens, token) := mint drawn 0 None [8080%Z] default_tokens in
  let '(_, claimed) := claim 0 token tokens in
  asserts [assert_eq (claimed_name <$> claimed) (Some None);
           assert_eq (claimed_ports <$> claimed) (Some [8080%Z])].

End tokens.

(** A file that is not there yet, in a directory that can be created. *)
Definition peers_json : Store.File :=
  Store.mkFile "/tmp/pins/peers.json" (Some "/tmp/pins") None true true true.

Definition pins_roundtrip : bool :=
  let count f := length <$> Pins.load f in
  let f0 := peers_json in
  let '(f1, r1) := Pins.add "k1" (Some "rustdev") f0 in
  let '(f2, r2) := Pins.add "k2" (Some "webdev") f1 in
  let '(f3, r3) := Pins.add "k1" (Some "rustdev2") f2 in
  let '(f4, r4) := Pins.remove "k2" f3 in
  let k1 := loaded ← ok (Pins.load f3);
            p ← head (filter (λ p, Pins.key p = "k1"%string) loaded); Pins.label p in
  asserts [assert_eq (count f0) (Ok 0); is_ok r1; is_ok r2; is_ok r3;
           assert_eq (count f3) (Ok 2); assert_eq k1 (Some "rustdev2");
           is_ok r4; assert_eq (count f4) (Ok 1)].

Theorem enroll_tests_pass :
  asserts [token_is_single_use; unknown_token_fails; expired_token_fails; pins_roundtrip;
           a_token_carries_its_ports] = true.
Proof. by vm_compute. Qed.

End EnrollTests.

Module SessionTests.
Import ToyKey Session.

(** Keys long enough for a short name, that differ in their first characters. *)
Definition key (n : N) : N := n * 10000000000.

Definition session_with (peer : N) : Session N := (admit_known peer (Some "peer") Added new).1.

(** ** Authorization *)

Definition tunnel_needs_a_grant : bool :=
  let a := key 1 in
  let s := session_with a in
  assert_eq (on_tunnel a 4000 s) (RejectTunnel NotGranted).

Definition tunnel_is_served_once_granted : bool :=
  let a := key 1 in
  let s := session_with a in
  let '(s, _) := expose 4000 [a] s in
  assert_eq (on_tunnel a 4000 s) (ServeTunnel 4000).

Definition a_grant_to_one_peer_is_not_usable_by_another : bool :=
  let a := key 1 in let b := key 2 in
  let s := session_with a in
  let '(s, _) := admit_known b None Added s in
  let '(s, _) := expose 4000 [a] s in
  assert_eq (on_tunnel b 4000 s) (RejectTunnel NotGranted).

Definition a_grant_covers_only_the_port_named : bool :=
  let a := key 1 in
  let s := session_with a in
  let '(s, _) := expose 4000 [a] s in
  assert_eq (on_tunnel a 4001 s) (RejectTunnel NotGranted).

(** ** Grantee resolution *)

Definition a_grantee_can_be_named_by_label : bool :=
  let a := key 1 in assert_eq (resolve_grantee "peer" (session_with a)) (Ok a).

Definition a_key_is_a_grantee_even_before_admission : bool :=
  let a := key 1 in assert_eq (resolve_grantee (to_string a) new) (Ok a).

Definition an_unknown_name_is_refused : bool :=
  is_err (resolve_grantee "nobody" (session_with (key 1))).

Definition a_name_two_peers_share_is_refused : bool :=
  let s := session_with (key 1) in
  let '(s, _) := admit_known (key 2) (Some "peer") Added s in
  is_err (resolve_grantee "peer" s).

(** ** Announcement *)

Definition a_peer_is_told_only_its_own_grants : bool :=
  let a := key 1 in let b := key 2 in
  let s := session_with a in
  let '(s, _) := admit_known b None Added s in
  let '(s, _) := expose 4000 [a] s in
  let '(s, _) := expose 4001 [b] s in
  assert_eq (announce a s) (Announce a [4000%Z]).

Definition revocation_announces_an_empty_list : bool :=
  let a := key 1 in
  let s := session_with a in
  let '(s, _) := expose 4000 [a] s in
  assert_eq (unexpose 4000 None s).2 [Announce a []].

Definition revoking_one_grantee_leaves_the_other : bool :=
  let a := key 1 in let b := key 2 in
  let s := session_with a in
  let '(s, _) := admit_known b None Added s in
  let '(s, _) := expose 4000 [a; b] s in
  let '(s, _) := unexpose 4000 (Some a) s in
  asserts [assert_eq (on_tunnel a 4000 s) (RejectTunnel NotGranted);
           assert_eq (on_tunnel b 4000 s) (ServeTunnel 4000)].

(** ** Admission *)

Definition an_unknown_peer_is_not_admitted_on_arrival : bool :=
  assert_eq (on_inbound 1%Z (key 9) new).2 [].

Definition an_unknown_peer_with_no_claim_is_refused_on_timeout : bool :=
  let '(s, _) := on_inbound 1%Z (key 9) new in
  let '(s, actions) := on_enroll_timeout 1%Z s in
  asserts [assert_eq actions [Refuse 1%Z EnrollTimeout];
           negb (bool_decide (is_Some (admission_of (key 9) s)))].

(** [PeerMessage::Enroll] without a version, at the time of the mint. *)
Definition claim (conn : ConnId) (k : N) (token : string) (s : Session N) :
    Session N * list (Action N) :=
  on_unadmitted conn k (Protocol.Enroll token None) 0 s.

Definition mint (name : option string) (ports : list Z) (s : Session N) : Session N * string :=
  mint_token EnrollTests.drawn 0 name ports s.

Definition a_bad_code_is_refused : bool :=
  let k := key 9 in
  let '(s, _) := on_inbound 1%Z k new in
  let '(s, actions) := claim 1%Z k "nope" s in
  asserts [assert_eq actions [Refuse 1%Z NotAuthorized];
           negb (bool_decide (is_Some (admission_of k s)))].

Definition a_valid_code_admits_and_pins : bool :=
  let k := key 9 in
  let '(s, token) := mint (Some "rustdev") [] new in
  let '(s, _) := on_inbound 1%Z k s in
  let '(s, actions) := claim 1%Z k token s in
  asserts [assert_eq actions [Admit 1%Z k false; PersistPin k (Some "rustdev"); Announce k []];
           assert_eq (admission_of k s) (Some Code);
           assert_eq (label_of k s) (Some "rustdev")].

Definition a_code_is_single_use : bool :=
  let '(s, token) := mint (Some "rustdev") [] new in
  let first := key 1 in
  let '(s, _) := on_inbound 1%Z first s in
  let '(s, _) := claim 1%Z first token s in
  let second := key 2 in
  let '(s, _) := on_inbound 2%Z second s in
  let '(s, actions) := claim 2%Z second token s in
  asserts [assert_eq actions [Refuse 2%Z NotAuthorized];
           negb (bool_decide (is_Some (admission_of second s)))].

Definition an_unadmitted_peer_announcing_ports_is_not_admitted_by_it : bool :=
  let k := key 9 in
  let '(s, _) := on_inbound 1%Z k new in
  let '(s, actions) := on_unadmitted 1%Z k (Protocol.ExposedPorts [4000%Z]) 0 s in
  asserts [assert_eq actions []; negb (bool_decide (is_Some (admission_of k s)))].

Definition ports_announced_before_the_claim_are_applied_after_it : bool :=
  let k := key 9 in
  let '(s, token) := mint (Some "rustdev") [] new in
  let '(s, _) := on_inbound 1%Z k s in
  let '(s, _) := on_unadmitted 1%Z k (Protocol.ExposedPorts [4000; 4001]%Z) 0 s in
  let '(_, actions) := claim 1%Z k token s in
  bool_decide (ApplyPorts k [4000; 4001]%Z ∈ actions).

Definition a_known_peer_is_admitted_with_no_claim : bool :=
  let a := key 1 in
  assert_eq (on_inbound 1%Z a (session_with a)).2 [Admit 1%Z a true; Announce a []].

Definition admitting_a_known_peer_twice_changes_nothing : bool :=
  let a := key 1 in
  let '(s, admitted) := admit_known a (Some "other") Key (session_with a) in
  asserts [negb admitted; assert_eq (label_of a s) (Some "peer");
           assert_eq (admission_of a s) (Some Added)].

Definition admission_records_how_the_peer_arrived : bool :=
  let '(s, _) := admit_known (key 1) None Key new in
  assert_eq (admission_of (key 1) s) (Some Key).

(** ** Eviction *)

Definition eviction_revokes_every_grant_naming_the_peer : bool :=
  let a := key 1 in let b := key 2 in
  let s := session_with a in
  let '(s, _) := admit_known b None Added s in
  let '(s, _) := expose 4000 [a; b] s in
  let '(s, _) := expose 4001 [a] s in
  let '(s, _) := evict a s in
  asserts [negb (bool_decide (is_Some (admission_of a s)));
           assert_eq (on_tunnel a 4000 s) (RejectTunnel NotGranted);
           assert_eq (granted_ports s) [4000%Z]].

Definition evicting_an_unknown_peer_does_nothing : bool := assert_eq (evict (key 1) new).2 [].

Definition an_evicted_peer_is_no_longer_admitted_on_arrival : bool :=
  let a := key 1 in
  let '(s, _) := evict a (session_with a) in
  assert_eq (on_inbound 1%Z a s).2 [].

(** ** Grants that come with a code *)

Definition an_invitation_can_carry_a_grant : bool :=
  let k := key 9 in
  let '(s, token) := mint None [8080%Z] new in
  let '(s, _) := on_inbound 1%Z k s in
  let '(s, actions) := claim 1%Z k token s in
  asserts [bool_decide (Announce k [8080%Z] ∈ actions);
           assert_eq (on_tunnel k 8080 s) (ServeTunnel 8080)].

Definition a_carried_grant_names_only_the_claimer : bool :=
  let a := key 1 in let b := key 2 in
  let s := session_with a in
  let '(s, token) := mint None [8080%Z] s in
  let '(s, _) := on_inbound 1%Z b s in
  let '(s, _) := claim 1%Z b token s in
  asserts [assert_eq (on_tunnel b 8080 s) (ServeTunnel 8080);
           assert_eq (on_tunnel a 8080 s) (RejectTunnel NotGranted)].

(** ** Short names *)

Definition an_unnamed_peer_falls_back_to_a_short_key : bool :=
  let k := key 1 in
  let name := default_name k in
  asserts [assert_eq (String.length name) SHORT_KEY; String.prefix name (to_string k)].

Definition short_names_differ_between_peers : bool :=
  negb (assert_eq (default_name (key 1)) (default_name (key 2))).

Theorem session_tests_pass :
  asserts
    [tunnel_needs_a_grant; tunnel_is_served_once_granted;
     a_grant_to_one_peer_is_not_usable_by_another; a_grant_covers_only_the_port_named;
     a_grantee_can_be_named_by_label; a_key_is_a_grantee_even_before_admission;
     an_unknown_name_is_refused; a_name_two_peers_share_is_refused;
     a_peer_is_told_only_its_own_grants; revocation_announces_an_empty_list;
     revoking_one_grantee_leaves_the_other; an_unknown_peer_is_not_admitted_on_arrival;
     an_unknown_peer_with_no_claim_is_refused_on_timeout; a_bad_code_is_refused;
     a_valid_code_admits_and_pins; a_code_is_single_use;
     an_unadmitted_peer_announcing_ports_is_not_admitted_by_it;
     ports_announced_before_the_claim_are_applied_after_it;
     a_known_peer_is_admitted_with_no_claim; admitting_a_known_peer_twice_changes_nothing;
     admission_records_how_the_peer_arrived; eviction_revokes_every_grant_naming_the_peer;
     evicting_an_unknown_peer_does_nothing; an_evicted_peer_is_no_longer_admitted_on_arrival;
     an_invitation_can_carry_a_grant; a_carried_grant_names_only_the_claimer;
     an_unnamed_peer_falls_back_to_a_short_key; short_names_differ_between_peers] = true.
Proof. by vm_compute. Qed.

End SessionTests.
