(* ===== verification/ShellTests.v ===== *)
(** * The unit tests outside the core, run on the model

    The tests of [protocol.rs], [surface.rs], [resolver.rs], [tunnel.rs],
    [daemon.rs] and [launchd.rs] as programs over the definitions, in the manner
    of [UnitTests.v].  The files and the machine they run on are those of the
    model; the permission bits of a key file are not asserted, since [Store.File]
    has none. *)

From S2P Require Import Prelude RustStr Keys Text Dial Store Enroll Protocol Session Surface Resolver Netstack Tunnel Peer Daemon KeyFile Host Json Wire Launchd Codec UnitTests.
Import Assert.

Module ProtocolTests.
Import Json Rfc Codec Serde Protocol.

(** [serde_json::from_str]. *)
Definition from_str {A} (c : Codec A) (s : string) : option A := v ← parse s; dec c v.

(** A text of JSON with its quotes. *)
Definition obj (members : list (string * string)) : string :=
  "{" +:+ join "," ((λ m, quote m.1 +:+ ":" +:+ m.2) <$> members) +:+ "}".

Definition an_old_enroll_still_parses : bool :=
  match from_str message_codec (obj [("Enroll", obj [("token", quote "abc")])]) with
  | Some (Enroll token version) => asserts [assert_eq token "abc"%string; assert_eq version None]
  | _ => false
  end.

Definition an_old_peer_still_parses_an_enroll_that_carries_version : bool :=
  let json := print (enc message_codec (enroll "abc")) in
  assert_eq (v ← parse json; old_enroll v) (Some "abc"%string).

Definition an_old_list_has_an_empty_daemon_version : bool :=
  match from_str list_info_codec
          (obj [("me", quote "abc"); ("peers", "[]"); ("i_expose", "[]"); ("grants", "[]")]) with
  | Some info => asserts [str_is_empty (li_cli info); str_is_empty (li_daemon info)]
  | None => false
  end.

Theorem protocol_tests_pass :
  asserts [an_old_enroll_still_parses; an_old_peer_still_parses_an_enroll_that_carries_version;
           an_old_list_has_an_empty_daemon_version] = true.
Proof. by vm_compute. Qed.

End ProtocolTests.

Module SurfaceTests.
Import Surface.

Definition ip (host : Z) : IpAddr := V4 127 0 1 host.

Definition allocate_skips_taken : bool :=
  assert_eq (allocate [ip 2; ip 3; ip 5] LOOPBACK_BASE) (Ok (ip 4)).

Definition allocate_from_empty_starts_at_two : bool :=
  assert_eq (allocate [] LOOPBACK_BASE) (Ok (ip 2)).

Definition allocate_uses_the_given_base : bool :=
  assert_eq (allocate [] TUN_BASE) (Ok (V4 10 99 1 2)).

Definition allocate_errors_when_range_is_full : bool :=
  is_err (allocate (ip <$> seqZ 2 253) LOOPBACK_BASE).

(** On every system, with no command that succeeds. *)
Definition stock_loopback_is_never_touched : bool :=
  let never (_ : string) (_ : list string) : result unit := Err "no privilege" in
  asserts ((λ os, is_ok (ensure_addr os never (λ _, EmptyString) LOCALHOST) &&
                  is_ok (remove_addr os never (λ _, EmptyString) LOCALHOST)) <$>
           [Linux; Macos; OtherOs]).

Theorem surface_tests_pass :
  asserts [allocate_skips_taken; allocate_from_empty_starts_at_two; allocate_uses_the_given_base;
           allocate_errors_when_range_is_full; stock_loopback_is_never_touched] = true.
Proof. by vm_compute. Qed.

End SurfaceTests.

Module ResolverTests.
Import Resolver.

(** An A query for a name, by its labels, with id 0x1234 and RD set. *)
Definition query_for (labels : list string) : bytes :=
  [18; 52; 1; 0; 0; 1; 0; 0; 0; 0; 0; 0]%Z ++ encode_name labels ++
  u16_to_be_bytes TYPE_A ++ [0; 1]%Z.

Definition parses_a_query : bool :=
  match parse_question (query_for ["vibenv-ndyg"; "pai-sho"]) with
  | Some q => asserts [assert_eq (name q) "vibenv-ndyg.pai-sho"%string; assert_eq (qtype q) TYPE_A]
  | None => false
  end.

Definition host_label_strips_suffix : bool :=
  asserts [assert_eq (host_label "vibenv-ndyg.pai-sho") (Some "vibenv-ndyg"%string);
           assert_eq (host_label "broker.pai-sho") (Some "broker"%string);
           assert_eq (host_label "a.b.pai-sho") None; assert_eq (host_label "nope.com") None;
           assert_eq (host_label "pai-sho") None].

(** ANCOUNT of a reply. *)
Definition answers (reply : bytes) : option Z :=
  hi ← reply !! 6; lo ← reply !! 7; Some (u16_from_be_bytes hi lo).

Definition reply_carries_the_answer : bool :=
  let query := query_for ["broker"; "pai-sho"] in
  match (q ← parse_question query; build_reply query (qend q) (Some (127, 0, 1, 5)%Z) : option bytes) with
  | Some reply =>
      asserts [assert_eq ((λ b, Z.land b 128) <$> reply !! 2) (Some 128%Z);
               assert_eq (answers reply) (Some 1%Z);
               assert_eq (drop (length reply - 4) reply) [127; 0; 1; 5]%Z]
  | None => false
  end.

Definition empty_answer_has_no_records : bool :=
  let query := query_for ["gone"; "pai-sho"] in
  match (q ← parse_question query; build_reply query (qend q) None : option bytes) with
  | Some reply => assert_eq (answers reply) (Some 0%Z)
  | None => false
  end.

Theorem resolver_tests_pass :
  asserts [parses_a_query; host_label_strips_suffix; reply_carries_the_answer;
           empty_answer_has_no_records] = true.
Proof. by vm_compute. Qed.

End ResolverTests.

Module TunnelTests.
Import Tunnel.

Definition FIRST : bytes := str_bytes "data: hello".
Definition REST : bytes := str_bytes (String nl (String nl EmptyString)).

(** An event that arrives as two reads. *)
Record SplitSse : Type := mkSplitSse { stage : nat }.

Definition poll_read (r : SplitSse) (_ : nat) : SplitSse * result bytes :=
  match stage r with
  | 0 => (mkSplitSse 1, Ok FIRST)
  | 1 => (mkSplitSse 2, Ok REST)
  | _ => (r, Ok [])
  end.

#[local] Instance split_sse : AsyncRead SplitSse := {|
  read := poll_read;
  pending r := match stage r with 0 => FIRST ++ REST | 1 => REST | _ => [] end;
|}.

(** A writer whose flush may never come to an end. *)
Record ProbeWriter : Type := mkProbeWriter { taken : bytes; flush_blocks : bool }.

Definition poll_write (w : ProbeWriter) (l : bytes) : ProbeWriter * result unit :=
  (mkProbeWriter (taken w ++ l) (flush_blocks w), Ok tt).

#[local] Instance probe_writer : AsyncWrite ProbeWriter := {|
  write_all := poll_write;
  written := taken;
|}.

(** [copy_flush] ends, and the whole event was written.  It never flushes, so
    a flush that blocks is not waited for. *)
Definition forwards_event (flush_blocks : bool) : bool :=
  match copy_flush 3 (mkSplitSse 0) (mkProbeWriter [] flush_blocks) with
  | Some (_, probe, Ok _) => assert_eq (written probe) (FIRST ++ REST)
  | _ => false
  end.

Definition copy_flush_writes_sse_terminator_without_waiting_for_ack : bool := forwards_event true.

Definition copy_flush_forwards_whole_sse_event_when_flush_is_noop : bool := forwards_event false.

Theorem tunnel_tests_pass :
  asserts [copy_flush_writes_sse_terminator_without_waiting_for_ack;
           copy_flush_forwards_whole_sse_event_when_flush_is_noop] = true.
Proof. by vm_compute. Qed.

End TunnelTests.

Module DaemonTests.
Import KeyFile.

(** A fresh directory, under the usual mask. *)
Definition key_disk (data : option bytes) : Disk :=
  mkDisk "/tmp/key-test/key" (Some "/tmp/key-test") ((λ l, mkEntry l 420) <$> data)
    true true true true None 18.

(** The second load would draw other bytes.  [0o777] is 511. *)
Definition key_persists_across_loads : bool :=
  let '(d, first) := load_or_create_key (repeat 7%Z 32) (key_disk None) in
  let '(d, second) := load_or_create_key (repeat 8%Z 32) d in
  asserts [is_ok first; assert_eq first second;
           assert_eq ((λ e, Z.land (mode e) 511) <$> entry d) (Some KEY_MODE)].

Definition rejects_malformed_key_file : bool :=
  is_err (load_or_create_key (repeat 7%Z 32) (key_disk (Some (str_bytes "too short")))).2.

Theorem daemon_tests_pass :
  asserts [key_persists_across_loads; rejects_malformed_key_file] = true.
Proof. by vm_compute. Qed.

End DaemonTests.

Module LaunchdTests.
Import Json Codec Serde Launchd.

(** [text.lines().any(|got| got == line)] for each. *)
Definition has_lines (text : string) (wanted : list string) : bool :=
  forallb (λ line, existsb (String.eqb line) (lines text)) wanted.

Definition operator_script_matches_the_service_settings : bool :=
  has_lines operator_script
    ["#!/bin/bash"; "set -eu"; "mkdir -p /etc/resolver";
     "printf 'nameserver 10.99.0.53\n' > /etc/resolver/pai-sho";
     "KEY=" +:+ quoted "/usr/local/var/pai-sho/op.key";
     "u=$(stat -f%Su /dev/console) || exit 1";
     "exec /usr/local/libexec/pai-sho --socket /tmp/pai-sho.sock daemon \";
     "  --key " +:+ quoted "$KEY" +:+ " --tun utun --socket-owner " +:+ quoted "$u"].

Definition plist_is_a_keepalive_launch_daemon : bool :=
  has_lines plist
    ["    <string>pai-sho</string>";
     "        <string>/usr/local/libexec/pai-sho-operator</string>";
     "    <key>RunAtLoad</key>"; "    <true/>"; "    <key>KeepAlive</key>";
     "    <string>/usr/local/var/log/pai-sho-operator.log</string>";
     "        <string>/usr/bin:/bin:/usr/sbin:/sbin</string>"].

Definition status_reads_launchd_text : bool :=
  let disabled := unlines
    ["disabled services = {";
     String tab (quoted "com.apple.ftpd" +:+ " => disabled");
     String tab (quoted "pai-sho" +:+ " => disabled");
     String tab (quoted "pai-sho-extra" +:+ " => enabled"); "}"] in
  let printed := unlines
    ["system/pai-sho = {"; String tab "state = running"; String tab "pid = 439";
     String tab "path = /Library/LaunchDaemons/pai-sho.plist"; "}"] in
  asserts [label_disabled disabled "pai-sho"; negb (label_disabled disabled "pai-sho-extra");
           negb (label_disabled disabled "com.apple.ftpd.missing");
           assert_eq (field printed "state") (Some "running"%string);
           assert_eq (field printed "pid") (Some "439"%string);
           assert_eq (field printed "program") None].

(** [serde_json::to_value] of a report, and a member of it. *)
Definition to_value (s : ServiceStatus) : Json := status_report_value (report s).

Definition member (name : string) (v : Json) : option Json :=
  match v with
  | JObj o => match named name o with [e] => Some e.2 | _ => None end
  | _ => None
  end.

Definition members_are (v : Json) (l : list (string * Json)) : bool :=
  forallb (λ e, match member e.1 v with
                | Some (JStr s) => match e.2 with JStr s' => String.eqb s s' | _ => false end
                | Some (JInt n) => match e.2 with JInt n' => Z.eqb n n' | _ => false end
                | Some (JBool b) => match e.2 with JBool b' => Bool.eqb b b' | _ => false end
                | Some JNull => match e.2 with JNull => true | _ => false end
                | _ => false
                end) l.

Definition status_json_for_each_state : bool :=
  let running := to_value (mkServiceStatus true true false (Some "running") (Some "439")
                             (Some "ndyg") true true) in
  let stopped := to_value (mkServiceStatus true false true None None None true false) in
  let missing := to_value (mkServiceStatus false false false None None None false false) in
  let spawning := to_value (mkServiceStatus true true false (Some "spawn scheduled") (Some "nope")
                              None false false) in
  asserts
    [members_are running
       [("service", JStr "system/pai-sho"); ("state", JStr "running"); ("pid", JInt 439);
        ("disabled", JBool false); ("installed", JBool true); ("loaded", JBool true);
        ("socket", JStr "/tmp/pai-sho.sock"); ("socket_owner", JStr "ndyg");
        ("key", JStr "/usr/local/var/pai-sho/op.key"); ("resolver", JStr "/etc/resolver/pai-sho");
        ("log", JStr "/usr/local/var/log/pai-sho-operator.log")];
     members_are stopped
       [("state", JStr "stopped"); ("disabled", JBool true); ("loaded", JBool false);
        ("socket", JNull); ("socket_owner", JNull); ("resolver", JNull);
        ("key", JStr "/usr/local/var/pai-sho/op.key")];
     members_are missing
       [("state", JStr "not installed"); ("installed", JBool false); ("pid", JNull);
        ("key", JNull)];
     members_are spawning [("state", JStr "spawn scheduled"); ("pid", JNull)]].

Definition install_message_introduces_a_new_machine : bool :=
  assert_eq (install_message (Some (mkInstallView "abc" 0)))
    ("pai-sho is running." +:+ chr nl +:+ chr nl +:+ "This machine's key:" +:+ chr nl +:+ chr nl +:+
     "  abc").

Definition install_message_skips_the_intro_once_peers_exist : bool :=
  asserts [assert_eq (install_message (Some (mkInstallView "abc" 1)))
             "pai-sho is running. 1 peer."%string;
           assert_eq (install_message (Some (mkInstallView "abc" 2)))
             "pai-sho is running. 2 peers."%string].

Definition install_message_when_the_socket_is_late : bool :=
  assert_eq (install_message None)
    "pai-sho is running. Not answering yet. Run `pai-sho key`."%string.

Theorem launchd_tests_pass :
  asserts [operator_script_matches_the_service_settings; plist_is_a_keepalive_launch_daemon;
           status_reads_launchd_text; status_json_for_each_state;
           install_message_introduces_a_new_machine;
           install_message_skips_the_intro_once_peers_exist;
           install_message_when_the_socket_is_late] = true.
Proof. by vm_compute. Qed.

(** On whatever machine: [install] is refused before anything is done. *)
Section refused.
Context {H : Type} `{!Host H} `{!JsonText Protocol.Request} `{!JsonText Protocol.Response}.

Definition other_oses_are_refused_before_sudo (h : H) : Prop :=
  match require_macos Surface.Macos h with
  | (_, Done _) => True
  | _ => False
  end ∧
  match install Surface.Linux h with
  | (h', Failed err) => h' = h ∧ contains_str "macOS" err = true
  | _ => False
  end.

Lemma other_oses_refused h : other_oses_are_refused_before_sudo h.
Proof. by split. Qed.

End refused.
End LaunchdTests.
