(* ===== verification/LiveTests.v ===== *)
(** * The live tests ([src/src/live_tests.rs]), run on the model

    The tests start two daemons that can reach each other, give them requests
    and wait for what must come of them.  Here the two are a [Link.World] and
    what the tests wait for is a fair schedule, [settle]: losses are noticed,
    loops without a live connection dial, connections arrive and run, messages
    are delivered.  A local connection to a bound port is a tunnel of the object
    that holds the binding. *)

From S2P Require Import Prelude RustStr Keys Grants Dial Invite Store Enroll Protocol Session Surface Resolver Netstack Tunnel Forward Relay Peer PeerLoop Daemon Shell Link UnitTests.
Import Assert.

Module Live.
Import Peers Link.

(** ** The daemons of the tests *)

(** What the tests of a pair fix: the address [a] forwards to, and the sockets
    others hold at an attempt to bind. *)
Record Setting : Type := mkSetting {
  host_of : N → IpAddr;
  blocked : nat → IpAddr → Z → bool;
}.

Definition plain (host : IpAddr) : Setting := mkSetting (λ _, host) (λ _ _ _, false).

Definition daemon_of (s : Setting) (k : N) : Config N :=
  mkConfig k (host_of s k) None Surface.Linux (λ _ _, Ok tt) (λ _, EmptyString)
    (λ _ _, EmptyString)
    (λ held attempt ip port,
       if blocked s attempt ip port then Err "address in use"
       else Toy.tcp_bind held attempt ip port).

Definition a : N := 1.
Definition b : N := 2.

Definition start : PeerManager N := new (Toy.file "peers") (Toy.file "surfaces") None.

Definition pair : World N := mkWorld (<[a := start]> (<[b := start]> ∅)) ∅ 0 ∅.

Section tests.
Variable s : Setting.
Local Abbreviation cfg := (daemon_of s).

Definition node (x : N) (w : World N) : PeerManager N := default start (nodes w !! x).

Definition object_ids (x : N) (w : World N) : list ObjId := elements (dom (objects (node x w))).

(** ** A fair schedule *)

(** The other end of a connection closed it. *)
Definition notice (x : N) (w : World N) : World N :=
  foldl (λ w o,
    match conn_of o (node x w) with
    | Some c =>
        match closed (node (remote_id c) w) !! cid c with
        | Some reason => step cfg Toy.parse_ip w (Lost x c reason)
        | None => w
        end
    | None => w
    end) w (object_ids x w).

(** A loop that may dial reaches a daemon that is up; the connection arrives,
    and both loops run it. *)
Definition dial_out (x : N) (w : World N) : World N :=
  foldl (λ w o,
    match objects (node x w) !! o with
    | Some p =>
        if dial p && negb (removed p) && negb (Dial.held_is_live (live (node x w)) (slot p)) &&
           bool_decide (is_Some (nodes w !! endpoint_id p))
        then
          let n := next_conn w in
          let w := run cfg Toy.parse_ip w [Dialed x o; Arrive n; Run x o] in
          match peers (node (endpoint_id p) w) !! x with
          | Some o' => step cfg Toy.parse_ip w (Run (endpoint_id p) o')
          | None => w
          end
        else w
    | None => w
    end) w (object_ids x w).

(** The task that waits on a connection, or the object that holds it. *)
Definition deliver (x : N) (w : World N) (i : nat) : World N :=
  match in_flight x i w with
  | Some (y, c, _) =>
      let m := node y w in
      match head (filter (λ e, wait_conn e.2 = c) (map_to_list (waiting m))) with
      | Some (id, _) =>
          let w := step cfg Toy.parse_ip w (ToWaiting x i id 0) in
          match peers (node y w) !! x with
          | Some o => step cfg Toy.parse_ip w (Run y o)
          | None => w
          end
      | None =>
          match head (filter (λ o, conn_of o m = Some c) (object_ids y w)) with
          | Some o => step cfg Toy.parse_ip w (ToAdmitted x i o)
          | None => w
          end
      end
  | None => w
  end.

Definition deliver_all (x : N) (w : World N) : World N :=
  foldl (deliver x) w (seq 0 (length (sent (node x w)))).

Definition round (w : World N) : World N :=
  let w := notice b (notice a w) in
  let w := dial_out b (dial_out a w) in
  deliver_all a (deliver_all b (deliver_all a w)).

(** Four rounds are enough for the tests. *)
Definition settle (w : World N) : World N := Nat.iter 4 round w.

(** ** What the tests do *)

Definition request (x : N) (req : Protocol.Request) (w : World N) : World N :=
  step cfg Toy.parse_ip w (Request x req EnrollTests.drawn 0).

Definition answer (x : N) (req : Protocol.Request) (w : World N) : option Protocol.Response :=
  Link.answer cfg Toy.parse_ip x req EnrollTests.drawn 0 w.

Definition list (x : N) (w : World N) : list Protocol.PeerInfo := list_peers (cfg x) (node x w).

Definition listed (x y : N) (w : World N) : option Protocol.PeerInfo :=
  head (filter (λ p, Protocol.pi_key p = to_string y) (list x w)).

(** [a] invites, [b] accepts. *)
Definition invited (name accepted_as : option string) (ports : bytes) (w : World N) : World N :=
  match answer a (Protocol.ReqInvite None name ports) w with
  | Some (Protocol.RespInvite invite) =>
      let w := request a (Protocol.ReqInvite None name ports) w in
      settle (request b (Protocol.ReqAccept invite accepted_as) w)
  | _ => w
  end.

Definition enroll (name : string) (w : World N) : World N := invited (Some name) None [] w.

Definition expose_to_b (port : Z) (w : World N) : World N :=
  settle (request a (Protocol.ReqExpose port [to_string b] false) w).

(** [bound_addr]: where [b] has bound a port, and the object whose it is. *)
Definition bound_addr (port : Z) (w : World N) : option (ObjId * Surface.Surface) :=
  head (omap (λ o, match bindings_of o (node b w) !! port, surface_of o (node b w) with
                   | Some (Listener ip _), Some surface =>
                       if decide (Surface.ip surface = ip) then Some (o, surface) else None
                   | _, _ => None
                   end) (object_ids b w)).

(** Connect there and write: the host address, port and bytes that come out. *)
Definition through (port : Z) (text : string) (w : World N) : option TunnelOutcome :=
  '(o, _) ← bound_addr port w; tunnel cfg b o port (str_bytes text) w.

(** [PeerManager::sever]. *)
Definition sever (x y : N) (w : World N) : World N :=
  let m := node x w in
  match (o ← peers m !! y; c ← conn_of o m; Some (o, c)) with
  | Some (o, c) =>
      put x (close c "severed" (upd o (λ p, put_slot
        (Dial.mkSlot None (Dial.conn_dialed_by_us (slot p))) p) m)) w
  | None => w
  end.

End tests.

(** ** The tests *)

Definition local : Setting := plain Surface.LOCALHOST.

#[local] Instance outcome_eq_dec : EqDecision TunnelOutcome.
Proof. solve_decision. Defined.

Definition arrives (st : Setting) (port : Z) (text : string) (w : World N) : bool :=
  assert_eq (through st port text w) (Some (Forward (host_of st a) port (str_bytes text))).

(** The port of the server that [a]'s host runs. *)
Definition echo : Z := 4000.

Definition a_granted_port_carries_bytes : bool :=
  let w := expose_to_b local echo (enroll local "b" pair) in
  arrives local echo "hello pai-sho" w.

(** A server writes the first part of an event and waits; the client has it all
    the same, and the rest once that is written.  The tunnel is up when the host
    has read its request, and then a relay. *)
Definition fragment : bytes := str_bytes "data: ping".
Definition terminator : bytes := [10; 10]%Z.

Definition relayed (es : Datatypes.list Relay.Step) : bytes :=
  Relay.received Relay.Client (Relay.run Relay.start es).

Definition an_sse_fragment_arrives_before_the_rest_is_sent : bool :=
  let w := expose_to_b local echo (enroll local "b" pair) in
  let first := Relay.Writes Relay.Host fragment :: concat (repeat Relay.robin 10) in
  let rest := Relay.Writes Relay.Host terminator :: concat (repeat Relay.robin 10) in
  asserts [arrives local echo EmptyString w;
           assert_eq (relayed first) fragment;
           assert_eq (relayed (first ++ rest)) (fragment ++ terminator)].

Definition an_ungranted_port_is_never_announced : bool :=
  let w := expose_to_b local echo (enroll local "b" pair) in
  let w' := settle local (request local a (Protocol.ReqUnexpose echo None) w) in
  asserts [bool_decide (is_Some (bound_addr echo w));
           forallb (λ p, bool_decide (echo ∉ Protocol.pi_bound p)) (list local b w')].

Definition a_peer_with_no_grant_is_told_nothing : bool :=
  let w := enroll local "b" pair in
  match listed local b a w with
  | Some a_seen => asserts [Protocol.pi_online a_seen; is_empty (Protocol.pi_they_expose a_seen)]
  | None => false
  end.

Definition list_shows_our_version_and_the_peers : bool :=
  let w := enroll local "b" pair in
  match answer local a Protocol.ReqList w, answer local b Protocol.ReqList w,
        listed local a b w, listed local b a w with
  | Some (Protocol.RespList a_list), Some (Protocol.RespList b_list), Some a_sees_b,
    Some b_sees_a =>
      asserts [assert_eq (Protocol.li_daemon a_list) Protocol.VERSION;
               assert_eq (Protocol.li_daemon b_list) Protocol.VERSION;
               assert_eq (Protocol.pi_version a_sees_b) (Some Protocol.VERSION);
               assert_eq (Protocol.pi_version b_sees_a) (Some Protocol.VERSION)]
  | _, _, _, _ => false
  end.

(** The wait for a code comes to its end before [b] is looked at. *)
Definition an_unenrolled_peer_is_refused : bool :=
  let w := settle local (request local b (Protocol.ReqAccept (to_string a) None) pair) in
  is_empty (list local a w).

Definition forwarding_honours_the_host_address : bool :=
  let elsewhere := plain (Surface.V4 127 0 0 2) in
  let w := expose_to_b elsewhere echo (enroll elsewhere "b" pair) in
  assert_eq (through elsewhere echo "x" w)
    (Some (Forward (Surface.V4 127 0 0 2) echo (str_bytes "x"))).

Definition a_peer_added_before_its_daemon_is_up_is_still_recorded : bool :=
  let absent := to_string (7%N : N) in
  let w := settle local (request local b (Protocol.ReqAccept absent None) pair) in
  match list local b w with
  | [p] => asserts [assert_eq (Protocol.pi_key p) absent; negb (Protocol.pi_online p)]
  | _ => false
  end.

(** The address is taken until the second attempt. *)
Definition a_port_blocked_at_first_still_binds : bool :=
  let late := mkSetting (λ _, Surface.LOCALHOST)
                (λ attempt ip port, (attempt <? 2) &&
                   bool_decide (ip = Surface.V4 127 0 1 2 ∧ port = echo)) in
  let w := expose_to_b late echo (enroll late "b" pair) in
  arrives late echo "late" w.

Definition an_invitation_can_bring_its_own_grant : bool :=
  let w := invited local (Some "b") (Some "a") [echo] pair in
  arrives local echo "carried" w.

Definition an_unnamed_peer_still_gets_a_name : bool :=
  let w := invited local None None [echo] pair in
  let short := take_chars 8 (to_string a) in
  match listed local b a w with
  | Some seen =>
      asserts [bool_decide (is_Some (bound_addr echo w)); assert_eq (Protocol.pi_name seen) None;
               bool_decide (is_Some (resolve_name (daemon_of local b) short (node b w)))]
  | None => false
  end.

Definition a_severed_link_comes_back : bool :=
  let w := expose_to_b local echo (enroll local "b" pair) in
  let cut := sever a b w in
  asserts [arrives local echo "before" w; negb (arrives local echo "after" cut);
           arrives local echo "after" (settle local cut)].

Theorem live_tests_pass :
  asserts
    [a_granted_port_carries_bytes; an_sse_fragment_arrives_before_the_rest_is_sent;
     an_ungranted_port_is_never_announced;
     a_peer_with_no_grant_is_told_nothing; list_shows_our_version_and_the_peers;
     an_unenrolled_peer_is_refused; forwarding_honours_the_host_address;
     a_peer_added_before_its_daemon_is_up_is_still_recorded;
     a_port_blocked_at_first_still_binds; an_invitation_can_bring_its_own_grant;
     an_unnamed_peer_still_gets_a_name; a_severed_link_comes_back] = true.
Proof. by vm_compute. Qed.

End Live.
