(* ===== verification/Reconnect.v ===== *)
(** * Reconnecting

    The connection loop of a peer we dial, while it has no live connection, as
    a system that must make progress: [searching] is where such a loop can be,
    [rank] how far it is from its next dial. *)

From S2P Require Import Prelude RustStr Keys Grants Backoff Dial Invite Store Enroll Protocol Session Surface Resolver Netstack Tunnel Peer PeerFacts PeerLoop Daemon Shell Bindings BindingProps PeerProps.
Import Peers.

Section reconnect.
Context {K : Type} `{EKL : EndpointKeyLaws K} `{DML : DashMapLaws}.
Context `{!JsonCodec Pins.Pin} `{!JsonCodec Surface.SurfaceRecord}.
Implicit Types (m : PeerManager K) (p : Peer K) (o : ObjId) (c : Conn K).

(** A known peer that we dial, without a live connection. *)
Definition sought m p : Prop :=
  removed p = false ∧ dial p = true ∧ Dial.held_is_live (live m) (slot p) = false.

(** Its loop, anywhere but ended or waiting to be called. *)
Definition searching o m (st : Loop.State (K:=K)) : Prop :=
  (∃ p, objects m !! o = Some p ∧ sought m p) ∧
  match st.1 with
  | Loop.Start => True
  | Loop.Running c => live m c = false ∧ Backoff.valid st.2
  | Loop.AwaitNotify | Loop.Exited | Loop.Panicked => False
  | _ => Backoff.valid st.2
  end.

Definition pc_rank (pc : Loop.Pc (K:=K)) : nat :=
  match pc with
  | Loop.Start => 6
  | Loop.Top => 5
  | Loop.Running _ => 4
  | Loop.After => 3
  | Loop.Retry => 2
  | Loop.Sleeping => 1
  | _ => 0
  end.

(** A permit left over from an earlier call lets the loop go round once more. *)
Definition rank o m (st : Loop.State (K:=K)) : nat :=
  pc_rank st.1 + match objects m !! o with
                 | Some p => if notified p then 6 else 0
                 | None => 0
                 end.

Definition is_dial_end (i : Loop.Input (K:=K)) : bool :=
  match i with
  | Loop.DialOk _ | Loop.DialFailed => true
  | _ => false
  end.

Lemma run_connection_objects o p m :
  objects (Loop.run_connection o p m) = objects m ∧ closed (Loop.run_connection o p m) = closed m.
Proof.
  unfold Loop.run_connection, send_version, send_to. destruct (enroll_token p); [done|].
  by destruct (conn_of o m).
Qed.

Lemma sought_closed m m' p : closed m' = closed m → sought m p → sought m' p.
Proof.
  unfold sought, Dial.held_is_live, live. intros ->. done.
Qed.

Lemma not_live_held m p c :
  Dial.connection (slot p) = Some c → sought m p → live m c = false.
Proof. intros Hc (_ & _ & Hs). unfold Dial.held_is_live in Hs. by rewrite Hc in Hs. Qed.

Lemma take_permit_object o m :
  objects (Loop.take_permit o m) !! o = put_notified false <$> objects m !! o.
Proof. unfold Loop.take_permit. by rewrite objects_upd, decide_True. Qed.

(** Every step but a dial that succeeds goes on searching, and all but the end
    of a dial come closer to the next. *)
Lemma searching_step cfg o st i m st' m' :
  searching o m st → (∀ c, i ≠ Loop.DialOk c) → Loop.step cfg o st i m = Some (st', m') →
  searching o m' st' ∧ (is_dial_end i = false → rank o m' st' < rank o m st).
Proof.
  destruct st as [pc b]. intros [(p & Hp & Hso) Hpc] Hi. unfold Loop.step, conn_of, rank. rewrite Hp.
  simpl. simpl in Hpc. pose proof Hso as (Hr & Hd & _). rewrite Hr, Hd.
  assert (Hstay : ∀ pc0 b0, match pc0 with
      | Loop.Start => True
      | Loop.Running c => live m c = false ∧ Backoff.valid b0
      | Loop.AwaitNotify | Loop.Exited | Loop.Panicked => False
      | _ => Backoff.valid b0
      end → searching o m (pc0, b0)) by (intros; split; [by exists p|done]).
  destruct valid_starts as [Hvu Hvc].
  destruct pc as [| |c| | | | | | |], i as [| | | |c'|]; try done; simpl.
  - destruct (Dial.connection (slot p)); intros [= <- <-]; rewrite Hp; simpl; (split; [by apply Hstay|lia]).
  - destruct (Dial.connection (slot p)) as [c|] eqn:Hc; intros [= <- <-].
    + destruct (run_connection_objects o p m) as [Ho Hcl]. rewrite Ho, Hp. simpl.
      split; [|lia]. split; simpl.
      * exists p. rewrite Ho. split; [done|]. by eapply sought_closed.
      * unfold live. rewrite Hcl. split; [by eapply not_live_held|done].
    + rewrite Hp. simpl. split; [by apply Hstay|lia].
  - destruct Hpc as [-> Hv]. intros [= <- <-]. rewrite Hp. simpl. split; [by apply Hstay|lia].
  - intros [= <- <-]. rewrite Hp. simpl. split; [by apply Hstay|lia].
  - intros [= <- <-]. rewrite Hp. simpl. split; [by apply Hstay|lia].
  - destruct (notified p) eqn:Hn; [|done]. intros [= <- <-].
    rewrite take_permit_object, Hp. simpl. split; [|lia]. split; [|apply reset_valid].
    exists (put_notified false p). by rewrite take_permit_object, Hp.
  - intros [= <- <-]. rewrite Hp. simpl. split; [by apply Hstay|lia].
  - by destruct (Hi c').
  - rewrite failed_valid by done. intros [= <- <-]. split; [|done]. apply Hstay.
    eapply failed_keeps_valid; [exact Hpc|]. by apply failed_valid.
Qed.

Lemma searching_run cfg o inputs st m st' m' :
  searching o m st → Forall (λ i, ∀ c, i ≠ Loop.DialOk c) inputs →
  Loop.run cfg o st inputs m = Some (st', m') →
  searching o m' st' ∧
  (Forall (λ i, is_dial_end i = false) inputs → length inputs + rank o m' st' <= rank o m st).
Proof.
  revert st m. induction inputs as [|i inputs IH]; intros st m Hs Hi; simpl.
  - intros [= <- <-]. split; [done|]. lia.
  - apply Forall_cons in Hi as [Hi1 Hi2].
    destruct (Loop.step cfg o st i m) as [[st1 m1]|] eqn:Hstep; [|done]. simpl. intros Hrun.
    destruct (searching_step _ _ _ _ _ _ _ Hs Hi1 Hstep) as [Hs1 Hlt].
    destruct (IH st1 m1 Hs1 Hi2 Hrun) as [Hs2 Hlen]. split; [done|].
    intros [Hd1 Hd2]%Forall_cons. specialize (Hlt Hd1). specialize (Hlen Hd2). lia.
Qed.

Lemma rank_bound o m st : rank o m st <= 12.
Proof.
  unfold rank. assert (pc_rank st.1 <= 6) by (destruct st.1; simpl; lia).
  destruct (objects m !! o) as [p|]; [destruct (notified p)|]; lia.
Qed.

(** Something other tasks need not provide lets the loop go on. *)
Lemma searching_progress cfg o st m :
  searching o m st →
  ∃ i, i ∈ [Loop.Go; Loop.ConnFailed; Loop.TimerFired; Loop.DialFailed] ∧
       is_Some (Loop.step cfg o st i m).
Proof.
  destruct st as [pc b]. intros [(p & Hp & Hr & Hd & _) Hpc]. simpl in Hpc.
  exists (match pc with
          | Loop.Running _ => Loop.ConnFailed
          | Loop.Sleeping => Loop.TimerFired
          | Loop.Dialing => Loop.DialFailed
          | _ => Loop.Go
          end).
  split; [by destruct pc; repeat constructor|]. unfold Loop.step. rewrite Hp.
  destruct pc as [| |c| | | | | | |]; try done; simpl; rewrite ?Hr, ?Hd;
    try (destruct Hpc as [-> Hv]); rewrite ?failed_valid by done;
    repeat case_match; by eexists.
Qed.

(** A dial that succeeds is installed and run, whatever dead connection was
    held. *)
Lemma dial_succeeds cfg o p c b m :
  objects m !! o = Some p → sought m p → remote_id c = endpoint_id p → live m c = true →
  ∃ m', Loop.run cfg o (Loop.Dialing, b) [Loop.DialOk c; Loop.Go] m =
          Some ((Loop.Running c, Backoff.reset b), m') ∧
    conn_of o m' = Some c ∧ live m' c = true ∧
    (c, Protocol.ExposedPorts (Grants.ports_for (endpoint_id p) (Session.grants (session m))))
      ∈ sent m' ∧
    (∀ token, enroll_token p = Some token → (c, Protocol.enroll token) ∈ sent m').
Proof.
  intros Hp (_ & _ & Hdead) Hid Hlive. simpl. unfold Loop.step. rewrite Hp. simpl.
  rewrite decide_True by done. simpl. unfold Loop.dialed, install. rewrite Hp.
  unfold Dial.offer, Dial.resolve. rewrite Hdead. simpl.
  set (m0 := close_all _ m). set (m1 := upd o _ m0).
  assert (H0 : objects m0 = objects m ∧ session m0 = session m ∧ closed m0 = closed m).
  { unfold m0. unfold Dial.held_is_live, live in Hdead.
    destruct (Dial.connection (slot p)) as [old|]; simpl; [|done]. unfold close.
    by destruct (closed m !! cid old). }
  clearbody m0. destruct H0 as (Ho0 & Hs0 & Hcl0).
  set (p1 := put_slot (Dial.mkSlot (Some c) true) p).
  assert (Hp1 : objects m1 !! o = Some p1)
    by (unfold m1; by rewrite objects_upd, decide_True, Ho0, Hp by done).
  set (m2 := match enroll_token p with Some _ => _ | None => m1 end).
  assert (H2 : objects m2 = objects m1 ∧ session m2 = session m ∧ closed m2 = closed m ∧
               ∀ token, enroll_token p = Some token → (c, Protocol.enroll token) ∈ sent m2).
  { unfold m2. destruct (enroll_token p); simpl; rewrite ?Hs0, ?Hcl0; split_and!; try done.
    intros t [= ->]. set_solver. }
  clearbody m2. destruct H2 as (Ho2 & Hs2 & Hcl2 & Htok).
  assert (Hp2 : objects m2 !! o = Some p1) by (by rewrite Ho2).
  rewrite (announce_to_sent o m2 p1) by done. simpl. rewrite Hp2. simpl.
  unfold conn_of at 1. simpl. rewrite Hp2. simpl.
  eexists. split; [reflexivity|]. unfold Loop.run_connection. simpl.
  assert (Hl2 : live m2 c = true) by (unfold live in *; by rewrite Hcl2).
  rewrite Hs2. destruct (enroll_token p); simpl.
  - unfold conn_of. simpl. rewrite Hp2. split_and!; [done|done|set_solver|].
    intros t Ht. specialize (Htok t Ht). set_solver.
  - unfold send_version, send_to, conn_of. simpl. rewrite Hp2. simpl.
    split_and!; [by rewrite Hp2|done|set_solver|done].
Qed.

End reconnect.

(** ** Properties *)
Section reconnect_properties.
Context {K : Type} `{EKL : EndpointKeyLaws K} `{DML : DashMapLaws}.
Context `{!JsonCodec Pins.Pin} `{!JsonCodec Surface.SurfaceRecord}.

(** C10: a peer we dial is reached once it can be.  While its loop is
    searching (the peer known, dialed, without a live connection), the loop
    never stands still: it can always go on without anything from other tasks,
    it comes to the end of its next dial after at most twelve steps, and a
    failed dial leaves it searching, so it dials again and again.  When a dial
    succeeds, the next step runs the new connection, held and open, on which the
    peer has been sent the ports granted to it, and our code if it gave us one. *)
Theorem redials_until_reached (cfg : Config K) (m : PeerManager K) (o : ObjId)
    (st : Loop.State (K:=K)) :
  searching o m st →
  (∃ i, i ∈ [Loop.Go; Loop.ConnFailed; Loop.TimerFired; Loop.DialFailed] ∧
        is_Some (Loop.step cfg o st i m)) ∧
  (∀ inputs st' m', Forall (λ i, ∀ c, i ≠ Loop.DialOk c) inputs →
     Loop.run cfg o st inputs m = Some (st', m') →
     searching o m' st' ∧
     (Forall (λ i, is_dial_end i = false) inputs → length inputs <= 12)) ∧
  (∀ p c, st.1 = Loop.Dialing → objects m !! o = Some p → remote_id c = endpoint_id p →
     live m c = true →
     ∃ m', Loop.run cfg o st [Loop.DialOk c; Loop.Go] m =
             Some ((Loop.Running c, Backoff.reset st.2), m') ∧
       conn_of o m' = Some c ∧ live m' c = true ∧
       (c, Protocol.ExposedPorts (Grants.ports_for (endpoint_id p) (Session.grants (session m))))
         ∈ sent m' ∧
       (∀ token, enroll_token p = Some token → (c, Protocol.enroll token) ∈ sent m')).
Proof.
  intros Hs. split_and!.
  - by apply searching_progress.
  - intros inputs st' m' Hi Hrun.
    destruct (searching_run _ _ _ _ _ _ _ Hs Hi Hrun) as [Hs' Hlen]. split; [done|].
    intros Hd. specialize (Hlen Hd). pose proof (rank_bound o m st). lia.
  - intros p c Hpc Hp Hid Hlive. destruct st as [pc b]. simpl in Hpc. subst pc.
    destruct Hs as [(p' & Hp' & Hso) _]. rewrite Hp in Hp'. injection Hp' as <-.
    by apply dial_succeeds.
Qed.

End reconnect_properties.

(** Peer 7, accepted at the start and not yet reached: two dials fail and the
    third is run. *)
Lemma redials_until_reached_witness :
  ∃ m', Loop.run Toy.config 0%N (Loop.Dialing, Backoff.unreached)
          [Loop.DialFailed; Loop.Go; Loop.TimerFired; Loop.DialFailed; Loop.Go; Loop.TimerFired]
          Toy.start = Some ((Loop.Dialing, Backoff.mkBackoff (Backoff.from_secs 2)), m') ∧
        ∃ m'', Loop.run Toy.config 0%N (Loop.Dialing, Backoff.mkBackoff (Backoff.from_secs 2))
                 [Loop.DialOk (mkConn 100%N 7%N); Loop.Go] m' =
                 Some ((Loop.Running (mkConn 100%N 7%N), Backoff.connected), m'').
Proof.
  assert (Hs : searching 0%N Toy.start (Loop.Dialing, Backoff.unreached)).
  { split; [|apply valid_starts]. eexists. split; [by vm_compute|]. by vm_compute. }
  destruct (redials_until_reached Toy.config Toy.start 0%N _ Hs) as (_ & Hrun & _).
  set (inputs := [Loop.DialFailed; Loop.Go; Loop.TimerFired; Loop.DialFailed; Loop.Go;
                  Loop.TimerFired] : list (Loop.Input (K:=N))) in *.
  exists Toy.start.
  assert (Hr : Loop.run Toy.config 0%N (Loop.Dialing, Backoff.unreached) inputs Toy.start =
               Some ((Loop.Dialing, Backoff.mkBackoff (Backoff.from_secs 2)), Toy.start))
    by (by vm_compute).
  split; [exact Hr|].
  destruct (Hrun inputs _ _ ltac:(repeat constructor; discriminate) Hr) as [Hs' _].
  destruct (redials_until_reached Toy.config Toy.start 0%N _ Hs') as (_ & _ & Hok).
  assert (Hp : ∃ p, objects Toy.start !! 0%N = Some p ∧ endpoint_id p = 7%N)
    by (eexists; split; [by vm_compute|]; by vm_compute).
  destruct Hp as (p & Hp & Hid).
  destruct (Hok p (mkConn 100%N 7%N) eq_refl Hp (eq_sym Hid) ltac:(by vm_compute))
    as (m'' & Hm'' & _).
  exists m''. exact Hm''.
Defined.
