(* ===== verification/Names.v ===== *)
(** * Names resolve to surfaces

    The loopback resolver over the peer manager: which address a name is
    answered with in a running daemon, and which names are never answered. *)

From S2P Require Import Prelude RustStr Text Keys Grants Backoff Dial Invite Store Enroll Protocol Session Surface Resolver Netstack Tunnel Peer PeerFacts PeerLoop Daemon Shell.
Import Resolver.

(** ** Lower case *)
Section lower_lemmas.

Definition lower (s : string) : Prop := to_ascii_lowercase s = s.

#[export] Instance lower_dec s : Decision (lower s).
Proof. unfold lower. apply _. Defined.

Lemma lower_lower s : lower (to_ascii_lowercase s).
Proof.
  unfold lower. induction s as [|c s IH]; simpl; [done|]. rewrite IH. f_equal. f_equal.
  pose proof (byte_of_range c) as Hc. unfold u8_range in Hc.
  rewrite byte_of_char_of.
  - unfold ascii_lower. repeat case_decide; lia.
  - unfold u8_range, ascii_lower. case_decide; lia.
Qed.

Lemma lower_app s t : lower s → lower t → lower (s +:+ t).
Proof. unfold lower. intros Hs Ht. by rewrite to_ascii_lowercase_app, Hs, Ht. Qed.

Lemma lowercase_length s : String.length (to_ascii_lowercase s) = String.length s.
Proof. induction s; simpl; congruence. Qed.

Lemma lowercase_no_dot s :
  Forall_str (λ c, c ≠ "."%char) s → Forall_str (λ c, c ≠ "."%char) (to_ascii_lowercase s).
Proof.
  induction s as [|c s IH]; simpl; [done|]. intros [Hc Hs]. split; [|by apply IH].
  intros Heq%(f_equal byte_of). pose proof (byte_of_range c) as Hr. unfold u8_range in Hr.
  change (byte_of ".") with 46%Z in Heq. unfold ascii_lower in Heq.
  rewrite byte_of_char_of in Heq by (unfold u8_range; case_decide; lia).
  case_decide; [lia|]. apply Hc. rewrite <- (char_of_byte_of c), Heq. done.
Qed.

Lemma lower_prefix s t : lower (s +:+ t) → lower s.
Proof.
  unfold lower. rewrite to_ascii_lowercase_app. revert t.
  induction s as [|c s IH]; simpl; intros t Heq; [done|]. injection Heq as Hc Heq.
  rewrite Hc. f_equal. by eapply IH.
Qed.

Lemma lower_join ls : Forall lower ls → lower (join "." ls).
Proof.
  induction 1 as [|l ls Hl Hls IH]; [done|]. destruct ls as [|l' ls]; [done|].
  change (join "." (l :: l' :: ls)) with (l +:+ "." +:+ join "." (l' :: ls)).
  apply lower_app; [done|]. by apply lower_app.
Qed.

Lemma labels_loop_lower fuel buf i acc ls j :
  Forall lower acc → labels_loop fuel buf i acc = Some (Some (ls, j)) → Forall lower ls.
Proof.
  revert i acc. induction fuel as [|fuel IH]; intros i acc Hacc; [done|]. simpl.
  destruct (buf !! i) as [len|]; [|done]. destruct (len =? 0)%Z; [by intros [= <- _]|].
  destruct (Z.land len 192 =? 0)%Z; simpl; [|done].
  destruct (slice _ _ _) as [l|]; [|done]. apply IH. apply Forall_app. split; [done|].
  by apply Forall_singleton, lower_lower.
Qed.

(** Whatever is asked, the name the resolver looks up is in lower case. *)
Lemma question_lower query q l :
  parse_question query = Some q → host_label (name q) = Some l → lower l.
Proof.
  intros Hq Hl. apply host_label_Some in Hl as (Hn & _ & _).
  unfold parse_question in Hq. case_decide; [done|].
  destruct (query !! 4), (query !! 5); try done. case_match; [done|].
  destruct (labels_loop _ _ _ _) as [[[ls i]|]|] eqn:Hll; try done.
  destruct (query !! i), (query !! S i); try done. case_decide; [done|].
  injection Hq as <-. simpl in Hn. apply labels_loop_lower in Hll; [|by constructor].
  apply lower_join in Hll. rewrite Hn in Hll. by eapply lower_prefix.
Qed.

Definition to_v4 (ip : Surface.IpAddr) : option Ipv4Addr :=
  match ip with
  | Surface.V4 a b c d => Some (a, b, c, d)
  | Surface.V6 _ => None
  end.

(** The two resolvers are one function of what they look names up in. *)
Lemma handle_query_reply query f : handle_query query f = reply query (λ l, f l ≫= to_v4).
Proof.
  unfold handle_query, reply. destruct (parse_question query) as [q|]; [|done].
  by do 2 f_equal.
Qed.

Lemma reply_lower query f g :
  (∀ l, lower l → f l = g l) → reply query f = reply query g.
Proof.
  intros Hfg. unfold reply. destruct (parse_question query) as [q|] eqn:Hq; [|done].
  do 2 f_equal. case_match; [|done]. destruct (host_label _) as [l|] eqn:Hl; [|done].
  apply Hfg. by eapply question_lower.
Qed.

(** The answer record of a reply, if any. *)
Definition answers (query : bytes) (reply : option (option bytes)) (ip : Ipv4Addr) : Prop :=
  ∃ q out, parse_question query = Some q ∧ reply = Some (Some out) ∧
           drop (qend q) out = [192; 12; 0; 1; 0; 1; 0; 0; 0; 30; 0; 4]%Z ++ octets ip.

Lemma answers_reply query f ip q :
  parse_question query = Some q →
  answers query (reply query f) ip ↔ answer_of q f = Some ip.
Proof.
  intros Hq. rewrite (reply_unfold _ _ _ Hq).
  destruct (build_reply_Some _ _ (answer_of q f) Hq) as (fl & out & Hb & _ & _).
  pose proof (reply_answer _ _ _ _ Hq Hb) as Hans. unfold answers. rewrite Hq, Hb. split.
  - intros (q' & out' & [= <-] & [= <-] & Hd). rewrite Hans in Hd. clear Hans.
    destruct (answer_of _ _) as [[[[a b] c] d]|], ip as [[[a' b'] c'] d'];
      simpl in Hd; by simplify_eq.
  - intros Ha. exists q, out. by rewrite Hans, Ha.
Qed.

Lemma answer_of_Some q f ip :
  answer_of q f = Some ip ↔
  (qtype q = TYPE_A ∧ ∃ l, host_label (name q) = Some l ∧ f l = Some ip).
Proof.
  unfold answer_of. destruct (Z.eqb_spec (qtype q) TYPE_A).
  - rewrite bind_Some. naive_solver.
  - naive_solver.
Qed.

End lower_lemmas.

(** ** Properties *)
Section name_properties.
Context {K : Type} `{EKL : EndpointKeyLaws K} `{DML : DashMapLaws}.
Context `{!JsonCodec Pins.Pin} `{!JsonCodec Surface.SurfaceRecord}.
Import Peers.
Implicit Types (m : PeerManager K) (k : K) (o : ObjId).

(** A known peer's surface of that name. *)
Definition named m k (n : string) (s : Surface.Surface) : Prop :=
  ∃ o, peers m !! k = Some o ∧ surface_of o m = Some s ∧ Surface.name s = Some n.

Lemma resolve_name_cases cfg n m :
  match resolve_name cfg n m with
  | Some ip => (self_name cfg = Some n ∧ ip = host cfg) ∨
               (self_name cfg ≠ Some n ∧ ∃ k s, named m k n s ∧ ip = Surface.ip s)
  | None => self_name cfg ≠ Some n ∧ ∀ k s, ¬ named m k n s
  end.
Proof.
  unfold resolve_name. destruct (decide (self_name cfg = Some n)) as [Hself|Hself]; [by left|].
  set (f := λ e : K * ObjId, _).
  destruct (head (omap f (dash_iter (peers m)))) as [ip|] eqn:Hh.
  - right. split; [done|].
    assert (Hin : ip ∈ omap f (dash_iter (peers m))).
    { destruct (omap _ _) as [|x l]; [done|]. injection Hh as ->. by left. }
    apply list_elem_of_omap in Hin as ([k o] & Hin & Hf).
    rewrite dash_iter_perm in Hin. apply elem_of_map_to_list in Hin.
    unfold f in Hf. simpl in Hf. destruct (surface_of o m) as [s|] eqn:Hs; [|done].
    simpl in Hf. case_decide as Hn; [|done]. injection Hf as <-. exists k, s. split; [|done].
    by exists o.
  - split; [done|]. intros k s (o & Ho & Hs & Hn).
    assert (Hin : Surface.ip s ∈ omap f (dash_iter (peers m))).
    { apply list_elem_of_omap. exists (k, o). split.
      - rewrite dash_iter_perm. by apply elem_of_map_to_list.
      - unfold f. simpl. rewrite Hs. simpl. by rewrite decide_True. }
    destruct (omap _ _); [|done]. by apply elem_of_nil in Hin.
Qed.

(** C33: in a running daemon a peer's ports answer under its name.  In every
    reachable state, an A query for [l.pai-sho] that is answered at all gets
    the address of the daemon's own services, if [l] in lower case is its own
    name, and otherwise the address of the surface an admitted peer has under
    that name; and when the own name, or the surface of just one peer, has the
    name and an IPv4 address, the query is answered with it. *)
Theorem names_resolve_to_surfaces (cfg : Config K) (parse_ip : string → option IpAddr)
    (m : PeerManager K) id flags l qc :
  Shell.reachable cfg parse_ip m → label_ok l → Forall_str (λ c, c ≠ "."%char) l →
  let query := encode_query id flags [l; "pai-sho"] TYPE_A qc in
  let answered a := answers query (handle_query query (λ n, resolve_name cfg n m)) a in
  let n := to_ascii_lowercase l in
  (∀ a, answered a →
     (self_name cfg = Some n ∧ to_v4 (host cfg) = Some a) ∨
     (self_name cfg ≠ Some n ∧ ∃ k s, named m k n s ∧ to_v4 (Surface.ip s) = Some a ∧
        is_Some (Session.peers (session m) !! k))) ∧
  (∀ a, self_name cfg = Some n → to_v4 (host cfg) = Some a → answered a) ∧
  (∀ a k s, self_name cfg ≠ Some n → named m k n s → (∀ k' s', named m k' n s' → k' = k) →
     to_v4 (Surface.ip s) = Some a → answered a).
Proof.
  intros Hreach Hl Hdot query answered n. apply agree_reachable in Hreach as [Hk _ _].
  assert (Hls : Forall label_ok [l; "pai-sho"]).
  { constructor; [done|]. constructor; [|done]. split; [simpl; lia|]. decide_now. }
  pose proof (parse_encoded_query id flags [l; "pai-sho"] TYPE_A qc Hls) as Hq.
  specialize (Hq ltac:(unfold u16_range, TYPE_A; lia)). fold query in Hq.
  assert (Hhl : host_label (join "." (to_ascii_lowercase <$> [l; "pai-sho"])) = Some n).
  { apply host_label_Some. split; [done|]. split; [|by apply lowercase_no_dot].
    intros Hn. destruct Hl as [Hlen _]. pose proof (lowercase_length l) as Hll.
    fold n in Hll. rewrite Hn in Hll. simpl in Hll. lia. }
  assert (Hans : ∀ a, answered a ↔ resolve_name cfg n m ≫= to_v4 = Some a).
  { intros a. unfold answered. rewrite handle_query_reply, (answers_reply _ _ _ _ Hq).
    rewrite answer_of_Some. cbn [qtype name]. rewrite Hhl. naive_solver. }
  pose proof (resolve_name_cases cfg n m) as Hc. split_and!.
  - intros a Ha%Hans. destruct (resolve_name cfg n m) as [ip|]; [|done]. simpl in Ha.
    destruct Hc as [[Hs ->]|(Hs & k & s & Hn & ->)]; [by left|]. right. split; [done|].
    exists k, s. split_and!; [done|done|]. destruct Hn as (o & Ho & _). apply Hk. by eexists.
  - intros a Hs Ha. apply Hans. destruct (resolve_name cfg n m) as [ip|]; [|by destruct Hc].
    destruct Hc as [[_ ->]|[? _]]; [done|congruence].
  - intros a k s Hs Hn Huniq Ha. apply Hans. destruct (resolve_name cfg n m) as [ip|].
    + destruct Hc as [[? _]|(_ & k' & s' & Hn' & ->)]; [congruence|]. simpl.
      assert (k' = k) as -> by (by eapply Huniq). destruct Hn as (o & Ho & Hso & _).
      destruct Hn' as (o' & Ho' & Hso' & _). congruence.
    + destruct Hc as [_ Hc]. by destruct (Hc k s).
Qed.

(** A name with a capital letter never resolves.  The resolver
    lowercases what it is asked and compares with the names as they were given,
    so whatever the query, no answer is the address of surfaces whose names are
    not in lower case, unless it is the host's. *)
Theorem capital_names_never_resolve (cfg : Config K) (m : PeerManager K) query a :
  (∀ n, self_name cfg = Some n → ¬ lower n ∨ to_v4 (host cfg) ≠ Some a) →
  (∀ k n s, named m k n s → to_v4 (Surface.ip s) = Some a → ¬ lower n) →
  ¬ answers query (handle_query query (λ n, resolve_name cfg n m)) a.
Proof.
  intros Hself Hnamed Ha. pose proof Ha as (q & _ & Hq & _).
  rewrite handle_query_reply, (answers_reply _ _ _ _ Hq), answer_of_Some in Ha.
  destruct Ha as (_ & l & Hl & Hr). pose proof (question_lower _ _ _ Hq Hl) as Hlow.
  pose proof (resolve_name_cases cfg l m) as Hc.
  destruct (resolve_name cfg l m) as [ip|]; [|done]. simpl in Hr.
  destruct Hc as [[Hs ->]|(_ & k & s & Hn & ->)].
  - destruct (Hself l Hs); done.
  - by destruct (Hnamed k l s Hn Hr).
Qed.

End name_properties.

(** ** Concrete inputs: peer 7 under two names *)
Section name_witnesses.
Import Peers Shell.

Definition named_state (n : string) : PeerManager N :=
  foldl (step Toy.config Toy.parse_ip) Toy.start
    [EvRequest (Protocol.ReqProject "7" None (Some n)) [] 0%Z].

Lemma named_state_only n k n' s :
  named (named_state n) k n' s → k = 7%N ∧ n' = n ∧ to_v4 (Surface.ip s) = Some (127, 0, 1, 2)%Z.
Proof.
  intros (o & Ho & Hs & Hn).
  assert (Hp : peers (named_state n) = {[ 7%N := 0%N ]}) by (by vm_compute).
  rewrite Hp in Ho. apply lookup_singleton_Some in Ho as [<- <-]. split; [done|].
  assert (Hso : surface_of 0%N (named_state n) =
                Some (Surface.mkSurface (Surface.V4 127 0 1 2) (Some n))) by (by vm_compute).
  rewrite Hso in Hs. injection Hs as <-. simpl in Hn. by injection Hn as ->.
Qed.

(** Asked for [Desk.pai-sho], it answers with the surface named [desk]. *)
Lemma names_resolve_to_surfaces_witness :
  let query := encode_query 7 (1, 0)%Z ["Desk"; "pai-sho"] TYPE_A 1 in
  answers query (handle_query query (λ n, resolve_name Toy.config n (named_state "desk")))
    (127, 0, 1, 2)%Z.
Proof.
  intros query.
  destruct (names_resolve_to_surfaces Toy.config Toy.parse_ip (named_state "desk") 7 (1, 0)%Z
    "Desk" 1) as (_ & _ & Hpeer); [apply Toy.start_reachable|split; [simpl; lia|decide_now]|decide_now|].
  apply (Hpeer _ 7%N (Surface.mkSurface (Surface.V4 127 0 1 2) (Some "desk"))).
  - by vm_compute.
  - exists 0%N. split_and!; by vm_compute.
  - intros k' s' Hn. by destruct (named_state_only _ _ _ _ Hn).
  - done.
Defined.

(** The surface named [Desk] is not reached, by that name or any other. *)
Lemma capital_names_never_resolve_witness :
  let query := encode_query 7 (1, 0)%Z ["Desk"; "pai-sho"] TYPE_A 1 in
  ¬ answers query (handle_query query (λ n, resolve_name Toy.config n (named_state "Desk")))
      (127, 0, 1, 2)%Z.
Proof.
  intros query.
  apply (capital_names_never_resolve Toy.config (named_state "Desk") query (127, 0, 1, 2)%Z).
  - intros n _. right. by vm_compute.
  - intros k n s Hn _. destruct (named_state_only _ _ _ _ Hn) as (_ & -> & _). by vm_compute.
Defined.

End name_witnesses.
