(* ===== verification/Durable.v ===== *)
(** * What outlives the process

    Two record files outlive a daemon: the pins, which say whom it knows, and
    the surfaces, which say where their ports were.  [Durable] says what each
    event of a run writes to them; the lemmas follow both files along a run, and
    the properties say what the next start makes of them: whom it knows and
    under which names, and which projections it restores. *)

From S2P Require Import Prelude RustStr Keys Grants Dial Invite Store Enroll Protocol Session Surface Resolver Netstack Tunnel Peer PeerFacts PeerLoop Daemon Shell Bindings BindingProps DaemonProps Addresses Calls.

Module Durable.
Import Peers Shell Calls.

Section durable.
Context {K : Type} `{!EndpointKey K} `{!DashMap}.
Context `{!JsonCodec Pins.Pin} `{!JsonCodec Surface.SurfaceRecord}.

(** The record a file holds. *)
Definition holds {R} `{!JsonCodec R} (f : Store.File) (r : R) : Prop :=
  ∃ l, Store.load f = Ok l ∧ r ∈ l.

(** A record file as the daemon keeps it: it can be read and written, has one
    record per key, and spells each key the way keys print. *)
Definition kept {R} `{!JsonCodec R} (rkey : R → string) (f : Store.File) : Prop :=
  Store.working f ∧
  ∃ l, Store.load f = Ok l ∧ NoDup (rkey <$> l) ∧
       Forall (λ r, ∃ k : K, rkey r = to_string k) l.

(** What an event writes to the pins. *)
Definition pin_ops (m : PeerManager K) (e : Event (K:=K)) : list (Store.op (R:=Pins.Pin)) :=
  match e with
  | EvRequest (Protocol.ReqInvite (Some key) name _) _ _ =>
      match parse_key (K:=K) key with
      | Some _ => [Store.OpAdd (Pins.mkPin key name)]
      | None => []
      end
  | EvRequest (Protocol.ReqForget peer) _ _ =>
      match resolve_peer peer m with
      | Some k => [Store.OpRemove (to_string k)]
      | None => []
      end
  | _ =>
      match claims_on m e with
      | Some (k, cl) => [Store.OpAdd (Pins.mkPin (to_string k) (Tokens.claimed_name cl))]
      | None => []
      end
  end.

(** The event pins [k] under [name]: an invitation addressed to its key, or its
    good claim. *)
Definition pins_on (k : K) (name : option string) (m : PeerManager K) (e : Event (K:=K)) : Prop :=
  match e with
  | EvRequest (Protocol.ReqInvite (Some key) n _) _ _ => parse_key key = Some k ∧ n = name
  | _ => ∃ cl, claims_on m e = Some (k, cl) ∧ Tokens.claimed_name cl = name
  end.

(** The event pins [k] anew, or forgets it. *)
Definition repins_on (k : K) (m : PeerManager K) (e : Event (K:=K)) : Prop :=
  (∃ name, pins_on k name m e) ∨ forgets_on k m e.

(** A key in an invitation is typed the way keys print. *)
Definition spelled (e : Event (K:=K)) : Prop :=
  match e with
  | EvRequest (Protocol.ReqInvite (Some key) _ _) _ _ =>
      ∀ k : K, parse_key key = Some k → key = to_string k
  | _ => True
  end.

(** A port announcement on an object that is not, or no longer, a known peer's. *)
Definition late_on (m : PeerManager K) (e : Event (K:=K)) : Prop :=
  match e with
  | EvUni o (Some (Protocol.ExposedPorts _)) => o ∉ (map_to_list (peers m)).*2
  | _ => False
  end.

(** The record of a surface. *)
Definition record_for (k : K) (s : Surface) : Surface.SurfaceRecord :=
  Surface.mkSurfaceRecord (to_string k) (Surface.ip s) (Surface.name s).

End durable.
End Durable.

Import Peers Shell Calls Durable.

(** ** Record files *)
Section file_lemmas.
Context {K : Type} `{EKL : EndpointKeyLaws K}.
Context {R : Type} `{JsonCodecLaws R} (rkey : R → string).

Local Abbreviation kept := (kept (K:=K) rkey).
Local Abbreviation spelled_key := (λ r, ∃ k : K, rkey r = to_string k).

Lemma retain_spelled key l :
  Forall spelled_key l → Forall spelled_key (Store.retain_other rkey key l).
Proof. rewrite !Forall_forall. intros Hl r [Hr _]%elem_of_retain. by apply Hl. Qed.

Lemma kept_add f r (k : K) :
  kept f → rkey r = to_string k →
  let f' := (Store.add rkey r f).1 in
  kept f' ∧ ∀ r', holds f' r' ↔ r' = r ∨ (holds f r' ∧ rkey r' ≠ rkey r).
Proof.
  intros (Hw & l & Hl & Hnd & Hsp) Hr. unfold Store.add. rewrite Hl.
  destruct (load_save (Store.retain_other rkey (rkey r) l ++ [r]) f Hw) as (f' & -> & Hw' & Hl').
  cbn [fst].
  split.
  - split; [done|]. eexists. split; [exact Hl'|]. split.
    + rewrite fmap_app. apply NoDup_app.
      split_and!; [by apply NoDup_retain| |apply NoDup_singleton].
      intros key (r' & -> & [_ Hne]%elem_of_retain)%list_elem_of_fmap.
      csimpl. by rewrite list_elem_of_singleton.
    + apply Forall_app. split; [|by apply Forall_singleton; exists k].
      by apply retain_spelled.
  - intros r'. unfold holds. split.
    + intros (l' & Hl'' & Hin). rewrite Hl' in Hl''. injection Hl'' as <-.
      apply elem_of_app in Hin as [[Hin Hne]%elem_of_retain|Hin%list_elem_of_singleton]; [|by left].
      right. split; [by exists l|done].
    + intros Hr'. eexists. split; [exact Hl'|]. rewrite elem_of_app, elem_of_retain.
      destruct Hr' as [->|[(l0 & Hl0 & Hin) Hne]]; [right; by left|left].
      rewrite Hl in Hl0. by injection Hl0 as <-.
Qed.

Lemma kept_remove f key :
  kept f →
  let f' := (Store.remove rkey key f).1 in
  kept f' ∧ ∀ r', holds f' r' ↔ holds f r' ∧ rkey r' ≠ key.
Proof.
  intros (Hw & l & Hl & Hnd & Hsp). unfold Store.remove. rewrite Hl.
  destruct (load_save (Store.retain_other rkey key l) f Hw) as (f' & -> & Hw' & Hl').
  cbn [fst].
  split.
  - split; [done|]. eexists. split; [exact Hl'|]. split; [by apply NoDup_retain|].
    by apply retain_spelled.
  - intros r'. unfold holds. split.
    + intros (l' & Hl'' & Hin). rewrite Hl' in Hl''. injection Hl'' as <-.
      apply elem_of_retain in Hin as [Hin Hne]. split; [by exists l|done].
    + intros [(l0 & Hl0 & Hin) Hne]. eexists. split; [exact Hl'|]. apply elem_of_retain.
      rewrite Hl in Hl0. by injection Hl0 as <-.
Qed.

(** One record per key. *)
Lemma holds_inj f r r' : kept f → holds f r → holds f r' → rkey r = rkey r' → r = r'.
Proof.
  intros (_ & l & Hl & Hnd & _) (l1 & Hl1 & Hin1) (l2 & Hl2 & Hin2) Heq.
  rewrite Hl in Hl1, Hl2. injection Hl1 as <-. injection Hl2 as <-.
  apply list_elem_of_lookup in Hin1 as [i Hi], Hin2 as [j Hj].
  assert (i = j) as ->; [|congruence]. eapply (NoDup_lookup (rkey <$> l)); [done|..];
    rewrite list_lookup_fmap, ?Hi, ?Hj; simpl; by rewrite ?Heq.
Qed.

Lemma holds_spelled f r : kept f → holds f r → ∃ k : K, rkey r = to_string k.
Proof.
  intros (_ & l & Hl & _ & Hsp) (l1 & Hl1 & Hin). rewrite Hl in Hl1. injection Hl1 as <-.
  by rewrite Forall_forall in Hsp; apply Hsp.
Qed.

(** The keys of the records are the keys they parse to. *)
Lemma kept_NoDup_parse f l :
  kept f → Store.load f = Ok l → NoDup ((λ r, parse_key (K:=K) (rkey r)) <$> l).
Proof.
  intros (_ & l' & Hl' & Hnd & Hsp) Hl. rewrite Hl in Hl'. injection Hl' as <-.
  clear Hl. induction l as [|r l IH]; csimpl; [constructor|].
  apply NoDup_cons in Hnd as [Hr Hnd]. apply Forall_cons in Hsp as [[k Hk] Hsp].
  apply NoDup_cons. split; [|auto]. rewrite Hk, parse_to_string.
  intros (r' & Heq & Hin)%list_elem_of_fmap. rewrite Forall_forall in Hsp.
  destruct (Hsp r' Hin) as [k' Hk']. rewrite Hk', parse_to_string in Heq. injection Heq as <-.
  apply Hr. rewrite Hk, <- Hk'. by apply list_elem_of_fmap_2.
Qed.

End file_lemmas.

(** ** What each operation writes *)
Section write_lemmas.
Context {K : Type} `{EKL : EndpointKeyLaws K} `{DML : DashMapLaws}.
Context `{!JsonCodec Pins.Pin} `{!JsonCodec Surface.SurfaceRecord}.
Implicit Types (m : PeerManager K) (p : Peer K) (o : ObjId) (k : K) (c : Conn K).

(** Neither file is written. *)
Definition same_files m m' : Prop := pins m' = pins m ∧ surfaces m' = surfaces m.

#[export] Instance same_files_preorder : PreOrder same_files.
Proof. split; [done|]. intros m1 m2 m3 [] []. split; congruence. Qed.

Lemma same_files_foldl {A} (f : PeerManager K → A → PeerManager K) (l : list A) m :
  (∀ m x, same_files m (f m x)) → same_files m (foldl f m l).
Proof.
  intros Hf. revert m. induction l as [|x l IH]; intros m; simpl; [done|].
  etrans; [apply Hf|apply IH].
Qed.

Lemma same_files_close c reason m : same_files m (close c reason m).
Proof. unfold close. by case_match. Qed.

Lemma same_files_send_to o msg m : same_files m (send_to o msg m).
Proof. unfold send_to. by case_match. Qed.

Lemma same_files_announce_to o m : same_files m (announce_to o m).
Proof. unfold announce_to. repeat case_match; try done. apply same_files_send_to. Qed.

Lemma same_files_broadcast m : same_files m (broadcast_grants m).
Proof. apply same_files_foldl. intros. apply same_files_announce_to. Qed.

Lemma same_files_claim cfg ip name m : same_files m (claim_addr cfg ip name m).1.
Proof. unfold claim_addr. by repeat case_match. Qed.

Lemma same_files_unclaim cfg ip m : same_files m (unclaim_addr cfg ip m).1.
Proof. unfold unclaim_addr. by repeat case_match. Qed.

Lemma same_files_release o port m : same_files m (release_binding o port m).
Proof. unfold release_binding. by repeat case_match. Qed.

Lemma same_files_bind_missing cfg o ip ports m : same_files m (bind_missing cfg o ip ports m).
Proof.
  apply same_files_foldl. intros m' port. case_match; [done|]. unfold bind_one.
  by repeat case_match.
Qed.

Lemma same_files_accept_failed o port m : same_files m (accept_failed o port m).
Proof. unfold accept_failed. by repeat case_match. Qed.

Lemma same_files_clear_surface o m : same_files m (clear_surface o m).
Proof. apply (same_files_foldl _ _ m). intros. apply same_files_release. Qed.

Lemma same_files_install cfg o c by_us m : same_files m (install cfg o c by_us m).1.
Proof.
  unfold install. destruct (objects m !! o); [|done]. destruct (Dial.offer _ _ _ _ _ _) as [s cs].
  simpl. etrans; [apply (same_files_foldl (λ m '(c, r), close c r m) cs)|done].
  intros ? []. apply same_files_close.
Qed.

Lemma same_files_dialed cfg o p c m : same_files m (Loop.dialed cfg o p c m).
Proof.
  unfold Loop.dialed. pose proof (same_files_install cfg o c true m) as H1.
  destruct (install cfg o c true m) as [m1 []]; simpl in H1; [|done].
  etrans; [exact H1|]. etrans; [|apply same_files_announce_to]. by destruct (enroll_token p).
Qed.

Lemma same_files_add_peer k name code m : same_files m (add_peer k name code m).1.
Proof. unfold add_peer. by case_match. Qed.

Lemma same_files_add_pinned key name m : same_files m (add_pinned key name m).1.
Proof. unfold add_pinned. by repeat case_match. Qed.

Lemma same_files_evict_object cfg o reason m : same_files m (evict_object cfg o reason m).
Proof.
  unfold evict_object. set (m3 := match objects _ !! o with Some _ => _ | None => _ end).
  assert (H3 : same_files m m3).
  { unfold m3. repeat case_match; try done. etrans; [|apply same_files_close]. done. }
  clearbody m3. set (m4 := release_all _ _ m3).
  assert (H4 : same_files m m4).
  { etrans; [exact H3|]. apply same_files_foldl. intros. apply same_files_release. }
  clearbody m4. case_match; [|done]. etrans; [exact H4|].
  etrans; [|apply same_files_unclaim]. done.
Qed.

Lemma pins_surface_ip cfg o ports m : pins (surface_ip cfg o ports m).1 = pins m.
Proof.
  unfold surface_ip. destruct (objects m !! o) as [p|]; [|done].
  destruct (surface p); [done|]. destruct ports; [done|].
  destruct (Surface.allocate _ _) as [ip|]; [|done].
  set (name := Some _). destruct (same_files_claim cfg ip name m) as [Hp _].
  destruct (claim_addr _ _ _ _) as [m1 [[]|]]; [|done].
  by destruct (Surface.add _ _ _ _).
Qed.

Lemma pins_update_ports cfg o ports m : pins (update_peer_ports cfg o ports m) = pins m.
Proof.
  unfold update_peer_ports. set (m1 := foldl _ m _).
  assert (Hp1 : pins m1 = pins m).
  { apply same_files_foldl. intros. case_decide; [done|]. apply same_files_release. }
  pose proof (pins_surface_ip cfg o ports m1) as Hp2.
  destruct (surface_ip cfg o ports m1) as [m2 [ip|]]; simpl in *; [|congruence].
  destruct (same_files_bind_missing cfg o ip ports m2) as [-> _]. congruence.
Qed.

Lemma pins_project cfg ref ip name m : pins (project cfg ref ip name m).1 = pins m.
Proof.
  unfold project. destruct (resolve_peer ref m) as [id|]; [|done].
  destruct (peers m !! id) as [o|]; [|done].
  set (m1 := match surface_of o m with Some _ => _ | None => m end).
  assert (Hp1 : pins m1 = pins m).
  { unfold m1. case_match; [|done].
    destruct (same_files_unclaim cfg (Surface.ip s) (clear_surface o m)) as [-> _].
    by destruct (same_files_clear_surface o m) as [-> _]. }
  clearbody m1. destruct (match ip with Some _ => _ | None => _ end) as [a|]; [|done].
  set (n := match name with Some _ => _ | None => _ end).
  destruct (same_files_claim cfg a n m1) as [Hp2 _].
  destruct (claim_addr cfg a n m1) as [m2 [[]|]]; simpl in *; [|congruence].
  destruct (Surface.add _ _ _ _) as [f r]. simpl.
  set (m3 := set_surfaces f _). destruct (same_files_bind_missing cfg o a (exposed_of o m3) m3) as [-> _].
  simpl. congruence.
Qed.

Lemma pins_unproject cfg ref m : pins (unproject cfg ref m).1 = pins m.
Proof.
  unfold unproject. repeat (case_match; [|done]).
  destruct (same_files_unclaim cfg (Surface.ip s) (clear_surface o m)) as [Hp _].
  destruct (same_files_clear_surface o m) as [Hc _].
  destruct (unclaim_addr _ _ _) as [m2 [[]|]]; simpl in *; congruence.
Qed.

Lemma pins_evict cfg k reason m :
  is_Some (Session.peers (session m) !! k) →
  pins (evict cfg k reason m) = (Pins.remove (to_string k) (pins m)).1.
Proof.
  intros [a Ha]. unfold evict.
  set (m1 := match peers m !! k with Some _ => _ | None => m end).
  assert (H1 : pins m1 = pins m ∧ session m1 = session m).
  { unfold m1. case_match; [|done].
    destruct (same_files_evict_object cfg o reason (set_peers (delete k (peers m)) m)) as [-> _].
    by rewrite (frame_session _ _ (evict_object_frame cfg o reason _)). }
  clearbody m1. destruct H1 as [H1 Hs]. unfold Session.evict. rewrite Hs, Ha. simpl.
  by rewrite H1.
Qed.

Lemma pins_apply cfg o acts m :
  Forall (λ a : Session.Action K, match a with
    | Session.PersistPin _ _ | Session.DropPin _ => False | _ => True end) acts →
  pins (apply cfg o acts m) = pins m.
Proof.
  intros Hacts. revert m. induction Hacts as [|a acts Ha Hacts IH]; intros m; [done|].
  simpl. rewrite IH. destruct a; simpl in *; try done.
  - by destruct (same_files_send_to o (Protocol.ExposedPorts ports) m).
  - apply pins_update_ports.
Qed.

End write_lemmas.

(** ** The pins along a run *)
Section pin_lemmas.
Context {K : Type} `{EKL : EndpointKeyLaws K} `{DML : DashMapLaws}.
Context `{!JsonCodec Pins.Pin} `{!JsonCodecLaws Pins.Pin} `{!JsonCodec Surface.SurfaceRecord}.
Implicit Types (m : PeerManager K) (o : ObjId) (k : K).

Lemma pins_verdict_closed cfg id wt acts m :
  refusal_of acts ≠ None ∨ existsb is_admit acts = false →
  pins (enroll_verdict cfg id wt acts m) = pins m.
Proof.
  intros Hv. unfold enroll_verdict. set (m1 := set_waiting _ m).
  destruct (refusal_of acts) as [r|].
  - by destruct (same_files_close (wait_conn wt) (Session.refusal_str r) m1).
  - destruct Hv as [?|Hv]; [done|]. rewrite Hv.
    by destruct (same_files_close (wait_conn wt) (Session.refusal_str Session.NotAuthorized) m1).
Qed.

Lemma pins_enroll cfg id msg now m :
  pins (enroll_message cfg id (Some msg) now m) =
  match claims_on m (EvEnroll id (Some msg) now) with
  | Some (k, cl) => (Pins.add (to_string k) (Tokens.claimed_name cl) (pins m)).1
  | None => pins m
  end.
Proof.
  unfold enroll_message, claims_on. destruct (waiting m !! id) as [wt0|]; [|by destruct msg].
  set (wt := match msg with Protocol.Enroll _ (Some _) => _ | _ => wt0 end).
  assert (Hwt : wait_conn wt = wait_conn wt0) by (unfold wt; by destruct msg as [| |? []|]).
  clearbody wt. destruct msg as [ports|port|token v|e]; simpl; try done; rewrite <- ?Hwt.
  - by destruct (Session.pending (session m) !! id).
  - destruct (Tokens.claim now token (Session.tokens (session m))) as [t [cl|]]; simpl.
    + unfold enroll_verdict.
      set (acts := Session.Admit _ _ _ :: _). set (m1 := set_session _ m).
      assert (Hr : refusal_of acts = None)
        by (unfold acts, refusal_of; by destruct (Session.early_of _ _)).
      rewrite Hr. cbn [existsb is_admit orb acts].
      set (p := match early_version wt with Some _ => _ | None => _ end). clearbody p.
      destruct (spawn_peer p (set_waiting _ m1)) as [m2 o] eqn:Hsp.
      assert (Hp2 : pins m2 = pins m) by (by injection Hsp as <- <-).
      unfold acts. cbn [app apply foldl apply_one].
      etrans; [apply pins_apply|by simpl; rewrite Hp2].
      destruct (Session.early_of _ _); repeat constructor.
    + apply (pins_verdict_closed cfg id wt _ (set_session _ m)). by left.
Qed.

Lemma pins_request cfg parse_ip req random now m :
  agree m →
  pins (Daemon.handle_request cfg parse_ip req random now m).1 =
  foldl (Store.run_op Pins.key) (pins m) (pin_ops m (EvRequest req random now)).
Proof.
  intros Hm. destruct req as [[key|] name ports|handle name|peer|p to all|p to| | |peer ip name|peer];
    cbn [pin_ops claims_on]; simpl; try done.
  - unfold pin_peer, add_pinned. destruct (parse_key key) as [k|]; simpl; [|done].
    assert (Hmain : ∀ m1, pins m1 = pins m →
      pins (match (let '(f, r) := Pins.add key name (pins m1) in (set_pins f m1, r)) with
            | (m0, Ok _) => (foldl (λ m port, Daemon.expose port [k] m) m0 ports, Protocol.RespOk)
            | (m0, Err e) => (m0, Protocol.RespError e)
            end).1 = (Store.add Pins.key (Pins.mkPin key name) (pins m)).1).
    { intros m1 ->. unfold Pins.add. destruct (Store.add _ _ _) as [f [[]|e]]; simpl; [|done].
      trans (pins (set_pins f m1)); [|done]. apply same_files_foldl. intros.
      apply (same_files_broadcast (set_session _ _)). }
    destruct (peers m !! k); by apply Hmain.
  - unfold Daemon.accept. destruct (Invite.from_str _) as [h|]; [|done].
    destruct (same_files_add_peer (Invite.handle_key h) name (Invite.handle_code h) m) as [Hp _].
    by destruct (add_peer _ _ _ _) as [m1 [[]|]].
  - unfold remove_peer. destruct (resolve_peer peer m) as [k|] eqn:Hr; [|done].
    pose proof (resolve_peer_known _ _ _ Hr) as Hk. destruct Hk as [o Ho]. rewrite Ho. simpl.
    apply pins_evict. rewrite <- (agree_keys _ Hm), Ho. by eexists.
  - destruct (Daemon.grantees _ _ _); [|done]. apply (same_files_broadcast (set_session _ _)).
  - case_match; [|done]. apply (same_files_broadcast (set_session _ _)).
  - destruct (match ip with Some _ => _ | None => _ end) as [a|]; [|done].
    pose proof (pins_project cfg peer a name m). by destruct (project _ _ _ _ _) as [m1 [[]|]].
  - pose proof (pins_unproject cfg peer m). by destruct (unproject _ _ _) as [m1 [[]|]].
Qed.

Lemma pins_step cfg parse_ip m e :
  agree m → pins (step cfg parse_ip m e) = foldl (Store.run_op Pins.key) (pins m) (pin_ops m e).
Proof.
  intros Hm. destruct e as [req random now|c|id msg now|id|o msg|o|o|o c|c reason|o port]; simpl.
  - by apply pins_request.
  - unfold handle_connection, Session.on_inbound. simpl.
    destruct (Session.peers (session m) !! remote_id c); [|done].
    destruct (peers m !! remote_id c) as [o|]; [|done]. set (m1 := set_session _ _).
    destruct (same_files_install cfg o c false m1) as [Hp _].
    destruct (install cfg o c false m1) as [m2 []]; simpl in Hp; [|done].
    by rewrite (pins_apply cfg o) by repeat constructor.
  - destruct msg as [msg|]; [|unfold enroll_message; by destruct (waiting m !! id)].
    rewrite pins_enroll. cbn [claims_on].
    destruct (match msg with Protocol.Enroll _ _ => _ | _ => _ end) as [[k cl]|]; done.
  - unfold enroll_end, Session.on_enroll_timeout. destruct (waiting m !! id) as [wt|]; [|done].
    destruct (Session.pending (session m) !! id);
      apply (pins_verdict_closed cfg id wt _ (set_session _ m)); [by left|by right].
  - unfold handle_uni_stream. destruct msg as [[ports| |token [v|]|]|]; try done.
    apply pins_update_ports.
  - unfold with_object, Loop.run_connection. repeat case_match; try done.
    apply same_files_send_to.
  - done.
  - unfold with_object. case_match; [|done]. apply same_files_dialed.
  - apply same_files_close.
  - apply same_files_accept_failed.
Qed.
End pin_lemmas.

(** ** Pins and known peers *)
Section remember_lemmas.
Context {K : Type} `{EKL : EndpointKeyLaws K} `{DML : DashMapLaws}.
Context `{!JsonCodec Pins.Pin} `{!JsonCodecLaws Pins.Pin} `{!JsonCodec Surface.SurfaceRecord}.
Implicit Types (m : PeerManager K) (o : ObjId) (k : K).

Local Abbreviation kept_pins := (kept (K:=K) Pins.key).

(** Whom the pins name. *)
Definition remembered m k (name : option string) : Prop :=
  holds (pins m) (Pins.mkPin (to_string k) name).

(** The pins are kept, and name known peers only. *)
Definition pins_ok m : Prop :=
  agree m ∧ kept_pins (pins m) ∧ ∀ k name, remembered m k name → is_Some (peers m !! k).

Lemma remembered_step cfg parse_ip m e k name :
  spelled (K:=K) e → agree m → kept_pins (pins m) →
  kept_pins (pins (step cfg parse_ip m e)) ∧
  (remembered (step cfg parse_ip m e) k name ↔
   pins_on k name m e ∨ (remembered m k name ∧ ¬ repins_on k m e)).
Proof.
  intros Hsp Hm Hk. unfold remembered. rewrite pins_step by done.
  assert (Hadd : ∀ k0 n key, key = to_string k0 →
    let f' := (Store.add Pins.key (Pins.mkPin key n) (pins m)).1 in
    kept_pins f' ∧ (holds f' (Pins.mkPin (to_string k) name) ↔
      (k = k0 ∧ name = n) ∨ (holds (pins m) (Pins.mkPin (to_string k) name) ∧ k ≠ k0))).
  { intros k0 n key ->. cbn zeta.
    destruct (kept_add Pins.key (pins m) (Pins.mkPin (to_string k0) n) k0 Hk eq_refl) as [? Hh].
    split; [done|]. rewrite Hh. simpl. split.
    - intros [[= ?%to_string_inj ->]|[? Hne]]; [by left|right]. split; [done|congruence].
    - intros [[-> ->]|[? Hne]]; [by left|right]. split; [done|]. by intros ?%to_string_inj. }
  assert (Hclaim : ∀ x, claims_on m e = x →
    (∀ k n, (pins_on k n m e ↔ ∃ cl, claims_on m e = Some (k, cl) ∧ Tokens.claimed_name cl = n)) →
    (∀ k, ¬ forgets_on k m e) →
    let f' := foldl (Store.run_op Pins.key) (pins m)
      match x with
      | Some (k, cl) => [Store.OpAdd (Pins.mkPin (to_string k) (Tokens.claimed_name cl))]
      | None => []
      end in
    kept_pins f' ∧ (holds f' (Pins.mkPin (to_string k) name) ↔
      pins_on k name m e ∨ (holds (pins m) (Pins.mkPin (to_string k) name) ∧ ¬ repins_on k m e))).
  { intros x Hx Hon Hfor. cbn zeta. unfold repins_on. setoid_rewrite Hon. rewrite Hx.
    destruct x as [[k0 cl]|]; simpl.
    - destruct (Hadd k0 (Tokens.claimed_name cl) _ eq_refl) as [? Hh]. split; [done|].
      rewrite Hh. naive_solver.
    - split; [done|]. naive_solver. }
  destruct e as [[[key|] nm ports|handle nm|peer|p to all|p to| | |peer ip nm|peer] random now
                |c|id msg now|id|o msg|o|o|o c|c reason|o port];
    try (apply (Hclaim _ eq_refl); simpl; tauto).
  - unfold repins_on. simpl. simpl in Hsp. destruct (parse_key key) as [k0|] eqn:Hkey; simpl.
    + destruct (Hadd k0 nm key (Hsp k0 eq_refl)) as [? Hh]. split; [done|]. rewrite Hh. naive_solver.
    + split; [done|]. naive_solver.
  - unfold repins_on. simpl. destruct (resolve_peer peer m) as [k0|]; simpl.
    + destruct (kept_remove Pins.key (pins m) (to_string k0) Hk) as [? Hh]. split; [done|].
      rewrite Hh. simpl. split.
      * intros [? Hne]. right. split; [done|]. intros [(? & ? & [=] & _)|[= ->]]. done.
      * intros [(? & [=] & _)|[? Hne]]. split; [done|]. intros ?%to_string_inj. naive_solver.
    + split; [done|]. naive_solver.
Qed.

Lemma pins_ok_step cfg parse_ip m e :
  spelled (K:=K) e → pins_ok m → pins_ok (step cfg parse_ip m e).
Proof.
  intros Hsp (Hm & Hk & Hin). split; [by apply agree_step|].
  split; [by apply (remembered_step cfg parse_ip m e (me cfg) None)|].
  intros k name Hr. apply known_on; [done|].
  destruct (remembered_step cfg parse_ip m e k name Hsp Hm Hk) as [_ Hiff].
  apply Hiff in Hr as [Hr|[Hr Hno]].
  - left. destruct e as [[[key|] nm ports|handle nm|peer|p to all|p to| | |peer ip nm|peer] random now
                |c|id msg now|id|o msg|o|o|o c|c reason|o port]; simpl in *; naive_solver.
  - right. split; [by eapply Hin|]. intros Hf. apply Hno. by right.
Qed.

(** ** What a start makes of the pins *)

Lemma add_pinned_session key name m k a :
  agree m →
  Session.peers (session (add_pinned key name m).1) !! k = Some a ↔
  Session.peers (session m) !! k = Some a ∨
  (Session.peers (session m) !! k = None ∧ parse_key key = Some k ∧
   a = Session.mkAdmitted name Session.Key).
Proof.
  intros Hm. unfold add_pinned. destruct (parse_key key) as [k0|]; simpl; [|naive_solver].
  destruct (peers m !! k0) as [o|] eqn:Ho; simpl.
  - assert (is_Some (Session.peers (session m) !! k0)) as [x Hx]
      by (rewrite <- (agree_keys _ Hm), Ho; by eexists).
    split; [by left|]. intros [?|(Hn & [= ->] & _)]; [done|congruence].
  - assert (Hx : Session.peers (session m) !! k0 = None).
    { apply eq_None_not_Some. rewrite <- (agree_keys _ Hm), Ho. by intros []. }
    unfold Session.admit_known. rewrite Hx. simpl.
    destruct (decide (k = k0)) as [->|Hne].
    + rewrite lookup_insert_eq, Hx. naive_solver.
    + rewrite lookup_insert_ne by done. naive_solver.
Qed.

Lemma load_pins_session (l : list Pins.Pin) m k a :
  agree m → NoDup (Pins.key <$> l) → Forall (λ r, ∃ k : K, Pins.key r = to_string k) l →
  let m' := foldl (λ m pin, (add_pinned (Pins.key pin) (Pins.label pin) m).1) m l in
  agree m' ∧
  (Session.peers (session m') !! k = Some a ↔
   Session.peers (session m) !! k = Some a ∨
   (Session.peers (session m) !! k = None ∧ Session.admission a = Session.Key ∧
    Pins.mkPin (to_string k) (Session.label a) ∈ l)).
Proof.
  intros Hm Hnd Hsp. revert m Hm. induction l as [|pin l IH]; intros m Hm; simpl.
  - split; [done|]. split; [by left|]. intros [?|(_ & _ & Hin)]; [done|by apply elem_of_nil in Hin].
  - csimpl in Hnd. apply NoDup_cons in Hnd as [Hnot Hnd]. apply Forall_cons in Hsp as [[k0 Hk0] Hsp].
    destruct (IH Hnd Hsp _ (agree_add_pinned (Pins.key pin) (Pins.label pin) m Hm)) as [Ha Hiff].
    split; [done|]. rewrite Hiff, add_pinned_session by done.
    assert (Hnone : Session.peers (session (add_pinned (Pins.key pin) (Pins.label pin) m).1) !! k = None
      ↔ Session.peers (session m) !! k = None ∧ k ≠ k0).
    { pose proof (λ a, add_pinned_session (Pins.key pin) (Pins.label pin) m k a Hm) as Hs.
      rewrite Hk0, parse_to_string in Hs. rewrite <- Hk0 in Hs.
      rewrite !eq_None_not_Some. unfold is_Some. setoid_rewrite Hs. split.
      - intros Hno. split; [naive_solver|]. intros ->.
        destruct (Session.peers (session m) !! k0) eqn:Hx; naive_solver.
      - intros [Hno Hne]. naive_solver. }
    rewrite Hnone, elem_of_cons, Hk0, parse_to_string. destruct pin as [key lab], a as [lab' ad].
    simpl in *. subst key. split.
    + intros [[?|(? & [= ->] & [= -> ->])]|((? & ?) & ? & ?)]; naive_solver.
    + intros [?|(Hn & -> & [[= Hk ->]|Hin])]; [naive_solver| |].
      * apply to_string_inj in Hk as ->. left; right. naive_solver.
      * destruct (decide (k = k0)) as [->|Hne]; [|naive_solver]. destruct Hnot.
        by apply (list_elem_of_fmap_2 Pins.key) in Hin.
Qed.

Lemma same_files_restore cfg m : same_files m (restore_surfaces cfg m).
Proof.
  unfold restore_surfaces. destruct (Surface.load _) as [rs|]; [|done].
  apply same_files_foldl. intros m' r. unfold restore_one. repeat (case_match; [|done]).
  destruct (same_files_claim cfg (Surface.rec_ip r) (Surface.rec_name r) m') as [? ?].
  by destruct (claim_addr _ _ _ _) as [m2 [[]|]].
Qed.

(** The start with nothing accepted on the command line. *)
Lemma start_remembers cfg r k a :
  started cfg r → kept_pins (run_pins r) → run_accept r = [] →
  Session.peers (session (run_start r)) !! k = Some a ↔
  Session.admission a = Session.Key ∧
  holds (run_pins r) (Pins.mkPin (to_string k) (Session.label a)).
Proof.
  unfold started, Daemon.run, Daemon.with_endpoint, Pins.load.
  intros Hs (_ & l & Hl & Hnd & Hsp) Hacc. rewrite Hacc, Hl in Hs. injection Hs as <-.
  unfold Daemon.start_accepts. simpl.
  set (m0 := foldl _ (new _ _ _) l). set (m1 := foldl _ (restore_surfaces cfg m0) _).
  assert (Hp1 : Session.peers (session m1) = Session.peers (session m0)).
  { unfold m1. rewrite <- (frame_session _ _ (frame_restore cfg m0)).
    generalize (restore_surfaces cfg m0). induction (run_expose r) as [|p ps IH]; intros m; [done|].
    simpl. rewrite IH. unfold Daemon.expose.
    by rewrite (frame_session _ _ (frame_broadcast _)). }
  rewrite Hp1. unfold m0.
  destruct (load_pins_session l (new (run_pins r) (run_surfaces r)
    (Daemon.register_self cfg (run_tun r))) k a (agree_new _ _ _) Hnd Hsp) as [_ ->].
  simpl. rewrite lookup_empty. split.
  - intros [?|(_ & ? & ?)]; [done|]. split; [done|]. by exists l.
  - intros (? & l' & Hl' & Hin). right. rewrite Hl in Hl'. injection Hl' as <-. done.
Qed.

Lemma start_files cfg r :
  started cfg r → pins (run_start r) = run_pins r ∧ surfaces (run_start r) = run_surfaces r.
Proof.
  unfold started, Daemon.run, Daemon.with_endpoint. destruct (Pins.load (run_pins r)) as [l|]; [|done].
  intros [= <-]. unfold Daemon.start_accepts. set (m0 := foldl _ (new _ _ _) l).
  set (m1 := foldl _ (restore_surfaces cfg m0) _). set (m2 := foldl _ m1 _).
  assert (H2 : same_files (new (run_pins r) (run_surfaces r) (Daemon.register_self cfg (run_tun r))) m2).
  { trans m0; [apply same_files_foldl; intros; apply same_files_add_pinned|].
    trans (restore_surfaces cfg m0); [apply same_files_restore|].
    trans m1; [|apply same_files_foldl; intros; apply same_files_add_peer].
    apply same_files_foldl. intros. apply (same_files_broadcast (set_session _ _)). }
  case_match; [apply H2|]. destruct (same_files_broadcast m2) as [-> ->]. apply H2.
Qed.

Lemma pins_ok_start cfg r : started cfg r → kept_pins (run_pins r) → pins_ok (run_start r).
Proof.
  intros Hs Hk. destruct (start_files cfg r Hs) as [Hp _]. split; [by eapply agree_start|].
  unfold remembered. rewrite Hp. split; [done|]. intros k name (l & Hl & Hin).
  apply (start_peers cfg r k Hs). left. unfold pinned, Pins.load. rewrite Hl. simpl.
  eexists. split; [exact Hin|]. apply parse_to_string.
Qed.

End remember_lemmas.

(** ** Properties *)
Section remember_properties.
Context {K : Type} `{EKL : EndpointKeyLaws K} `{DML : DashMapLaws}.
Context `{!JsonCodec Pins.Pin} `{!JsonCodecLaws Pins.Pin} `{!JsonCodec Surface.SurfaceRecord}.

(** C27: a restart remembers exactly the peers that were pinned.  Take any run of a
    daemon whose pins file can be read and written, and in which keys are typed
    in the spelling they print in.  A daemon started from the pins that run
    left, accepting nobody on its command line, knows a key under a name exactly
    when an invitation addressed to the key or a good claim of it gave it that
    name and no later one renamed it nor a request forgot it, or a pin of the
    run's start did and none of these came since.  It knows nobody else, admits
    everyone by key, and knows nobody the run did not know at its end: a
    forgotten peer does not come back, and a peer that was only accepted is not
    remembered. *)
Theorem restart_remembers_pinned (cfg cfg' : Config K) (parse_ip : string → option IpAddr)
    (r r' : Run K) (k : K) (name : option string) :
  started cfg r → kept (K:=K) Pins.key (run_pins r) → Forall (spelled (K:=K)) (run_events r) →
  let m := now_at cfg parse_ip r in
  started cfg' r' → run_pins r' = pins m → run_accept r' = [] →
  let m' := run_start r' in
  (Session.peers (session m') !! k = Some (Session.mkAdmitted name Session.Key) ↔
   since (step cfg parse_ip) (pins_on k name) (repins_on k) (run_start r) (run_events r) ∨
   (holds (run_pins r) (Pins.mkPin (to_string k) name) ∧
    never (step cfg parse_ip) (repins_on k) (run_start r) (run_events r))) ∧
  (∀ a, Session.peers (session m') !! k = Some a →
        Session.admission a = Session.Key ∧ is_Some (peers m !! k)).
Proof.
  intros Hs Hkept Hsp m Hs' Hp' Hacc m'.
  pose proof (pins_ok_start cfg r Hs Hkept) as Hok0.
  assert (Hok : pins_ok m).
  { unfold m, now_at. clear Hs Hs' Hp' m. revert Hok0. generalize (run_start r).
    induction Hsp as [|e es He Hes IH]; intros m Hm; [done|]. simpl.
    apply IH. by apply pins_ok_step. }
  assert (Hk' : kept (K:=K) Pins.key (run_pins r')) by (rewrite Hp'; apply Hok).
  pose proof (λ a, start_remembers cfg' r' k a Hs' Hk' Hacc) as Hstart. rewrite Hp' in Hstart.
  split.
  - unfold m'. rewrite Hstart. cbn [Session.admission Session.label].
    rewrite <- (proj1 (start_files cfg r Hs)).
    etrans; [|apply (since_spec_on (step cfg parse_ip) (spelled (K:=K)) pins_ok
      (λ m, remembered m k name) (pins_on k name) (repins_on k))].
    + by split; [intros [_ ?]|].
    + intros. by apply pins_ok_step.
    + intros m0 e He (Ha & Hk & _). by apply remembered_step.
    + done.
    + done.
  - intros a [? Ha]%Hstart. split; [done|]. by eapply Hok.
Qed.

End remember_properties.

(** ** Concrete runs *)
Section restart_witnesses.

(** The toy daemon started again from what [m] left. *)
Definition toy_restart (accept : list string) (m : PeerManager N) : Run N :=
  mkRun accept [] (pins m) (surfaces m) None
    (match Daemon.run Toy.config accept [] (pins m) (surfaces m) None with
     | Ok m' => m'
     | Err _ => m
     end) [].

Lemma toy_restarted accept m :
  is_ok (Daemon.run Toy.config accept [] (pins m) (surfaces m) None) = true →
  started Toy.config (toy_restart accept m).
Proof. unfold started. simpl. by destruct (Daemon.run _ _ _ _ _ _). Qed.

Lemma toy_restart_files accept m :
  run_pins (toy_restart accept m) = pins m ∧ run_surfaces (toy_restart accept m) = surfaces m ∧
  run_accept (toy_restart accept m) = accept.
Proof. done. Qed.

(** Stranger 9 claims the code it was given, 5 is invited by key and forgotten. *)
Definition toy_admissions : list (Event (K:=N)) :=
  toy_trail ++
  [EvEnroll 1%Z (Some (Protocol.Enroll "ab" None)) 10%Z;
   EvRequest (Protocol.ReqInvite (Some "5") (Some "box") []) [] 0%Z;
   EvRequest (Protocol.ReqForget "5") [] 0%Z].

Lemma toy_file_kept {R} `{!JsonCodec R} (rkey : R → string) name :
  kept (K:=N) rkey (Toy.file name).
Proof. split; [done|]. exists []. split_and!; [done|constructor|constructor]. Qed.

Lemma restart_remembers_pinned_witness :
  let m := now_at Toy.config Toy.parse_ip (toy_run toy_admissions) in
  Session.peers (session (run_start (toy_restart [] m))) !! 9%N =
    Some (Session.mkAdmitted (Some "desk") Session.Key).
Proof.
  intros m.
  assert (Hsp : Forall (spelled (K:=N)) (run_events (toy_run toy_admissions))).
  { repeat constructor. intros k Hk. vm_compute in Hk. injection Hk as <-. by vm_compute. }
  assert (Hst : started Toy.config (toy_restart [] m)) by (apply toy_restarted; by vm_compute).
  pose proof (restart_remembers_pinned Toy.config Toy.config Toy.parse_ip (toy_run toy_admissions)
    (toy_restart [] m) 9%N (Some "desk") (toy_started _) (toy_file_kept _ _) Hsp) as H.
  fold m in H. destruct (toy_restart_files [] m) as (Hp & _ & Ha).
  destruct (H Hst Hp Ha) as [Hiff _]. clear H.
  apply Hiff. left. exists toy_trail, (EvEnroll 1%Z (Some (Protocol.Enroll "ab" None)) 10%Z). eexists.
  split; [done|]. split.
  - eexists. split; [by vm_compute|done].
  - split; [|split; [|done]].
    + intros [[name [Hk _]]|[]]. by vm_compute in Hk.
    + intros [[name (cl & Hcl & _)]|Hf]; [done|]. by vm_compute in Hf.
Defined.

(** A key typed in another spelling outlives its peer.  The pin is written
    under the text of the invitation and removed under the text the key prints
    as: here 9 is invited as 09 and forgotten, and the next start knows it. *)
Theorem respelled_pin_outlives_forget :
  let es := [EvRequest (Protocol.ReqInvite (Some "09") None []) [] 0%Z;
             EvRequest (Protocol.ReqForget "9") [] 0%Z] in
  let m := now_at Toy.config Toy.parse_ip (toy_run es) in
  let r' := toy_restart [] m in
  started Toy.config r' ∧ peers m !! 9%N = None ∧ is_Some (peers (run_start r') !! 9%N).
Proof.
  intros es m r'. split; [by apply toy_restarted; vm_compute|].
  split; [by vm_compute|]. eexists. by vm_compute.
Qed.

End restart_witnesses.
