(* ===== verification/Projections.v ===== *)
(** * Projections outlive the process

    The invariant [recorded]: the surface of every known peer is in the surface
    records.  It holds along runs in which no port announcement comes on the
    connection of a peer that is gone, and what it gives at the next start: a
    pinned peer is back at its address, under its name. *)

From S2P Require Import Prelude RustStr Keys Grants Dial Invite Store Enroll Protocol Session Surface Resolver Netstack Tunnel Peer PeerFacts PeerLoop Daemon Shell Bindings BindingProps DaemonProps Addresses Calls Durable.
Import Peers Shell Calls Durable.

(** ** Surfaces along a run *)
Section surface_lemmas.
Context {K : Type} `{EKL : EndpointKeyLaws K} `{DML : DashMapLaws}.
Context `{!JsonCodec Pins.Pin} `{!JsonCodec Surface.SurfaceRecord}
  `{!JsonCodecLaws Surface.SurfaceRecord}.
Implicit Types (m : PeerManager K) (p : Peer K) (o : ObjId) (k : K) (c : Conn K).

Local Abbreviation kept_surfaces := (kept (K:=K) Surface.rec_key).

(** Every known peer has an object of its own. *)
Definition wired m : Prop :=
  ∀ k o, peers m !! k = Some o → ∃ p, objects m !! o = Some p ∧ endpoint_id p = k.

(** The surface records are kept, and every known peer's surface is among them. *)
Definition recorded m : Prop :=
  kept_surfaces (surfaces m) ∧
  ∀ k o s, projected m k o s → holds (surfaces m) (record_for k s).

Lemma agree_wired m : agree m → wired m.
Proof. intros [_ Ho _] k o (p & ? & ? & _)%Ho. by exists p. Qed.

Lemma wired_frame m m' : frame m m' → wired m → wired m'.
Proof.
  intros [Hp _ _ _ _ Hi _] Hm k o Hk. rewrite Hp in Hk. destruct (Hm k o Hk) as (p & Ho & He).
  specialize (Hi o). rewrite Ho in Hi. destruct (objects m' !! o) as [p'|]; [|done].
  exists p'. split; [done|]. unfold identity in Hi. simpl in Hi. congruence.
Qed.

Lemma wired_inj m k k' o : wired m → peers m !! k = Some o → peers m !! k' = Some o → k = k'.
Proof. intros Hm (p & Hp & <-)%Hm (p' & Hp' & <-)%Hm. congruence. Qed.

Lemma wired_spawn p m :
  wired m → wired (spawn_peer p m).1 ∧
  peers (spawn_peer p m).1 !! endpoint_id p = Some (spawn_peer p m).2.
Proof.
  intros Hm. set (o := fresh (dom (objects m))).
  assert (Hfresh : objects m !! o = None) by (apply not_elem_of_dom, is_fresh).
  split; [|apply lookup_insert_eq]. intros k o'. simpl. fold o. destruct (decide (k = endpoint_id p)) as [->|Hne].
  - rewrite lookup_insert_eq. intros [= <-]. exists p. by rewrite lookup_insert_eq.
  - rewrite lookup_insert_ne by done. intros (q & Hq & ?)%Hm. exists q.
    rewrite lookup_insert_ne; [done|]. intros <-. congruence.
Qed.

Lemma recorded_shrinks m m' :
  shrinks m m' → surfaces m' = surfaces m → recorded m → recorded m'.
Proof. intros Hsh Hf [Hk Hm]. split; rewrite Hf; [done|]. intros k o s Hp. by eapply Hm, Hsh. Qed.

Lemma recorded_same m m' :
  peers m' = peers m → (∀ o, surface_of o m' = surface_of o m) → same_files m m' →
  recorded m → recorded m'.
Proof. intros Hp Hs [_ Hf]. apply recorded_shrinks; [by apply shrinks_same|done]. Qed.

(** A peer is put at an address, and the record written. *)
Lemma recorded_place k o ip name m :
  wired m → peers m !! k = Some o → recorded m →
  recorded (set_surfaces (Surface.add (to_string k) ip name (surfaces m)).1
              (upd o (put_surface (Some (Surface.mkSurface ip name))) m)).
Proof.
  intros Hw Hk [Hkept Hm]. unfold Surface.add.
  destruct (kept_add Surface.rec_key (surfaces m)
    (Surface.mkSurfaceRecord (to_string k) ip name) k Hkept eq_refl) as [Hkept' Hh].
  split; [done|]. intros k' o' s [Hk' Hs]. simpl in Hk'.
  change (holds (Store.add Surface.rec_key (Surface.mkSurfaceRecord (to_string k) ip name)
    (surfaces m)).1 (record_for k' s)). rewrite Hh.
  change (surface_of o' (upd o (put_surface (Some (Surface.mkSurface ip name))) m) = Some s) in Hs.
  rewrite surface_of_upd in Hs. destruct (decide (o' = o)) as [->|Hne].
  - left. assert (k' = k) as -> by (by eapply wired_inj). destruct (Hw k o Hk) as (p & Ho & _).
    rewrite Ho in Hs. by injection Hs as <-.
  - right. split; [by eapply Hm; split|]. unfold record_for. simpl. intros ->%to_string_inj.
    congruence.
Qed.

Lemma recorded_surface_ip cfg k o ports m :
  wired m → peers m !! k = Some o → recorded m → recorded (surface_ip cfg o ports m).1.
Proof.
  intros Hw Hk Hm. unfold surface_ip. destruct (Hw k o Hk) as (p & -> & Hid).
  destruct (surface p); [done|]. destruct ports; [done|].
  destruct (Surface.allocate _ _) as [ip|]; [|done]. set (name := Some _).
  pose proof (frame_claim cfg ip name m) as Hf. pose proof (bframe_claim cfg ip name m) as Hb.
  pose proof (same_files_claim cfg ip name m) as Hs.
  destruct (claim_addr cfg ip name m) as [m1 r]. cbn [fst] in Hf, Hb, Hs.
  assert (H1 : recorded m1) by (by eapply recorded_same; [apply Hf|apply Hb|..]).
  destruct r as [[]|]; [|done]. rewrite Hid.
  pose proof (recorded_place k o ip name m1 (wired_frame _ _ Hf Hw)) as H2.
  rewrite (frame_peers _ _ Hf) in H2. specialize (H2 Hk H1).
  by destruct (Surface.add _ _ _ _) as [f r].
Qed.

Lemma recorded_update_ports cfg k o ports m :
  wired m → peers m !! k = Some o → recorded m → recorded (update_peer_ports cfg o ports m).
Proof.
  intros Hw Hk Hm. unfold update_peer_ports. fold (release_stale o ports (exposed_of o m) m).
  destruct (release_stale_facts o ports (exposed_of o m) m) as (_ & Hs1 & _ & _).
  assert (Hf1 : frame m (release_stale o ports (exposed_of o m) m)).
  { apply frame_foldl. intros. case_decide; [done|]. apply frame_release. }
  assert (Hfs1 : same_files m (release_stale o ports (exposed_of o m) m)).
  { apply same_files_foldl. intros. case_decide; [done|]. apply same_files_release. }
  set (m1 := release_stale _ _ _ m) in *.
  assert (H1 : recorded m1) by (by eapply recorded_same; [apply Hf1|..]).
  pose proof (recorded_surface_ip cfg k o ports m1 (wired_frame _ _ Hf1 Hw)) as H2.
  rewrite (frame_peers _ _ Hf1) in H2. specialize (H2 Hk H1).
  assert (Hput : ∀ m', recorded m' → recorded (upd o (put_exposed ports) m')).
  { intros m'. apply recorded_shrinks; [by apply shrinks_upd|done]. }
  destruct (surface_ip cfg o ports m1) as [m2 [ip|]]; cbn [fst] in H2; apply Hput; [|done].
  destruct (bind_missing_same cfg o ip ports m2) as (Hs & _ & _).
  eapply recorded_same; [apply (frame_bind_missing cfg o ip ports m2)|done| |done].
  apply same_files_bind_missing.
Qed.

Lemma recorded_apply cfg k o acts m :
  wired m → peers m !! k = Some o → recorded m → recorded (apply cfg o acts m).
Proof.
  revert m. induction acts as [|a acts IH]; intros m Hw Hk Hm; [done|]. simpl.
  assert (Hf : frame m (apply_one cfg o m a)) by apply (frame_apply cfg o [a] m).
  apply IH; [by eapply wired_frame|by rewrite (frame_peers _ _ Hf)|]. destruct a; simpl; try done.
  - eapply recorded_same; [apply (frame_send_to o)|apply bframe_send_to|apply same_files_send_to|done].
  - by eapply recorded_update_ports.
Qed.

Lemma recorded_verdict cfg id wt acts m :
  wired m → recorded m → recorded (enroll_verdict cfg id wt acts m).
Proof.
  intros Hw Hm. unfold enroll_verdict. set (m1 := set_waiting _ m).
  assert (H1 : recorded m1) by done. assert (Hw1 : wired m1) by done. clearbody m1.
  assert (Hclose : ∀ r, recorded (close (wait_conn wt) r m1)).
  { intros r. eapply recorded_same; [apply (frame_close (wait_conn wt))|apply bframe_close
      |apply same_files_close|done]. }
  destruct (refusal_of acts); [apply Hclose|]. destruct (existsb is_admit acts); [|apply Hclose].
  set (p := match early_version wt with Some _ => _ | None => _ end).
  assert (Hsurf : surface p = None) by (unfold p; by destruct (early_version wt)).
  destruct (wired_spawn p m1 Hw1) as [Hw2 Hp2]. pose proof (shrinks_spawn p m1 Hsurf) as Hsh.
  assert (H2 : recorded (spawn_peer p m1).1) by (by eapply recorded_shrinks).
  destruct (spawn_peer p m1) as [m2 o]. by eapply recorded_apply.
Qed.

Lemma recorded_evict cfg k reason m : agree m → recorded m → recorded (evict cfg k reason m).
Proof.
  intros Ha [Hkept Hm]. pose proof (shrinks_evict cfg k reason m Ha) as Hsh.
  assert (Hev : peers (evict cfg k reason m) = delete k (peers m) ∧
                surfaces (evict cfg k reason m) = (Surface.remove (to_string k) (surfaces m)).1).
  { unfold evict. set (m1 := match peers m !! k with Some _ => _ | None => m end).
    assert (H1 : peers m1 = delete k (peers m) ∧ surfaces m1 = surfaces m).
    { unfold m1. destruct (peers m !! k) as [o|] eqn:Ho; [|by rewrite delete_id].
      set (m0 := set_peers (delete k (peers m)) m).
      destruct (evict_object_frame cfg o reason m0) as [Hfp _ _ _ _ _ _].
      destruct (same_files_evict_object cfg o reason m0) as [_ Hfs]. by split. }
    clearbody m1. destruct H1 as [Hp1 Hs1]. destruct (Session.evict k (session m1)) as [s acts].
    set (m2 := set_session s m1).
    assert (H2 : peers (foldl drop_pin m2 acts) = peers m2 ∧
                 surfaces (foldl drop_pin m2 acts) = surfaces m2).
    { generalize m2. induction acts as [|a acts IH]; intros m'; [done|]. simpl.
      destruct (IH (drop_pin m' a)) as [-> ->]. by destruct a. }
    destruct H2 as [Hp2 Hs2]. simpl. rewrite Hp2, Hs2. unfold m2. simpl. by rewrite Hp1, Hs1. }
  destruct Hev as [Hp Hs]. unfold Surface.remove in Hs.
  destruct (kept_remove Surface.rec_key (surfaces m) (to_string k) Hkept) as [Hkept' Hh].
  split; rewrite Hs; [done|]. intros k' o s Hpr. rewrite Hh. split; [by eapply Hm, Hsh|].
  unfold record_for. simpl. intros ->%to_string_inj. destruct Hpr as [Hpr _].
  by rewrite Hp, lookup_delete_eq in Hpr.
Qed.

Lemma recorded_clear cfg o s m :
  recorded m → recorded (unclaim_addr cfg (Surface.ip s) (clear_surface o m)).1 ∧
  (wired m → wired (unclaim_addr cfg (Surface.ip s) (clear_surface o m)).1).
Proof.
  intros Hm. split.
  - eapply recorded_shrinks; [|etrans; [apply same_files_unclaim|apply same_files_clear_surface]|done].
    etrans; [apply shrinks_clear_surface|apply shrinks_unclaim].
  - apply wired_frame. etrans; [apply frame_clear_surface|apply frame_unclaim].
Qed.

Lemma recorded_project cfg ref ip name m :
  wired m → recorded m → recorded (project cfg ref ip name m).1.
Proof.
  intros Hw Hm. unfold project. destruct (resolve_peer ref m) as [id|]; [|done].
  destruct (peers m !! id) as [o|] eqn:Ho; [|done].
  set (m1 := match surface_of o m with Some _ => _ | None => m end).
  assert (H1 : recorded m1 ∧ wired m1 ∧ peers m1 !! id = Some o).
  { unfold m1. destruct (surface_of o m) as [s|]; [|done].
    destruct (recorded_clear cfg o s m Hm) as [? ?]. split_and!; [done|auto|].
    rewrite (frame_peers _ _ (frame_unclaim cfg _ _)).
    by rewrite (frame_peers _ _ (frame_clear_surface o m)). }
  clearbody m1. clear Hw Hm Ho. destruct H1 as (H1 & Hw & Ho).
  destruct (match ip with Some _ => _ | None => _ end) as [a|]; [|done].
  set (n := match name with Some _ => _ | None => _ end).
  pose proof (frame_claim cfg a n m1) as Hf. pose proof (bframe_claim cfg a n m1) as Hb.
  pose proof (same_files_claim cfg a n m1) as Hs.
  destruct (claim_addr cfg a n m1) as [m2 r]. cbn [fst] in Hf, Hb, Hs.
  assert (H2 : recorded m2) by (by eapply recorded_same; [apply Hf|apply Hb|..]).
  destruct r as [[]|]; [|done].
  pose proof (recorded_place id o a n m2 (wired_frame _ _ Hf Hw)) as H3.
  rewrite (frame_peers _ _ Hf) in H3. specialize (H3 Ho H2).
  change (surfaces (upd o (put_surface (Some (Surface.mkSurface a n))) m2)) with (surfaces m2).
  destruct (Surface.add _ _ _ _) as [f r]. cbn [fst] in *. set (m3 := set_surfaces f _) in *.
  destruct (bind_missing_same cfg o a (exposed_of o m3) m3) as (Hs3 & _ & _).
  eapply recorded_same; [apply (frame_bind_missing cfg o a)|done|apply same_files_bind_missing|done].
Qed.

Lemma recorded_unproject cfg ref m : wired m → recorded m → recorded (unproject cfg ref m).1.
Proof.
  intros Hw Hm. unfold unproject. destruct (resolve_peer ref m) as [id|]; [|done].
  destruct (peers m !! id) as [o|] eqn:Ho; [|done].
  destruct (surface_of o m) as [s|]; [|done].
  assert (Hsame : ∀ o', surface_of o' (unclaim_addr cfg (Surface.ip s) (clear_surface o m)).1 =
                        surface_of o' (clear_surface o m)) by apply bframe_unclaim.
  assert (Hnone : surface_of o (clear_surface o m) = None).
  { unfold clear_surface. rewrite surface_of_upd, decide_True by done.
    by destruct (objects _ !! o). }
  destruct (recorded_clear cfg o s m Hm) as [H1 Hw1]. specialize (Hw1 Hw).
  pose proof (frame_peers _ _ (frame_unclaim cfg (Surface.ip s) (clear_surface o m))) as Hp1.
  rewrite (frame_peers _ _ (frame_clear_surface o m)) in Hp1.
  destruct (unclaim_addr _ _ _) as [m1 [[]|]]; cbn [fst] in *; [|done].
  destruct H1 as [Hkept H1]. unfold Surface.remove.
  destruct (kept_remove Surface.rec_key (surfaces m1) (to_string id) Hkept) as [Hkept' Hh].
  split; [done|]. intros k' o' s' [Hk' Hs'].
  change (surface_of o' m1 = Some s') in Hs'. change (peers m1 !! k' = Some o') in Hk'.
  change (holds (Store.remove Surface.rec_key (to_string id) (surfaces m1)).1 (record_for k' s')).
  rewrite Hh. split; [by eapply H1|]. unfold record_for. simpl. intros ->%to_string_inj.
  rewrite Hp1, Ho in Hk'. injection Hk' as <-. by rewrite Hsame, Hnone in Hs'.
Qed.

Lemma recorded_request cfg parse_ip req random now m :
  agree m → recorded m → recorded (Daemon.handle_request cfg parse_ip req random now m).1.
Proof.
  intros Ha Hm. pose proof (agree_wired m Ha) as Hw.
  destruct req as [key name ps|handle name|peer|port to all|port to| | |peer ip name|peer];
    simpl; try done.
  - eapply recorded_shrinks; [apply shrinks_invite| |done]. unfold Daemon.invite.
    destruct key as [key|]; [|by destruct (Session.mint_token _ _ _ _ _)]. unfold pin_peer.
    destruct (same_files_add_pinned key name m) as [_ Hf].
    destruct (add_pinned key name m) as [m1 [[]|]]; cbn [fst] in *; [|done].
    destruct (Pins.add _ _ _) as [f [[]|]]; cbn [fst snd]; [|done].
    destruct (parse_key key); [|done]. rewrite <- Hf. trans (surfaces (set_pins f m1)); [|done].
    apply same_files_foldl. intros. apply (same_files_broadcast (set_session _ _)).
  - unfold Daemon.accept. destruct (Invite.from_str _) as [h|]; [|done].
    pose proof (shrinks_add_peer (Invite.handle_key h) name (Invite.handle_code h) m) as H1.
    pose proof (same_files_add_peer (Invite.handle_key h) name (Invite.handle_code h) m) as [_ H2].
    by destruct (add_peer _ _ _ _) as [m1 [[]|]]; eapply recorded_shrinks.
  - unfold remove_peer. destruct (resolve_peer _ _) as [k|]; [|done].
    destruct (peers m !! k); [|done]. by apply recorded_evict.
  - destruct (Daemon.grantees _ _ _); [|done].
    eapply recorded_shrinks; [apply shrinks_expose| |done].
    apply (same_files_broadcast (set_session _ _)).
  - case_match; [|done]. eapply recorded_shrinks; [apply shrinks_unexpose| |done].
    apply (same_files_broadcast (set_session _ _)).
  - destruct (match ip with Some _ => _ | None => _ end) as [a|]; [|done].
    pose proof (recorded_project cfg peer a name m Hw Hm) as H1.
    by destruct (project _ _ _ _ _) as [m1 [[]|]].
  - pose proof (recorded_unproject cfg peer m Hw Hm) as H1.
    by destruct (unproject _ _ _) as [m1 [[]|]].
Qed.

Lemma recorded_step cfg parse_ip m e :
  ¬ late_on m e → agree m → recorded m → recorded (step cfg parse_ip m e).
Proof.
  intros Hlate Ha Hm. pose proof (agree_wired m Ha) as Hw.
  destruct e as [req random now|c|id msg now|id|o msg|o|o|o c|c reason|o port]; simpl.
  - by apply recorded_request.
  - unfold handle_connection. destruct (Session.on_inbound _ _ _) as [s acts].
    set (m1 := set_session s _). assert (H1 : recorded m1) by done.
    assert (Hw1 : wired m1) by done. clearbody m1. destruct acts as [|a acts]; [done|].
    destruct (peers m1 !! remote_id c) as [o|] eqn:Ho; [|done].
    pose proof (frame_install cfg o c false m1) as Hf.
    pose proof (bframe_install cfg o c false m1) as Hb.
    pose proof (same_files_install cfg o c false m1) as Hs.
    destruct (install cfg o c false m1) as [m2 b]; cbn [fst] in *.
    assert (H2 : recorded m2) by (by eapply recorded_same; [apply Hf|apply Hb|..]).
    destruct b; [|done].
    assert (Hf' : frame m1 (upd o (put_notified true) (upd o (put_dial true) m2))).
    { etrans; [exact Hf|]. etrans; by apply frame_upd. }
    eapply (recorded_apply cfg (remote_id c)); [by eapply wired_frame| |].
    + by rewrite (frame_peers _ _ Hf').
    + eapply recorded_shrinks; [by apply shrinks_upd|done|].
      by eapply recorded_shrinks; [apply shrinks_upd|..].
  - unfold enroll_message. destruct (waiting m !! id) as [wt0|]; [|done].
    destruct msg as [msg|]; [|done]. destruct (Session.on_unadmitted _ _ _ _ _) as [s acts].
    destruct acts; [done|]. by apply recorded_verdict.
  - unfold enroll_end. destruct (waiting m !! id) as [wt|]; [|done].
    destruct (Session.on_enroll_timeout _ _) as [s acts]. by apply recorded_verdict.
  - unfold handle_uni_stream. destruct msg as [[ports| |token [v|]|]|]; try done.
    + simpl in Hlate. apply dec_stable, list_elem_of_fmap in Hlate as ([k o'] & -> & Hk).
      apply elem_of_map_to_list in Hk. by eapply recorded_update_ports.
    + by eapply recorded_shrinks; [apply shrinks_upd|..].
  - unfold with_object, Loop.run_connection. repeat case_match; try done.
    eapply recorded_same; [apply (frame_send_to o)|apply bframe_send_to|apply same_files_send_to|done].
  - by eapply recorded_shrinks; [apply shrinks_upd|..].
  - unfold with_object. case_match; [|done].
    eapply recorded_same; [apply frame_dialed|apply bframe_dialed|apply same_files_dialed|done].
  - eapply recorded_same; [apply (frame_close c)|apply bframe_close|apply same_files_close|done].
  - eapply recorded_shrinks; [|apply same_files_accept_failed|done]. apply shrinks_same.
    + apply (frame_accept_failed o port m).
    + apply accept_failed_same.
Qed.

(** ** What a start makes of the records *)

Lemma recorded_restore_one cfg r m :
  wired m → holds (surfaces m) r → recorded m → recorded (restore_one cfg m r).
Proof.
  intros Hw Hr Hm. unfold restore_one.
  destruct (parse_key (Surface.rec_key r)) as [k|] eqn:Hkey; [|done].
  destruct (peers m !! k) as [o|] eqn:Ho; [|done].
  assert (Hrk : Surface.rec_key r = to_string k).
  { destruct Hm as [Hkept _]. destruct (holds_spelled Surface.rec_key _ _ Hkept Hr) as [k' Hk'].
    rewrite Hk', parse_to_string in Hkey. by injection Hkey as <-. }
  set (ip := Surface.rec_ip r). set (n := Surface.rec_name r).
  pose proof (frame_claim cfg ip n m) as Hf. pose proof (bframe_claim cfg ip n m) as Hb.
  pose proof (same_files_claim cfg ip n m) as Hs.
  destruct (claim_addr cfg ip n m) as [m1 res]. cbn [fst] in Hf, Hb, Hs.
  assert (H1 : recorded m1) by (by eapply recorded_same; [apply Hf|apply Hb|..]).
  destruct res as [[]|]; [|done]. destruct H1 as [Hkept H1]. split; [done|].
  intros k' o' s [Hk' Hs']. simpl in Hk'. rewrite surface_of_upd in Hs'.
  change (holds (surfaces m1) (record_for k' s)).
  destruct (decide (o' = o)) as [->|Hne]; [|by eapply H1].
  rewrite (frame_peers _ _ Hf) in Hk'. assert (k' = k) as -> by (by eapply wired_inj).
  destruct (objects m1 !! o); [|done]. injection Hs' as <-. rewrite (proj2 Hs).
  unfold record_for. simpl. rewrite <- Hrk. by destruct r.
Qed.

Lemma recorded_restore cfg m : wired m → recorded m → recorded (restore_surfaces cfg m).
Proof.
  intros Hw Hm. unfold restore_surfaces. destruct (Surface.load (surfaces m)) as [rs|] eqn:Hrs; [|done].
  assert (Hin : Forall (holds (surfaces m)) rs).
  { apply Forall_forall. intros r Hr. by exists rs. }
  clear Hrs. revert m Hw Hm Hin. induction rs as [|r rs IH]; intros m Hw Hm Hin; [done|]. simpl.
  apply Forall_cons in Hin as [Hr Hin].
  assert (Hsf : surfaces (restore_one cfg m r) = surfaces m).
  { unfold restore_one. repeat (case_match; [|done]).
    destruct (same_files_claim cfg (Surface.rec_ip r) (Surface.rec_name r) m) as [_ ?].
    by destruct (claim_addr _ _ _ _) as [m2 [[]|]]. }
  apply IH; [|by apply recorded_restore_one|by rewrite Hsf].
  eapply wired_frame; [apply frame_restore_one|done].
Qed.

(** What the command line exposes and accepts leaves known peers where they are. *)
Lemma start_accepts_keeps texts ports m :
  let m' := Daemon.start_accepts texts ports m in
  (∀ k o, peers m !! k = Some o → peers m' !! k = Some o) ∧ (∀ o', surface_of o' m' = surface_of o' m) ∧ same_files m m' ∧
  shrinks m m'.
Proof.
  unfold Daemon.start_accepts. set (handles := Daemon.accept_handles texts).
  set (m1 := foldl _ m ports). set (m2 := foldl _ m1 handles).
  assert (H1 : peers m1 = peers m ∧ bframe m m1 ∧ same_files m m1).
  { split_and!.
    - unfold m1. clear. revert m. induction ports as [|p ps IH]; intros m; [done|]. simpl.
      rewrite IH. unfold Daemon.expose. by rewrite (frame_peers _ _ (frame_broadcast _)).
    - apply bframe_foldl. intros. apply bframe_expose.
    - apply same_files_foldl. intros. apply (same_files_broadcast (set_session _ _)). }
  destruct H1 as (Hp1 & Hb1 & Hf1).
  assert (H2 : ∀ k o, peers m !! k = Some o → peers m2 !! k = Some o).
  { rewrite <- Hp1. intros k o. unfold m2. generalize m1. clear.
    induction handles as [|h hs IH]; intros m Hk; [done|]. simpl. apply IH. unfold add_peer.
    destruct (peers m !! Invite.handle_key h) eqn:Hh; [done|]. simpl.
    rewrite lookup_insert_ne; [done|]. intros Heq. congruence. }
  assert (Hb2 : bframe m m2).
  { etrans; [exact Hb1|]. apply bframe_foldl. intros. apply bframe_add_peer. }
  assert (Hf2 : same_files m m2).
  { etrans; [exact Hf1|]. apply same_files_foldl. intros. apply same_files_add_peer. }
  assert (Hsh : shrinks m m2).
  { trans m1; [apply shrinks_foldl; intros; apply shrinks_expose|].
    apply shrinks_foldl. intros. apply shrinks_add_peer. }
  case_match; [by split_and!; [..|apply Hb2|done|done]|]. split_and!.
  - intros k o Hk. rewrite (frame_peers _ _ (frame_broadcast m2)). by apply H2.
  - intros o'. by rewrite (bframe_surface _ _ (bframe_broadcast m2)), (bframe_surface _ _ Hb2).
  - etrans; [exact Hf2|]. apply same_files_broadcast.
  - etrans; [exact Hsh|]. apply shrinks_bframe; [apply frame_broadcast|apply bframe_broadcast].
Qed.

Lemma recorded_start cfg r :
  started cfg r → kept_surfaces (run_surfaces r) → recorded (run_start r).
Proof.
  unfold started, Daemon.run, Daemon.with_endpoint. destruct (Pins.load (run_pins r)) as [l|]; [|done].
  intros [= <-] Hk. set (m := new (run_pins r) (run_surfaces r) _).
  set (m0 := foldl _ m l).
  assert (Hm : recorded m).
  { split; [done|]. intros k o s [Hk' _]. simpl in Hk'. by rewrite lookup_empty in Hk'. }
  assert (H0 : recorded m0).
  { eapply (recorded_shrinks m); [apply shrinks_foldl; intros; apply shrinks_add_pinned| |done].
    apply (same_files_foldl (λ m pin, (add_pinned (Pins.key pin) (Pins.label pin) m).1) l m).
    intros. apply same_files_add_pinned. }
  assert (Ha0 : agree m0).
  { unfold m0. generalize (agree_new (run_pins r) (run_surfaces r)
      (Daemon.register_self cfg (run_tun r)) : agree m). unfold m. generalize (new (K:=K) (run_pins r) (run_surfaces r) (Daemon.register_self cfg (run_tun r))).
    intros m' Hm'. clear -Hm' EKL. revert m' Hm'.
    induction l as [|pin l IH]; intros m' Hm'; [done|]. simpl. by apply IH, agree_add_pinned. }
  pose proof (recorded_restore cfg m0 (agree_wired _ Ha0) H0) as H1.
  destruct (start_accepts_keeps (run_accept r) (run_expose r) (restore_surfaces cfg m0))
    as (_ & _ & [_ Hf] & Hsh).
  by eapply recorded_shrinks.
Qed.

Lemma recorded_run cfg parse_ip m es :
  agree m → recorded m → never (step cfg parse_ip) late_on m es →
  recorded (foldl (step cfg parse_ip) m es).
Proof.
  revert m. induction es as [|e es IH]; intros m Ha Hm; [done|]. intros [Hl Hno]. simpl.
  apply IH; [by apply agree_step|by apply recorded_step|done].
Qed.

(** A start puts the peers it pins where their records say. *)
Lemma start_projects cfg r k s :
  started cfg r → kept_surfaces (run_surfaces r) → os cfg = Surface.Linux ∨ is_Some (run_tun r) →
  names_key (pinned r) k → holds (run_surfaces r) (record_for k s) →
  ∃ o, projected (run_start r) k o s.
Proof.
  unfold started, Daemon.run, Daemon.with_endpoint, pinned.
  destruct (Pins.load (run_pins r)) as [l|]; [|done].
  intros [= <-] Hkept Hc Hk (rs & Hrs & Hr). simpl in Hk.
  set (m := new (run_pins r) (run_surfaces r) (Daemon.register_self cfg (run_tun r))).
  assert (Hall : all_by_key m).
  { intros k' a. unfold Session.admission_of. simpl. by rewrite lookup_empty. }
  destruct (start_pins l m (agree_new _ _ _) Hall) as (Hkeys & _ & Ha0 & _).
  set (m0 := foldl _ m l) in *.
  destruct (proj2 (Hkeys k)) as [o Ho]; [by right|]. exists o.
  assert (Hb : bframe m m0) by (apply bframe_foldl; intros; apply bframe_add_pinned).
  assert (Hsf : surfaces m0 = run_surfaces r).
  { apply (same_files_foldl (λ m pin, (add_pinned (Pins.key pin) (Pins.label pin) m).1) l m).
    intros. apply same_files_add_pinned. }
  destruct (start_accepts_keeps (run_accept r) (run_expose r) (restore_surfaces cfg m0))
    as (Hp & Hs & _). split.
  - apply Hp. by rewrite (frame_peers _ _ (frame_restore cfg m0)).
  - rewrite Hs. unfold restore_surfaces. rewrite Hsf. unfold Surface.load. rewrite Hrs.
    apply (restore_surfaces_exact cfg rs m0 k o s Ha0); [|done|..].
    + destruct Hc as [?|Hn]; [by left|right]. apply (bframe_netstack _ _ Hb). simpl.
      destruct Hn as [n ->]. unfold Daemon.register_self. repeat case_match; by eexists.
    + rewrite (bframe_surface _ _ Hb). unfold surface_of. simpl. by rewrite lookup_empty.
    + by eapply (kept_NoDup_parse Surface.rec_key).
    + exists (record_for k s). split; [done|]. simpl. rewrite parse_to_string. split; [done|].
      by destruct s.
Qed.

End surface_lemmas.


(** ** Properties *)
Section surface_properties.
Context {K : Type} `{EKL : EndpointKeyLaws K} `{DML : DashMapLaws}.
Context `{!JsonCodec Pins.Pin} `{!JsonCodec Surface.SurfaceRecord}
  `{!JsonCodecLaws Surface.SurfaceRecord}.

(** C32: projections survive a restart.  Take any run of a daemon whose surface
    records can be read and written, in which no port announcement comes in on
    a connection of a peer that was forgotten or replaced.  Wherever a peer was
    projected at its end, by announcing ports or by request, a daemon started
    from the records it left (on a system where addresses can be claimed)
    projects that peer again, at that address under that name, if its pins name
    the peer; whatever it is told to accept and expose. *)
Theorem projections_survive_restart (cfg cfg' : Config K) (parse_ip : string → option IpAddr)
    (r r' : Run K) (k : K) (o : ObjId) (s : Surface) :
  started cfg r → kept (K:=K) Surface.rec_key (run_surfaces r) →
  never (step cfg parse_ip) late_on (run_start r) (run_events r) →
  let m := now_at cfg parse_ip r in
  peers m !! k = Some o → surface_of o m = Some s →
  started cfg' r' → run_surfaces r' = surfaces m →
  os cfg' = Surface.Linux ∨ is_Some (run_tun r') →
  (∃ pin, pin ∈ pinned r' ∧ parse_key (Pins.key pin) = Some k) →
  let m' := run_start r' in
  ∃ o', peers m' !! k = Some o' ∧ surface_of o' m' = Some s.
Proof.
  intros Hs Hkept Hlate m Hk Ho Hs' Hf Hc Hpin m'.
  assert (Hm : recorded m).
  { apply recorded_run; [by eapply agree_start|by eapply recorded_start|done]. }
  destruct Hm as [Hkept' Hm].
  apply (start_projects cfg' r' k s Hs'); rewrite ?Hf; [done..|]. by eapply Hm.
Qed.

End surface_properties.

(** ** Concrete runs *)
Section surface_witnesses.

(** Peer 5 is invited by key and projected under a name. *)
Definition toy_projections : list (Event (K:=N)) :=
  [EvRequest (Protocol.ReqInvite (Some "5") None []) [] 0%Z;
   EvRequest (Protocol.ReqProject "5" (Some "127.0.0.1") (Some "box")) [] 0%Z].

Lemma projections_survive_restart_witness :
  let m := now_at Toy.config Toy.parse_ip (toy_run toy_projections) in
  let m' := run_start (toy_restart [] m) in
  ∃ o, peers m' !! 5%N = Some o ∧
       surface_of o m' = Some (Surface.mkSurface Surface.LOCALHOST (Some "box")).
Proof.
  intros m m'. destruct (peers m !! 5%N) as [o|] eqn:Ho; [|by vm_compute in Ho].
  apply (projections_survive_restart Toy.config Toy.config Toy.parse_ip (toy_run toy_projections)
    (toy_restart [] m) 5%N o).
  - apply toy_started.
  - apply toy_file_kept.
  - split; [intros []|split; [intros []|exact I]].
  - exact Ho.
  - vm_compute in Ho. injection Ho as <-. by vm_compute.
  - apply toy_restarted. by vm_compute.
  - reflexivity.
  - by left.
  - exists (Pins.mkPin "5" None). split; [|by vm_compute].
    assert (pinned (toy_restart [] m) = [Pins.mkPin "5" None]) as -> by (by vm_compute). by left.
Defined.

(** The projection of a peer the command line accepts is lost at a restart.
    Here 7 is accepted on the command line and projected by request; started
    again in the same way, with that record still in its file, the daemon knows
    7 and has no surface for it: records are restored before anyone is
    accepted. *)
Theorem accepted_projection_is_lost :
  let es := [EvRequest (Protocol.ReqProject "7" (Some "127.0.0.1") (Some "box")) [] 0%Z] in
  let s := Surface.mkSurface Surface.LOCALHOST (Some "box") in
  let m := now_at Toy.config Toy.parse_ip (toy_run es) in
  let r' := toy_restart ["7"] m in
  started Toy.config r' ∧ holds (run_surfaces r') (record_for 7%N s) ∧
  (∃ o, peers m !! 7%N = Some o ∧ surface_of o m = Some s) ∧
  ∃ o, peers (run_start r') !! 7%N = Some o ∧ surface_of o (run_start r') = None.
Proof.
  intros es s m r'. split; [by apply toy_restarted; vm_compute|]. split.
  - exists [record_for 7%N s]. split; [by vm_compute|by left].
  - split; eexists; split; by vm_compute.
Qed.

End surface_witnesses.
