(* ===== verification/Clap.v ===== *)
(** * The command-line parser ([clap])

    [clap] is not part of the repository; what [src/src/main.rs] says to it is.
    [Clap] is the language of those declarations (commands, arguments, groups,
    as the derive attributes give them) and of what a parse returns, with the
    parser as the one member of a class.  [ClapLaws] is what its documentation
    promises of the declarations the program uses: whatever it accepts satisfies
    the declared requirements and conflicts, and a command line spelled in the
    plain way ([--long value], [-s value], [--flag], a value in its place, the
    name of a subcommand and what it takes) is accepted exactly when it does.
    [Reference] is a parser with these laws. *)

From S2P Require Import Prelude RustStr Surface.

Module Clap.

(** ** Declarations *)

Inductive ArgAction : Type := Set_ | Append | SetTrue.

#[global] Instance action_eq_dec : EqDecision ArgAction.
Proof. solve_decision. Defined.

Inductive ValueParser : Type := VString | VPath | VU16 | VIpAddr | VSocketAddr.

(** An argument without a long or short name is positional. *)
Record Arg : Type := mkArg {
  arg_id : string;
  long : option string;
  short : option ascii;
  action : ArgAction;
  required : bool;
  value_delimiter : option ascii;
  default_value : option string;
  value_parser : ValueParser;
}.

(** An [ArgGroup], of which at most one argument is given. *)
Record ArgGroup : Type := mkGroup { group_required : bool; group_args : list string }.

Inductive Command : Type := mkCommand {
  cmd_name : string;
  args : list Arg;
  groups : list ArgGroup;
  subcommands : list Command;
  subcommand_required : bool;
  args_conflicts_with_subcommands : bool;
}.

(** ** What a parse returns: what was given, in order, and the subcommand *)

Inductive Matches : Type := mkMatches {
  given : list (string * string);
  subcommand : option (string * Matches);
}.

Definition give (a : Arg) (v : string) (m : Matches) : Matches :=
  mkMatches ((arg_id a, v) :: given m) (subcommand m).

(** ** Texts of values ([FromStr] and [Display]) *)
Class Values : Type := {
  parse_u16 : string → option Z;
  parse_ip : string → option Surface.IpAddr;
  parse_socket : string → option (Surface.IpAddr * Z);
}.

(** The parser: [Command::try_get_matches_from], an error being no matches. *)
Class Clap : Type := {
  try_get_matches_from : Command → list string → option Matches;
}.

(** ** Names *)

Definition is_positional (a : Arg) : bool :=
  match long a, short a with None, None => true | _, _ => false end.

Definition positionals (d : Command) : list Arg := filter (λ a, is_positional a = true) (args d).

(** The first element that passes. *)
Fixpoint find_first {A} (f : A → bool) (l : list A) : option A :=
  match l with
  | [] => None
  | x :: l => if f x then Some x else find_first f l
  end.

Definition named (t : string) (a : Arg) : bool :=
  bool_decide ((λ l, "--" +:+ l) <$> long a = Some t) ||
  bool_decide ((λ c, String "-" (String c EmptyString)) <$> short a = Some t).

Definition option_of (d : Command) (t : string) : option Arg := find_first (named t) (args d).

Definition subcommand_of (d : Command) (t : string) : option Command :=
  find_first (λ s, bool_decide (cmd_name s = t)) (subcommands d).

(** ** Plain command lines *)

(** What can be a value: it does not start like an option. *)
Definition is_value (t : string) : bool :=
  match strip_prefix "-" t with Some _ => false | None => true end.

Fixpoint word (t : string) : bool :=
  match t with
  | EmptyString => true
  | String c t => bool_decide (alnum c ∨ c = "-"%char) && word t
  end.

(** [--word] or [-c], without a value attached. *)
Definition is_name (t : string) : bool :=
  match strip_prefix "--" t with
  | Some w => word w && negb (str_is_empty w)
  | None => match strip_prefix "-" t with
            | Some (String c EmptyString) => bool_decide (alnum c)
            | _ => false
            end
  end.

Definition plain (t : string) : bool := is_value t || is_name t.

(** ** The grammar *)

(** [d] reads [ts], its positional arguments [ps] not given yet, as [m]. *)
Inductive Reads : Command → list Arg → list string → Matches → Prop :=
| reads_end d ps : Reads d ps [] (mkMatches [] None)
| reads_flag d ps a t ts m :
    is_value t = false → option_of d t = Some a → action a = SetTrue → Reads d ps ts m →
    Reads d ps (t :: ts) (give a "true" m)
| reads_option d ps a t v ts m :
    is_value t = false → option_of d t = Some a → action a ≠ SetTrue → is_value v = true →
    Reads d ps ts m → Reads d ps (t :: v :: ts) (give a v m)
| reads_positional d ps a v ts m :
    is_value v = true → subcommand_of d v = None → Reads d ps ts m →
    Reads d (a :: ps) (v :: ts) (give a v m)
| reads_subcommand d ps d' v ts m :
    is_value v = true → subcommand_of d v = Some d' → Reads d' (positionals d') ts m →
    Reads d ps (v :: ts) (mkMatches [] (Some (v, m))).

(** ** Requirements and conflicts *)
Section valid.
Context `{!Values}.

(** What a value parser takes: of a path, any text but the empty one. *)
Definition value_ok (p : ValueParser) (v : string) : bool :=
  match p with
  | VString => true
  | VPath => negb (str_is_empty v)
  | VU16 => bool_decide (is_Some (parse_u16 v))
  | VIpAddr => match parse_ip v with Some _ => true | None => false end
  | VSocketAddr => match parse_socket v with Some _ => true | None => false end
  end.

(** [str::split] at a character. *)
Fixpoint split_at (sep : ascii) (s : string) : string * list string :=
  match s with
  | EmptyString => (EmptyString, [])
  | String c s =>
      let '(w, ws) := split_at sep s in
      if decide (c = sep) then (EmptyString, w :: ws) else (String c w, ws)
  end.

Definition split (sep : ascii) (s : string) : list string :=
  let '(w, ws) := split_at sep s in w :: ws.

(** What was given for an argument, as written and as its values. *)
Definition raws (id : string) (g : list (string * string)) : list string :=
  (filter (λ x, x.1 = id) g).*2.

Definition values (a : Arg) (v : string) : list string :=
  match value_delimiter a with
  | Some sep => split sep v
  | None => [v]
  end.

Definition arg_ok (g : list (string * string)) (a : Arg) : bool :=
  let vs := raws (arg_id a) g in
  match action a with
  | Append => true
  | Set_ | SetTrue => bool_decide (length vs <= 1)
  end &&
  (negb (required a) || bool_decide (vs ≠ [])) &&
  match action a with
  | SetTrue => true
  | Set_ | Append => forallb (λ v, forallb (value_ok (value_parser a)) (values a v)) vs
  end.

Definition group_ok (g : list (string * string)) (gr : ArgGroup) : bool :=
  let there := filter (λ id, raws id g ≠ []) (group_args gr) in
  bool_decide (length there <= 1) && (negb (group_required gr) || bool_decide (there ≠ [])).

Fixpoint valid (d : Command) (m : Matches) {struct m} : bool :=
  match m with
  | mkMatches g s =>
      forallb (arg_ok g) (args d) && forallb (group_ok g) (groups d) &&
      match s with
      | None => negb (subcommand_required d)
      | Some (n, m') =>
          (negb (args_conflicts_with_subcommands d) || bool_decide (g = [])) &&
          match subcommand_of d n with
          | Some d' => valid d' m'
          | None => false
          end
      end
  end.

End valid.

(** ** Declarations of the kind the laws are about

    Names are distinct and plain; a command with subcommands has no positional
    arguments, and requires no argument if arguments conflict with them;
    positional arguments take one value each; defaults and delimiters are for
    arguments with values. *)
Definition arg_supported (a : Arg) : bool :=
  match long a with Some l => word l && negb (str_is_empty l) | None => true end &&
  match short a with Some c => bool_decide (alnum c) | None => true end &&
  (negb (is_positional a) || bool_decide (action a = Set_)).

Definition names (a : Arg) : list string :=
  option_list ((λ l, "--" +:+ l) <$> long a) ++
  option_list ((λ c, String "-" (String c EmptyString)) <$> short a).

Fixpoint supported (d : Command) : bool :=
  match d with
  | mkCommand _ args groups subs _ conflict =>
      forallb arg_supported args && bool_decide (NoDup (arg_id <$> args)) &&
      bool_decide (NoDup (args ≫= names)) && bool_decide (NoDup (cmd_name <$> subs)) &&
      (match subs with [] => true | _ :: _ => forallb (λ a, negb (is_positional a)) args end) &&
      (negb conflict || forallb (λ a, negb (required a)) args && forallb (λ g, negb (group_required g)) groups) &&
      forallb supported subs
  end.

(** ** What the parser promises *)
Class ClapLaws `{!Values} `{!Clap} : Prop := {
  accepted_valid : ∀ d argv m,
    supported d = true → try_get_matches_from d argv = Some m → valid d m = true;
  reads_plain : ∀ d prog ts m,
    supported d = true → Forall (λ t, plain t = true) ts →
    try_get_matches_from d (prog :: ts) = Some m ↔
    Reads d (positionals d) ts m ∧ valid d m = true;
}.

(** ** A parser with these laws *)

Fixpoint walk (d : Command) (ps : list Arg) (ts : list string) {struct ts} : option Matches :=
  match ts with
  | [] => Some (mkMatches [] None)
  | t :: ts =>
      if is_value t
      then match subcommand_of d t with
           | Some d' => (λ m, mkMatches [] (Some (t, m))) <$> walk d' (positionals d') ts
           | None => match ps with
                     | a :: ps => give a t <$> walk d ps ts
                     | [] => None
                     end
           end
      else match option_of d t with
           | Some a =>
               if decide (action a = SetTrue) then give a "true" <$> walk d ps ts
               else match ts with
                    | v :: ts => if is_value v then give a v <$> walk d ps ts else None
                    | [] => None
                    end
           | None => None
           end
  end.

Module Reference.
#[local] Instance parser `{!Values} : Clap := {|
  try_get_matches_from d argv :=
    match argv with
    | [] => None
    | _ :: ts =>
        if forallb plain ts
        then m ← walk d (positionals d) ts; if valid d m then Some m else None
        else None
    end;
|}.
End Reference.

End Clap.

(** ** Lemmas *)
Lemma forallb_Forall {A} (f : A → bool) l : forallb f l = true ↔ Forall (λ x, f x = true) l.
Proof.
  induction l as [|x l IH]; simpl; [by split|]. by rewrite andb_true_iff, IH, Forall_cons.
Qed.

Section clap_lemmas.
Context `{!Clap.Values}.
Import Clap.

(** The grammar is what the walk reads. *)
Lemma walk_reads d ps ts m : Reads d ps ts m ↔ walk d ps ts = Some m.
Proof.
  split.
  - induction 1 as [d ps|d ps a t ts m Hv Ho Ha _ IH|d ps a t v ts m Ht Ho Ha Hv _ IH
                   |d ps a v ts m Hv Hs _ IH|d ps d' v ts m Hv Hs _ IH]; cbn [walk].
    + done.
    + by rewrite Hv, Ho, decide_True, IH.
    + by rewrite Ht, Ho, decide_False, Hv, IH.
    + by rewrite Hv, Hs, IH.
    + rewrite Hv, Hs. cbn match. by rewrite IH.
  - remember (length ts) as n eqn:Hn. assert (length ts ≤ n) as Hle by lia. clear Hn.
    revert d ps ts m Hle. induction n as [|n IH]; intros d ps [|t ts] m Hle; simpl in Hle; try lia.
    + intros [= <-]. constructor.
    + intros [= <-]. constructor.
    + cbn [walk]. destruct (is_value t) eqn:Ht.
      * destruct (subcommand_of d t) as [d'|] eqn:Hs.
        -- intros (m' & Hm & ->)%fmap_Some. apply reads_subcommand with d'; [done..|].
           apply IH; [lia|done].
        -- destruct ps as [|a ps]; [done|]. intros (m' & Hm & ->)%fmap_Some.
           apply reads_positional; [done..|]. apply IH; [lia|done].
      * destruct (option_of d t) as [a|] eqn:Ho; [|done]. case_decide as Ha.
        -- intros (m' & Hm & ->)%fmap_Some. apply reads_flag; [done..|]. apply IH; [lia|done].
        -- destruct ts as [|v ts]; [done|]. destruct (is_value v) eqn:Hv; [|done].
           intros (m' & Hm & ->)%fmap_Some. apply reads_option; [done..|].
           simpl in Hle. apply IH; [lia|done].
Qed.

#[export] Instance reference_laws : @ClapLaws _ Reference.parser.
Proof.
  split.
  - intros d [|prog ts] m _; simpl; [done|]. case_match; [|done].
    intros (m' & _ & Hm)%bind_Some. case_match; [|done]. by injection Hm as <-.
  - intros d prog ts m _ Hts. simpl.
    apply forallb_Forall in Hts as ->.
    rewrite walk_reads. destruct (walk d (positionals d) ts) as [m'|]; cbn [mbind option_bind].
    2: { split; [done|by intros [? _]]. }
    destruct (valid d m') eqn:Hm; split; try done.
    + intros [= ->]. done.
    + intros [[= ->] _]. done.
    + intros [[= ->] Hm']. congruence.
Qed.

(** Whatever the parser, a plain command line is parsed as the reference does. *)
Lemma parse_plain `{!Clap} `{!ClapLaws} d prog ts :
  supported d = true → Forall (λ t, plain t = true) ts →
  try_get_matches_from d (prog :: ts) =
  (m ← walk d (positionals d) ts; if valid d m then Some m else None).
Proof.
  intros Hd Hts. apply option_eq. intros m. rewrite reads_plain, walk_reads by done.
  destruct (walk d (positionals d) ts) as [m'|]; cbn [mbind option_bind].
  2: { split; [by intros [? _]|done]. }
  destruct (valid d m') eqn:Hm; split; try done.
  - by intros [[= ->] _].
  - intros [= ->]. done.
  - intros [[= ->] Hm']. congruence.
Qed.

End clap_lemmas.
