(* ===== verification/Cli.v ===== *)
(** * The command line ([src/src/main.rs])

    The declarations of [Cli], [Command] and [DaemonService] as [clap] gets
    them, what the derived code makes of its matches, and with that
    [Cli::try_parse_from], over any parser with [clap]'s laws.  The properties
    say that what parses is as [Control.declared] has it, and that every such
    command whose texts do not look like options can be typed.  [CliTests] are the tests of the declarations. *)

From stdpp Require Import pretty.
From S2P Require Import Prelude RustStr Text Json Surface Host Control Clap.

Module Cli.
Import Clap.

(** ** Declarations *)

(** [#[arg(long)]] and its relatives, on a field of type [Option] or with a
    default; on a [Vec]; on a [bool]; and a field without attributes. *)
Definition opt (id long : string) (p : ValueParser) (default : option string) : Arg :=
  mkArg id (Some long) None Set_ false None default p.

Definition opts (id long : string) (short : option ascii) (p : ValueParser)
    (delimiter : option ascii) : Arg :=
  mkArg id (Some long) short Append false delimiter None p.

Definition flag (id long : string) : Arg := mkArg id (Some long) None SetTrue false None None VString.

Definition positional (id : string) (p : ValueParser) (required : bool) : Arg :=
  mkArg id None None Set_ required None None p.

(** A variant with no subcommands. *)
Definition leaf (name : string) (args : list Arg) (groups : list ArgGroup) : Command :=
  mkCommand name args groups [] false false.

(** [DaemonService]. *)
Definition service_commands : list Command :=
  [leaf "install" [] []; leaf "up" [] []; leaf "down" [] []; leaf "remove" [] [];
   leaf "status" [] []].

(** [Command::Daemon]. *)
Definition arg_host := opt "host" "host" VIpAddr (Some "127.0.0.1").
Definition arg_accept := opts "accept" "accept" (Some "a"%char) VString None.
Definition arg_ports := opts "ports" "expose" (Some "e"%char) VU16 (Some ","%char).
Definition arg_key_path := opt "key_path" "key" VPath None.
Definition arg_resolver := opt "resolver" "resolver" VSocketAddr None.
Definition arg_tun := opt "tun" "tun" VString None.
Definition arg_socket_owner := opt "socket_owner" "socket-owner" VString None.
Definition arg_socket_mode := opt "socket_mode" "socket-mode" VString None.
Definition arg_name := opt "name" "name" VString None.

Definition daemon_command : Command :=
  mkCommand "daemon"
    [arg_host; arg_accept; arg_ports; arg_key_path; arg_resolver; arg_tun; arg_socket_owner;
     arg_socket_mode; arg_name]
    [] service_commands false true.

(** The other variants. *)
Definition arg_key := positional "key" VString false.
Definition arg_as := opt "name" "as" VString None.
Definition arg_expose := opts "expose" "expose" None VU16 (Some ","%char).

Definition invite_command : Command := leaf "invite" [arg_key; arg_as; arg_expose] [].

Definition arg_handle := positional "handle" VString true.

Definition accept_command : Command := leaf "accept" [arg_handle; arg_as] [].

Definition arg_peer := positional "peer" VString true.

Definition forget_command : Command := leaf "forget" [arg_peer] [].

Definition arg_port := positional "port" VU16 true.
Definition arg_to_many := opts "to" "to" None VString None.
Definition arg_all := flag "all" "all".

Definition expose_command : Command :=
  leaf "expose" [arg_port; arg_to_many; arg_all] [mkGroup true ["to"; "all"]].

Definition arg_to := opt "to" "to" VString None.

Definition unexpose_command : Command := leaf "unexpose" [arg_port; arg_to] [].

Definition list_command : Command := leaf "list" [] [].

Definition key_command : Command := leaf "key" [] [].

Definition arg_ip := opt "ip" "ip" VIpAddr None.

Definition project_command : Command := leaf "project" [arg_peer; arg_ip; arg_as] [].

Definition unproject_command : Command := leaf "unproject" [arg_peer] [].

(** [Cli]. *)
Definition arg_socket := opt "socket" "socket" VString (Some "/tmp/pai-sho.sock").

Definition cli_command : Command :=
  mkCommand "pai-sho" [arg_socket] []
    [daemon_command; invite_command; accept_command; forget_command; expose_command;
     unexpose_command; list_command; key_command; project_command; unproject_command]
    true false.

(** ** What the derived code makes of the matches *)
Section derive.
Context `{!Values}.

Definition get_one (a : Arg) (m : Matches) : option string :=
  match raws (arg_id a) (given m) with
  | v :: _ => Some v
  | [] => default_value a
  end.

Definition get_many (a : Arg) (m : Matches) : list string :=
  raws (arg_id a) (given m) ≫= Clap.values a.

Definition get_flag (a : Arg) (m : Matches) : bool :=
  bool_decide (raws (arg_id a) (given m) ≠ []).

(** An [Option] of a type with a parser: [None] outside is an error. *)
Definition get_parsed {A} (parse : string → option A) (a : Arg) (m : Matches) :
    option (option A) :=
  match get_one a m with
  | Some v => Some <$> parse v
  | None => Some None
  end.

Definition get_u16s (a : Arg) (m : Matches) : option (list Z) := mapM parse_u16 (get_many a m).

Definition service_of (name : string) : option Control.DaemonService :=
  match name with
  | "install" => Some Control.Install
  | "up" => Some Control.Up
  | "down" => Some Control.Down
  | "remove" => Some Control.Remove
  | "status" => Some Control.Status
  | _ => None
  end.

Definition daemon_args (m : Matches) : option Control.DaemonArgs :=
  service ← match subcommand m with
            | Some (n, _) => Some <$> service_of n
            | None => Some None
            end;
  host ← get_one arg_host m ≫= parse_ip;
  ports ← get_u16s arg_ports m;
  resolver ← get_parsed parse_socket arg_resolver m;
  Some {|
    Control.service := service;
    Control.host := host;
    Control.accept := get_many arg_accept m;
    Control.ports := ports;
    Control.key_path := get_one arg_key_path m;
    Control.resolver := resolver;
    Control.tun := get_one arg_tun m;
    Control.socket_owner := get_one arg_socket_owner m;
    Control.socket_mode := get_one arg_socket_mode m;
    Control.name := get_one arg_name m;
  |}.

Definition command_of (name : string) (m : Matches) : option Control.Command :=
  match name with
  | "daemon" => Control.CmdDaemon <$> daemon_args m
  | "invite" =>
      expose ← get_u16s arg_expose m;
      Some (Control.CmdInvite (get_one arg_key m) (get_one arg_as m) expose)
  | "accept" =>
      handle ← get_one arg_handle m; Some (Control.CmdAccept handle (get_one arg_as m))
  | "forget" => peer ← get_one arg_peer m; Some (Control.CmdForget peer)
  | "expose" =>
      port ← get_one arg_port m ≫= parse_u16;
      Some (Control.CmdExpose port (get_many arg_to_many m) (get_flag arg_all m))
  | "unexpose" =>
      port ← get_one arg_port m ≫= parse_u16; Some (Control.CmdUnexpose port (get_one arg_to m))
  | "list" => Some Control.CmdList
  | "key" => Some Control.CmdKey
  | "project" =>
      peer ← get_one arg_peer m;
      ip ← get_parsed parse_ip arg_ip m;
      Some (Control.CmdProject peer ip (get_one arg_as m))
  | "unproject" => peer ← get_one arg_peer m; Some (Control.CmdUnproject peer)
  | _ => None
  end.

Definition from_arg_matches (m : Matches) : option Control.Cli :=
  socket ← get_one arg_socket m;
  '(name, sub) ← subcommand m;
  command ← command_of name sub;
  Some (Control.mkCli socket command).

Context `{!Clap}.

(** [Cli::try_parse_from]. *)
Definition try_parse_from (argv : list string) : option Control.Cli :=
  m ← try_get_matches_from cli_command argv; from_arg_matches m.

End derive.

(** ** Typing a command *)
Section type_out.
(** [Display] of the values. *)
Variable show_u16 : Z → string.
Variable show_ip : Surface.IpAddr → string.
Variable show_socket : Surface.IpAddr * Z → string.

Definition service_name (s : Control.DaemonService) : string :=
  match s with
  | Control.Install => "install"
  | Control.Up => "up"
  | Control.Down => "down"
  | Control.Remove => "remove"
  | Control.Status => "status"
  end.

(** A name before each value. *)
Definition with_name (t : string) (vs : list string) : list string := vs ≫= λ v, [t; v].

Definition daemon_words (a : Control.DaemonArgs) : list string :=
  match Control.service a with
  | Some s => [service_name s]
  | None =>
      with_name "--host" [show_ip (Control.host a)] ++
      with_name "--accept" (Control.accept a) ++
      with_name "--expose" (show_u16 <$> Control.ports a) ++
      with_name "--key" (option_list (Control.key_path a)) ++
      with_name "--resolver" (option_list (show_socket <$> Control.resolver a)) ++
      with_name "--tun" (option_list (Control.tun a)) ++
      with_name "--socket-owner" (option_list (Control.socket_owner a)) ++
      with_name "--socket-mode" (option_list (Control.socket_mode a)) ++
      with_name "--name" (option_list (Control.name a))
  end.

Definition command_words (c : Control.Command) : list string :=
  match c with
  | Control.CmdDaemon a => "daemon" :: daemon_words a
  | Control.CmdInvite key name expose =>
      "invite" :: option_list key ++ with_name "--as" (option_list name) ++
      with_name "--expose" (show_u16 <$> expose)
  | Control.CmdAccept handle name => "accept" :: handle :: with_name "--as" (option_list name)
  | Control.CmdForget peer => ["forget"; peer]
  | Control.CmdExpose port to all =>
      "expose" :: show_u16 port :: with_name "--to" to ++ (if all then ["--all"] else [])
  | Control.CmdUnexpose port to => "unexpose" :: show_u16 port :: with_name "--to" (option_list to)
  | Control.CmdList => ["list"]
  | Control.CmdKey => ["key"]
  | Control.CmdProject peer ip name =>
      "project" :: peer :: with_name "--ip" (option_list (show_ip <$> ip)) ++
      with_name "--as" (option_list name)
  | Control.CmdUnproject peer => ["unproject"; peer]
  end.

Definition words (cli : Control.Cli) : list string :=
  "pai-sho" :: with_name "--socket" [Control.socket cli] ++ command_words (Control.command cli).

End type_out.

(** The texts of a command: none may look like an option. *)
Definition texts (c : Control.Command) : list string :=
  match c with
  | Control.CmdDaemon a =>
      Control.accept a ++ option_list (Control.key_path a) ++ option_list (Control.tun a) ++
      option_list (Control.socket_owner a) ++ option_list (Control.socket_mode a) ++
      option_list (Control.name a)
  | Control.CmdInvite key name _ => option_list key ++ option_list name
  | Control.CmdAccept handle name => handle :: option_list name
  | Control.CmdForget peer | Control.CmdUnproject peer => [peer]
  | Control.CmdExpose _ to _ => to
  | Control.CmdUnexpose _ to => option_list to
  | Control.CmdProject peer _ name => peer :: option_list name
  | Control.CmdList | Control.CmdKey => []
  end.

Definition typeable (cli : Control.Cli) : Prop :=
  Forall (λ t, is_value t = true) (Control.socket cli :: texts (Control.command cli)).

(** What the texts of values promise: a parsed port is a [u16], what is shown
    parses back and can be typed as one value, and so does the default host. *)
Class ValuesLaws `{!Values} (show_u16 : Z → string) (show_ip : Surface.IpAddr → string)
    (show_socket : Surface.IpAddr * Z → string) : Prop := {
  parse_u16_range : ∀ s p, parse_u16 s = Some p → u16_range p;
  parse_show_u16 : ∀ p, u16_range p → parse_u16 (show_u16 p) = Some p;
  show_u16_value : ∀ p, u16_range p →
    is_value (show_u16 p) = true ∧ str_contains ","%char (show_u16 p) = false;
  parse_show_ip : ∀ ip, parse_ip (show_ip ip) = Some ip;
  show_ip_value : ∀ ip, is_value (show_ip ip) = true;
  parse_localhost : parse_ip "127.0.0.1" = Some Surface.LOCALHOST;
  parse_show_socket : ∀ s, parse_socket (show_socket s) = Some s;
  show_socket_value : ∀ s, is_value (show_socket s) = true;
}.

End Cli.

Import Clap Cli.

(** ** Lemmas: what is accepted *)
Section accepted_lemmas.
Context `{!Values}.

Lemma find_first_Some {A} (f : A → bool) l x : find_first f l = Some x → x ∈ l ∧ f x = true.
Proof.
  induction l as [|y l IH]; simpl; [done|]. destruct (f y) eqn:Hy.
  - intros [= ->]. split; [by left|done].
  - intros [? ?]%IH. split; [by right|done].
Qed.

Lemma subcommand_of_Some d n d' :
  subcommand_of d n = Some d' → d' ∈ subcommands d ∧ cmd_name d' = n.
Proof. intros [? Hn]%find_first_Some. by rewrite bool_decide_eq_true in Hn. Qed.

Lemma arg_ok_inv g a :
  arg_ok g a = true →
  (action a ≠ Append → length (raws (arg_id a) g) ≤ 1) ∧
  (required a = true → raws (arg_id a) g ≠ []) ∧
  (action a ≠ SetTrue → Forall (λ v, value_ok (value_parser a) v = true)
                          (raws (arg_id a) g ≫= Clap.values a)).
Proof.
  unfold arg_ok. rewrite !andb_true_iff. intros [[Hone Hreq] Hval]. split_and!.
  - intros Ha. destruct (action a); try done; by rewrite bool_decide_eq_true in Hone.
  - intros Hr. rewrite Hr in Hreq. simpl in Hreq. by rewrite bool_decide_eq_true in Hreq.
  - intros Ha. assert (forallb (λ v, forallb (value_ok (value_parser a)) (Clap.values a v))
      (raws (arg_id a) g) = true) as Hv by (by destruct (action a)).
    clear Hval Hone Hreq. induction (raws (arg_id a) g) as [|v vs IH]; csimpl; [done|].
    simpl in Hv. apply andb_true_iff in Hv as [Hv Hvs]. apply Forall_app.
    split; [by apply forallb_Forall|auto].
Qed.

Lemma mapM_u16s vs :
  Forall (λ v, value_ok VU16 v = true) vs →
  (∀ s p, parse_u16 s = Some p → u16_range p) →
  ∃ ps, mapM parse_u16 vs = Some ps ∧ Forall u16_range ps.
Proof.
  intros Hvs Hr. induction Hvs as [|v vs Hv _ (ps & Hps & Hall)]; [by exists []|].
  simpl in Hv. rewrite bool_decide_eq_true in Hv. destruct Hv as [p Hp].
  exists (p :: ps). simpl. rewrite Hp, Hps. split; [done|]. constructor; eauto.
Qed.

(** A [Vec<u16>], an [Option] with a parser, a required field. *)
Lemma get_u16s_ok a m :
  arg_ok (given m) a = true → action a = Append → value_parser a = VU16 →
  (∀ s p, parse_u16 s = Some p → u16_range p) →
  ∃ ps, get_u16s a m = Some ps ∧ Forall u16_range ps.
Proof.
  intros (_ & _ & Hv)%arg_ok_inv Ha Hp Hr. unfold get_u16s, get_many.
  apply mapM_u16s; [|done]. rewrite <- Hp. apply Hv. by rewrite Ha.
Qed.

Lemma get_one_ok a m v :
  arg_ok (given m) a = true → action a = Set_ → value_delimiter a = None →
  raws (arg_id a) (given m) = [v] → value_ok (value_parser a) v = true.
Proof.
  intros (_ & _ & Hv)%arg_ok_inv Ha Hd Hr. rewrite Hr in Hv.
  specialize (Hv ltac:(by rewrite Ha)). unfold Clap.values in Hv. rewrite Hd in Hv.
  by inversion Hv.
Qed.

Lemma get_one_cases a m :
  arg_ok (given m) a = true → action a = Set_ →
  (raws (arg_id a) (given m) = [] ∧ get_one a m = default_value a) ∨
  (∃ v, raws (arg_id a) (given m) = [v] ∧ get_one a m = Some v).
Proof.
  intros (Hone & _ & _)%arg_ok_inv Ha. specialize (Hone ltac:(by rewrite Ha)).
  unfold get_one. destruct (raws _ _) as [|v [|v' vs]]; simpl in Hone; [by left|right; by exists v|lia].
Qed.

Lemma get_required a m :
  arg_ok (given m) a = true → action a = Set_ → value_delimiter a = None → required a = true →
  ∃ v, get_one a m = Some v ∧ value_ok (value_parser a) v = true.
Proof.
  intros Hok Ha Hd Hr. destruct (get_one_cases a m Hok Ha) as [[Hnil _]|(v & Hv & ->)].
  - by destruct (proj1 (proj2 (arg_ok_inv _ _ Hok)) Hr).
  - exists v. split; [done|]. by eapply get_one_ok.
Qed.

Lemma get_parsed_ok {A} (parse : string → option A) a m :
  arg_ok (given m) a = true → action a = Set_ → value_delimiter a = None →
  default_value a = None → (∀ v, value_ok (value_parser a) v = true → is_Some (parse v)) →
  is_Some (get_parsed parse a m).
Proof.
  intros Hok Ha Hd Hdef Hp. unfold get_parsed.
  destruct (get_one_cases a m Hok Ha) as [[_ ->]|(v & Hv & ->)].
  - rewrite Hdef. by eexists.
  - destruct (Hp v) as [x ->]; [by eapply get_one_ok|]. by eexists.
Qed.

Lemma get_path_ok a m :
  arg_ok (given m) a = true → action a = Set_ → value_delimiter a = None →
  default_value a = None → value_parser a = VPath → get_one a m ≠ Some "".
Proof.
  intros Hok Ha Hd Hdef Hp Hm. destruct (get_one_cases a m Hok Ha) as [[_ Hn]|(v & Hv & Hn)];
    rewrite Hn in Hm; [by rewrite Hdef in Hm|].
  injection Hm as ->. apply (get_one_ok a m _ Hok Ha Hd) in Hv. by rewrite Hp in Hv.
Qed.

Lemma get_default {A} (parse : string → option A) a m t :
  arg_ok (given m) a = true → action a = Set_ → value_delimiter a = None →
  default_value a = Some t → is_Some (parse t) →
  (∀ v, value_ok (value_parser a) v = true → is_Some (parse v)) →
  is_Some (get_one a m ≫= parse).
Proof.
  intros Hok Ha Hd Hdef Ht Hp.
  destruct (get_one_cases a m Hok Ha) as [[_ ->]|(v & Hv & ->)].
  - by rewrite Hdef.
  - simpl. apply Hp. by eapply get_one_ok.
Qed.

Lemma value_ok_u16 v : value_ok VU16 v = true → is_Some (parse_u16 v).
Proof. simpl. by rewrite bool_decide_eq_true. Qed.

Lemma value_ok_ip v : value_ok VIpAddr v = true → is_Some (parse_ip v).
Proof. simpl. by destruct (parse_ip v). Qed.

Lemma value_ok_socket v : value_ok VSocketAddr v = true → is_Some (parse_socket v).
Proof. simpl. by destruct (parse_socket v). Qed.

End accepted_lemmas.

(** ** What the derived code makes of valid matches *)
Section derived_lemmas.
Context `{!Values}.
Hypothesis parse_u16_range : ∀ s p, parse_u16 s = Some p → u16_range p.
Hypothesis parse_localhost : parse_ip "127.0.0.1" = Some Surface.LOCALHOST.

(** The checks of a declaration with concrete arguments, one by one. *)
Ltac checks H :=
  cbn [forallb args leaf cli_command daemon_command invite_command accept_command forget_command
       expose_command unexpose_command list_command key_command project_command
       unproject_command] in H;
  repeat match type of H with
         | (_ && _) = true => let H1 := fresh "Hok" in apply andb_true_iff in H as [H1 H]
         end.

Lemma valid_inv d m :
  valid d m = true →
  forallb (arg_ok (given m)) (args d) = true ∧ forallb (group_ok (given m)) (groups d) = true ∧
  (subcommand m = None ∧ subcommand_required d = false ∨
   ∃ n m' d', subcommand m = Some (n, m') ∧ d' ∈ subcommands d ∧ cmd_name d' = n ∧
     valid d' m' = true ∧ (args_conflicts_with_subcommands d = true → given m = [])).
Proof.
  destruct m as [g s]. simpl. rewrite !andb_true_iff. intros [[Ha Hg] Hs].
  split_and!; [done..|]. destruct s as [[n m']|]; [right|left].
  - apply andb_true_iff in Hs as [Hc Hs]. destruct (subcommand_of d n) as [d'|] eqn:Hd; [|done].
    apply subcommand_of_Some in Hd as [? ?]. exists n, m', d'. split_and!; try done.
    intros Hx. rewrite Hx in Hc. simpl in Hc. by rewrite bool_decide_eq_true in Hc.
  - split; [done|]. by destruct (subcommand_required d).
Qed.

Lemma get_one_nil a m : given m = [] → get_one a m = default_value a.
Proof. unfold get_one, raws. by intros ->. Qed.

Lemma daemon_args_ok m :
  valid daemon_command m = true →
  ∃ a, daemon_args m = Some a ∧ Control.declared (Control.CmdDaemon a).
Proof.
  intros (Hargs & _ & Hsub)%valid_inv. unfold daemon_args. checks Hargs.
  destruct (get_u16s_ok arg_ports m) as (ps & Hps & Hr); [done..|].
  destruct (get_default parse_ip arg_host m "127.0.0.1") as [host Hhost];
    [done..|by rewrite parse_localhost|apply value_ok_ip|].
  destruct (get_parsed_ok parse_socket arg_resolver m) as [res Hres];
    [done..|apply value_ok_socket|].
  assert (Hkey : get_one arg_key_path m ≠ Some "") by by apply get_path_ok.
  destruct Hsub as [[-> _]|(n & m' & d' & -> & Hin & Hn & _ & Hc)].
  - cbn [mbind option_bind]. rewrite Hhost, Hps, Hres. cbn [mbind option_bind].
    eexists. split; [done|]. do 2 (split; [done|]). by intros [? ?].
  - assert (is_Some (service_of n)) as [s Hs].
    { cbn [subcommands daemon_command] in Hin. unfold service_commands in Hin. rewrite !elem_of_cons in Hin.
      destruct_or?; subst; try (by eexists). by apply elem_of_nil in Hin. }
    rewrite Hs. cbn [mbind option_bind fmap option_fmap option_map].
    rewrite Hhost, Hps, Hres. cbn [mbind option_bind].
    eexists. split; [done|]. do 2 (split; [done|]). intros _. specialize (Hc eq_refl).
    unfold get_parsed in Hres. rewrite !get_one_nil in Hhost, Hres by done.
    cbn [default_value arg_host opt] in Hhost. simpl in Hhost, Hres.
    rewrite parse_localhost in Hhost. injection Hhost as <-. injection Hres as <-.
    unfold Control.no_args. simpl. unfold get_u16s, get_many, raws in *. rewrite Hc in *.
    simpl in Hps. injection Hps as <-. rewrite !get_one_nil by done. done.
Qed.

Lemma expose_grantees m :
  forallb (group_ok (given m)) (groups expose_command) = true →
  (get_many arg_to_many m = [] ↔ get_flag arg_all m = true).
Proof.
  unfold get_many, get_flag. cbn [arg_to_many arg_all opts flag arg_id groups expose_command leaf forallb].
  unfold group_ok. cbn [group_args group_required].
  assert (Hto : raws "to" (given m) ≫= Clap.values arg_to_many = [] ↔ raws "to" (given m) = []).
  { by destruct (raws "to" (given m)). }
  rewrite Hto, bool_decide_eq_true. rewrite !filter_cons, filter_nil.
  do 2 case_decide; simpl; naive_solver.
Qed.

Lemma command_of_ok d m :
  d ∈ subcommands cli_command → valid d m = true →
  ∃ c, command_of (cmd_name d) m = Some c ∧ Control.declared c.
Proof.
  cbn [subcommands cli_command]. rewrite !elem_of_cons. intros Hd Hv.
  destruct_or?; [| | | | | | | | | |by apply elem_of_nil in Hd]; subst d;
    cbn [cmd_name daemon_command invite_command accept_command forget_command expose_command
         unexpose_command list_command key_command project_command unproject_command leaf command_of].
  { destruct (daemon_args_ok m Hv) as (a & -> & Ha). by exists (Control.CmdDaemon a). }
  all: apply valid_inv in Hv as (Hargs & Hgroups & _); checks Hargs.
  - destruct (get_u16s_ok arg_expose m) as (ps & -> & Hr); [done..|]. by eexists.
  - destruct (get_required arg_handle m) as (v & -> & _); [done..|]. by eexists.
  - destruct (get_required arg_peer m) as (v & -> & _); [done..|]. by eexists.
  - destruct (get_required arg_port m) as (v & -> & Hp); [done..|].
    destruct (value_ok_u16 v Hp) as [p Hp']. simpl. rewrite Hp'. eexists. split; [done|].
    split; [by eapply parse_u16_range|]. by apply expose_grantees.
  - destruct (get_required arg_port m) as (v & -> & Hp); [done..|].
    destruct (value_ok_u16 v Hp) as [p Hp']. simpl. rewrite Hp'. eexists. split; [done|].
    by eapply parse_u16_range.
  - by eexists.
  - by eexists.
  - destruct (get_required arg_peer m) as (v & -> & _); [done..|].
    destruct (get_parsed_ok parse_ip arg_ip m) as [ip ->]; [done..|apply value_ok_ip|]. by eexists.
  - destruct (get_required arg_peer m) as (v & -> & _); [done..|]. by eexists.
Qed.

Lemma cli_supported : supported cli_command = true.
Proof. by vm_compute. Qed.

Lemma from_arg_matches_ok m :
  valid cli_command m = true →
  ∃ cli, from_arg_matches m = Some cli ∧ Control.declared (Control.command cli).
Proof.
  intros (Hargs & _ & Hsub)%valid_inv. checks Hargs.
  destruct Hsub as [[_ [=]]|(n & m' & d' & Hs & Hin & <- & Hv & _)].
  destruct (command_of_ok d' m' Hin Hv) as (c & Hc & Hdecl).
  unfold from_arg_matches. rewrite Hs.
  assert (is_Some (get_one arg_socket m)) as [s ->].
  { destruct (get_one_cases arg_socket m) as [[_ ->]|(v & _ & ->)]; try done; by eexists. }
  cbn [mbind option_bind]. rewrite Hc. by eexists.
Qed.

End derived_lemmas.

(** ** Lemmas: what is typed *)
Section typed_lemmas.
Context `{!Values}.

(** An argument given these values, one by one. *)
Definition gives (a : Arg) (vs : list string) (m : Matches) : Matches := foldr (give a) m vs.

Lemma given_gives a vs m : given (gives a vs m) = ((λ v, (arg_id a, v)) <$> vs) ++ given m.
Proof. induction vs as [|v vs IH]; csimpl; [done|]. by rewrite IH. Qed.

Lemma subcommand_gives a vs m : subcommand (gives a vs m) = subcommand m.
Proof. by induction vs. Qed.

Lemma raws_gives id a vs m :
  raws id (given (gives a vs m)) = (if String.eqb (arg_id a) id then vs else []) ++ raws id (given m).
Proof.
  rewrite given_gives. unfold raws. rewrite filter_app, fmap_app. f_equal.
  destruct (String.eqb_spec (arg_id a) id) as [Heq|Hne].
  - induction vs as [|v vs IH]; csimpl; [done|]. by rewrite filter_cons_True, fmap_cons, IH.
  - induction vs as [|v vs IH]; csimpl; [done|]. by rewrite filter_cons_False.
Qed.

Lemma walk_named d ps t a vs rest :
  option_of d t = Some a → is_value t = false → action a ≠ SetTrue →
  Forall (λ v, is_value v = true) vs →
  walk d ps (with_name t vs ++ rest) = gives a vs <$> walk d ps rest.
Proof.
  intros Ho Ht Ha Hvs. induction Hvs as [|v vs Hv _ IH]; csimpl.
  - by destruct (walk d ps rest).
  - rewrite Ht, Ho, decide_False, Hv by done. rewrite IH. by destruct (walk d ps rest).
Qed.

Lemma plain_named t vs :
  is_name t = true → Forall (λ v, is_value v = true) vs →
  Forall (λ t, plain t = true) (with_name t vs).
Proof.
  intros Ht Hvs. induction Hvs as [|v vs Hv _ IH]; csimpl; [constructor|].
  constructor; [unfold plain; by rewrite Ht, orb_true_r|].
  constructor; [unfold plain; by rewrite Hv|done].
Qed.

Lemma plain_values vs : Forall (λ v, is_value v = true) vs → Forall (λ t, plain t = true) vs.
Proof. intros Hvs. eapply Forall_impl; [exact Hvs|]. unfold plain. by intros v ->. Qed.

(** An option given at most once, an option given any number of times. *)
Lemma arg_ok_option g a o :
  raws (arg_id a) g = option_list o → action a = Set_ → required a = false →
  value_delimiter a = None → (∀ v, o = Some v → value_ok (value_parser a) v = true) →
  arg_ok g a = true.
Proof.
  intros Hr Ha Hq Hd Hv. unfold arg_ok. rewrite Hr, Ha, Hq. destruct o as [v|]; [|done].
  unfold Clap.values. simpl. rewrite Hd. simpl. by rewrite (Hv v).
Qed.

Lemma arg_ok_one g a v :
  raws (arg_id a) g = [v] → action a = Set_ → value_delimiter a = None →
  value_ok (value_parser a) v = true → arg_ok g a = true.
Proof.
  intros Hr Ha Hd Hv. unfold arg_ok, Clap.values. rewrite Hr, Ha, Hd. simpl. rewrite Hv. simpl.
  by destruct (required a).
Qed.

Lemma arg_ok_many g a vs :
  raws (arg_id a) g = vs → action a = Append → required a = false →
  Forall (λ v, value_ok (value_parser a) v = true) (vs ≫= Clap.values a) → arg_ok g a = true.
Proof.
  intros Hr Ha Hq Hv. unfold arg_ok. rewrite Hr, Ha, Hq. simpl. clear Hr.
  induction vs as [|v vs IH]; [done|]. csimpl in Hv. apply Forall_app in Hv as [Hv Hvs]. simpl.
  apply andb_true_iff. split; [by apply forallb_Forall|auto].
Qed.

(** A value without its separator is one value. *)
Lemma split_one sep s : str_contains sep s = false → split sep s = [s].
Proof.
  unfold split. induction s as [|c s IH]; simpl; [done|]. case_decide as Hc; [done|].
  intros Hs. specialize (IH Hs).
  destruct (split_at sep s) as [w ws]. by injection IH as -> ->.
Qed.

Context (show_u16 : Z → string) (show_ip : Surface.IpAddr → string).
Context (show_socket : Surface.IpAddr * Z → string).
Context `{!ValuesLaws show_u16 show_ip show_socket}.

Lemma show_ports_values a ps :
  value_delimiter a = Some ","%char → Forall u16_range ps →
  (show_u16 <$> ps) ≫= Clap.values a = show_u16 <$> ps ∧
  Forall (λ v, is_value v = true) (show_u16 <$> ps) ∧
  Forall (λ v, value_ok VU16 v = true) (show_u16 <$> ps) ∧
  mapM parse_u16 (show_u16 <$> ps) = Some ps.
Proof.
  intros Hd Hps. unfold Clap.values. rewrite Hd.
  induction Hps as [|p ps Hp _ (IH1 & IH2 & IH3 & IH4)]; csimpl; [done|].
  destruct (show_u16_value p Hp) as [Hv Hc]. rewrite split_one, IH1 by done.
  split; [done|]. split; [by constructor|]. split.
  - constructor; [|done]. simpl. rewrite parse_show_u16 by done. by apply bool_decide_true.
  - rewrite parse_show_u16 by done. apply bind_Some. exists p. split; [done|].
    apply bind_Some. by exists ps.
Qed.

(** The values given for an argument, when the ids are concrete. *)
Ltac raws_of := rewrite !raws_gives; cbn; by rewrite ?app_nil_r.

Lemma get_one_option a m o :
  raws (arg_id a) (given m) = option_list o → default_value a = None → get_one a m = o.
Proof. unfold get_one. intros -> ->. by destruct o. Qed.

Lemma valid_leaf d m :
  forallb (arg_ok (given m)) (args d) = true → forallb (group_ok (given m)) (groups d) = true →
  subcommand m = None → subcommand_required d = false → valid d m = true.
Proof. destruct m as [g s]. simpl. intros -> -> -> ->. done. Qed.

Lemma get_one_given a m v : raws (arg_id a) (given m) = [v] → get_one a m = Some v.
Proof. unfold get_one. by intros ->. Qed.

Lemma get_many_plain a m vs :
  raws (arg_id a) (given m) = vs → value_delimiter a = None → get_many a m = vs.
Proof.
  unfold get_many, Clap.values. intros -> ->. induction vs as [|v vs IH]; csimpl; [done|]. by rewrite IH.
Qed.

Lemma get_u16s_plain a m ps :
  raws (arg_id a) (given m) = show_u16 <$> ps → value_delimiter a = Some ","%char →
  Forall u16_range ps → get_u16s a m = Some ps.
Proof.
  intros Hr Hd Hps. unfold get_u16s, get_many. rewrite Hr.
  destruct (show_ports_values a ps Hd Hps) as (-> & _ & _ & ->). done.
Qed.

Lemma arg_ok_ports g a ps :
  raws (arg_id a) g = show_u16 <$> ps → action a = Append → required a = false →
  value_delimiter a = Some ","%char → value_parser a = VU16 → Forall u16_range ps → arg_ok g a = true.
Proof.
  intros Hr Ha Hq Hd Hp Hps. apply (arg_ok_many _ _ (show_u16 <$> ps)); [done..|]. rewrite Hp.
  by destruct (show_ports_values a ps Hd Hps) as (-> & _ & ? & _).
Qed.

Lemma arg_ok_texts g a vs :
  raws (arg_id a) g = vs → action a = Append → required a = false → value_delimiter a = None →
  value_parser a = VString → arg_ok g a = true.
Proof.
  intros Hr Ha Hq Hd Hp. apply (arg_ok_many _ _ vs); [done..|]. rewrite Hp.
  by apply Forall_forall.
Qed.

Lemma is_value_ports ps : Forall u16_range ps → Forall (λ v, is_value v = true) (show_u16 <$> ps).
Proof. intros Hps. by destruct (show_ports_values arg_ports ps eq_refl Hps) as (_ & ? & _). Qed.

Lemma is_value_socket o : Forall (λ v, is_value v = true) (option_list (show_socket <$> o)).
Proof. destruct o; repeat constructor. apply show_socket_value. Qed.

Lemma is_value_ip o : Forall (λ v, is_value v = true) (option_list (show_ip <$> o)).
Proof. destruct o; repeat constructor. apply show_ip_value. Qed.

Local Abbreviation reads_back d c ws :=
  (∃ m, walk d (positionals d) ws = Some m ∧ valid d m = true ∧ command_of (cmd_name d) m = Some c).

Lemma service_reads a s :
  Control.declared (Control.CmdDaemon a) → Control.service a = Some s →
  reads_back daemon_command (Control.CmdDaemon a) [service_name s].
Proof.
  intros (_ & _ & Hno) Hs. rewrite Hs in Hno.
  destruct (Hno ltac:(by eexists)) as (H1 & H2 & H3 & H4 & H5 & H6 & H7 & H8 & H9). clear Hno.
  destruct a as [s' h acc ps key res tun owner mode n]. simpl in *. subst.
  exists (mkMatches [] (Some (service_name s, mkMatches [] None))).
  split; [by destruct s|]. split; [by destruct s; vm_compute|].
  cbn [command_of cmd_name daemon_command]. unfold daemon_args. cbn [subcommand].
  assert (service_of (service_name s) = Some s) as -> by (by destruct s).
  cbn. by rewrite parse_localhost.
Qed.

Lemma daemon_reads a :
  Control.declared (Control.CmdDaemon a) → Control.service a = None →
  Forall (λ t, is_value t = true) (texts (Control.CmdDaemon a)) →
  reads_back daemon_command (Control.CmdDaemon a) (daemon_words show_u16 show_ip show_socket a).
Proof.
  intros (Hps & Hkp & _) Hs Ht. destruct a as [s' h acc ps key res tun owner mode n].
  simpl in Hps, Hkp, Hs, Ht. subst s'. unfold daemon_words. simpl Control.service. cbn match.
  rewrite !Forall_app in Ht. destruct Ht as (Hacc & Hkey & Htun & Howner & Hmode & Hn).
  pose proof (is_value_ports ps Hps) as Hpv. pose proof (is_value_socket res) as Hrv.
  eexists. split; [|split].
  - cbn [Control.host Control.accept Control.ports Control.key_path Control.resolver Control.tun
         Control.socket_owner Control.socket_mode Control.name].
    rewrite (walk_named _ _ "--host" arg_host); [|done..|by repeat constructor; apply show_ip_value].
    rewrite (walk_named _ _ "--accept" arg_accept), (walk_named _ _ "--expose" arg_ports),
      (walk_named _ _ "--key" arg_key_path), (walk_named _ _ "--resolver" arg_resolver),
      (walk_named _ _ "--tun" arg_tun), (walk_named _ _ "--socket-owner" arg_socket_owner),
      (walk_named _ _ "--socket-mode" arg_socket_mode) by done.
    rewrite <- (app_nil_r (with_name "--name" _)).
    rewrite (walk_named _ _ "--name" arg_name) by done. reflexivity.
  - apply valid_leaf; [|done|by rewrite !subcommand_gives|done]. apply forallb_Forall. cbn [args daemon_command].
    repeat (apply Forall_cons; split); try apply Forall_nil_2.
    + apply (arg_ok_one _ _ (show_ip h)); [raws_of|done..|]. simpl. by rewrite parse_show_ip.
    + apply (arg_ok_texts _ _ acc); [raws_of|done..].
    + apply (arg_ok_ports _ _ ps); [raws_of|done..].
    + apply (arg_ok_option _ _ key); [raws_of|done..|]. intros v ->. by destruct v.
    + apply (arg_ok_option _ _ (show_socket <$> res)); [raws_of|done..|].
      destruct res; intros v [= <-]. simpl. by rewrite parse_show_socket.
    + apply (arg_ok_option _ _ tun); [raws_of|done..].
    + apply (arg_ok_option _ _ owner); [raws_of|done..].
    + apply (arg_ok_option _ _ mode); [raws_of|done..].
    + apply (arg_ok_option _ _ n); [raws_of|done..].
  - cbn [command_of cmd_name daemon_command]. unfold daemon_args, get_parsed.
    rewrite !subcommand_gives. cbn [subcommand mbind option_bind].
    rewrite (get_one_given arg_host _ (show_ip h)) by raws_of. cbn [mbind option_bind].
    rewrite parse_show_ip. cbn [mbind option_bind].
    rewrite (get_u16s_plain arg_ports _ ps) by (done || raws_of). cbn [mbind option_bind].
    rewrite (get_one_option arg_resolver _ (show_socket <$> res)) by (done || raws_of).
    assert ((match show_socket <$> res with Some v => Some <$> parse_socket v | None => Some None end)
            = Some res) as -> by (destruct res; simpl; by rewrite ?parse_show_socket).
    cbn [mbind option_bind fmap option_fmap option_map].
    rewrite (get_many_plain arg_accept _ acc) by (done || raws_of).
    rewrite (get_one_option arg_key_path _ key), (get_one_option arg_tun _ tun),
      (get_one_option arg_socket_owner _ owner), (get_one_option arg_socket_mode _ mode),
      (get_one_option arg_name _ n) by (done || raws_of).
    done.
Qed.

Lemma walk_value d a ps v rest :
  is_value v = true → subcommands d = [] →
  walk d (a :: ps) (v :: rest) = gives a [v] <$> walk d ps rest.
Proof. intros Hv Hs. cbn [walk]. unfold subcommand_of. by rewrite Hv, Hs. Qed.

Ltac leaf_valid :=
  apply valid_leaf; [apply forallb_Forall; cbn [args leaf]|done|by rewrite ?subcommand_gives|done];
  repeat (apply Forall_cons; split); try apply Forall_nil_2.

Lemma invite_reads key name ps :
  Forall u16_range ps → Forall (λ t, is_value t = true) (option_list key ++ option_list name) →
  reads_back invite_command (Control.CmdInvite key name ps)
    (option_list key ++ with_name "--as" (option_list name) ++ with_name "--expose" (show_u16 <$> ps)).
Proof.
  intros Hps [Hkey Hname]%Forall_app. pose proof (is_value_ports ps Hps) as Hpv.
  exists (gives arg_key (option_list key) (gives arg_as (option_list name)
    (gives arg_expose (show_u16 <$> ps) (mkMatches [] None)))). split_and!.
  - assert (Hrest : ∀ qs, walk invite_command qs (with_name "--as" (option_list name) ++
        with_name "--expose" (show_u16 <$> ps)) = Some (gives arg_as (option_list name)
        (gives arg_expose (show_u16 <$> ps) (mkMatches [] None)))).
    { intros qs. rewrite (walk_named _ _ "--as" arg_as) by done.
      rewrite <- (app_nil_r (with_name "--expose" _)).
      by rewrite (walk_named _ _ "--expose" arg_expose) by done. }
    destruct key as [key|]; [|apply Hrest]. change (option_list (Some key)) with [key] in *.
    apply (proj1 (Forall_singleton _ _)) in Hkey. cbn [app]. change (positionals invite_command) with [arg_key].
    by rewrite walk_value, Hrest.
  - leaf_valid.
    + apply (arg_ok_option _ _ key); [raws_of|done..].
    + apply (arg_ok_option _ _ name); [raws_of|done..].
    + apply (arg_ok_ports _ _ ps); [raws_of|done..].
  - cbn [command_of cmd_name invite_command leaf].
    rewrite (get_u16s_plain arg_expose _ ps) by (done || raws_of). cbn [mbind option_bind].
    by rewrite (get_one_option arg_key _ key), (get_one_option arg_as _ name) by (done || raws_of).
Qed.

(** A command of one required value and one option. *)
Lemma value_option_walk d a b t v vs :
  subcommands d = [] → positionals d = [a] → option_of d t = Some b → is_value t = false →
  action b ≠ SetTrue → is_value v = true → Forall (λ t, is_value t = true) vs →
  walk d (positionals d) (v :: with_name t vs) = Some (gives a [v] (gives b vs (mkMatches [] None))).
Proof.
  intros Hs -> Ho Ht Hb Hv Hvs. rewrite walk_value by done.
  rewrite <- (app_nil_r (with_name t vs)). by rewrite (walk_named _ _ t b) by done.
Qed.

Lemma accept_reads handle name :
  Forall (λ t, is_value t = true) (handle :: option_list name) →
  reads_back accept_command (Control.CmdAccept handle name)
    (handle :: with_name "--as" (option_list name)).
Proof.
  intros [Hh Hn]%Forall_cons. eexists. split; [by apply (value_option_walk _ arg_handle arg_as)|split].
  - leaf_valid.
    + apply (arg_ok_one _ _ handle); [raws_of|done..].
    + apply (arg_ok_option _ _ name); [raws_of|done..].
  - cbn [command_of cmd_name accept_command leaf].
    rewrite (get_one_given arg_handle _ handle) by raws_of. cbn [mbind option_bind].
    by rewrite (get_one_option arg_as _ name) by (done || raws_of).
Qed.

(** A command of one peer. *)
Lemma peer_reads d c peer :
  d = forget_command ∧ c = Control.CmdForget peer ∨
  d = unproject_command ∧ c = Control.CmdUnproject peer →
  is_value peer = true → reads_back d c [peer].
Proof.
  intros Hd Hp. exists (gives arg_peer [peer] (mkMatches [] None)).
  assert (subcommands d = [] ∧ positionals d = [arg_peer] ∧ args d = [arg_peer] ∧ groups d = [] ∧
          subcommand_required d = false) as (Hs & Hpos & Hargs & Hg & Hr)
    by (by destruct Hd as [[-> _]|[-> _]]).
  split; [by rewrite Hpos, walk_value|split].
  - apply valid_leaf; rewrite ?Hargs, ?Hg; [|done..]. apply forallb_Forall, Forall_singleton.
    apply (arg_ok_one _ _ peer); [raws_of|done..].
  - by destruct Hd as [[-> ->]|[-> ->]].
Qed.

Lemma expose_reads port to all :
  Control.declared (Control.CmdExpose port to all) → Forall (λ t, is_value t = true) to →
  reads_back expose_command (Control.CmdExpose port to all)
    (show_u16 port :: with_name "--to" to ++ (if all then ["--all"] else [])).
Proof.
  intros [Hp Hto] Ht. destruct (show_u16_value port Hp) as [Hpv _].
  exists (gives arg_port [show_u16 port] (gives arg_to_many to
            (gives arg_all (if all then ["true"] else []) (mkMatches [] None)))). split_and!.
  - change (positionals expose_command) with [arg_port]. rewrite walk_value by done.
    rewrite (walk_named _ _ "--to" arg_to_many) by done. by destruct all.
  - apply valid_leaf; [apply forallb_Forall; cbn [args leaf expose_command]| |by rewrite ?subcommand_gives|done].
    + repeat (apply Forall_cons; split); try apply Forall_nil_2.
      * apply (arg_ok_one _ _ (show_u16 port)); [raws_of|done..|]. simpl.
        rewrite parse_show_u16 by done. by apply bool_decide_true.
      * apply (arg_ok_texts _ _ to); [raws_of|done..].
      * unfold arg_ok. cbn [arg_id arg_all flag action required].
        assert (raws "all" (given (gives arg_port [show_u16 port] (gives arg_to_many to
          (gives arg_all (if all then ["true"] else []) (mkMatches [] None))))) =
          if all then ["true"] else []) as -> by raws_of. by destruct all.
    + cbn [groups expose_command leaf forallb]. unfold group_ok. cbn [group_args group_required].
      set (m := gives arg_port _ _).
      assert (Hr1 : raws "to" (given m) = to) by (unfold m; raws_of).
      assert (Hr2 : raws "all" (given m) = if all then ["true"] else []) by (unfold m; raws_of).
      rewrite !filter_cons, filter_nil, Hr1, Hr2.
      assert (Hx : all = true ∧ to = [] ∨ all = false ∧ to ≠ []).
      { destruct all; [left; split; [done|by apply Hto]|right]. split; [done|].
        intros Hnil. by apply Hto in Hnil. }
      destruct Hx as [[-> ->]|[-> Hne]].
      * rewrite decide_False by tauto. by rewrite decide_True.
      * rewrite decide_True by done. by rewrite decide_False by tauto.
  - cbn [command_of cmd_name expose_command leaf].
    rewrite (get_one_given arg_port _ (show_u16 port)) by raws_of. cbn [mbind option_bind].
    rewrite parse_show_u16 by done. cbn [mbind option_bind].
    rewrite (get_many_plain arg_to_many _ to) by (done || raws_of). unfold get_flag.
    assert (raws (arg_id arg_all) (given (gives arg_port [show_u16 port] (gives arg_to_many to
      (gives arg_all (if all then ["true"] else []) (mkMatches [] None))))) =
      if all then ["true"] else []) as -> by raws_of. by destruct all.
Qed.

Lemma unexpose_reads port to :
  u16_range port → Forall (λ t, is_value t = true) (option_list to) →
  reads_back unexpose_command (Control.CmdUnexpose port to)
    (show_u16 port :: with_name "--to" (option_list to)).
Proof.
  intros Hp Ht. destruct (show_u16_value port Hp) as [Hpv _].
  eexists. split; [by apply (value_option_walk _ arg_port arg_to)|split].
  - leaf_valid.
    + apply (arg_ok_one _ _ (show_u16 port)); [raws_of|done..|]. simpl.
      rewrite parse_show_u16 by done. by apply bool_decide_true.
    + apply (arg_ok_option _ _ to); [raws_of|done..].
  - cbn [command_of cmd_name unexpose_command leaf].
    rewrite (get_one_given arg_port _ (show_u16 port)) by raws_of. cbn [mbind option_bind].
    rewrite parse_show_u16 by done. cbn [mbind option_bind].
    by rewrite (get_one_option arg_to _ to) by (done || raws_of).
Qed.

Lemma project_reads peer ip name :
  Forall (λ t, is_value t = true) (peer :: option_list name) →
  reads_back project_command (Control.CmdProject peer ip name)
    (peer :: with_name "--ip" (option_list (show_ip <$> ip)) ++ with_name "--as" (option_list name)).
Proof.
  intros [Hp Hn]%Forall_cons. pose proof (is_value_ip ip) as Hip.
  eexists. split; [|split].
  - change (positionals project_command) with [arg_peer]. rewrite walk_value by done.
    rewrite (walk_named _ _ "--ip" arg_ip) by done. rewrite <- (app_nil_r (with_name "--as" _)).
    rewrite (walk_named _ _ "--as" arg_as) by done. reflexivity.
  - leaf_valid.
    + apply (arg_ok_one _ _ peer); [raws_of|done..].
    + apply (arg_ok_option _ _ (show_ip <$> ip)); [raws_of|done..|].
      destruct ip; intros v [= <-]. simpl. by rewrite parse_show_ip.
    + apply (arg_ok_option _ _ name); [raws_of|done..].
  - cbn [command_of cmd_name project_command leaf]. unfold get_parsed.
    rewrite (get_one_given arg_peer _ peer) by raws_of. cbn [mbind option_bind].
    rewrite (get_one_option arg_ip _ (show_ip <$> ip)) by (done || raws_of).
    assert ((match show_ip <$> ip with Some v => Some <$> parse_ip v | None => Some None end)
            = Some ip) as -> by (destruct ip; simpl; by rewrite ?parse_show_ip).
    cbn [mbind option_bind].
    by rewrite (get_one_option arg_as _ name) by (done || raws_of).
Qed.

End typed_lemmas.

Section command_lemmas.
Context `{!Values} (show_u16 : Z → string) (show_ip : Surface.IpAddr → string).
Context (show_socket : Surface.IpAddr * Z → string) `{!ValuesLaws show_u16 show_ip show_socket}.

(** Every declared command is typed as its subcommand and what that reads back. *)
Lemma command_reads c :
  Control.declared c → Forall (λ t, is_value t = true) (texts c) →
  ∃ d ws m, command_words show_u16 show_ip show_socket c = cmd_name d :: ws ∧
    d ∈ subcommands cli_command ∧ walk d (positionals d) ws = Some m ∧ valid d m = true ∧
    command_of (cmd_name d) m = Some c.
Proof.
  intros Hc Ht.
  assert (Hlist : ∀ d, d ∈ subcommands cli_command →
    subcommands d = [] → args d = [] → groups d = [] → subcommand_required d = false →
    walk d (positionals d) [] = Some (mkMatches [] None) ∧ valid d (mkMatches [] None) = true).
  { intros d _ Hs Ha Hg Hr. split; [done|]. apply valid_leaf; by rewrite ?Ha, ?Hg. }
  destruct c as [a|key name expose|handle name|peer|port to all|port to| | |peer ip name|peer];
    simpl in Ht.
  - exists daemon_command, (daemon_words show_u16 show_ip show_socket a).
    destruct (Control.service a) as [s|] eqn:Hs.
    + destruct (service_reads show_u16 show_ip show_socket a s Hc Hs) as (m & Hm & ? & ?).
      exists m. assert (Hw : daemon_words show_u16 show_ip show_socket a = [service_name s])
        by (unfold daemon_words; by rewrite Hs).
      rewrite <- Hw in Hm. split_and!; [done|set_solver|done..].
    + destruct (daemon_reads show_u16 show_ip show_socket a Hc Hs Ht) as (m & ? & ? & ?).
      exists m. split_and!; [done|set_solver|done..].
  - destruct (invite_reads show_u16 show_ip show_socket key name expose Hc Ht) as (m & ? & ? & ?).
    exists invite_command. do 2 eexists. split_and!; [done|set_solver|done..].
  - destruct (accept_reads handle name Ht) as (m & ? & ? & ?).
    exists accept_command. do 2 eexists. split_and!; [done|set_solver|done..].
  - destruct (peer_reads forget_command (Control.CmdForget peer) peer) as (m & ? & ? & ?);
      [by left|by apply (proj1 (Forall_singleton _ _)) in Ht|].
    exists forget_command. do 2 eexists. split_and!; [done|set_solver|done..].
  - destruct (expose_reads show_u16 show_ip show_socket port to all Hc Ht) as (m & ? & ? & ?).
    exists expose_command. do 2 eexists. split_and!; [done|set_solver|done..].
  - destruct (unexpose_reads show_u16 show_ip show_socket port to Hc Ht) as (m & ? & ? & ?).
    exists unexpose_command. do 2 eexists. split_and!; [done|set_solver|done..].
  - exists list_command, [], (mkMatches [] None).
    destruct (Hlist list_command) as [? ?]; [set_solver|done..|]. split_and!; [done|set_solver|done..].
  - exists key_command, [], (mkMatches [] None).
    destruct (Hlist key_command) as [? ?]; [set_solver|done..|]. split_and!; [done|set_solver|done..].
  - destruct (project_reads show_u16 show_ip show_socket peer ip name Ht) as (m & ? & ? & ?).
    exists project_command. do 2 eexists. split_and!; [done|set_solver|done..].
  - destruct (peer_reads unproject_command (Control.CmdUnproject peer) peer) as (m & ? & ? & ?);
      [by right|by apply (proj1 (Forall_singleton _ _)) in Ht|].
    exists unproject_command. do 2 eexists. split_and!; [done|set_solver|done..].
Qed.

Lemma subcommand_of_name d :
  d ∈ subcommands cli_command →
  is_value (cmd_name d) = true ∧ subcommand_of cli_command (cmd_name d) = Some d.
Proof.
  cbn [subcommands cli_command]. rewrite !elem_of_cons. intros Hd.
  by destruct_or?; [..|by apply elem_of_nil in Hd]; subst d.
Qed.

(** Its words are plain. *)
Lemma command_words_plain c :
  Control.declared c → Forall (λ t, is_value t = true) (texts c) →
  Forall (λ t, plain t = true) (command_words show_u16 show_ip show_socket c).
Proof.
  intros Hc Ht.
  destruct c as [a|key name expose|handle name|peer|port to all|port to| | |peer ip name|peer];
    simpl in Hc, Ht; cbn [command_words]; try (constructor; [done|]); try apply Forall_nil_2.
  - unfold daemon_words. destruct (Control.service a) as [s|]; [by destruct s; repeat constructor|].
    destruct Hc as [Hps _]. rewrite !Forall_app in Ht. destruct Ht as (?&?&?&?&?&?).
    rewrite !Forall_app. split_and!; apply plain_named; try done.
    + repeat constructor. apply show_ip_value.
    + by eapply is_value_ports.
    + by eapply is_value_socket.
  - apply Forall_app in Ht as [? ?]. rewrite !Forall_app.
    split_and!; [by apply plain_values|by apply plain_named|].
    apply plain_named; [done|]. by eapply is_value_ports.
  - apply Forall_cons in Ht as [Hh ?]. constructor; [unfold plain; by rewrite Hh|].
    by apply plain_named.
  - by apply plain_values.
  - constructor; [unfold plain; by rewrite (proj1 (show_u16_value port (proj1 Hc)))|].
    apply Forall_app. split; [by apply plain_named|]. destruct all; by repeat constructor.
  - constructor; [unfold plain; by rewrite (proj1 (show_u16_value port Hc))|]. by apply plain_named.
  - apply Forall_cons in Ht as [Hp ?]. constructor; [unfold plain; by rewrite Hp|].
    apply Forall_app. split; apply plain_named; try done. by eapply is_value_ip.
  - by apply plain_values.
Qed.

End command_lemmas.

(** ** Properties *)
Section cli_properties.
Context `{!Values} (show_u16 : Z → string) (show_ip : Surface.IpAddr → string).
Context (show_socket : Surface.IpAddr * Z → string) `{!ValuesLaws show_u16 show_ip show_socket}.
Context `{!Clap.Clap} `{!ClapLaws}.

(** C38: whatever is typed, a command that comes out of the command line is as
    declared: its ports are [u16], the path of a key is not empty, a service command
    comes without any other argument, and an expose names peers or says all of them, never both and
    never neither.  And the derived code takes all that the parser accepts. *)
Theorem parsed_commands_are_declared (argv : list string) :
  match try_parse_from argv with
  | Some cli => Control.declared (Control.command cli)
  | None => try_get_matches_from cli_command argv = None
  end.
Proof.
  unfold try_parse_from. destruct (try_get_matches_from cli_command argv) as [m|] eqn:Hm; [|done].
  apply accepted_valid in Hm; [|apply cli_supported].
  destruct (from_arg_matches_ok parse_u16_range parse_localhost m Hm) as (cli & Hcli & Hd).
  simpl. by rewrite Hcli.
Qed.

(** C39: a declared command can be typed, when none of its texts looks like an option
    ([typeable]).  The words of such a command (its options in their long form, then
    its subcommand with its values) parse to that very command, on that socket.
    [declared] is what C38 shows of all that parses; an empty [--key] is not. *)
Theorem commands_can_be_typed (cli : Control.Cli) :
  Control.declared (Control.command cli) → typeable cli →
  try_parse_from (words show_u16 show_ip show_socket cli) = Some cli.
Proof.
  intros Hd [Hs Ht]%Forall_cons. destruct cli as [socket c]. simpl in *.
  destruct (command_reads show_u16 show_ip show_socket c Hd Ht) as (d & ws & m & Hw & Hin & Hm & Hv & Hc).
  pose proof (command_words_plain show_u16 show_ip show_socket c Hd Ht) as Hpl.
  destruct (subcommand_of_name d Hin) as [Hn Hsub].
  unfold try_parse_from, words. cbn [Control.socket Control.command].
  rewrite parse_plain.
  2: { apply cli_supported. }
  2: { apply Forall_app. split; [|done]. apply plain_named; [done|]. by constructor. }
  rewrite Hw, (walk_named _ _ "--socket" arg_socket); [|done..|by constructor].
  cbn [walk]. rewrite Hn, Hsub. cbn match. rewrite Hm.
  cbn [fmap option_fmap option_map mbind option_bind].
  assert (valid cli_command (gives arg_socket [socket] (mkMatches [] (Some (cmd_name d, m)))) = true) as ->.
  { cbn [gives foldr give given subcommand valid cli_command args groups].
    change (mkCommand "pai-sho" _ _ _ _ _) with cli_command. by rewrite Hsub, Hv. }
  cbn [mbind option_bind]. unfold from_arg_matches. rewrite subcommand_gives.
  rewrite (get_one_given arg_socket _ socket) by (rewrite raws_gives; cbn; by rewrite ?app_nil_r).
  cbn [mbind option_bind subcommand]. by rewrite Hc.
Qed.

End cli_properties.

(** ** Concrete values

    Ports in decimal; addresses as the number that encodes them, but for the
    default host. *)
Module Decimal.

Definition show_u16 (p : Z) : string := pretty (Z.to_N p).

Definition parse_u16 (s : string) : option Z :=
  match u32_from_str_radix 10 s with
  | Some p => if decide (p < 65536)%Z then Some p else None
  | None => None
  end.

Definition show_code {A} `{Countable A} (x : A) : string := pretty (N.pos (encode x)).

Definition parse_code {A} `{Countable A} (s : string) : option A :=
  match Rfc.natural s with Some n => decode (Z.to_pos n) | None => None end.

Definition show_ip (ip : Surface.IpAddr) : string :=
  if decide (ip = Surface.LOCALHOST) then "127.0.0.1" else show_code ip.

Definition parse_ip (s : string) : option Surface.IpAddr :=
  if decide (s = "127.0.0.1") then Some Surface.LOCALHOST else parse_code s.

#[global] Instance decimal_values : Values := {|
  Clap.parse_u16 := parse_u16;
  Clap.parse_ip := parse_ip;
  Clap.parse_socket := parse_code;
|}.

(** A numeral has digits only. *)
Lemma numeral_no c ds :
  ¬ (48 <= byte_of c < 58)%Z → Forall (λ d, 0 <= d < 10)%Z ds → str_contains c (numeral ds) = false.
Proof.
  intros Hc. induction 1 as [|d ds Hd _ IH]; simpl; [done|]. rewrite decide_False; [done|].
  intros Heq%(f_equal byte_of). rewrite digit_char_byte in Heq; lia.
Qed.

Lemma no_dash_value s : str_contains "-"%char s = false → is_value s = true.
Proof.
  unfold is_value. destruct s as [|c s]; simpl; [done|]. case_decide; [done|].
  by rewrite decide_False.
Qed.

Lemma decimal_facts x :
  (0 < x)%N → ∀ c, ¬ (48 <= byte_of c < 58)%Z → str_contains c (pretty x) = false.
Proof.
  intros Hx c Hc. destruct (pretty_N_numeral x Hx) as (d & ds & (Hd & Hds & _) & ->).
  apply numeral_no; [done|]. constructor; [lia|done].
Qed.

Lemma show_code_facts {A} `{Countable A} (x : A) :
  parse_code (show_code x) = Some x ∧ is_value (show_code x) = true ∧ show_code x ≠ "127.0.0.1".
Proof.
  pose proof (decimal_facts (N.pos (encode x)) ltac:(lia)) as Hno. unfold parse_code, show_code.
  split_and!.
  - destruct (pretty_N_numeral (N.pos (encode x))) as (d & ds & Hd & ->); [lia|].
    rewrite (natural_numeral _ _ _ Hd). simpl. apply decode_encode.
  - apply no_dash_value, Hno. vm_compute. intros []. done.
  - intros Heq. specialize (Hno "."%char). rewrite Heq in Hno. vm_compute in Hno.
    discriminate Hno. intros []. done.
Qed.

Lemma show_u16_facts p :
  u16_range p → parse_u16 (show_u16 p) = Some p ∧
  is_value (show_u16 p) = true ∧ str_contains ","%char (show_u16 p) = false.
Proof.
  intros Hp. unfold u16_range in Hp. unfold parse_u16, show_u16.
  destruct (decide (p = 0%Z)) as [->|Hne]; [by vm_compute|].
  pose proof (decimal_facts (Z.to_N p) ltac:(lia)) as Hno. split; [|split].
  - destruct (pretty_N_numeral (Z.to_N p)) as (d & ds & (Hd & Hds & Hv) & ->); [lia|].
    change (numeral (d :: ds)) with (EmptyString +:+ numeral (d :: ds)).
    rewrite (u32_from_str_radix_numeral 10 EmptyString (d :: ds));
      [|lia|by left|done|constructor; [lia|done]|lia].
    rewrite Hv, Z2N.id by lia. by rewrite decide_True by lia.
  - apply no_dash_value, Hno. vm_compute. intros []. done.
  - apply Hno. vm_compute. intros []. done.
Qed.

#[global] Instance decimal_laws : ValuesLaws show_u16 show_ip show_code.
Proof.
  split; simpl.
  - unfold parse_u16. intros s p. destruct (u32_from_str_radix 10 s) as [q|] eqn:Hq; [|done].
    case_decide; [|done]. intros [= <-].
    apply u32_from_str_radix_Some in Hq as (_ & ds & _ & _ & Hds & _ & -> & _); [|lia].
    unfold u16_range. split; [|done]. apply digits_value_ge; [lia..|].
    eapply Forall_impl; [exact Hds|]. simpl. lia.
  - intros p Hp. by apply show_u16_facts.
  - intros p Hp. by apply show_u16_facts.
  - intros ip. unfold parse_ip, show_ip. destruct (show_code_facts ip) as (Hc & _ & Hne).
    destruct (decide (ip = Surface.LOCALHOST)) as [->|]; [done|]. by rewrite decide_False.
  - intros ip. unfold show_ip. case_decide; [done|]. apply show_code_facts.
  - done.
  - apply show_code_facts.
  - apply show_code_facts.
Qed.

End Decimal.

Section cli_witnesses.
Import Decimal.
#[local] Existing Instance Reference.parser.

(** A daemon that accepts an invitation, exposes two ports and has a name. *)
Definition toy_cli : Control.Cli :=
  Control.mkCli "/tmp/p.sock" (Control.CmdDaemon (Control.mkDaemonArgs None Surface.LOCALHOST
    ["7.ab"] [8080%Z; 22%Z] (Some "/k/id") None None None (Some "660") (Some "desk"))).

Lemma parsed_commands_are_declared_witness :
  match try_parse_from ["pai-sho"; "expose"; "5555"; "--all"] with
  | Some cli => Control.command cli = Control.CmdExpose 5555 [] true ∧
                Control.declared (Control.command cli)
  | None => False
  end.
Proof.
  pose proof (parsed_commands_are_declared show_u16 show_ip show_code
    ["pai-sho"; "expose"; "5555"; "--all"]) as H.
  destruct (try_parse_from _) as [cli|] eqn:Hcli; [|by vm_compute in Hcli].
  split; [|exact H]. vm_compute in Hcli. by injection Hcli as <-.
Defined.

Lemma commands_can_be_typed_witness :
  try_parse_from (words show_u16 show_ip show_code toy_cli) = Some toy_cli ∧
  words show_u16 show_ip show_code toy_cli =
    ["pai-sho"; "--socket"; "/tmp/p.sock"; "daemon"; "--host"; "127.0.0.1"; "--accept"; "7.ab";
     "--expose"; "8080"; "--expose"; "22"; "--key"; "/k/id"; "--socket-mode"; "660"; "--name"; "desk"].
Proof.
  split; [|by vm_compute].
  apply (commands_can_be_typed show_u16 show_ip show_code toy_cli).
  - split; [repeat constructor; unfold u16_range; simpl; lia|]. split; [done|by intros [? [=]]].
  - repeat constructor.
Defined.

End cli_witnesses.
