(* ===== verification/CliTests.v ===== *)
(** * The tests of the command line's declarations ([cli_tests] in
    [src/src/main.rs])

    Each test as a program over [Cli.try_parse_from], under its own name, over
    any parser with [clap]'s laws; all of them pass. *)

From S2P Require Import Prelude RustStr Text Surface Host Control Clap Cli UnitTests.
Import Assert.

Module CliTests.
Import Clap Cli.

Section tests.
#[local] Existing Instance Decimal.decimal_values.
Context `{!Clap}.

Definition parse (args : list string) : option Control.Cli := try_parse_from args.

(** [parse(args).unwrap()] and a match on its command: any other variant is a
    panic, which fails the test. *)
Definition command_is (args : list string) (check : Control.Command → bool) : bool :=
  match parse args with
  | Some cli => check (Control.command cli)
  | None => false
  end.

Definition expose_needs_a_grantee : bool := is_none (parse ["pai-sho"; "expose"; "5555"]).

Definition expose_takes_a_named_peer : bool :=
  command_is ["pai-sho"; "expose"; "5555"; "--to"; "abc"] (λ c,
    match c with
    | Control.CmdExpose port to all =>
        asserts [assert_eq port 5555%Z; assert_eq to ["abc"]; negb all]
    | _ => false
    end).

Definition expose_takes_several_named_peers : bool :=
  command_is ["pai-sho"; "expose"; "5555"; "--to"; "a"; "--to"; "b"] (λ c,
    match c with
    | Control.CmdExpose _ to _ => assert_eq to ["a"; "b"]
    | _ => false
    end).

Definition expose_takes_all : bool :=
  command_is ["pai-sho"; "expose"; "5555"; "--all"] (λ c,
    match c with
    | Control.CmdExpose _ to all => asserts [all; is_empty to]
    | _ => false
    end).

Definition expose_refuses_both_at_once : bool :=
  is_none (parse ["pai-sho"; "expose"; "5555"; "--to"; "a"; "--all"]).

Definition unexpose_needs_no_grantee : bool :=
  command_is ["pai-sho"; "unexpose"; "5555"] (λ c,
    match c with
    | Control.CmdUnexpose port to => asserts [assert_eq port 5555%Z; is_none to]
    | _ => false
    end).

Definition invite_needs_nothing : bool :=
  command_is ["pai-sho"; "invite"] (λ c,
    match c with
    | Control.CmdInvite key name expose => asserts [is_none key; is_none name; is_empty expose]
    | _ => false
    end).

Definition invite_takes_a_key_a_name_and_ports : bool :=
  command_is ["pai-sho"; "invite"; "abc"; "--as"; "rustdev"; "--expose"; "3001,7331"] (λ c,
    match c with
    | Control.CmdInvite key name expose =>
        asserts [assert_eq key (Some "abc"); assert_eq name (Some "rustdev");
                 assert_eq expose [3001; 7331]%Z]
    | _ => false
    end).

Definition accept_needs_a_handle : bool := is_none (parse ["pai-sho"; "accept"]).

Definition accept_takes_a_handle_and_a_name : bool :=
  command_is ["pai-sho"; "accept"; "abc.def"; "--as"; "buildbox"] (λ c,
    match c with
    | Control.CmdAccept handle name =>
        asserts [assert_eq handle "abc.def"; assert_eq name (Some "buildbox")]
    | _ => false
    end).

Definition the_old_names_are_gone : bool :=
  asserts ((λ old, is_none (parse ["pai-sho"; old])) <$>
           ["ticket"; "grant-token"; "pin"; "add-peer"; "remove-peer"; "surfaces"]).

Definition the_daemon_accepts_invitations : bool :=
  command_is ["pai-sho"; "daemon"; "--accept"; "abc.def"; "-e"; "3001"] (λ c,
    match c with
    | Control.CmdDaemon a =>
        asserts [is_none (Control.service a); assert_eq (Control.accept a) ["abc.def"];
                 assert_eq (Control.ports a) [3001%Z]]
    | _ => false
    end).

Definition daemon_service_commands_parse : bool :=
  asserts ((λ '(arg, want),
    command_is ["pai-sho"; "daemon"; arg] (λ c,
      match c with
      | Control.CmdDaemon a => assert_eq (Control.service a) (Some want)
      | _ => false
      end)) <$>
    [("install", Control.Install); ("up", Control.Up); ("down", Control.Down);
     ("remove", Control.Remove); ("status", Control.Status)]).

Definition daemon_service_rejects_run_flags : bool :=
  asserts [is_none (parse ["pai-sho"; "daemon"; "install"; "--tun"; "utun"]);
           is_none (parse ["pai-sho"; "daemon"; "--tun"; "utun"; "install"])].

Lemma parse_reference `{!ClapLaws} prog ts :
  forallb plain ts = true → parse (prog :: ts) = @try_parse_from _ Reference.parser (prog :: ts).
Proof.
  intros Hts. apply forallb_Forall in Hts. unfold parse, try_parse_from.
  by rewrite !parse_plain by (done || apply cli_supported).
Qed.

Theorem cli_tests_pass `{!ClapLaws} :
  asserts [expose_needs_a_grantee; expose_takes_a_named_peer; expose_takes_several_named_peers;
           expose_takes_all; expose_refuses_both_at_once; unexpose_needs_no_grantee;
           invite_needs_nothing; invite_takes_a_key_a_name_and_ports; accept_needs_a_handle;
           accept_takes_a_handle_and_a_name; the_old_names_are_gone;
           the_daemon_accepts_invitations; daemon_service_commands_parse;
           daemon_service_rejects_run_flags] = true.
Proof.
  unfold the_old_names_are_gone, daemon_service_commands_parse, daemon_service_rejects_run_flags,
    the_daemon_accepts_invitations, accept_takes_a_handle_and_a_name, accept_needs_a_handle,
    invite_takes_a_key_a_name_and_ports, invite_needs_nothing, unexpose_needs_no_grantee,
    expose_refuses_both_at_once, expose_takes_all, expose_takes_several_named_peers,
    expose_takes_a_named_peer, expose_needs_a_grantee, command_is.
  cbn [fmap list_fmap]. cbn beta iota. rewrite !parse_reference by done. by vm_compute.
Qed.

End tests.
End CliTests.
